(* ===== verification/_CoqProject ===== *)
-Q . S2P
Prelude.v
Decimal.v
RefDecimal.v
GoStrings.v
Utf8.v
Logger.v
Config.v
Otel.v
Metrics.v
Migrations.v
Errors.v
Json.v
Store.v
FeeIndex.v
Lru.v
Spot.v
Pricer.v
AuditTrail.v
Fx.v
Feed.v
Ws.v
Handshake.v
Stream.v
Locks.v
RedisLock.v
Claim.v
Server.v
Tracing.v
Http.v
Lifecycle.v
Preserve.v
QuoteSpec.v
Service.v
Seeds.v
Typing.v
Process.v
Concurrent.v
Interleaved.v
Sequential.v
Progress.v
