(* ===== verification/Prelude.v ===== *)
(** * Pricing / Quote service: a verification library (root file)

    The Go program under src/ quotes crypto on-ramp rates.  A client asks for a
    quote; the service looks up the spot rate of the pair, adds the spread and
    the fee of the matching schedule, stores the quote and locks its rate for
    about thirty seconds; an orchestrator later claims the quote, which must
    succeed at most once, before the expiry and only if the market has not
    moved too far; a client may refresh a quote, and a sweep expires what
    nobody claimed.  This library models the Go packages under src/internal and
    the two commands under src/cmd file by file and proves what those parts
    promise to each other, to the client and to the operator.

    ** The parts

    Shared ground.
    - Prelude: Go outcomes (a value or a panic) and results (a value or an
      error), 64-bit integers, instants and durations in nanoseconds with the
      saturating subtraction of package time, scans, the tactic [zbool].
    - Decimal: the operations the code uses of shopspring/decimal, as a class
      [DecimalOps], and their documented laws over the rationals, as a class
      [DecimalLaws]: exact sums and products, division at sixteen digits rounded
      half away from zero, panic on a zero divisor and on a product or quotient
      whose exponent leaves int32.  The package is not part of the repository,
      so every theorem on prices is proved for any implementation with these
      laws.
    - RefDecimal: such an implementation (a coefficient and an exponent), which
      discharges the laws and on which all concrete inputs are evaluated.
    - GoStrings, Utf8: ranging over a string by runes, UTF-8 encoding, TrimSpace,
      ToLower, ToUpper (with the Unicode table of upper-case letters), Atoi,
      prefixes and cuts.

    Components, with the file they model.
    - Errors (errors.go): application errors and request validation.
    - Json (the json.Unmarshal calls of server.go and claim.go): what decoding
      assigns to each request struct, from a parsed value.
    - Store (store.go, selectRateSource of feed.go): quotes, fee schedules,
      rate sources.  Rows are copied in and out, as the code does, so a row the
      caller holds never aliases the stored one.
    - Locks (LockBackend and LockStore of store.go): the lock interface as a
      class of operations [LockBackend] and a class of laws [LockLaws], and the
      in-memory implementation with its entries, timers and callbacks in flight.
    - RedisLock (redis_lock.go, claimLuaScript): the implementation on a server
      given by a class, with replies that can be lost.
    - FeeIndex (fee_index.go), Lru (lruCache of spot.go), Spot (the rest of
      spot.go), Pricer (pricer.go), Fx (fx.go): pricing, from the cache to the
      cross-currency quote.
    - Claim (claim.go): ClaimService on the shared state (store, locks, spot
      service, audit log); AuditTrail (quotes.go): the log, its bounded queue and its
      worker as a step relation, where the unsynchronised [dropped++] is a read
      and a write.
    - Feed (feed.go), Ws (ws.go), Handshake (hijackAndUpgrade of ws.go): the
      in-process broker and the feed consumer; frames, hub and commands of the
      WebSocket stream; its handshake, with SHA-1 and base64 executed.  Stream:
      the path from a published message through the spot service to the hub,
      publications and turns of the consumer in any order ([run_events]).
    - Config (config.go), Logger (logger.go), Metrics (metrics.go), Otel
      (otel/otel.go), Migrations (migrations/): environment, log lines, the
      collectors and request labels, the telemetry set-up, schema versions.
    - Server (server.go): construction, every handler as a function from the
      server and the request to the server and the response, and the bodies of
      the background jobs.  A handler may panic in a decimal operation, which
      net/http recovers: the functions [*_left] give the state it leaves.
    - Tracing (tracing.go): spans in a heap, the two tracers, and the handlers
      of Server with the spans the code opens around them.
    - Http (server.go, metrics.go, ws.go): what is served: the mux with its path
      cleaning and redirects, the request-id and the metrics middleware, the
      WebSocket route, composed as [RunWithConfigCtx] and [run] compose them.
    - Process (cmd/pricing-quote, cmd/migrate, healthcheck.go,
      RunWithConfigCtx): the commands as the actions they take and their exit
      code, from what [flag.Parse] finds; serving, the two background loops, the
      shutdown and the requests that outlive it as a transition system,
      [run_step].

    Behaviour of the whole.
    - Lifecycle: the handlers as one transition system, [srv_step], with the
      requests that panic and with locks that vanish by themselves, and the
      theorems on the life of a quote.  Preserve: an invariant of the
      operations behind the handlers (class [Kept]) is one of [srv_step].
    - QuoteSpec: the abstract quote table and its log, refined by [srv_step].
      Service: the served application, [app_step], inherits the refinement.
      Typing, Seeds: two invariants given through [Kept], on the fields of the
      rows and on where their prices come from.
    - Concurrent: the requests cut at their accesses to the rows, the locks and
      the audit log (each a critical section of the code) and to the clock, run
      in any interleaving, [cstep], together with a lock backend that may drop
      keys at any time.  A spot lookup or a pricing is one step: it touches none
      of the three, and no theorem there depends on its result.  Interleaved:
      the rate lock in that model.  Sequential: a check of the model itself, that
      a thread which runs alone is the handler.  Progress: all threads end.

    Operations keep the names of the Go methods; a local part of a method that
    has a definition of its own is named after what it does.  Readings of the
    clock, fresh identifiers and the iteration order of maps are arguments, in
    program order, so a theorem quantifies over all of them.

    ** What the theorems show

    - The life of a quote (Lifecycle, Claim, Concurrent, Interleaved): at most
      one claim of a quote succeeds in any interleaving; rows stay, their terms
      never change and a claim that was answered stays on record; a successful
      claim found the quote open, unexpired, locked and within tolerance; each
      handler does exactly what its contract says on every branch.  Two theorems
      show the limits: a claim can be overwritten by a concurrent sweep, and a
      slippage rejection is final.
    - The two models agree (Sequential) and every request ends, panics apart,
      whatever the schedule (Progress).
    - The service (QuoteSpec, Service, Typing, Seeds): HTTP requests and jobs
      refine the abstract table, whose record the audit log is; rows are well
      typed; every price comes from the hard-coded seeds; answers carry the
      request id; each request is counted once; no client gets a WebSocket.
    - The process (Process, Otel, Tracing, Handshake, Http): it serves only after
      its guards passed, closes its lock backend once and lets its loops end; the
      migrate command exits with 0 only when it ran a migration step; the
      telemetry set-up installs both providers or none; tracing changes no
      answer and ends every span; the handshake answers the digest of the key;
      a redirect is never redirected again.
    - Locks (Locks, RedisLock): the in-memory store refines a map with expiry
      instants, evicts what is due, a Redis claim takes a key at most once
      whatever the network does, and both backends satisfy the interface laws the
      claim is proved against.
    - Prices (Pricer, Fx, FeeIndex): exact results of BUY and SELL with every
      rounding, fairness, no profit from buying and selling back, exactly which
      inputs panic, the index as a scan.
    - Spot rates (Spot, Lru, Feed): the cache as a recency list, no rate is
      silently stale, what a stale lookup does, breakers, updates are visible
      and (Stream) those taken from the queue of 64 reach every subscriber that
      asked for the pair.
    - Events (AuditTrail): every event is accounted for, the counter of drops is
      exact unless increments overlap, and the shutdown ends.
    - Texts (Errors, Logger, Config, Ws, Store): validation, escaping, masking,
      framing, listing.

    ** Bounds and fuel

    The LRU capacity is that of the code (4096 when not positive), the audit
    queue is 256 deep unless a size is given, a feed channel holds 64 messages.
    The loop of [itoa] is run on the twenty slots of its buffer, and
    [itoa_roundtrip] proves that they are enough for every integer.  The walk of
    [errors.Is] takes fuel, and the theorem about it says that no fuel is
    enough.  The read loop of a WebSocket connection has the length of its
    input as fuel: every frame takes at least two bytes ([read_loop_fuel]).
    SHA-1 runs on the number of blocks of the padded message
    ([sha1_pad_blocks]).  [fmtFrac] runs on the number of decimals of the
    unit of time.  The only other fuelled loop strips zeros in the reference
    decimal, bounded by the number of decimals.

    ** Not modelled

    Outside are the network (listening, TLS, reading and writing sockets; a read
    deadline is an end of the input), how [flag.Parse] reads the arguments, the ticker's period and
    library code: the otelhttp wrapper, the registry behind promhttp, the
    OpenTelemetry SDK, the Postgres and Redis clients.  The mux is the part of
    http.ServeMux that patterns without methods, hosts and wildcards use; a
    path is the decoded one, and [OPTIONS *] is left out.  JSON parsing and
    printing, UUID parsing, time formatting, float parsing, HTTP and Redis
    transport are parameters.  The interleaved model has critical sections as
    its steps: the counter [dropped], which no lock protects, is cut into its
    accesses in AuditTrail only, and the end of a span is atomic.  Decimal
    exponents are bounded by int32 only, as in the code; that an operation on
    very large ones would exhaust the memory is not modelled. *)

From Stdlib Require Export Ascii ZArith QArith Qround Qabs Qpower Lia Lqa.
From stdpp Require Export base gmap strings list sorting option.

#[export] Set Default Goal Selector "!".
#[export] Set Warnings "-clear-no-such-hyp".

(** ** Go outcomes and results

    A Go function may panic; a fallible Go function returns a value and an
    error.  [outcome] is the first effect, [result] the second. *)

Inductive outcome (A : Type) : Type :=
  | Ret (a : A)
  | Panic (why : string).
Arguments Ret {A} a.
Arguments Panic {A} why.

Inductive result (A E : Type) : Type :=
  | Ok (a : A)
  | Err (e : E).
Arguments Ok {A E} a.
Arguments Err {A E} e.

#[export] Instance outcome_ret : MRet outcome := @Ret.
#[export] Instance outcome_bind : MBind outcome := fun A B f m =>
  match m with
  | Ret a => f a
  | Panic w => Panic w
  end.

Lemma outcome_bind_ret {A B} (m : outcome A) (f : A -> outcome B) (b : B) :
  m ≫= f = Ret b <-> exists a, m = Ret a /\ f a = Ret b.
Proof.
  destruct m as [a | w]; simpl; split.
  - intros H. by exists a.
  - intros (a' & [= ->] & H). exact H.
  - discriminate.
  - intros (a' & H & _). discriminate.
Qed.

Lemma outcome_bind_panic {A B} (m : outcome A) (f : A -> outcome B) why :
  m ≫= f = Panic why -> m = Panic why \/ exists a, m = Ret a /\ f a = Panic why.
Proof. destruct m as [a | w]; simpl; [eauto | intros [= ->]; by left]. Qed.

Lemma outcome_bind_assoc {A B C} (m : outcome A) (f : A -> outcome B) (g : B -> outcome C) :
  (m ≫= f) ≫= g = m ≫= (fun a => f a ≫= g).
Proof. by destruct m. Qed.

(** ** Machine integers

    Go's [int], [int64] and [time.Duration] are 64-bit two's complement. *)

Definition min_int64 : Z := - 2 ^ 63.
Definition max_int64 : Z := 2 ^ 63 - 1.

Definition wrap64 (z : Z) : Z := (z + 2 ^ 63) mod 2 ^ 64 - 2 ^ 63.

Definition in_int64 (z : Z) : Prop := (min_int64 <= z <= max_int64)%Z.

#[export] Instance in_int64_dec z : Decision (in_int64 z).
Proof. unfold in_int64. apply _. Defined.

Lemma wrap64_id z : in_int64 z -> wrap64 z = z.
Proof.
  unfold in_int64, wrap64, min_int64, max_int64. intros H.
  rewrite Z.mod_small by lia. lia.
Qed.

Lemma wrap64_range z : in_int64 (wrap64 z).
Proof.
  unfold in_int64, wrap64, min_int64, max_int64.
  pose proof (Z.mod_pos_bound (z + 2 ^ 63) (2 ^ 64) ltac:(lia)). lia.
Qed.

(** ** Time

    [time.Time] values are nanoseconds on an unbounded axis, [time.Duration]
    an [int64] of nanoseconds. *)

Abbreviation time := Z (only parsing).
Abbreviation duration := Z (only parsing).

Definition Nanosecond : duration := 1.
Definition Millisecond : duration := 1000000.
Definition Second : duration := 1000000000.

(** [Time.Sub] saturates at the bounds of [Duration]. *)
Definition time_Sub (t u : time) : duration :=
  Z.max min_int64 (Z.min max_int64 (t - u)).

(** [time.Since(t)] read at the instant [now]. *)
Definition time_Since (now t : time) : duration := time_Sub now t.

Definition time_Before (t u : time) : bool := (t <? u)%Z.
Definition time_After (t u : time) : bool := (u <? t)%Z.
Definition time_Add (t : time) (d : duration) : time := (t + d)%Z.

Lemma time_Sub_exact t u : in_int64 (t - u) -> time_Sub t u = (t - u)%Z.
Proof. unfold in_int64, time_Sub. lia. Qed.

(** ** Automation *)

Create HintDb pq discriminated.
#[export] Hint Resolve wrap64_range : pq.

(** Case analysis on the scrutinee of every [match]/[if] of the goal and the
    hypotheses, closing contradictory branches. *)
Ltac go_cases := repeat (case_match; simplify_eq/=); try done.

(** Boolean comparisons on [Z] to propositions, everywhere. *)
Ltac zbool :=
  repeat match goal with
  | H : (_ <? _)%Z = true |- _ => apply Z.ltb_lt in H
  | H : (_ <? _)%Z = false |- _ => apply Z.ltb_ge in H
  | H : (_ <=? _)%Z = true |- _ => apply Z.leb_le in H
  | H : (_ <=? _)%Z = false |- _ => apply Z.leb_gt in H
  | H : (_ =? _)%Z = true |- _ => apply Z.eqb_eq in H
  | H : (_ =? _)%Z = false |- _ => apply Z.eqb_neq in H
  | H : _ && _ = true |- _ => apply andb_true_iff in H as [? ?]
  | H : negb _ = true |- _ => apply negb_true_iff in H
  | H : negb _ = false |- _ => apply negb_false_iff in H
  end.

(** Unfold the time comparisons and go to [lia]. *)
Ltac time_lia :=
  unfold time_Before, time_After, time_Add, time_Since, time_Sub in *; zbool; lia.

(** ** Lists *)

(** The first element that satisfies a test: the shape of every
    [for ... { if ... { return x } }] loop of the program. *)
Fixpoint find_first {A} (p : A -> bool) (l : list A) : option A :=
  match l with
  | [] => None
  | x :: l' => if p x then Some x else find_first p l'
  end.

Lemma find_first_Some {A} (p : A -> bool) (l : list A) x :
  find_first p l = Some x <->
  exists l1 l2, l = l1 ++ x :: l2 /\ p x = true /\ Forall (fun y => p y = false) l1.
Proof.
  induction l as [| y l IH]; simpl.
  - split; [done |]. intros ([| ??] & l2 & H & _); discriminate.
  - destruct (p y) eqn:Hy.
    + split.
      * intros [= ->]. exists [], l. by repeat constructor.
      * intros ([| z l1] & l2 & Heq & Hx & Hall); simplify_eq/=; [done |].
        apply Forall_cons_1 in Hall as [? _]. congruence.
    + rewrite IH. split.
      * intros (l1 & l2 & -> & Hx & Hall). exists (y :: l1), l2. by repeat constructor.
      * intros ([| z l1] & l2 & Heq & Hx & Hall); simplify_eq/=; [congruence |].
        exists l1, l2. apply Forall_cons_1 in Hall as [? ?]. auto.
Qed.

Lemma find_first_None {A} (p : A -> bool) (l : list A) :
  find_first p l = None <-> Forall (fun y => p y = false) l.
Proof.
  induction l as [| y l IH]; simpl; [by split |].
  rewrite Forall_cons_iff. destruct (p y); [by split; [| intros [? _]] |].
  rewrite IH. by split; [| intros [_ ?]].
Qed.

Lemma find_first_filter {A} (p q : A -> bool) (l : list A) :
  find_first p (List.filter q l) = find_first (fun x => q x && p x) l.
Proof.
  induction l as [| y l IH]; simpl; [done |].
  destruct (q y); simpl; [by rewrite IH | done].
Qed.

Lemma find_first_ext {A} (p q : A -> bool) (l : list A) :
  (forall x, p x = q x) -> find_first p l = find_first q l.
Proof. intros H. induction l as [| y l IH]; simpl; [done | by rewrite H, IH]. Qed.

(** Two sorted permutations of each other agree when the order only
    identifies equal elements {e of the list}. *)
Lemma StronglySorted_unique_on {A} (R : relation A) (l1 l2 : list A) :
  (forall x y, x ∈ l1 -> y ∈ l1 -> R x y -> R y x -> x = y) ->
  StronglySorted R l1 -> StronglySorted R l2 -> l1 ≡ₚ l2 -> l1 = l2.
Proof.
  intros Hanti Hl1. revert l2 Hanti.
  induction Hl1 as [| x1 l1 Hs1 IH Hf1]; intros l2 Hanti Hl2 HP.
  { by apply Permutation_nil_l in HP. }
  destruct Hl2 as [| x2 l2 Hs2 Hf2].
  { by apply Permutation_nil_r in HP. }
  assert (x1 = x2) as ->.
  { assert (x2 ∈ x1 :: l1) as Hin2 by (rewrite HP; left).
    assert (x1 ∈ x2 :: l2) as Hin1 by (rewrite <- HP; left).
    rewrite list.Forall_forall in Hf1, Hf2.
    apply elem_of_cons in Hin2 as [-> | Hin2]; [done |].
    apply elem_of_cons in Hin1 as [-> | Hin1]; [done |].
    apply Hanti; [by left | by right | auto | auto]. }
  f_equal. apply IH; [| done | by eapply Permutation_cons_inv].
  intros x y Hx Hy. apply Hanti; by right.
Qed.

Lemma filter_perm {A} (f : A -> bool) (l1 l2 : list A) :
  l1 ≡ₚ l2 -> List.filter f l1 ≡ₚ List.filter f l2.
Proof.
  induction 1 as [| x l1 l2 _ IH | x y l | l1 l2 l3 _ IH1 _ IH2]; simpl.
  - done.
  - destruct (f x); [by constructor | done].
  - destruct (f x), (f y); [constructor | done | done | done].
  - by transitivity (List.filter f l2).
Qed.
