(* ===== verification/Decimal.v ===== *)
(** * Decimal: the interface of github.com/shopspring/decimal

    The decimal package is a third-party dependency that is not part of the
    repository, so it is a parameter of the development: [DecimalOps] lists
    the operations the service calls, [DecimalLaws] the documented behaviour
    it relies on (version 1.4.0), stated through the exact rational value
    [val] of a decimal and its exponent [dec_exp], an int32: a decimal is a
    coefficient times ten to that exponent.  Division rounds half away from
    zero at [DivisionPrecision] = 16 digits and panics on a zero divisor; a
    product or a quotient whose exponent leaves int32 panics; [Round] rounds
    half away from zero.

    The first part of the file is the rational arithmetic of that rounding;
    the second the interface and the facts the clients use; the numeric
    equality of decimals is a setoid and every operation is [Proper] for it. *)

From S2P Require Import Prelude.

Declare Scope pq_scope.
Delimit Scope pq_scope with pq.

(** ** Rounding a rational at a number of decimal places *)

Definition pow10 (p : nat) : Z := 10 ^ Z.of_nat p.

Lemma pow10_pos p : (0 < pow10 p)%Z.
Proof. unfold pow10. lia. Qed.
#[export] Hint Resolve pow10_pos : pq.

Lemma pow10_add p k : pow10 (p + k) = (pow10 p * pow10 k)%Z.
Proof. unfold pow10. rewrite Nat2Z.inj_add, Z.pow_add_r by lia. done. Qed.

Definition half_away (q : Q) : Z :=
  if Qle_bool 0 q then Qfloor (q + (1 # 2)) else - Qfloor (- q + (1 # 2)).

Definition qround (p : nat) (q : Q) : Q :=
  inject_Z (half_away (q * inject_Z (pow10 p))) / inject_Z (pow10 p).

Section rounding.
Local Open Scope Q_scope.

#[export] Instance half_away_proper : Proper (Qeq ==> eq) half_away.
Proof.
  intros q1 q2 H. unfold half_away.
  rewrite (Qleb_comp 0 0 ltac:(reflexivity) q1 q2 H).
  destruct (Qle_bool 0 q2); [| f_equal]; apply Qfloor_comp; rewrite H; reflexivity.
Qed.

#[export] Instance qround_proper p : Proper (Qeq ==> Qeq) (qround p).
Proof. intros q1 q2 H. unfold qround. rewrite H. reflexivity. Qed.

Lemma inject_pow10_pos p : 0 < inject_Z (pow10 p).
Proof. change 0 with (inject_Z 0). rewrite <- Zlt_Qlt. apply pow10_pos. Qed.

Lemma inject_pow10_nz p : ~ inject_Z (pow10 p) == 0.
Proof. pose proof (inject_pow10_pos p). lra. Qed.

Lemma half_away_bounds q : q - (1 # 2) <= inject_Z (half_away q) <= q + (1 # 2).
Proof.
  unfold half_away. destruct (Qle_bool 0 q).
  - pose proof (Qfloor_le (q + (1 # 2))). pose proof (Qlt_floor (q + (1 # 2))) as H1.
    rewrite inject_Z_plus in H1. change (inject_Z 1) with 1 in H1. lra.
  - pose proof (Qfloor_le (- q + (1 # 2))). pose proof (Qlt_floor (- q + (1 # 2))) as H1.
    rewrite inject_Z_plus in H1. change (inject_Z 1) with 1 in H1. rewrite inject_Z_opp. lra.
Qed.

Lemma half_away_Z z : half_away (inject_Z z) = z.
Proof.
  pose proof (half_away_bounds (inject_Z z)) as [H1 H2].
  assert (inject_Z (half_away (inject_Z z)) - inject_Z z < 1) as H3 by lra.
  assert (inject_Z z - inject_Z (half_away (inject_Z z)) < 1) as H4 by lra.
  unfold Qminus in H3, H4. rewrite <- inject_Z_opp, <- inject_Z_plus in H3, H4.
  change 1 with (inject_Z 1) in H3, H4. rewrite <- Zlt_Qlt in H3, H4. lia.
Qed.

Lemma half_away_mono q1 q2 : q1 <= q2 -> (half_away q1 <= half_away q2)%Z.
Proof.
  intros H. unfold half_away.
  destruct (Qle_bool 0 q1) eqn:H1, (Qle_bool 0 q2) eqn:H2;
    rewrite ?Qle_bool_iff, <- ?not_true_iff_false, ?Qle_bool_iff in *.
  - apply Qfloor_resp_le. lra.
  - lra.
  - assert (0 <= Qfloor (- q1 + (1 # 2)))%Z.
    { rewrite <- (Qfloor_Z 0). apply Qfloor_resp_le. change (inject_Z 0) with 0. lra. }
    assert (0 <= Qfloor (q2 + (1 # 2)))%Z.
    { rewrite <- (Qfloor_Z 0) at 1. apply Qfloor_resp_le. change (inject_Z 0) with 0. lra. }
    lia.
  - assert (Qfloor (- q2 + (1 # 2)) <= Qfloor (- q1 + (1 # 2)))%Z; [| lia].
    apply Qfloor_resp_le. lra.
Qed.

(** The error of rounding at [p] places is at most half a unit of that place. *)
Lemma qround_error p q : Qabs (qround p q - q) <= / (2 * inject_Z (pow10 p)).
Proof.
  pose proof (inject_pow10_pos p) as Hp. pose proof (half_away_bounds (q * inject_Z (pow10 p))) as [H1 H2].
  unfold qround. set (P := inject_Z (pow10 p)) in *. set (h := inject_Z (half_away (q * P))) in *.
  assert (Heq : h / P - q == (h - q * P) / P) by (field; lra).
  assert (Hb : / (2 * P) == (1 # 2) / P) by (field; lra).
  rewrite Heq, Hb. apply Qabs_case; intros _.
  - apply Qmult_le_compat_r; [lra | apply Qlt_le_weak, Qinv_lt_0_compat; exact Hp].
  - assert (- ((h - q * P) / P) == (q * P - h) / P) as -> by (field; lra).
    apply Qmult_le_compat_r; [lra | apply Qlt_le_weak, Qinv_lt_0_compat; exact Hp].
Qed.

(** Half a unit of the last place kept. *)
Definition half_ulp (p : nat) : Q := / (2 * inject_Z (pow10 p)).

Lemma half_ulp_pos p : 0 < half_ulp p.
Proof. unfold half_ulp. apply Qinv_lt_0_compat. pose proof (inject_pow10_pos p). lra. Qed.

Lemma qround_bounds p q : q - half_ulp p <= qround p q <= q + half_ulp p.
Proof.
  pose proof (qround_error p q) as He. apply Qabs_Qle_condition in He. fold (half_ulp p) in He. lra.
Qed.

(** A number with at most [p] decimal places is unchanged. *)
Lemma qround_exact p z : qround p (inject_Z z / inject_Z (pow10 p)) == inject_Z z / inject_Z (pow10 p).
Proof.
  unfold qround. pose proof (inject_pow10_nz p).
  assert (inject_Z z / inject_Z (pow10 p) * inject_Z (pow10 p) == inject_Z z) as Heq by (field; done).
  rewrite Heq, half_away_Z. reflexivity.
Qed.

(** ... also when it has fewer places. *)
Lemma qround_exact_le p k z :
  (k <= p)%nat -> qround p (inject_Z z / inject_Z (pow10 k)) == inject_Z z / inject_Z (pow10 k).
Proof.
  intros Hk. pose proof (inject_pow10_nz p) as Hp. pose proof (inject_pow10_nz k) as Hk0.
  assert (inject_Z z / inject_Z (pow10 k)
          == inject_Z (z * pow10 (p - k)) / inject_Z (pow10 p)) as Heq.
  { replace (pow10 p) with (pow10 (k + (p - k))) by (f_equal; lia).
    rewrite pow10_add, !inject_Z_mult. pose proof (inject_pow10_nz (p - k)). field. split; done. }
  rewrite Heq. apply qround_exact.
Qed.

Lemma qround_Z p z : qround p (inject_Z z) == inject_Z z.
Proof.
  assert (inject_Z z == inject_Z z / inject_Z (pow10 0)) as Heq
    by (change (inject_Z (pow10 0)) with 1; field).
  rewrite Heq at 1. rewrite (qround_exact_le p 0) by lia. symmetry. exact Heq.
Qed.

Lemma qround_mono p q1 q2 : q1 <= q2 -> qround p q1 <= qround p q2.
Proof.
  intros H. unfold qround. pose proof (inject_pow10_pos p) as Hp.
  apply Qmult_le_compat_r; [| apply Qlt_le_weak, Qinv_lt_0_compat; exact Hp].
  rewrite <- Zle_Qle. apply half_away_mono. apply Qmult_le_compat_r; [done | lra].
Qed.

Lemma qround_0 p : qround p 0 == 0.
Proof. change 0 with (inject_Z 0) at 1. apply qround_Z. Qed.

Lemma qround_nonneg p q : 0 <= q -> 0 <= qround p q.
Proof. intros H. rewrite <- (qround_0 p). by apply qround_mono. Qed.

Lemma qround_idemp p q : qround p (qround p q) == qround p q.
Proof. unfold qround at 2 3. apply qround_exact. Qed.

(** Scaling by a power of ten, rounding to an integer and scaling back. *)
Lemma qround_scale p q :
  qround 0 (q * inject_Z (pow10 p)) / inject_Z (pow10 p) == qround p q.
Proof.
  unfold qround. change (inject_Z (pow10 0)) with 1. pose proof (inject_pow10_nz p).
  rewrite Qmult_1_r. field; done.
Qed.

End rounding.

(** ** The interface *)

Class DecimalOps (D : Type) := {
  dec_zero : D;                      (* decimal.Zero *)
  dec_of_int : Z -> D;               (* decimal.NewFromInt *)
  dec_of_string : string -> option D;  (* decimal.NewFromString, None on error *)
  dec_to_string : D -> string;       (* Decimal.String *)
  dec_exp : D -> Z;                  (* Decimal.Exponent, an int32 *)
  dec_add : D -> D -> D;
  dec_sub : D -> D -> D;
  dec_mul : D -> D -> outcome D;     (* panics when the exponent overflows *)
  dec_div : D -> D -> outcome D;     (* the same, and on division by zero *)
  dec_neg : D -> D;
  dec_pow : D -> D -> D;
  dec_round : D -> nat -> D;
  dec_lt : D -> D -> bool;           (* LessThan *)
  dec_le : D -> D -> bool;           (* LessThanOrEqual *)
  dec_gt : D -> D -> bool;           (* GreaterThan *)
  dec_int_part : D -> Z;             (* IntPart, an int64 *)
}.

(** [DivisionPrecision] of the package. *)
Definition division_precision : nat := 16.

(** The exponents a product and a quotient would have to be computed with,
    when they are not an int32. *)
Definition in_int32 (z : Z) : bool := (- 2147483648 <=? z)%Z && (z <=? 2147483647)%Z.

Definition mul_overflows {D} {ops : DecimalOps D} (a b : D) : bool :=
  negb (in_int32 (dec_exp a + dec_exp b)).

Definition div_overflows {D} {ops : DecimalOps D} (a b : D) : bool :=
  negb (in_int32 (dec_exp a - dec_exp b + Z.of_nat division_precision)).

(** Truncation of a rational toward zero. *)
Definition Qtrunc (q : Q) : Z := if Qle_bool 0 q then Qfloor q else - Qfloor (- q).

Class DecimalLaws (D : Type) {ops : DecimalOps D} := {
  val : D -> Q;
  val_zero : (val dec_zero == 0)%Q;
  val_of_int z : (val (dec_of_int z) == inject_Z z)%Q;
  val_add a b : (val (dec_add a b) == val a + val b)%Q;
  val_sub a b : (val (dec_sub a b) == val a - val b)%Q;
  val_neg a : (val (dec_neg a) == - val a)%Q;
  val_round a : (val (dec_round a 0) == qround 0 (val a))%Q;
  exp_range a : in_int32 (dec_exp a) = true;
  exp_zero : (0 <= dec_exp dec_zero <= 1)%Z;
  exp_of_int z : dec_exp (dec_of_int z) = 0%Z;
  exp_add a b : dec_exp (dec_add a b) = Z.min (dec_exp a) (dec_exp b);
  exp_sub a b : dec_exp (dec_sub a b) = Z.min (dec_exp a) (dec_exp b);
  exp_round a : dec_exp (dec_round a 0) = 0%Z;
  mul_panics a b : mul_overflows a b = true -> exists why, dec_mul a b = Panic why;
  mul_ret a b : mul_overflows a b = false ->
    exists q, dec_mul a b = Ret q /\ (val q == val a * val b)%Q /\ dec_exp q = (dec_exp a + dec_exp b)%Z;
  div_zero a b : (val b == 0)%Q -> exists why, dec_div a b = Panic why;
  div_panics a b : div_overflows a b = true -> exists why, dec_div a b = Panic why;
  div_ret a b : ~ (val b == 0)%Q -> div_overflows a b = false ->
    exists q, dec_div a b = Ret q /\ (val q == qround division_precision (val a / val b))%Q /\
              dec_exp q = (- Z.of_nat division_precision)%Z;
  pow_int z n : (0 < n)%Z ->
    (val (dec_pow (dec_of_int z) (dec_of_int n)) == inject_Z (z ^ n))%Q /\
    dec_exp (dec_pow (dec_of_int z) (dec_of_int n)) = 0%Z;
  lt_val a b : dec_lt a b = true <-> (val a < val b)%Q;
  le_val a b : dec_le a b = true <-> (val a <= val b)%Q;
  gt_val a b : dec_gt a b = true <-> (val b < val a)%Q;
  int_part_val a : in_int64 (Qtrunc (val a)) -> dec_int_part a = Qtrunc (val a);
}.

Notation "0" := dec_zero : pq_scope.
Infix "+" := dec_add : pq_scope.
Infix "-" := dec_sub : pq_scope.
Infix "*" := dec_mul : pq_scope.
Infix "<?" := dec_lt : pq_scope.
Infix "<=?" := dec_le : pq_scope.
Infix ">?" := dec_gt (at level 70) : pq_scope.

(** ** Numeric equality

    Two decimals with different exponents can be numerically equal; the
    clients reason modulo this equality. *)

Section laws.
Context {D : Type} {ops : DecimalOps D} {laws : DecimalLaws D}.
Implicit Types a b c : D.

Definition dec_eq (a b : D) : Prop := (val a == val b)%Q.

#[export] Instance dec_equiv : Equiv D := dec_eq.

#[export] Instance dec_eq_equivalence : Equivalence (equiv : relation D).
Proof.
  split; unfold equiv, dec_equiv, dec_eq.
  - intros a. reflexivity.
  - intros a b H. by symmetry.
  - intros a b c H1 H2. by transitivity (val b).
Qed.

#[export] Instance val_proper : Proper (equiv ==> Qeq) (val (D := D)).
Proof. intros a b H. exact H. Qed.

Ltac val_proper_tac lem :=
  intros a1 a2 Ha b1 b2 Hb; unfold equiv, dec_equiv, dec_eq in *;
  rewrite !lem, Ha, Hb; reflexivity.

#[export] Instance dec_add_proper : Proper (equiv ==> equiv ==> equiv) (dec_add (D := D)).
Proof. val_proper_tac val_add. Qed.
#[export] Instance dec_sub_proper : Proper (equiv ==> equiv ==> equiv) (dec_sub (D := D)).
Proof. val_proper_tac val_sub. Qed.

Lemma bool_iff_eq (x y : bool) : (x = true <-> y = true) -> x = y.
Proof. destruct x, y; intuition congruence. Qed.

#[export] Instance dec_lt_proper : Proper (equiv ==> equiv ==> eq) (dec_lt (D := D)).
Proof.
  intros a1 a2 Ha b1 b2 Hb. apply bool_iff_eq.
  unfold equiv, dec_equiv, dec_eq in *. rewrite !lt_val, Ha, Hb. done.
Qed.
#[export] Instance dec_le_proper : Proper (equiv ==> equiv ==> eq) (dec_le (D := D)).
Proof.
  intros a1 a2 Ha b1 b2 Hb. apply bool_iff_eq.
  unfold equiv, dec_equiv, dec_eq in *. rewrite !le_val, Ha, Hb. done.
Qed.
#[export] Instance dec_gt_proper : Proper (equiv ==> equiv ==> eq) (dec_gt (D := D)).
Proof.
  intros a1 a2 Ha b1 b2 Hb. apply bool_iff_eq.
  unfold equiv, dec_equiv, dec_eq in *. rewrite !gt_val, Ha, Hb. done.
Qed.

(** The boolean comparisons in negative form. *)
Lemma lt_val_false a b : dec_lt a b = false <-> (val b <= val a)%Q.
Proof. rewrite <- not_true_iff_false, lt_val. lra. Qed.
Lemma le_val_false a b : dec_le a b = false <-> (val b < val a)%Q.
Proof. rewrite <- not_true_iff_false, le_val. lra. Qed.
Lemma gt_val_false a b : dec_gt a b = false <-> (val a <= val b)%Q.
Proof. rewrite <- not_true_iff_false, gt_val. lra. Qed.

Lemma in_int32_spec z : in_int32 z = true <-> (- 2147483648 <= z <= 2147483647)%Z.
Proof. unfold in_int32. rewrite andb_true_iff, !Z.leb_le. done. Qed.

Lemma exp_bounds a : (- 2147483648 <= dec_exp a <= 2147483647)%Z.
Proof. apply in_int32_spec, exp_range. Qed.

(** A product with a decimal of exponent 0 never overflows. *)
Lemma mul_overflows_exp0 a b : dec_exp b = 0%Z -> mul_overflows a b = false.
Proof. intros Hb. unfold mul_overflows. rewrite Hb, Z.add_0_r, exp_range. done. Qed.

Lemma mul_int a z :
  exists q, dec_mul a (dec_of_int z) = Ret q /\ (val q == val a * inject_Z z)%Q /\ dec_exp q = dec_exp a.
Proof.
  destruct (mul_ret a (dec_of_int z)) as (q & Hq & Hv & He); [apply mul_overflows_exp0, exp_of_int |].
  exists q. split; [done |]. rewrite Hv, He, val_of_int, exp_of_int, Z.add_0_r. done.
Qed.

(** Division when the exponent of the dividend is known not to overflow. *)
Lemma div_overflows_false a b :
  (- 2147483648 <= dec_exp a - dec_exp b + 16 <= 2147483647)%Z -> div_overflows a b = false.
Proof. intros He. unfold div_overflows. apply negb_false_iff, in_int32_spec. exact He. Qed.

(** A division or product that returned did not overflow. *)
Lemma div_Ret a b q :
  dec_div a b = Ret q ->
  ~ (val b == 0)%Q /\ div_overflows a b = false /\
  (val q == qround division_precision (val a / val b))%Q /\
  dec_exp q = (- Z.of_nat division_precision)%Z.
Proof.
  intros H. assert (~ (val b == 0)%Q) as Hb.
  { intros Hb. destruct (div_zero a b Hb) as [w Hw]. congruence. }
  assert (div_overflows a b = false) as Ho.
  { apply not_true_iff_false. intros Ho. destruct (div_panics a b Ho). congruence. }
  destruct (div_ret a b Hb Ho) as (q' & Hq' & Hv). rewrite H in Hq'. injection Hq' as <-. by destruct Hv.
Qed.

Lemma mul_Ret a b q :
  dec_mul a b = Ret q ->
  mul_overflows a b = false /\ (val q == val a * val b)%Q /\ dec_exp q = (dec_exp a + dec_exp b)%Z.
Proof.
  intros H. assert (mul_overflows a b = false) as Ho.
  { apply not_true_iff_false. intros Ho. destruct (mul_panics a b Ho). congruence. }
  destruct (mul_ret a b Ho) as (q' & Hq' & Hv). rewrite H in Hq'. by injection Hq' as <-.
Qed.

(** Both, with what each of the two causes of a panic gives. *)
Lemma div_cases a b :
  ((val b == 0)%Q \/ div_overflows a b = true) /\ (exists why, dec_div a b = Panic why) \/
  ~ (val b == 0)%Q /\ div_overflows a b = false /\ (exists q, dec_div a b = Ret q).
Proof.
  destruct (Qeq_dec (val b) 0) as [Hz | Hz]; [left; split; [by left | by apply div_zero] |].
  destruct (div_overflows a b) eqn:Ho; [left; split; [by right | by apply div_panics] |].
  right. split_and!; [done | done |]. destruct (div_ret a b Hz Ho) as (q & Hq & _). by exists q.
Qed.

Lemma mul_cases a b :
  mul_overflows a b = true /\ (exists why, dec_mul a b = Panic why) \/
  mul_overflows a b = false /\ (exists q, dec_mul a b = Ret q).
Proof.
  destruct (mul_overflows a b) eqn:Ho; [left; split; [done | by apply mul_panics] |].
  right. split; [done |]. destruct (mul_ret a b Ho) as (q & Hq & _). by exists q.
Qed.

(** Division by a positive power of ten of at most 16 digits. *)
Lemma div_pow10 a z p k :
  (k <= p)%nat -> (p <= division_precision)%nat -> div_overflows a (dec_of_int (pow10 (p - k))) = false ->
  (val a == inject_Z z / inject_Z (pow10 k))%Q ->
  exists q, dec_div a (dec_of_int (pow10 (p - k))) = Ret q /\
            (val q == inject_Z z / inject_Z (pow10 p))%Q /\ dec_exp q = (-16)%Z.
Proof.
  intros Hk Hp Ho Ha. set (j := (p - k)%nat) in *.
  assert (~ (val (dec_of_int (pow10 j)) == 0)%Q) as Hnz by (rewrite val_of_int; apply inject_pow10_nz).
  destruct (div_ret a (dec_of_int (pow10 j)) Hnz Ho) as (q & Hq & Hv & He).
  exists q. split; [done |]. split; [| exact He]. rewrite Hv, val_of_int, Ha.
  assert (inject_Z z / inject_Z (pow10 k) / inject_Z (pow10 j)
          == inject_Z z / inject_Z (pow10 p))%Q as Heq.
  { replace p with (k + j)%nat by lia. rewrite pow10_add, inject_Z_mult.
    pose proof (inject_pow10_nz k). pose proof (inject_pow10_nz j). field; done. }
  rewrite Heq. apply qround_exact_le. done.
Qed.

Lemma val_zero_pos a : dec_le a dec_zero = false <-> (0 < val a)%Q.
Proof. rewrite le_val_false, val_zero. done. Qed.

Lemma val_gt_zero a : dec_gt a dec_zero = true <-> (0 < val a)%Q.
Proof. rewrite gt_val, val_zero. done. Qed.

End laws.

Create Rewrite HintDb decval.
#[export] Hint Rewrite @val_zero @val_of_int @val_add @val_sub @val_neg @val_round
  using typeclasses eauto : decval.
