(* ===== verification/RefDecimal.v ===== *)
(** * RefDecimal: a concrete decimal, to instantiate the interface

    A coefficient over a power of ten with the operations of [DecimalOps]
    written out and [DecimalLaws] proved, so that the interface is inhabited
    and the theorems of the library can be applied to concrete quotes.  Its
    exponents are never positive. *)

From stdpp Require Import pretty.
From S2P Require Import Prelude Decimal.

Record refdec := RD { coef : Z; scale : N }.

Definition places (d : refdec) : nat := N.to_nat (scale d).

Definition rval (d : refdec) : Q := inject_Z (coef d) / inject_Z (pow10 (places d)).

(** The exponent: minus the scale, within int32. *)
Definition rexp (d : refdec) : Z := Z.max (- 2147483648) (- Z.of_N (scale d)).

Definition align (d : refdec) (s : N) : Z := coef d * pow10 (N.to_nat (s - scale d)).

Definition radd (a b : refdec) : refdec :=
  let s := N.max (scale a) (scale b) in RD (align a s + align b s) s.
Definition rsub (a b : refdec) : refdec :=
  let s := N.max (scale a) (scale b) in RD (align a s - align b s) s.
Definition rmul (a b : refdec) : outcome refdec :=
  if in_int32 (rexp a + rexp b) then Ret (RD (coef a * coef b) (scale a + scale b))
  else Panic "exponent overflows an int32!".
Definition rneg (a : refdec) : refdec := RD (- coef a) (scale a).
Definition rround (a : refdec) (p : nat) : refdec := RD (half_away (rval a * inject_Z (pow10 p))) (N.of_nat p).
Definition rdiv (a b : refdec) : outcome refdec :=
  if decide (coef b = 0%Z) then Panic "decimal division by 0"
  else if in_int32 (rexp a - rexp b + Z.of_nat division_precision)
  then Ret (RD (half_away (rval a / rval b * inject_Z (pow10 division_precision))) 16)
  else Panic "overflow in decimal QuoRem".
Definition rpow (a b : refdec) : refdec :=
  if decide (scale b = 0%N) then
    if (0 <? coef b)%Z then RD (coef a ^ coef b) (scale a * Z.to_N (coef b)) else RD 0 0
  else RD 0 0.

(** Printing and parsing: an optional sign, digits, an optional fraction;
    trailing zeros of the fraction are not printed. *)
Fixpoint strip_zeros (fuel : nat) (c : Z) (s : nat) : Z * nat :=
  match fuel, s with
  | S f, S s' => if (c mod 10 =? 0)%Z then strip_zeros f (c / 10) s' else (c, s)
  | _, _ => (c, s)
  end.

Definition pad (n : nat) (s : string) : string :=
  String.concat "" (replicate (n - String.length s) "0") +:+ s.

Definition rstring (d : refdec) : string :=
  let '(c, s) := strip_zeros (places d) (Z.abs (coef d)) (places d) in
  let sign := if (coef d <? 0)%Z then "-" else "" in
  if decide (s = 0%nat) then sign +:+ pretty c
  else sign +:+ pretty (c / pow10 s)%Z +:+ "." +:+ pad s (pretty (c mod pow10 s)%Z).

Definition digit (c : Ascii.ascii) : option Z :=
  let n := Z.of_nat (Ascii.nat_of_ascii c) in
  if ((48 <=? n) && (n <=? 57))%Z then Some (n - 48)%Z else None.

Fixpoint digits (acc : Z) (frac : option nat) (s : string) : option refdec :=
  match s with
  | EmptyString => Some (RD acc (N.of_nat (default 0%nat frac)))
  | String c s' =>
      match digit c with
      | Some d => digits (10 * acc + d) (S <$> frac) s'
      | None => match Ascii.eqb c "."%char, frac with
                | true, None => digits acc (Some 0%nat) s'
                | _, _ => None
                end
      end
  end.

Definition rparse (s : string) : option refdec :=
  match s with
  | EmptyString => None
  | String c s' => if Ascii.eqb c "-"%char then rneg <$> digits 0 None s' else digits 0 None s
  end.

#[export] Instance refdec_ops : DecimalOps refdec := {
  dec_zero := RD 0 0;
  dec_of_int z := RD z 0;
  dec_of_string := rparse;
  dec_to_string := rstring;
  dec_exp := rexp;
  dec_add := radd;
  dec_sub := rsub;
  dec_mul := rmul;
  dec_div := rdiv;
  dec_neg := rneg;
  dec_pow := rpow;
  dec_round := rround;
  dec_lt a b := negb (Qle_bool (rval b) (rval a));
  dec_le a b := Qle_bool (rval a) (rval b);
  dec_gt a b := negb (Qle_bool (rval a) (rval b));
  dec_int_part a := wrap64 (Qtrunc (rval a));
}.

Local Open Scope Q_scope.

Lemma rval_align d s :
  (scale d <= s)%N -> inject_Z (align d s) / inject_Z (pow10 (N.to_nat s)) == rval d.
Proof.
  intros Hs. unfold align, rval, places. set (j := N.to_nat (s - scale d)).
  replace (N.to_nat s) with (N.to_nat (scale d) + j)%nat by lia. rewrite pow10_add, !inject_Z_mult.
  pose proof (inject_pow10_nz (N.to_nat (scale d))). pose proof (inject_pow10_nz j). field. done.
Qed.

Lemma rval_zero_iff d : rval d == 0 <-> coef d = 0%Z.
Proof.
  unfold rval. pose proof (inject_pow10_nz (places d)) as Hp. split.
  - intros H. assert (inject_Z (coef d) == 0) as H0.
    { transitivity (inject_Z (coef d) / inject_Z (pow10 (places d)) * inject_Z (pow10 (places d))).
      - field. done.
      - rewrite H. lra. }
    change 0 with (inject_Z 0) in H0. by rewrite inject_Z_injective in H0.
  - intros ->. change (inject_Z 0) with 0. field. done.
Qed.

Lemma negb_Qle_bool a b : negb (Qle_bool a b) = true <-> b < a.
Proof. rewrite negb_true_iff, <- not_true_iff_false, Qle_bool_iff. lra. Qed.

Lemma rexp_range d : in_int32 (rexp d) = true.
Proof. unfold in_int32, rexp. apply andb_true_iff. rewrite !Z.leb_le. lia. Qed.

(** The exponent of a sum is the smaller one. *)
Lemma rexp_max c a b : rexp (RD c (N.max (scale a) (scale b))) = Z.min (rexp a) (rexp b).
Proof. unfold rexp. simpl. lia. Qed.

(** A product that does not overflow has the sum of the exponents. *)
Lemma rexp_mul a b c : in_int32 (rexp a + rexp b) = true ->
  rexp (RD c (scale a + scale b)) = (rexp a + rexp b)%Z.
Proof. unfold in_int32, rexp. rewrite andb_true_iff, !Z.leb_le. simpl. lia. Qed.

Lemma rval_add a b : rval (radd a b) == rval a + rval b.
Proof.
  unfold radd. rewrite <- (rval_align a (N.max (scale a) (scale b))) by lia.
  rewrite <- (rval_align b (N.max (scale a) (scale b))) by lia.
  unfold rval, places. simpl. rewrite inject_Z_plus. field. apply inject_pow10_nz.
Qed.

Lemma rval_sub a b : rval (rsub a b) == rval a - rval b.
Proof.
  unfold rsub. rewrite <- (rval_align a (N.max (scale a) (scale b))) by lia.
  rewrite <- (rval_align b (N.max (scale a) (scale b))) by lia.
  unfold rval, places. simpl. unfold Z.sub. rewrite inject_Z_plus, inject_Z_opp. field. apply inject_pow10_nz.
Qed.

Lemma rval_mul a b : rval (RD (coef a * coef b) (scale a + scale b)) == rval a * rval b.
Proof.
  unfold rval, places. simpl. rewrite N2Nat.inj_add, pow10_add, !inject_Z_mult.
  pose proof (inject_pow10_nz (N.to_nat (scale a))). pose proof (inject_pow10_nz (N.to_nat (scale b))).
  field. done.
Qed.

Lemma rval_int z : rval (RD z 0) == inject_Z z.
Proof. unfold rval, places. cbn [coef scale]. change (inject_Z (pow10 (N.to_nat 0))) with 1. field. Qed.

#[export] Instance refdec_laws : DecimalLaws refdec.
Proof.
  refine {| val := rval |}; simpl.
  - reflexivity.
  - exact rval_int.
  - exact rval_add.
  - exact rval_sub.
  - intros a. unfold rneg, rval, places. simpl. rewrite inject_Z_opp. field. apply inject_pow10_nz.
  - reflexivity.
  - exact rexp_range.
  - by vm_compute.
  - reflexivity.
  - intros a b. apply rexp_max.
  - intros a b. apply rexp_max.
  - reflexivity.
  - intros a b Ho. unfold mul_overflows in Ho. simpl in Ho. unfold rmul.
    apply negb_true_iff in Ho as ->. by eexists.
  - intros a b Ho. unfold mul_overflows in Ho. simpl in Ho. unfold rmul.
    apply negb_false_iff in Ho. rewrite Ho. eexists. split; [done |].
    split; [apply rval_mul | by apply rexp_mul].
  - intros a b Hb. apply rval_zero_iff in Hb. unfold rdiv. rewrite decide_True by done. eauto.
  - intros a b Ho. unfold div_overflows in Ho. simpl in Ho. unfold rdiv.
    case_decide; [by eexists |]. apply negb_true_iff in Ho.
    change (Z.of_nat division_precision) with 16%Z in *. rewrite Ho. by eexists.
  - intros a b Hb Ho. rewrite rval_zero_iff in Hb. unfold rdiv. rewrite decide_False by done.
    unfold div_overflows in Ho. simpl in Ho. apply negb_false_iff in Ho.
    change (Z.of_nat division_precision) with 16%Z in *. rewrite Ho.
    eexists. split; [done |]. split; reflexivity.
  - intros z n Hn. unfold rpow. simpl. rewrite (proj2 (Z.ltb_lt 0 n)) by done.
    split; [apply rval_int | reflexivity].
  - intros a b. apply negb_Qle_bool.
  - intros a b. apply Qle_bool_iff.
  - intros a b. apply negb_Qle_bool.
  - intros a Ha. by apply wrap64_id.
Defined.

Example rstring_example : rstring (RD 8125000 6) = "8.125".
Proof. vm_compute. reflexivity. Qed.
Example rparse_example : rparse "-500.25" = Some (RD (-50025) 2).
Proof. vm_compute. reflexivity. Qed.
