(* ===== verification/GoStrings.v ===== *)
(** * GoStrings: the string operations of the Go standard library the service uses

    A Go string is a sequence of bytes: [string] here, one [ascii] per byte.
    [range] over a string decodes UTF-8 into runes ([runes]), an invalid byte
    giving U+FFFD.  The split operations share [cut], the first occurrence of
    a separator byte. *)

From S2P Require Import Prelude.

Definition byte_val (c : ascii) : Z := Z.of_nat (nat_of_ascii c).

Lemma byte_val_range c : (0 <= byte_val c < 256)%Z.
Proof. unfold byte_val. pose proof (nat_ascii_bounded c). lia. Qed.

Definition rune_error : Z := 65533.

(** Continuation byte in a range, as its low six bits. *)
Definition cont (lo hi : Z) (c : ascii) : option Z :=
  let b := byte_val c in
  if ((lo <=? b) && (b <=? hi))%Z then Some (Z.land b 63) else None.

(** The range of the second byte for each leading byte, and the number of
    continuation bytes, as in unicode/utf8. *)
Definition utf8_lead (b : Z) : option (nat * Z * Z * Z) :=
  (if (b <? 194) then None
   else if (b <=? 223) then Some (1%nat, Z.land b 31, 128, 191)
   else if (b =? 224) then Some (2%nat, Z.land b 15, 160, 191)
   else if (b =? 237) then Some (2%nat, Z.land b 15, 128, 159)
   else if (b <=? 239) then Some (2%nat, Z.land b 15, 128, 191)
   else if (b =? 240) then Some (3%nat, Z.land b 7, 144, 191)
   else if (b <=? 243) then Some (3%nat, Z.land b 7, 128, 191)
   else if (b =? 244) then Some (3%nat, Z.land b 7, 128, 143)
   else None)%Z.

(** The runes a [for _, r := range s] loop visits. *)
Fixpoint runes (s : string) : list Z :=
  match s with
  | EmptyString => []
  | String c0 s0 =>
      let b0 := byte_val c0 in
      if (b0 <? 128)%Z then b0 :: runes s0 else
      match utf8_lead b0 with
      | None => rune_error :: runes s0
      | Some (n, hd, lo, hi) =>
          match s0 with
          | EmptyString => [rune_error]
          | String c1 s1 =>
              match cont lo hi c1, n with
              | None, _ => rune_error :: runes s0
              | Some x1, 1%nat => (hd * 64 + x1)%Z :: runes s1
              | Some x1, _ =>
                  match s1 with
                  | EmptyString => rune_error :: runes s0
                  | String c2 s2 =>
                      match cont 128 191 c2, n with
                      | None, _ => rune_error :: runes s0
                      | Some x2, 2%nat => ((hd * 64 + x1) * 64 + x2)%Z :: runes s2
                      | Some x2, _ =>
                          match s2 with
                          | EmptyString => rune_error :: runes s0
                          | String c3 s3 =>
                              match cont 128 191 c3 with
                              | None => rune_error :: runes s0
                              | Some x3 => (((hd * 64 + x1) * 64 + x2) * 64 + x3)%Z :: runes s3
                              end
                          end
                      end
                  end
              end
          end
      end
  end.

Fixpoint bytes (s : string) : list Z :=
  match s with EmptyString => [] | String c s' => byte_val c :: bytes s' end.

Definition is_upper (r : Z) : bool := ((65 <=? r) && (r <=? 90))%Z.

(** Any rune that is not a single byte is at least 128. *)
Lemma cont_nonneg lo hi c x : cont lo hi c = Some x -> (0 <= x < 64)%Z.
Proof.
  unfold cont. intros H. case_match; simplify_eq. split.
  - apply Z.land_nonneg. lia.
  - change 63%Z with (Z.ones 6). rewrite Z.land_ones by lia. apply Z.mod_pos_bound. lia.
Qed.

Lemma cont_low c x : cont 160 191 c = Some x -> (32 <= x)%Z.
Proof.
  unfold cont. intros H. case_match; simplify_eq. zbool.
  change 63%Z with (Z.ones 6). rewrite Z.land_ones by lia.
  rewrite <- (Z.mod_unique (byte_val c) (2 ^ 6) 2 (byte_val c - 128)); lia.
Qed.

Lemma cont_low4 c x : cont 144 191 c = Some x -> (16 <= x)%Z.
Proof.
  unfold cont. intros H. case_match; simplify_eq. zbool.
  change 63%Z with (Z.ones 6). rewrite Z.land_ones by lia.
  rewrite <- (Z.mod_unique (byte_val c) (2 ^ 6) 2 (byte_val c - 128)); lia.
Qed.

Lemma utf8_lead_spec b n hd lo hi :
  (0 <= b < 256)%Z -> utf8_lead b = Some (n, hd, lo, hi) ->
  (n = 1%nat /\ 2 <= hd)%Z \/
  (n = 2%nat /\ (1 <= hd \/ hd = 0 /\ lo = 160 /\ hi = 191))%Z \/
  (n = 3%nat /\ (1 <= hd \/ hd = 0 /\ lo = 144 /\ hi = 191))%Z.
Proof.
  intros Hb. unfold utf8_lead.
  assert (forall m, (0 <= m)%Z -> Z.land b (Z.ones m) = b mod 2 ^ m)%Z as Hl
    by (intros m Hm; by apply Z.land_ones).
  change 31%Z with (Z.ones 5). change 15%Z with (Z.ones 4). change 7%Z with (Z.ones 3).
  rewrite !Hl by lia. change (2 ^ 5)%Z with 32%Z. change (2 ^ 4)%Z with 16%Z. change (2 ^ 3)%Z with 8%Z.
  intros H. repeat (case_match; simplify_eq); zbool; Z.div_mod_to_equations; lia.
Qed.

(** The loop [for _, r := range s] over a string meets only runes in A..Z
    exactly when every byte is in A..Z. *)
Lemma runes_upper s : forallb is_upper (runes s) = forallb is_upper (bytes s).
Proof.
  assert (forall r, (128 <= r)%Z -> is_upper r = false) as Hbig
    by (intros r Hr; unfold is_upper; apply andb_false_iff; right; lia).
  destruct s as [| c0 s0]; [done |].
  revert c0. induction s0 as [| c1 s1 IH]; intros c0.
  { simpl. destruct (byte_val c0 <? 128)%Z eqn:Hb; [done |]. zbool.
    pose proof (byte_val_range c0). repeat case_match; simpl; by rewrite ?Hbig by (unfold rune_error; lia). }
  change (bytes (String c0 (String c1 s1))) with (byte_val c0 :: bytes (String c1 s1)).
  destruct (byte_val c0 <? 128)%Z eqn:Hb.
  { replace (runes (String c0 (String c1 s1))) with (byte_val c0 :: runes (String c1 s1))
      by (simpl; rewrite Hb; done).
    cbn [forallb]. by rewrite IH. }
  zbool. transitivity false; [| cbn [forallb]; by rewrite Hbig by lia].
  simpl. replace (byte_val c0 <? 128)%Z with false by (symmetry; by apply Z.ltb_ge).
  pose proof (byte_val_range c0) as Hr0.
  assert (forall l, forallb is_upper (rune_error :: l) = false) as Herr
    by (intros l; cbn [forallb]; by rewrite Hbig by (unfold rune_error; lia)).
  destruct (utf8_lead (byte_val c0)) as [[[[n hd] lo] hi] |] eqn:Hlead; [| apply Herr].
  apply utf8_lead_spec in Hlead; [| done].
  destruct (cont lo hi c1) as [x1 |] eqn:H1; [| apply Herr].
  pose proof (cont_nonneg _ _ _ _ H1).
  assert ((hd = 0 -> n = 2%nat -> 32 <= x1) /\ (hd = 0 -> n = 3%nat -> 16 <= x1))%Z as [Hl2 Hl3].
  { split; intros -> ->; destruct Hlead as [[? ?] | [[? [? | (_ & -> & ->)]] | [? [? | (_ & -> & ->)]]]];
      try lia; [by apply cont_low in H1 | by apply cont_low4 in H1]. }
  assert (n = 1%nat \/ n = 2%nat \/ n = 3%nat) as [-> | [-> | ->]] by lia.
  - cbn [forallb]. rewrite Hbig by lia. done.
  - destruct s1 as [| c2 s2]; [apply Herr |].
    destruct (cont 128 191 c2) as [x2 |] eqn:H2; [| apply Herr]. apply cont_nonneg in H2.
    cbn [forallb]. rewrite Hbig by lia. done.
  - destruct s1 as [| c2 s2]; [apply Herr |].
    destruct (cont 128 191 c2) as [x2 |] eqn:H2; [| apply Herr]. apply cont_nonneg in H2.
    destruct s2 as [| c3 s3]; [apply Herr |].
    destruct (cont 128 191 c3) as [x3 |] eqn:H3; [| apply Herr]. apply cont_nonneg in H3.
    cbn [forallb]. rewrite Hbig by lia. done.
Qed.

(** ** Prefixes and splitting *)

Fixpoint TrimPrefix (p s : string) : option string :=
  match p, s with
  | EmptyString, _ => Some s
  | String a p', String b s' => if Ascii.eqb a b then TrimPrefix p' s' else None
  | String _ _, EmptyString => None
  end.

(** [strings.HasPrefix] and [strings.TrimPrefix]. *)
Definition HasPrefix (s p : string) : bool := bool_decide (is_Some (TrimPrefix p s)).
Definition strings_TrimPrefix (s p : string) : string := default s (TrimPrefix p s).

Lemma TrimPrefix_Some p s r : TrimPrefix p s = Some r <-> s = p +:+ r.
Proof.
  revert s. induction p as [| a p IH]; intros s; simpl.
  { by split; [intros [= ->] | intros ->]. }
  destruct s as [| b s]; [done |].
  destruct (Ascii.eqb_spec a b) as [-> | Hne].
  - rewrite IH. by split; [intros -> | intros [= ->]].
  - split; [done | intros [= Heq _]; congruence].
Qed.

(** The parts before and after the first occurrence of a byte. *)
Fixpoint cut (sep : ascii) (s : string) : option (string * string) :=
  match s with
  | EmptyString => None
  | String c s' =>
      if Ascii.eqb c sep then Some (EmptyString, s')
      else '(a, b) ← cut sep s'; Some (String c a, b)
  end.

Fixpoint has_byte (sep : ascii) (s : string) : bool :=
  match s with
  | EmptyString => false
  | String c s' => Ascii.eqb c sep || has_byte sep s'
  end.

Lemma cut_Some sep s a b :
  cut sep s = Some (a, b) <-> s = a +:+ String sep b /\ has_byte sep a = false.
Proof.
  revert a b. induction s as [| c s IH]; intros a b; simpl.
  { split; [done |]. intros [H _]. by destruct a. }
  destruct (Ascii.eqb_spec c sep) as [-> | Hne].
  - split.
    + by intros [= <- <-].
    + intros [H Hn]. destruct a as [| c' a]; [by injection H as -> |].
      injection H as <- ->. simpl in Hn. by rewrite Ascii.eqb_refl in Hn.
  - split.
    + intros H. destruct (cut sep s) as [[a' b'] |]; [| done].
      injection H as <- <-. destruct (proj1 (IH a' b') eq_refl) as [-> Hn]. simpl.
      apply Ascii.eqb_neq in Hne. by rewrite Hne.
    + intros [H Hn]. destruct a as [| c0 a]; [by injection H as ? ? |].
      injection H as <- ->. apply orb_false_iff in Hn as [_ Hn].
      by rewrite (proj2 (IH a b) (conj eq_refl Hn)).
Qed.

Lemma cut_None sep s : cut sep s = None <-> has_byte sep s = false.
Proof.
  induction s as [| c s IH]; simpl; [done |].
  destruct (Ascii.eqb c sep); simpl; [done |].
  rewrite <- IH. by destruct (cut sep s) as [[] |].
Qed.

(** [strings.SplitN(s, sep, 2)] for a one-byte separator. *)
Definition SplitN2 (s : string) (sep : ascii) : list string :=
  match cut sep s with Some (a, b) => [a; b] | None => [s] end.

Lemma string_app_cons c (a b : string) : String c a +:+ b = String c (a +:+ b).
Proof. reflexivity. Qed.

Lemma string_app_length (a b : string) :
  String.length (a +:+ b) = (String.length a + String.length b)%nat.
Proof. induction a as [| x a IH]; [done |]. rewrite string_app_cons. cbn. by rewrite IH. Qed.

Lemma string_app_assoc (a b c : string) : (a +:+ b) +:+ c = a +:+ (b +:+ c).
Proof. induction a as [| x a IH]; [done |]. rewrite !string_app_cons. by f_equal. Qed.

Lemma string_app_nil_r (a : string) : a +:+ "" = a.
Proof. induction a as [| x a IH]; [done |]. rewrite string_app_cons. by f_equal. Qed.

Lemma has_byte_app sep (a b : string) : has_byte sep (a +:+ b) = has_byte sep a || has_byte sep b.
Proof.
  induction a as [| x a IH]; [done |]. rewrite string_app_cons. cbn. by rewrite IH, orb_assoc.
Qed.

(** ** The order of Go strings: byte-wise lexicographic *)

Lemma string_leb_cons c1 s1 c2 s2 :
  String.leb (String c1 s1) (String c2 s2) =
  match (N_of_ascii c1 ?= N_of_ascii c2)%N with
  | Lt => true
  | Eq => String.leb s1 s2
  | Gt => false
  end.
Proof. unfold String.leb. cbn. unfold Ascii.compare. by destruct (_ ?= _)%N. Qed.

Lemma string_leb_trans (a b c : string) :
  String.leb a b = true -> String.leb b c = true -> String.leb a c = true.
Proof.
  revert b c. induction a as [| x a IH]; intros [| y b] [| z c]; try done.
  rewrite !string_leb_cons.
  destruct (N.compare_spec (N_of_ascii x) (N_of_ascii y)) as [-> | Hxy | Hxy]; [| | done].
  - destruct (_ ?= _)%N; [apply IH | done | done].
  - intros _. destruct (N.compare_spec (N_of_ascii y) (N_of_ascii z)) as [<- | Hyz | Hyz]; [| | done].
    + intros _. apply N.compare_lt_iff in Hxy. by rewrite Hxy.
    + intros _. assert (N_of_ascii x < N_of_ascii z)%N as Hxz by lia.
      apply N.compare_lt_iff in Hxz. by rewrite Hxz.
Qed.
