(* ===== verification/Utf8.v ===== *)
(** * Utf8: encoding of runes, white space, decimal integers

    The rest of the standard library the logger, the configuration and the
    WebSocket code rely on: [strings.Builder.WriteRune], [strings.TrimSpace],
    [strings.ToLower] on ASCII, [strings.ToUpper] with the simple
    upper-case mappings of Unicode, [strconv.Atoi]. *)

From S2P Require Import Prelude GoStrings.

(** ** Runes *)

Definition of_byte (b : Z) : ascii := ascii_of_nat (Z.to_nat b).

Lemma byte_val_of_byte b : (0 <= b < 256)%Z -> byte_val (of_byte b) = b.
Proof. intros Hb. unfold byte_val, of_byte. rewrite nat_ascii_embedding by lia. lia. Qed.

(** A Unicode scalar value. *)
Definition scalar (r : Z) : bool :=
  ((0 <=? r) && (r <? 1114112) && negb ((55296 <=? r) && (r <=? 57343)))%Z.

Definition encode_rune (r : Z) : string :=
  let r := if scalar r then r else rune_error in
  (if r <? 128 then String (of_byte r) ""
   else if r <? 2048 then String (of_byte (192 + r / 64)) (String (of_byte (128 + r mod 64)) "")
   else if r <? 65536 then
     String (of_byte (224 + r / 64 / 64))
       (String (of_byte (128 + r / 64 mod 64)) (String (of_byte (128 + r mod 64)) ""))
   else
     String (of_byte (240 + r / 64 / 64 / 64))
       (String (of_byte (128 + r / 64 / 64 mod 64))
          (String (of_byte (128 + r / 64 mod 64)) (String (of_byte (128 + r mod 64)) ""))))%Z.

Fixpoint encode_runes (rs : list Z) : string :=
  match rs with [] => "" | r :: rs' => encode_rune r +:+ encode_runes rs' end.

Lemma cont_of_byte lo hi x :
  (128 <= lo)%Z -> (hi <= 191)%Z -> (lo <= 128 + x <= hi)%Z -> cont lo hi (of_byte (128 + x)) = Some x.
Proof.
  intros Hlo Hhi Hx. unfold cont. rewrite byte_val_of_byte by lia.
  assert ((lo <=? 128 + x)%Z = true) as -> by lia. assert ((128 + x <=? hi)%Z = true) as -> by lia. simpl.
  f_equal. change 63%Z with (Z.ones 6). rewrite Z.land_ones by lia. Z.div_mod_to_equations. lia.
Qed.

Lemma lead_of_byte (b : Z) : (194 <= b < 245)%Z ->
  utf8_lead b = Some
    (if b <=? 223 then (1%nat, b - 192, 128, 191)
     else if b <=? 239 then (2%nat, b - 224, if b =? 224 then 160 else 128, if b =? 237 then 159 else 191)
     else (3%nat, b - 240, if b =? 240 then 144 else 128, if b =? 244 then 143 else 191))%Z.
Proof.
  intros Hb. unfold utf8_lead.
  change 31%Z with (Z.ones 5). change 15%Z with (Z.ones 4). change 7%Z with (Z.ones 3).
  rewrite !Z.land_ones by lia. change (2 ^ 5)%Z with 32%Z. change (2 ^ 4)%Z with 16%Z. change (2 ^ 3)%Z with 8%Z.
  repeat case_match; zbool; try lia; repeat f_equal; Z.div_mod_to_equations; lia.
Qed.

(** The base-64 digits of a number, with their bounds. *)
Lemma divmod64 (x lo hi : Z) : (lo * 64 <= x < hi * 64)%Z ->
  exists q d, (x / 64 = q /\ x mod 64 = d /\ q * 64 + d = x /\ 0 <= d < 64 /\ lo <= q < hi)%Z.
Proof.
  intros Hx. exists (x / 64)%Z, (x mod 64)%Z.
  pose proof (Z.mod_pos_bound x 64 eq_refl). pose proof (Z.div_mod x 64 ltac:(done)). lia.
Qed.

(** Decoding one well-formed sequence of two, three and four bytes. *)
Lemma runes_step2 c0 c1 s hd lo hi x1 :
  (byte_val c0 <? 128)%Z = false -> utf8_lead (byte_val c0) = Some (1%nat, hd, lo, hi) ->
  cont lo hi c1 = Some x1 ->
  runes (String c0 (String c1 s)) = (hd * 64 + x1)%Z :: runes s.
Proof.
  intros H0 H1 H2. remember (String c1 s) as s0 eqn:Hs0. cbn [runes]. rewrite H0, H1, Hs0. cbv iota beta.
  by rewrite H2.
Qed.

Lemma runes_step3 c0 c1 c2 s hd lo hi x1 x2 :
  (byte_val c0 <? 128)%Z = false -> utf8_lead (byte_val c0) = Some (2%nat, hd, lo, hi) ->
  cont lo hi c1 = Some x1 -> cont 128 191 c2 = Some x2 ->
  runes (String c0 (String c1 (String c2 s))) = ((hd * 64 + x1) * 64 + x2)%Z :: runes s.
Proof.
  intros H0 H1 H2 H3. remember (String c1 (String c2 s)) as s0 eqn:Hs0. cbn [runes].
  rewrite H0, H1, Hs0. cbv iota beta. by rewrite H2, H3.
Qed.

Lemma runes_step4 c0 c1 c2 c3 s hd lo hi x1 x2 x3 :
  (byte_val c0 <? 128)%Z = false -> utf8_lead (byte_val c0) = Some (3%nat, hd, lo, hi) ->
  cont lo hi c1 = Some x1 -> cont 128 191 c2 = Some x2 -> cont 128 191 c3 = Some x3 ->
  runes (String c0 (String c1 (String c2 (String c3 s)))) =
  (((hd * 64 + x1) * 64 + x2) * 64 + x3)%Z :: runes s.
Proof.
  intros H0 H1 H2 H3 H4. remember (String c1 (String c2 (String c3 s))) as s0 eqn:Hs0. cbn [runes].
  rewrite H0, H1, Hs0. cbv iota beta. by rewrite H2, H3, H4.
Qed.

Ltac lead_solve :=
  rewrite byte_val_of_byte, lead_of_byte by lia; f_equal; repeat case_match; zbool; try lia;
  repeat f_equal; lia.

Lemma runes_two a b s : (2 <= a < 32)%Z -> (0 <= b < 64)%Z ->
  runes (String (of_byte (192 + a)) (String (of_byte (128 + b)) s)) = (a * 64 + b)%Z :: runes s.
Proof.
  intros Ha Hb. apply (runes_step2 _ _ s a 128 191).
  - rewrite byte_val_of_byte by lia. lia.
  - lead_solve.
  - apply cont_of_byte; lia.
Qed.

Lemma runes_three a b c s : (0 <= a < 16)%Z -> (0 <= b < 64)%Z -> (0 <= c < 64)%Z ->
  (a = 0 -> 32 <= b)%Z -> (a = 13 -> b < 32)%Z ->
  runes (String (of_byte (224 + a)) (String (of_byte (128 + b)) (String (of_byte (128 + c)) s))) =
  ((a * 64 + b) * 64 + c)%Z :: runes s.
Proof.
  intros Ha Hb Hc Hlo Hhi.
  apply (runes_step3 _ _ _ s a (if (a =? 0)%Z then 160 else 128)%Z (if (a =? 13)%Z then 159 else 191)%Z).
  - rewrite byte_val_of_byte by lia. lia.
  - lead_solve.
  - apply cont_of_byte; repeat case_match; zbool; lia.
  - apply cont_of_byte; lia.
Qed.

Lemma runes_four a b c d s : (0 <= a < 5)%Z -> (0 <= b < 64)%Z -> (0 <= c < 64)%Z -> (0 <= d < 64)%Z ->
  (a = 0 -> 16 <= b)%Z -> (a = 4 -> b < 16)%Z ->
  runes (String (of_byte (240 + a)) (String (of_byte (128 + b)) (String (of_byte (128 + c))
    (String (of_byte (128 + d)) s)))) = (((a * 64 + b) * 64 + c) * 64 + d)%Z :: runes s.
Proof.
  intros Ha Hb Hc Hd Hlo Hhi.
  apply (runes_step4 _ _ _ _ s a (if (a =? 0)%Z then 144 else 128)%Z (if (a =? 4)%Z then 143 else 191)%Z).
  - rewrite byte_val_of_byte by lia. lia.
  - lead_solve.
  - apply cont_of_byte; repeat case_match; zbool; lia.
  - apply cont_of_byte; lia.
  - apply cont_of_byte; lia.
Qed.

Lemma runes_encode r s : scalar r = true -> runes (encode_rune r +:+ s) = r :: runes s.
Proof.
  intros Hs. unfold encode_rune. rewrite Hs.
  assert (0 <= r < 1114112 /\ ~ (55296 <= r <= 57343))%Z as [Hr Hsur] by (unfold scalar in Hs; lia).
  clear Hs. destruct (r <? 128)%Z eqn:H1; [| destruct (r <? 2048)%Z eqn:H2; [| destruct (r <? 65536)%Z eqn:H3]];
    zbool; rewrite !string_app_cons.
  - cbn [runes]. rewrite byte_val_of_byte by lia. destruct (r <? 128)%Z eqn:H; [done | lia].
  - destruct (divmod64 r 2 32) as (q & d & -> & -> & Hq & ? & ?); [lia |].
    rewrite <- Hq. by apply runes_two.
  - destruct (divmod64 r 32 1024) as (q & d & -> & -> & Hq & ? & ?); [lia |].
    destruct (divmod64 q 0 16) as (q' & d' & -> & -> & Hq' & ? & ?); [lia |]. subst q. rewrite <- Hq.
    apply runes_three; lia.
  - destruct (divmod64 r 1024 17408) as (q & d & -> & -> & Hq & ? & ?); [lia |].
    destruct (divmod64 q 16 272) as (q' & d' & -> & -> & Hq' & ? & ?); [lia |].
    destruct (divmod64 q' 0 5) as (q'' & d'' & -> & -> & Hq'' & ? & ?); [lia |].
    rewrite <- Hq, <- Hq', <- Hq''. apply runes_four; lia.
Qed.

Lemma runes_encode_runes rs s :
  forallb scalar rs = true -> runes (encode_runes rs +:+ s) = rs ++ runes s.
Proof.
  induction rs as [| r rs IH]; simpl; [done |]. intros [Hr Hrs]%andb_true_iff.
  rewrite string_app_assoc, runes_encode by done. by rewrite IH.
Qed.

Lemma cont_range lo hi c x : (128 <= lo)%Z -> (hi <= 191)%Z -> cont lo hi c = Some x ->
  (lo - 128 <= x <= hi - 128)%Z.
Proof.
  unfold cont. intros Hlo Hhi H. case_match; simplify_eq. zbool.
  change 63%Z with (Z.ones 6). rewrite Z.land_ones by lia. Z.div_mod_to_equations. lia.
Qed.

Lemma utf8_lead_some b x : utf8_lead b = Some x -> (194 <= b < 245)%Z.
Proof. unfold utf8_lead. intros H. repeat case_match; zbool; try done; lia. Qed.

(** Every rune a loop over a string visits is a scalar value. *)
Lemma runes_scalar s : forallb scalar (runes s) = true.
Proof.
  assert (forall n s, (String.length s <= n)%nat -> forallb scalar (runes s) = true) as H; [| by eapply H].
  clear s. induction n as [| n IH]; intros [| c0 s0] Hlen; try done; [simpl in Hlen; lia |].
  cbn [String.length] in Hlen. pose proof (byte_val_range c0) as Hb.
  assert (forallb scalar (rune_error :: runes s0) = true) as Herr by (simpl; apply IH; lia).
  cbn [runes]. destruct (byte_val c0 <? 128)%Z eqn:H0; zbool.
  { cbn [forallb]. rewrite IH by lia. unfold scalar. rewrite andb_true_r. lia. }
  destruct (utf8_lead (byte_val c0)) as [[[[k hd] lo] hi] |] eqn:Hlead; [| exact Herr].
  pose proof (utf8_lead_some _ _ Hlead) as Hlb. rewrite lead_of_byte in Hlead by done.
  destruct s0 as [| c1 s1]; [done |]. cbn [String.length] in Hlen.
  destruct (cont lo hi c1) as [x1 |] eqn:Hx1; [| exact Herr].
  apply cont_range in Hx1; [| by repeat case_match; simplify_eq .. ].
  destruct k as [| [| k]].
  { by repeat case_match. }
  { cbn [forallb]. rewrite IH by lia. rewrite andb_true_r. unfold scalar.
    repeat case_match; simplify_eq; zbool; lia. }
  destruct s1 as [| c2 s2]; [exact Herr |]. cbn [String.length] in Hlen.
  destruct (cont 128 191 c2) as [x2 |] eqn:Hx2; [| exact Herr]. apply cont_range in Hx2; [| done..].
  destruct k as [| k].
  { cbn [forallb]. rewrite IH by lia. rewrite andb_true_r. unfold scalar.
    repeat case_match; simplify_eq; zbool; lia. }
  destruct s2 as [| c3 s3]; [exact Herr |]. cbn [String.length] in Hlen.
  destruct (cont 128 191 c3) as [x3 |] eqn:Hx3; [| exact Herr]. apply cont_range in Hx3; [| done..].
  cbn [forallb]. rewrite IH by lia. rewrite andb_true_r. unfold scalar.
  repeat case_match; simplify_eq; zbool; lia.
Qed.

Lemma encode_runes_app a b : encode_runes (a ++ b) = encode_runes a +:+ encode_runes b.
Proof. induction a as [| r a IH]; [done |]. simpl. by rewrite IH, string_app_assoc. Qed.

(** ** White space and case *)

(** [unicode.IsSpace]. *)
Definition IsSpace (r : Z) : bool :=
  (((9 <=? r) && (r <=? 13)) || (r =? 32) || (r =? 133) || (r =? 160) || (r =? 5760)
   || ((8192 <=? r) && (r <=? 8202)) || (r =? 8232) || (r =? 8233) || (r =? 8239) || (r =? 8287)
   || (r =? 12288))%Z.

Fixpoint drop_spaces (rs : list Z) : list Z :=
  match rs with
  | r :: rs' => if IsSpace r then drop_spaces rs' else rs
  | [] => []
  end.

(** [strings.TrimSpace], on the runes of the string. *)
Definition TrimSpace (rs : list Z) : list Z := rev (drop_spaces (rev (drop_spaces rs))).

Lemma drop_spaces_nil rs : drop_spaces rs = [] <-> forallb IsSpace rs = true.
Proof.
  induction rs as [| r rs IH]; simpl; [done |]. destruct (IsSpace r); simpl; [done | by split].
Qed.

Lemma TrimSpace_nil rs : TrimSpace rs = [] <-> forallb IsSpace rs = true.
Proof.
  rewrite <- drop_spaces_nil. unfold TrimSpace. split; [| by intros ->].
  intros H. apply (f_equal (@rev Z)) in H. rewrite rev_involutive in H.
  apply drop_spaces_nil in H. destruct (drop_spaces rs) as [| r l] eqn:Hd; [done |].
  assert (IsSpace r = false) as Hr.
  { clear H. revert Hd. induction rs as [| x rs IH]; simpl; [done |].
    destruct (IsSpace x) eqn:Hx; [done |]. by intros [= <- _]. }
  simpl in H. rewrite forallb_app in H. simpl in H. rewrite Hr in H. by apply andb_true_iff in H as [_ [=]].
Qed.

(** Lower case, as far as comparing with an ASCII word goes: the ASCII letters,
    and the two runes from outside that [unicode.ToLower] maps into ASCII
    (U+0130 to i and U+212A to k). *)
Definition to_lower (r : Z) : Z :=
  (if (65 <=? r) && (r <=? 90) then r + 32 else if r =? 304 then 105 else if r =? 8490 then 107 else r)%Z.

(** [unicode.ToUpper], the simple upper-case mapping of Unicode: in a row (lo,
    hi, stride, delta), every stride-th rune from lo to hi is moved by delta. *)
Definition upper_ranges : list (Z * Z * Z * Z) :=
  [(97,122,1,-32); (181,181,1,743); (224,246,1,-32); (248,254,1,-32); (255,255,1,121); (257,303,2,-1);
   (305,305,1,-232); (307,311,2,-1); (314,328,2,-1); (331,375,2,-1); (378,382,2,-1); (383,383,1,-300);
   (384,384,1,195); (387,389,2,-1); (392,392,1,-1); (396,396,1,-1); (402,402,1,-1); (405,405,1,97); (409,409,1,-1);
   (410,410,1,163); (414,414,1,130); (417,421,2,-1); (424,424,1,-1); (429,429,1,-1); (432,432,1,-1);
   (436,438,2,-1); (441,441,1,-1); (445,445,1,-1); (447,447,1,56); (453,453,1,-1); (454,454,1,-2); (456,456,1,-1);
   (457,457,1,-2); (459,459,1,-1); (460,460,1,-2); (462,476,2,-1); (477,477,1,-79); (479,495,2,-1); (498,498,1,-1);
   (499,499,1,-2); (501,501,1,-1); (505,543,2,-1); (547,563,2,-1); (572,572,1,-1); (575,576,1,10815);
   (578,578,1,-1); (583,591,2,-1); (592,592,1,10783); (593,593,1,10780); (594,594,1,10782); (595,595,1,-210);
   (596,596,1,-206); (598,599,1,-205); (601,601,1,-202); (603,603,1,-203); (604,604,1,42319); (608,608,1,-205);
   (609,609,1,42315); (611,611,1,-207); (613,613,1,42280); (614,614,1,42308); (616,616,1,-209); (617,617,1,-211);
   (618,618,1,42308); (619,619,1,10743); (620,620,1,42305); (623,623,1,-211); (625,625,1,10749); (626,626,1,-213);
   (629,629,1,-214); (637,637,1,10727); (640,640,1,-218); (642,642,1,42307); (643,643,1,-218); (647,647,1,42282);
   (648,648,1,-218); (649,649,1,-69); (650,651,1,-217); (652,652,1,-71); (658,658,1,-219); (669,669,1,42261);
   (670,670,1,42258); (837,837,1,84); (881,883,2,-1); (887,887,1,-1); (891,893,1,130); (940,940,1,-38);
   (941,943,1,-37); (945,961,1,-32); (962,962,1,-31); (963,971,1,-32); (972,972,1,-64); (973,974,1,-63);
   (976,976,1,-62); (977,977,1,-57); (981,981,1,-47); (982,982,1,-54); (983,983,1,-8); (985,1007,2,-1);
   (1008,1008,1,-86); (1009,1009,1,-80); (1010,1010,1,7); (1011,1011,1,-116); (1013,1013,1,-96); (1016,1016,1,-1);
   (1019,1019,1,-1); (1072,1103,1,-32); (1104,1119,1,-80); (1121,1153,2,-1); (1163,1215,2,-1); (1218,1230,2,-1);
   (1231,1231,1,-15); (1233,1327,2,-1); (1377,1414,1,-48); (4304,4346,1,3008); (4349,4351,1,3008);
   (5112,5117,1,-8); (7296,7296,1,-6254); (7297,7297,1,-6253); (7298,7298,1,-6244); (7299,7300,1,-6242);
   (7301,7301,1,-6243); (7302,7302,1,-6236); (7303,7303,1,-6181); (7304,7304,1,35266); (7545,7545,1,35332);
   (7549,7549,1,3814); (7566,7566,1,35384); (7681,7829,2,-1); (7835,7835,1,-59); (7841,7935,2,-1); (7936,7943,1,8);
   (7952,7957,1,8); (7968,7975,1,8); (7984,7991,1,8); (8000,8005,1,8); (8017,8023,2,8); (8032,8039,1,8);
   (8048,8049,1,74); (8050,8053,1,86); (8054,8055,1,100); (8056,8057,1,128); (8058,8059,1,112); (8060,8061,1,126);
   (8064,8071,1,8); (8080,8087,1,8); (8096,8103,1,8); (8112,8113,1,8); (8115,8115,1,9); (8126,8126,1,-7205);
   (8131,8131,1,9); (8144,8145,1,8); (8160,8161,1,8); (8165,8165,1,7); (8179,8179,1,9); (8526,8526,1,-28);
   (8560,8575,1,-16); (8580,8580,1,-1); (9424,9449,1,-26); (11312,11359,1,-48); (11361,11361,1,-1);
   (11365,11365,1,-10795); (11366,11366,1,-10792); (11368,11372,2,-1); (11379,11379,1,-1); (11382,11382,1,-1);
   (11393,11491,2,-1); (11500,11502,2,-1); (11507,11507,1,-1); (11520,11557,1,-7264); (11559,11559,1,-7264);
   (11565,11565,1,-7264); (42561,42605,2,-1); (42625,42651,2,-1); (42787,42799,2,-1); (42803,42863,2,-1);
   (42874,42876,2,-1); (42879,42887,2,-1); (42892,42892,1,-1); (42897,42899,2,-1); (42900,42900,1,48);
   (42903,42921,2,-1); (42933,42947,2,-1); (42952,42954,2,-1); (42961,42961,1,-1); (42967,42969,2,-1);
   (42998,42998,1,-1); (43859,43859,1,-928); (43888,43967,1,-38864); (65345,65370,1,-32); (66600,66639,1,-40);
   (66776,66811,1,-40); (66967,66977,1,-39); (66979,66993,1,-39); (66995,67001,1,-39); (67003,67004,1,-39);
   (68800,68850,1,-64); (71872,71903,1,-32); (93792,93823,1,-32); (125218,125251,1,-34)]%Z.

Definition in_range (r : Z) (row : Z * Z * Z * Z) : bool :=
  let '(lo, hi, stride, _) := row in ((lo <=? r) && (r <=? hi) && ((r - lo) mod stride =? 0))%Z.

Definition to_upper (r : Z) : Z :=
  match find_first (in_range r) upper_ranges with
  | Some (_, _, _, delta) => (r + delta)%Z
  | None => r
  end.

Example to_upper_cases :
  to_upper <$> [98; 66; 45; 305; 383; 233; 255; 454; 957; 1078; 7936; 66560 + 40]%Z
  = [66; 66; 45; 73; 83; 201; 376; 452; 925; 1046; 7944; 66560]%Z.
Proof. vm_compute. reflexivity. Qed.

(** ** strconv.Atoi *)

Definition digit (c : ascii) : option Z :=
  let b := byte_val c in if ((48 <=? b) && (b <=? 57))%Z then Some (b - 48)%Z else None.

Fixpoint digits (acc : Z) (s : string) : option Z :=
  match s with
  | EmptyString => Some acc
  | String c s' => d ← digit c; digits (acc * 10 + d) s'
  end.

(** A sign, at least one digit, digits only, and a value that is an [int]. *)
Definition Atoi (s : string) : option Z :=
  let '(neg, ds) := match s with
                    | String c r => if Ascii.eqb c "-"%char then (true, r)
                                    else if Ascii.eqb c "+"%char then (false, r) else (false, s)
                    | EmptyString => (false, s)
                    end in
  match ds with
  | EmptyString => None
  | _ => n ← digits 0 ds; let v := (if neg then - n else n)%Z in
         if decide (in_int64 v) then Some v else None
  end.

Lemma Atoi_range s v : Atoi s = Some v -> in_int64 v.
Proof.
  unfold Atoi. intros H. destruct (match s with EmptyString => _ | String _ _ => _ end) as [neg ds].
  destruct ds as [| c ds]; [done |]. destruct (digits 0 (String c ds)); [| done]. simpl in H.
  by case_decide; simplify_eq.
Qed.

Lemma digits_app acc a b : digits acc (a +:+ b) = digits acc a ≫= fun n => digits n b.
Proof.
  revert acc. induction a as [| c a IH]; intros acc; [done |]. rewrite string_app_cons. cbn [digits].
  destruct (digit c); simpl; [apply IH | done].
Qed.
