(* ===== verification/Logger.v ===== *)
(** * Logger: the structured logger (internal/logger.go)

    A log call is the line it writes, or nothing below the level.  A Go string
    literal in back quotes is a Rocq string; the double quote character is the
    byte 34 ([quote]). *)

From S2P Require Import Prelude GoStrings Utf8.

Definition quote : string := String (of_byte 34) "".
Definition backslash : string := String (of_byte 92) "".

(** ** Levels *)

Definition lvlDebug : Z := 0.
Definition lvlInfo : Z := 1.
Definition lvlWarn : Z := 2.
Definition lvlError : Z := 3.

Record logger := mkLogger { level : Z }.

(** [switch strings.ToLower(strings.TrimSpace(level))]. *)
Definition NewLogger (lvl : string) : logger :=
  let s := to_lower <$> TrimSpace (runes lvl) in
  mkLogger (if bool_decide (s = runes "debug") then lvlDebug
            else if bool_decide (s = runes "warn") then lvlWarn
            else if bool_decide (s = runes "error") then lvlError
            else lvlInfo).

(** ** Integers *)

(** [for v > 0 { i--; buf[i] = byte('0' + v%10); v /= 10 }] on a buffer of 20
    bytes: [i] slots are free, [acc] is the text written so far. *)
Fixpoint itoa_loop (i : nat) (v : Z) (acc : string) : outcome (nat * string) :=
  if (0 <? v)%Z then
    match i with
    | O => Panic "index out of range"
    | S i' => itoa_loop i' (v / 10)%Z (String (of_byte (48 + v mod 10)) acc)
    end
  else Ret (i, acc).

Definition itoa (v : Z) : outcome string :=
  if (v =? 0)%Z then Ret "0" else
  let neg := (v <? 0)%Z in
  let v' := if neg then wrap64 (- v) else v in
  '(i, s) ← itoa_loop 20 v' "";
  if neg then match i with O => Panic "index out of range" | S _ => Ret (String "-"%char s) end
  else Ret s.

(** ** Fields *)

Inductive field_value :=
  | VString (s : string)
  | VInt (v : Z)
  | VError (msg : string)
  | VOther.               (* any other dynamic type *)

Record field := mkField { field_k : string; field_v : field_value }.

Definition FStr (k v : string) : field := mkField k (VString v).
Definition fInt (k : string) (v : Z) : field := mkField k (VInt v).
Definition FErr (err : string) : field := mkField "err" (VString err).

Definition hex_digit (n : Z) : string := String (of_byte (if (n <? 10)%Z then 48 + n else 87 + n)) "".

(** The text written for one rune. *)
Definition escape_rune (r : Z) : string :=
  (if r =? 34 then backslash +:+ quote
   else if r =? 92 then backslash +:+ backslash
   else if r =? 10 then backslash +:+ "n"
   else if r =? 13 then backslash +:+ "r"
   else if r =? 9 then backslash +:+ "t"
   else if r <? 32 then backslash +:+ "u00" +:+ hex_digit (Z.shiftr r 4) +:+ hex_digit (Z.land r 15)
   else encode_rune r)%Z.

Definition jsonEscape (s : string) : string :=
  foldr (fun r acc => escape_rune r +:+ acc) "" (runes s).

Definition formatAny : string := "".

Definition field_json (f : field) : outcome string :=
  match field_v f with
  | VString v => Ret (quote +:+ jsonEscape v +:+ quote)
  | VInt v => itoa v
  | VError m => Ret (quote +:+ jsonEscape m +:+ quote)
  | VOther => Ret (quote +:+ jsonEscape formatAny +:+ quote)
  end.

Fixpoint log_fields (fields : list field) : outcome string :=
  match fields with
  | [] => Ret ""
  | f :: fs =>
      j ← field_json f;
      rest ← log_fields fs;
      Ret ("," +:+ quote +:+ jsonEscape (field_k f) +:+ quote +:+ ":" +:+ j +:+ rest)
  end.

(** [l.log]: the line given to the standard logger, if any. *)
Definition logger_log (l : logger) (lvl : Z) (msg : string) (fields : list field)
  : outcome (option string) :=
  if (lvl <? level l)%Z then Ret None else
  fs ← log_fields fields;
  Ret (Some ("{" +:+ quote +:+ "msg" +:+ quote +:+ ":" +:+ quote +:+ jsonEscape msg +:+ quote +:+ fs +:+ "}")).

Definition Debug (l : logger) := logger_log l lvlDebug.
Definition Info (l : logger) := logger_log l lvlInfo.
Definition Warn (l : logger) := logger_log l lvlWarn.
Definition Error (l : logger) := logger_log l lvlError.

(** ** Integers are printed so that they read back *)

Lemma digit_of_byte d : (0 <= d < 10)%Z -> digit (of_byte (48 + d)) = Some d.
Proof.
  intros Hd. unfold digit. rewrite byte_val_of_byte by lia.
  destruct ((48 <=? 48 + d) && (48 + d <=? 57))%Z eqn:H; [f_equal; lia | lia].
Qed.

(** The loop writes the digits of [v] in front of [acc], in at most [n] slots
    when [v < 10 ^ n]. *)
Lemma itoa_loop_digits n : forall i v acc, (0 <= v < 10 ^ Z.of_nat n)%Z -> (n <= i)%nat ->
  exists ds, itoa_loop i v acc = Ret ((i - String.length ds)%nat, ds +:+ acc) /\
    (String.length ds <= n)%nat /\ digits 0 ds = Some v /\ (0 < v -> ds <> "")%Z.
Proof.
  induction n as [| n IH]; intros i v acc Hv Hi.
  { assert (v = 0)%Z as -> by (simpl in Hv; lia). exists "". rewrite Nat.sub_0_r.
    split; [by destruct i | done]. }
  destruct (0 <? v)%Z eqn:Hpos; zbool.
  - destruct i as [| i]; [lia |].
    destruct (IH i (v / 10)%Z (String (of_byte (48 + v mod 10)) acc)) as (ds & Hl & Hlen & Hd & _).
    { rewrite Nat2Z.inj_succ, Z.pow_succ_r in Hv by lia. Z.div_mod_to_equations. lia. }
    { lia. }
    exists (ds +:+ String (of_byte (48 + v mod 10)) ""). cbn [itoa_loop].
    apply Z.ltb_lt in Hpos as ->. rewrite Hl, string_app_assoc, string_app_length. cbn [String.length].
    split; [do 2 f_equal; lia |]. split; [lia |]. split.
    + rewrite digits_app, Hd. cbn [mbind option_bind digits].
      rewrite digit_of_byte by (Z.div_mod_to_equations; lia). cbn [mbind option_bind].
      f_equal. Z.div_mod_to_equations. lia.
    + by destruct ds.
  - assert (v = 0)%Z as -> by lia. exists "". rewrite Nat.sub_0_r. split; [by destruct i |].
    split; [simpl; lia | done].
Qed.

Lemma digits_first n s c v : digit c = None -> digits n (String c s) <> Some v.
Proof. intros Hc. cbn [digits]. by rewrite Hc. Qed.

(** A string of digits does not start with a sign. *)
Lemma Atoi_digits ds v : ds <> "" -> digits 0 ds = Some v -> in_int64 v -> Atoi ds = Some v.
Proof.
  intros Hne Hd Hv. destruct ds as [| c ds]; [done |]. unfold Atoi.
  destruct (Ascii.eqb_spec c "-"%char) as [-> | _].
  { by destruct (digits_first 0 ds "-"%char v eq_refl). }
  destruct (Ascii.eqb_spec c "+"%char) as [-> | _].
  { by destruct (digits_first 0 ds "+"%char v eq_refl). }
  rewrite Hd. simpl. by rewrite decide_True.
Qed.

Lemma itoa_loop_20 v : (0 < v <= max_int64)%Z ->
  exists i ds, itoa_loop 20 v "" = Ret (S i, ds) /\ ds <> "" /\ digits 0 ds = Some v.
Proof.
  intros Hv. destruct (itoa_loop_digits 19 20 v "") as (ds & Hl & Hlen & Hd & Hne); [| lia |].
  { unfold max_int64 in Hv. lia. }
  rewrite string_app_nil_r in Hl. exists (19 - String.length ds)%nat, ds.
  replace (S (19 - String.length ds)) with (20 - String.length ds)%nat by lia.
  split; [done |]. split; [apply Hne; lia | done].
Qed.

(** [itoa] never runs out of its buffer and prints every integer so that
    it reads back, except the smallest one, whose negation overflows: it is
    printed as a lone minus sign. *)
Theorem itoa_roundtrip v : in_int64 v ->
  exists s, itoa v = Ret s /\ (if (v =? min_int64)%Z then s = "-" else Atoi s = Some v).
Proof.
  intros Hv. unfold itoa. destruct (v =? 0)%Z eqn:H0; zbool; [subst v; by exists "0" |].
  destruct (v <? 0)%Z eqn:Hneg; zbool.
  - destruct (v =? min_int64)%Z eqn:Hmin; zbool; [subst v; by exists "-" |].
    rewrite wrap64_id by (unfold in_int64, min_int64, max_int64 in *; lia).
    destruct (itoa_loop_20 (- v)) as (i & ds & -> & Hne & Hd); [unfold in_int64, min_int64, max_int64 in *; lia |].
    exists (String "-"%char ds). split; [done |]. unfold Atoi. cbn [Ascii.eqb]. simpl.
    destruct ds as [| c ds]; [done |]. rewrite Hd. simpl. rewrite Z.opp_involutive. by rewrite decide_True.
  - destruct (v =? min_int64)%Z eqn:Hmin; zbool; [unfold min_int64 in Hmin; lia |].
    destruct (itoa_loop_20 v) as (i & ds & -> & Hne & Hd); [unfold in_int64 in *; lia |].
    exists ds. split; [done |]. by apply Atoi_digits.
Qed.

Lemma itoa_roundtrip_witness :
  itoa (-1205) = Ret "-1205" /\ itoa min_int64 = Ret "-" /\
  exists s, itoa 404 = Ret s /\ (if (404 =? min_int64)%Z then s = "-" else Atoi s = Some 404%Z).
Proof.
  split; [vm_compute; reflexivity |]. split; [vm_compute; reflexivity |].
  apply (itoa_roundtrip 404). unfold in_int64, min_int64, max_int64. lia.
Defined.

(** ** Strings are escaped so that they read back *)

Definition hex_val (r : Z) : option Z :=
  (if (48 <=? r) && (r <=? 57) then Some (r - 48)
   else if (97 <=? r) && (r <=? 102) then Some (r - 87) else None)%Z.

(** The JSON reader of a string body: up to the closing quote, with the escape
    sequences of RFC 8259 that a writer of ASCII escapes needs; a raw quote
    ends the string, a raw control character or an unknown escape is an
    error. *)
Fixpoint json_read (rs : list Z) : option (list Z * list Z) :=
  match rs with
  | [] => None
  | 34%Z :: rest => Some ([], rest)
  | 92%Z :: e :: rest =>
      if bool_decide (e ∈ [34; 92; 47]%Z) then '(s, r) ← json_read rest; Some (e :: s, r)
      else if (e =? 110)%Z then '(s, r) ← json_read rest; Some (10%Z :: s, r)
      else if (e =? 114)%Z then '(s, r) ← json_read rest; Some (13%Z :: s, r)
      else if (e =? 116)%Z then '(s, r) ← json_read rest; Some (9%Z :: s, r)
      else if (e =? 117)%Z then
        match rest with
        | h1 :: h2 :: h3 :: h4 :: rest' =>
            a ← hex_val h1; b ← hex_val h2; c ← hex_val h3; d ← hex_val h4;
            '(s, r) ← json_read rest'; Some ((((a * 16 + b) * 16 + c) * 16 + d)%Z :: s, r)
        | _ => None
        end
      else None
  | 92%Z :: [] => None
  | r0 :: rest => if (r0 <? 32)%Z then None else '(s, r) ← json_read rest; Some (r0 :: s, r)
  end.

Lemma runes_escape r s : scalar r = true -> exists e,
  runes (escape_rune r +:+ s) = e ++ runes s /\
  forall rest, json_read (e ++ rest) = '(x, t) ← json_read rest; Some (r :: x, t).
Proof.
  intros Hr. unfold escape_rune.
  destruct (r =? 34)%Z eqn:H1; zbool; [subst r; by exists [92; 34]%Z |].
  destruct (r =? 92)%Z eqn:H2; zbool; [subst r; by exists [92; 92]%Z |].
  destruct (r =? 10)%Z eqn:H3; zbool; [subst r; by exists [92; 110]%Z |].
  destruct (r =? 13)%Z eqn:H4; zbool; [subst r; by exists [92; 114]%Z |].
  destruct (r =? 9)%Z eqn:H5; zbool; [subst r; by exists [92; 116]%Z |].
  destruct (r <? 32)%Z eqn:H6; zbool.
  - exists ([92; 117; 48; 48] ++ runes (hex_digit (Z.shiftr r 4)) ++ runes (hex_digit (Z.land r 15)))%Z.
    assert (0 <= r < 32)%Z as Hlt by (unfold scalar in Hr; lia). clear Hr H1 H2 H3 H4 H5 H6.
    assert (r ∈ seqZ 0 32) as Hin by (apply elem_of_seqZ; lia).
    unfold seqZ in Hin. cbn in Hin. repeat (apply elem_of_cons in Hin as [-> | Hin]; [by split |]).
    by apply elem_of_nil in Hin.
  - exists [r]. rewrite runes_encode by done. split; [done |]. intros rest. cbn [app].
    assert (r = 34 \/ r = 92 \/ (r <> 34 /\ r <> 92))%Z as [-> | [-> | [Ha Hb]]] by lia; [lia | lia |].
    assert (json_read (r :: rest) = if (r <? 32)%Z then None else '(x, t) ← json_read rest; Some (r :: x, t)) as ->.
    { cbn [json_read]. clear - Ha Hb. destruct r as [| p |]; [done | | done].
      do 7 (destruct p as [p | p |]; try done). }
    assert ((r <? 32)%Z = false) as -> by lia. done.
Qed.

(** C40: the text [jsonEscape] produces is the body of a JSON string that
    reads back to the runes of the input: followed by a closing quote and
    anything else, a reader stops at that quote and at no earlier one, so a
    logged value cannot forge a field or a line. *)
Theorem jsonEscape_roundtrip (s t : string) :
  json_read (runes (jsonEscape s +:+ quote +:+ t)) = Some (runes s, runes t).
Proof.
  unfold jsonEscape. pose proof (runes_scalar s) as Hs. induction (runes s) as [| r rs IH]; simpl.
  { reflexivity. }
  simpl in Hs. apply andb_true_iff in Hs as [Hr Hrs]. rewrite string_app_assoc.
  destruct (runes_escape r (foldr (fun r acc => escape_rune r +:+ acc) "" rs +:+ quote +:+ t) Hr) as (e & -> & He).
  rewrite He, IH by done. done.
Qed.

(** A message with a quote and a newline in it, at the levels of a server. *)
Example log_line :
  Info (NewLogger " INFO ") (encode_runes [34; 10]%Z) [fInt "n" 7] =
    Ret (Some (encode_runes [123; 34; 109; 115; 103; 34; 58; 34; 92; 34; 92; 110; 34; 44; 34; 110; 34; 58; 55; 125]%Z)) /\
  Debug (NewLogger "info") "x" [] = Ret None.
Proof. vm_compute. done. Qed.
