(* ===== verification/Otel.v ===== *)
(** * Otel: telemetry start-up (internal/otel/otel.go)

    [Init] as a decision on the environment: which providers become global,
    which function the process must call at its end, or which error stops it.
    Building a resource or an exporter is the OpenTelemetry SDK's: parameters,
    which may fail. *)

From S2P Require Import Prelude GoStrings Utf8 Config.

Section otel.
Context {Resource SpanExporter MetricExporter : Type}.
(* [resource.Merge] of the default resource with the service's name *)
Variable resource_for : string -> result Resource string.
(* [otlptracegrpc.New] and [otlpmetricgrpc.New] at an endpoint, insecure *)
Variable otlptracegrpc_New : string -> result SpanExporter string.
Variable otlpmetricgrpc_New : string -> result MetricExporter string.

(** The providers: of the SDK without exporter, the no-op one, or exporting
    every ten seconds. *)
Inductive tracerProvider := PlainTracers | BatchTracers (e : SpanExporter) (timeout : duration) (r : Resource).
Inductive meterProvider := NoopMeters | PeriodicMeters (e : MetricExporter) (interval : duration) (r : Resource).

Inductive propagator := TraceContext | Baggage.

(** What [otel.Set...] change; [None] until set. *)
Record globals := mkGlobals {
  g_tracers : option tracerProvider;
  g_meters : option meterProvider;
  g_propagators : list propagator;
}.

(** The returned function: nothing to do, or both providers to shut down. *)
Inductive shutdown := ShutdownNothing | ShutdownBoth.

Definition trim (s : string) : string := encode_runes (TrimSpace (runes s)).

(** The endpoint without its scheme. *)
Definition endpoint_host (endpoint : string) : string :=
  strings_TrimPrefix (strings_TrimPrefix endpoint "http://") "grpc://".

Definition Init (env : string -> option string) (serviceName : string) (g : globals)
  : globals * result shutdown string :=
  let endpoint := trim (Getenv env "OTEL_EXPORTER_OTLP_ENDPOINT") in
  if String.eqb endpoint "" then
    (mkGlobals (Some PlainTracers) (Some NoopMeters) [TraceContext; Baggage], Ok ShutdownNothing)
  else
    let name := trim (Getenv env "OTEL_SERVICE_NAME") in
    let serviceName := if String.eqb name "" then serviceName else name in
    let endpoint := endpoint_host endpoint in
    match resource_for serviceName with
    | Err e => (g, Err ("otel resource: " +:+ e))
    | Ok res =>
        match otlptracegrpc_New endpoint with
        | Err e => (g, Err ("otel trace exporter: " +:+ e))
        | Ok spanExp =>
            match otlpmetricgrpc_New endpoint with
            | Err e => (g, Err ("otel metric exporter: " +:+ e))
            | Ok metricExp =>
                (mkGlobals (Some (BatchTracers spanExp (10 * Second) res))
                   (Some (PeriodicMeters metricExp (10 * Second) res)) [TraceContext; Baggage],
                 Ok ShutdownBoth)
            end
        end
    end.

(** Running the returned function; [tp] and [mp] are the errors of the two
    providers' own shutdowns, both of which are tried. *)
Definition run_shutdown (f : shutdown) (tp mp : option string) : option string :=
  match f with
  | ShutdownNothing => None
  | ShutdownBoth =>
      let traceErr := (fun e => "trace shutdown: " +:+ e) <$> tp in
      let metricErr := (fun e => "metric shutdown: " +:+ e) <$> mp in
      match traceErr with Some e => Some e | None => metricErr end
  end.

(** Telemetry start-up.  Without an endpoint nothing is dialed and the
    shutdown has nothing to do; with one, either every step succeeded and both
    exporting providers are installed for the same resource, or the first
    failing step is reported and the global providers are left alone; in every
    case the shutdown fails exactly when one of the installed exporters'
    providers does, and reports the tracer's error first. *)
Theorem Init_correct env serviceName g :
  let endpoint := trim (Getenv env "OTEL_EXPORTER_OTLP_ENDPOINT") in
  let name := trim (Getenv env "OTEL_SERVICE_NAME") in
  let '(g', out) := Init env serviceName g in
  match out with
  | Ok ShutdownNothing => endpoint = "" /\ g_tracers g' = Some PlainTracers /\ g_meters g' = Some NoopMeters
  | Ok ShutdownBoth => endpoint <> "" /\
      exists res e1 e2, resource_for (if String.eqb name "" then serviceName else name) = Ok res /\
        otlptracegrpc_New (endpoint_host endpoint) = Ok e1 /\ otlpmetricgrpc_New (endpoint_host endpoint) = Ok e2 /\
        g_tracers g' = Some (BatchTracers e1 (10 * Second) res) /\
        g_meters g' = Some (PeriodicMeters e2 (10 * Second) res)
  | Err _ => endpoint <> "" /\ g' = g /\
      ((exists e, resource_for (if String.eqb name "" then serviceName else name) = Err e) \/
       (exists e, otlptracegrpc_New (endpoint_host endpoint) = Err e) \/
       (exists e, otlpmetricgrpc_New (endpoint_host endpoint) = Err e))
  end /\
  (forall f tp mp, out = Ok f ->
     (run_shutdown f tp mp = None <-> f = ShutdownNothing \/ (tp = None /\ mp = None)) /\
     (f = ShutdownBoth -> forall e, tp = Some e -> run_shutdown f tp mp = Some ("trace shutdown: " +:+ e))).
Proof.
  assert (forall f tp mp, (run_shutdown f tp mp = None <-> f = ShutdownNothing \/ (tp = None /\ mp = None)) /\
    (f = ShutdownBoth -> forall e, tp = Some e -> run_shutdown f tp mp = Some ("trace shutdown: " +:+ e))) as Hs.
  { intros [|] [tp |] [mp |]; cbn; split; naive_solver. }
  cbv zeta. unfold Init. destruct (String.eqb_spec (trim (Getenv env "OTEL_EXPORTER_OTLP_ENDPOINT")) "") as [He | He].
  { split; [done | intros; apply Hs]. }
  destruct (resource_for _) as [res | e] eqn:Hr; [| split; [eauto 10 | done]].
  destruct (otlptracegrpc_New _) as [e1 | e] eqn:Ht; [| split; [eauto 10 | done]].
  destruct (otlpmetricgrpc_New _) as [e2 | e] eqn:Hm; [| split; [eauto 10 | done]].
  split; [eauto 10 | intros; apply Hs].
Qed.

End otel.
Arguments globals Resource SpanExporter MetricExporter : clear implicits.

(** Only two schemes are removed: the host of an https URL keeps it. *)
Example endpoint_schemes :
  map endpoint_host ["http://collector:4317"; "grpc://collector:4317"; "http://grpc://c"; "https://collector:4317"]
  = ["collector:4317"; "collector:4317"; "c"; "https://collector:4317"].
Proof. vm_compute. reflexivity. Qed.
