(* ===== verification/Metrics.v ===== *)
(** * Metrics: request labels and counters (internal/metrics.go)

    The collectors, the label a request is counted under and the middleware
    that counts it.
    The Prometheus registry is third-party code; the collectors other
    components increment are fields of those components' states. *)

From S2P Require Import Prelude GoStrings Utf8 Logger.

(** [splitN]: [seg] is the segment being read, [out] the finished ones; after
    [n - 1] of them the rest is the last. *)
Fixpoint splitN_loop (sep : ascii) (n : Z) (s seg : string) (out : list string) : list string :=
  match s with
  | EmptyString => out ++ [seg]
  | String c s' =>
      if Ascii.eqb c sep then
        let out := out ++ [seg] in
        if ((0 <? n) && (n <=? Z.of_nat (length out) + 1))%Z then out ++ [s'] else splitN_loop sep n s' "" out
      else splitN_loop sep n s' (seg +:+ String c "") out
  end.

Definition splitN (s : string) (sep : ascii) (n : Z) : list string := splitN_loop sep n s "" [].

Definition labeledPath (p : string) : string :=
  match TrimPrefix "/v1/quotes/" p with
  | Some rest =>
      let parts := splitN rest "/"%char 3 in
      if bool_decide (length parts = 1%nat) && negb (bool_decide (parts !! 0%nat = Some "")) then "/v1/quotes/:id"
      else if bool_decide (length parts = 2%nat) && bool_decide (parts !! 1%nat = Some "refresh")
      then "/v1/quotes/:id/refresh"
      else "/v1/quotes/*"
  | None =>
      if HasPrefix p "/internal/v1/quotes/" then "/internal/v1/quotes/:id/claim"
      else if bool_decide (p = "/v1/fee-schedules") || bool_decide (p = "/v1/rate-sources") then p
      else p
  end.

(** [statusRecorder]: 200 until the handler writes a header; the last one
    written is kept. *)
Definition statusRecorder (written : list Z) : Z := List.last written 200%Z.

Record httpMetrics := mkHttpMetrics {
  quoteRequestSeconds : gmap string (list Z);          (* observations by path *)
  quoteStatusTotal : gmap (string * string) Z;         (* by path and code *)
}.

(** [metricsMiddleware], after the handler has run. *)
Definition metricsMiddleware (path : string) (written : list Z) (start finish : Z) (m : httpMetrics)
  : outcome httpMetrics :=
  let label := labeledPath path in
  code ← itoa (statusRecorder written);
  Ret (mkHttpMetrics
         (<[label := default [] (quoteRequestSeconds m !! label) ++ [time_Since finish start]]> (quoteRequestSeconds m))
         (<[(label, code) := (default 0 (quoteStatusTotal m !! (label, code)) + 1)%Z]> (quoteStatusTotal m))).

(** ** The collectors *)

Inductive collector_kind := KCounter | KCounterVec | KGauge | KHistogram | KHistogramVec.

Record collector := mkCollector {
  co_field : string;              (* the field of [metrics] *)
  co_kind : collector_kind;
  co_name : string;
  co_labels : list string;
}.

Definition namespace : string := "pricing".

(** [newMetrics], in the order of registration. *)
Definition newMetrics : list collector :=
  [mkCollector "spotCacheHits" KCounter "spot_cache_hits" [];
   mkCollector "spotCacheMisses" KCounter "spot_cache_misses" [];
   mkCollector "spotPollTotal" KCounterVec "spot_poll_total" ["result"];
   mkCollector "spotPubsubLagMs" KGauge "spot_pubsub_lag_ms" [];
   mkCollector "loadedSchedules" KGauge "loaded_fee_schedules" [];
   mkCollector "quoteRequestSeconds" KHistogramVec "quote_request_seconds" ["path"];
   mkCollector "quoteStatusTotal" KCounterVec "quote_response_total" ["path"; "code"];
   mkCollector "quoteSourceStale" KCounter "quote_source_stale" [];
   mkCollector "venueFailover" KCounterVec "venue_failover_total" ["from"; "to"];
   mkCollector "wsActiveConnections" KGauge "ws_active_connections" [];
   mkCollector "wsMessagesSent" KCounter "ws_messages_sent" [];
   mkCollector "wsMessagesDropped" KCounter "ws_messages_dropped" [];
   mkCollector "fxLookupSeconds" KHistogram "fx_lookup_seconds" [];
   mkCollector "claimTotal" KCounterVec "claim_total" ["result"]].

Definition fq_name (c : collector) : string := namespace +:+ "_" +:+ co_name c.

(** What the registry accepts: a letter or an underscore, then letters, digits
    and underscores. *)
Definition name_char (c : ascii) : bool :=
  let b := byte_val c in
  (((97 <=? b) && (b <=? 122)) || ((65 <=? b) && (b <=? 90)) || (b =? 95) || ((48 <=? b) && (b <=? 57)))%Z.

Fixpoint all_chars (p : ascii -> bool) (s : string) : bool :=
  match s with EmptyString => true | String c s' => p c && all_chars p s' end.

Definition valid_name (s : string) : bool :=
  match s with
  | EmptyString => false
  | String c _ => all_chars name_char s && negb (bool_decide (is_Some (digit c)))
  end.

(** A vector has labels and nothing else has. *)
Definition labels_fit (c : collector) : bool :=
  match co_kind c with
  | KCounterVec | KHistogramVec => negb (bool_decide (co_labels c = []))
  | _ => bool_decide (co_labels c = [])
  end.

(** Registration at start-up cannot panic: the names are valid and no two
    collectors share one. *)
Lemma newMetrics_register :
  NoDup (fq_name <$> newMetrics) /\ NoDup (co_field <$> newMetrics) /\
  forallb (fun c => valid_name (fq_name c) && forallb valid_name (co_labels c) && labels_fit c) newMetrics = true.
Proof. split; [| split]; [by apply (bool_decide_unpack _) | by apply (bool_decide_unpack _) | by vm_compute]. Qed.

(** Without a limit, joining the parts gives the string back. *)
Fixpoint join (sep : ascii) (l : list string) : string :=
  match l with
  | [] => ""
  | [a] => a
  | a :: l' => a +:+ String sep (join sep l')
  end.

Lemma join_snoc sep out a b : join sep (out ++ [a; b]) = join sep (out ++ [a +:+ String sep b]).
Proof.
  induction out as [| x out IH]; [done |]. destruct out as [| y out]; [done |].
  change (join sep ((x :: y :: out) ++ [a; b])) with (x +:+ String sep (join sep ((y :: out) ++ [a; b]))).
  by rewrite IH.
Qed.

Lemma splitN_loop_join sep n s : forall seg out,
  join sep (splitN_loop sep n s seg out) = join sep (out ++ [seg +:+ s]).
Proof.
  induction s as [| c s IH]; intros seg out; cbn [splitN_loop].
  { by rewrite string_app_nil_r. }
  destruct (Ascii.eqb_spec c sep) as [-> | Hne].
  - case_match.
    + rewrite <- app_assoc. apply (join_snoc sep out seg s).
    + rewrite IH, <- app_assoc. apply (join_snoc sep out seg s).
  - rewrite IH, string_app_assoc. done.
Qed.

Lemma splitN_join s sep n : join sep (splitN s sep n) = s.
Proof. unfold splitN. by rewrite splitN_loop_join. Qed.

Lemma splitN_loop_none sep n s : forall seg out, has_byte sep s = false ->
  splitN_loop sep n s seg out = out ++ [seg +:+ s].
Proof.
  induction s as [| c s IH]; intros seg out; cbn [splitN_loop has_byte]; [by rewrite string_app_nil_r |].
  intros [Hc Hs]%orb_false_iff. rewrite Hc, IH by done. by rewrite string_app_assoc.
Qed.

(** The two routes of a quote have one label each, whatever the id. *)
Lemma labeledPath_quote id : id <> "" -> has_byte "/"%char id = false ->
  labeledPath ("/v1/quotes/" +:+ id) = "/v1/quotes/:id" /\
  labeledPath ("/v1/quotes/" +:+ id +:+ "/refresh") = "/v1/quotes/:id/refresh".
Proof.
  intros Hne Hid. unfold labeledPath. split.
  - rewrite (proj2 (TrimPrefix_Some "/v1/quotes/" _ id) eq_refl). unfold splitN.
    rewrite splitN_loop_none by done. change ([] ++ ["" +:+ id]) with [id]. cbn [length].
    rewrite bool_decide_true by done. rewrite bool_decide_false by (intros [= ?]; done). done.
  - rewrite (proj2 (TrimPrefix_Some "/v1/quotes/" _ (id +:+ "/refresh")) eq_refl).
    assert (splitN (id +:+ "/refresh") "/"%char 3 = [id; "refresh"]) as ->; [| done].
    unfold splitN. assert (forall seg, splitN_loop "/"%char 3 (id +:+ "/refresh") seg [] = [seg +:+ id; "refresh"]) as Hgo.
    { clear Hne. induction id as [| c id IH]; intros seg.
      - change ("" +:+ "/refresh") with "/refresh". cbn. by rewrite string_app_nil_r.
      - cbn [has_byte] in Hid. apply orb_false_iff in Hid as [Hc Hid]. rewrite string_app_cons. cbn [splitN_loop].
        rewrite Hc, IH by done. by rewrite string_app_assoc. }
    by rewrite Hgo.
Qed.

(** A path outside the routes is its own label: the set of labels is not
    bounded. *)
Example unknown_path_label : labeledPath "/no/such/path/17" = "/no/such/path/17".
Proof. vm_compute. reflexivity. Qed.
