(* ===== verification/Migrations.v ===== *)
(** * Migrations: schema migrations (internal/migrations)

    The database is what the migrations do to it: the versions recorded in
    [schema_migrations] and the schema, which a DDL script changes or fails on
    ([apply], the database's own).  Every statement may fail; the outcomes of
    the next statements are an argument of each run, and a transaction takes
    effect only at its commit. *)

From S2P Require Import Prelude.

Record migration := mkMigration { mg_name : string; mg_version : Z; mg_ddl : string }.

Section migrations.
Context {S : Type}.
Variable apply : string -> S -> option S.       (* None: the script is rejected *)

Record db := mkDb { versions : gset Z; schema : S }.

(** The next statements succeed as long as the list says so; then all do. *)
Definition next_ok (oks : list bool) : bool * list bool :=
  match oks with [] => (true, []) | b :: r => (b, r) end.

Inductive migrate_error :=
  | EnsureTable
  | CheckVersion (v : Z)
  | BeginTx (v : Z)
  | ApplyScript (name : string)
  | RecordVersion (v : Z)
  | CommitTx (v : Z)
  | FindLatest
  | NoDownScript (v : Z).

(** One migration of the loop of [Up]. *)
Definition up_one (m : migration) (oks : list bool) (d : db) : db * list bool * option migrate_error :=
  let '(ok, oks) := next_ok oks in
  if negb ok then (d, oks, Some (CheckVersion (mg_version m)))
  else if bool_decide (mg_version m ∈ versions d) then (d, oks, None)
  else
    let '(ok, oks) := next_ok oks in
    if negb ok then (d, oks, Some (BeginTx (mg_version m)))
    else
      let '(ok, oks) := next_ok oks in
      match (if ok then apply (mg_ddl m) (schema d) else None) with
      | None => (d, oks, Some (ApplyScript (mg_name m)))
      | Some s' =>
          let '(ok, oks) := next_ok oks in
          if negb ok then (d, oks, Some (RecordVersion (mg_version m)))
          else
            let '(ok, oks) := next_ok oks in
            if negb ok then (d, oks, Some (CommitTx (mg_version m)))
            else (mkDb ({[mg_version m]} ∪ versions d) s', oks, None)
      end.

Fixpoint up_loop (ms : list migration) (oks : list bool) (d : db) : db * option migrate_error :=
  match ms with
  | [] => (d, None)
  | m :: ms' =>
      let '(d, oks, err) := up_one m oks d in
      match err with Some e => (d, Some e) | None => up_loop ms' oks d end
  end.

Definition Up (upMigrations : list migration) (oks : list bool) (d : db) : db * option migrate_error :=
  let '(ok, oks) := next_ok oks in
  if negb ok then (d, Some EnsureTable) else up_loop upMigrations oks d.

(** [Down]: [latest] is what [ORDER BY version DESC LIMIT 1] finds. *)
Definition latest (vs : gset Z) : option Z :=
  match elements vs with
  | [] => None
  | v :: l => Some (fold_left Z.max l v)
  end.

Definition Down (downMigrations : list migration) (oks : list bool) (d : db) : db * option migrate_error :=
  let '(ok, oks) := next_ok oks in
  if negb ok then (d, Some EnsureTable)
  else
    let '(ok, oks) := next_ok oks in
    if negb ok then (d, Some FindLatest)
    else
      match latest (versions d) with
      | None => (d, None)
      | Some v =>
          match find_first (fun m => (mg_version m =? v)%Z) downMigrations with
          | None => (d, Some (NoDownScript v))
          | Some m =>
              if bool_decide (mg_ddl m = "") then (d, Some (NoDownScript v))
              else
                let '(ok, oks) := next_ok oks in
                if negb ok then (d, Some (BeginTx v))
                else
                  let '(ok, oks) := next_ok oks in
                  match (if ok then apply (mg_ddl m) (schema d) else None) with
                  | None => (d, Some (ApplyScript (mg_name m)))
                  | Some s' =>
                      let '(ok, oks) := next_ok oks in
                      if negb ok then (d, Some (RecordVersion v))
                      else
                        let '(ok, oks) := next_ok oks in
                        if negb ok then (d, Some (CommitTx v))
                        else (mkDb (versions d ∖ {[v]}) s', None)
                  end
          end
      end.

(** [upMigrations] and [downMigrations], given the embedded scripts. *)
Definition upMigrations (initUp : string) : list migration := [mkMigration "001_init.up.sql" 1 initUp].
Definition downMigrations (initDown : string) : list migration := [mkMigration "001_init.down.sql" 1 initDown].

(** ** What a run of [Up] leaves behind *)

(** The schema reached by applying, in order, the scripts of the migrations
    that are not recorded yet. *)
Inductive migrated : list migration -> db -> db -> Prop :=
  | migrated_nil d : migrated [] d d
  | migrated_skip m ms d d' : mg_version m ∈ versions d -> migrated ms d d' -> migrated (m :: ms) d d'
  | migrated_apply m ms d d' s' :
      mg_version m ∉ versions d -> apply (mg_ddl m) (schema d) = Some s' ->
      migrated ms (mkDb ({[mg_version m]} ∪ versions d) s') d' -> migrated (m :: ms) d d'.

Lemma up_one_cases m oks d d' oks' err : up_one m oks d = (d', oks', err) ->
  (err = None /\ mg_version m ∈ versions d /\ d' = d) \/
  (err = None /\ (mg_version m ∉ versions d) /\ exists s', apply (mg_ddl m) (schema d) = Some s' /\
     d' = mkDb ({[mg_version m]} ∪ versions d) s') \/
  ((exists e, err = Some e) /\ d' = d).
Proof.
  unfold up_one. destruct (next_ok oks) as [[|] ?]; simpl; [| intros [= <- <- <-]; eauto].
  case_bool_decide as Hv; [intros [= <- <- <-]; auto |].
  destruct (next_ok _) as [[|] ?]; simpl; [| intros [= <- <- <-]; eauto].
  destruct (next_ok _) as [[|] ?]; simpl; [| intros [= <- <- <-]; eauto].
  destruct (apply (mg_ddl m) (schema d)) as [s' |] eqn:Ha; [| intros [= <- <- <-]; eauto].
  destruct (next_ok _) as [[|] ?]; simpl; [| intros [= <- <- <-]; eauto].
  destruct (next_ok _) as [[|] ?]; simpl; [| intros [= <- <- <-]; eauto].
  intros [= <- <- <-]. right. left. eauto 6.
Qed.

(** A run applies a prefix of the list: the whole list when it reports no
    error. *)
Lemma up_loop_prefix ms : forall oks d d' err, up_loop ms oks d = (d', err) ->
  exists done_ rest, ms = done_ ++ rest /\ migrated done_ d d' /\ (err = None -> rest = []).
Proof.
  induction ms as [| m ms IH]; intros oks d d' err; cbn [up_loop].
  { intros [= <- <-]. exists [], []. split; [done |]. split; [constructor | done]. }
  destruct (up_one m oks d) as [[d1 oks1] err1] eqn:H1.
  destruct (up_one_cases _ _ _ _ _ _ H1) as [(-> & Hv & ->) | [(-> & Hv & s' & Ha & ->) | [[e ->] ->]]].
  - intros Hl. destruct (IH _ _ _ _ Hl) as (dn & rest & -> & Hm & He). exists (m :: dn), rest.
    split; [done |]. split; [by apply migrated_skip | done].
  - intros Hl. destruct (IH _ _ _ _ Hl) as (dn & rest & -> & Hm & He). exists (m :: dn), rest.
    split; [done |]. split; [by eapply migrated_apply | done].
  - intros [= <- <-]. exists [], (m :: ms). split; [done |]. split; [constructor | done].
Qed.

Lemma migrated_versions ms d d' : migrated ms d d' ->
  forall v, v ∈ versions d' <-> v ∈ versions d \/ v ∈ mg_version <$> ms.
Proof.
  induction 1 as [d | m ms d d' Hv _ IH | m ms d d' s' Hv Ha _ IH]; intros v.
  - cbn. rewrite elem_of_nil. tauto.
  - rewrite IH. cbn. rewrite elem_of_cons. split; [tauto |]. intros [? | [-> | ?]]; auto.
  - rewrite IH. cbn. rewrite elem_of_union, elem_of_singleton, elem_of_cons. tauto.
Qed.

(** A second run, with every version recorded, changes nothing. *)
Lemma up_loop_recorded ms : forall oks d, (forall m, m ∈ ms -> mg_version m ∈ versions d) ->
  fst (up_loop ms oks d) = d.
Proof.
  induction ms as [| m ms IH]; intros oks d Hall; cbn [up_loop]; [done |].
  destruct (up_one m oks d) as [[d1 oks1] err1] eqn:H1.
  destruct (up_one_cases _ _ _ _ _ _ H1) as [(-> & _ & ->) | [(_ & Hv & _) | [[e ->] ->]]].
  - apply IH. intros m' Hm. apply Hall. by right.
  - destruct Hv. apply Hall. by left.
  - done.
Qed.

(** A run that reports no error has recorded every version. *)
Lemma Up_versions ms oks d d' : Up ms oks d = (d', None) -> forall m, m ∈ ms -> mg_version m ∈ versions d'.
Proof.
  unfold Up. destruct (next_ok oks) as [[|] oks1]; cbn [negb]; [| done]. intros Hl m Hm.
  destruct (up_loop_prefix _ _ _ _ _ Hl) as (dn & rest & -> & Hmig & He). rewrite (He eq_refl), app_nil_r in Hm.
  apply (migrated_versions _ _ _ Hmig). right. by apply list_elem_of_fmap_2.
Qed.

(** [Up] is idempotent and crash safe: it applies a prefix of the pending
    scripts, each in a transaction with its record; a run without error has
    applied them all, and any run after that leaves the database alone. *)
Theorem Up_correct ms oks d d' err : Up ms oks d = (d', err) ->
  (exists done_ rest, ms = done_ ++ rest /\ migrated done_ d d' /\ (err = None -> rest = [])) /\
  (err = None -> forall oks2, fst (Up ms oks2 d') = d').
Proof.
  unfold Up. destruct (next_ok oks) as [[|] oks1]; simpl.
  2:{ intros [= <- <-]. split; [exists [], ms; split; [done |]; split; [constructor | done] | done]. }
  intros Hl. pose proof (up_loop_prefix _ _ _ _ _ Hl) as Hp. split; [exact Hp |].
  intros ->. destruct Hp as (dn & rest & Hms & Hm & He). rewrite (He eq_refl), app_nil_r in Hms. subst dn.
  intros oks2. destruct (next_ok oks2) as [[|] oks3]; simpl; [| done]. apply up_loop_recorded.
  intros m Hin. apply (migrated_versions _ _ _ Hm). right. by apply list_elem_of_fmap_2.
Qed.

End migrations.

(** With the second statement of the transaction failing, nothing is kept; the
    next run completes. *)
Example interrupted_up :
  let apply (ddl : string) (s : list string) := Some (s ++ [ddl]) in
  let ms := upMigrations "CREATE TABLE quotes" in
  let '(d1, e1) := Up apply ms [true; true; true; true; false] (mkDb ∅ []) in
  let '(d2, e2) := Up apply ms [] d1 in
  (schema d1, e1, schema d2, e2) = ([], Some (RecordVersion 1), ["CREATE TABLE quotes"], None).
Proof. vm_compute. reflexivity. Qed.
