(* ===== verification/Errors.v ===== *)
(** * Errors: structured errors and request validation (internal/errors.go)

    [AppError] with the package's error values, the validators of a quote
    request in the order the handler runs them, and [parseAmount]. *)

From S2P Require Import Prelude GoStrings Decimal RefDecimal.

Record AppError := mkAppError { Status : Z; Code : string; Message : string }.

#[export] Instance AppError_eq_dec : EqDecision AppError.
Proof. solve_decision. Defined.

Definition errNotFound := mkAppError 404 "not_found" "quote not found".
Definition errExpired := mkAppError 410 "EXPIRED" "quote expired".
Definition errBadCurrency :=
  mkAppError 400 "invalid_currency" "currency code must be 3-letter uppercase or a crypto symbol".
Definition errBadAmount := mkAppError 400 "invalid_amount" "amount must be > 0".
Definition errBadTier := mkAppError 400 "invalid_tier" "unsupported user_tier".
Definition errBadSide := mkAppError 400 "invalid_side" "side must be buy or sell".
Definition errSpotUnavailable := mkAppError 503 "spot_unavailable" "spot rate unavailable".

(** [func (e *AppError) Error() string]. *)
Definition AppError_Error (e : AppError) : string := Code e +:+ ": " +:+ Message e.

(** [func (e *AppError) Unwrap() error { return e }]: the error a chain walk
    visits next. *)
Definition AppError_Unwrap (e : AppError) : option AppError := Some e.

(** [errors.Is(err, target)] from the standard library: compare, then unwrap
    until there is nothing to unwrap.  [None] is a walk that has not ended
    within the fuel. *)
Fixpoint errors_Is (fuel : nat) (err target : AppError) : option bool :=
  match fuel with
  | O => None
  | S f =>
      if decide (err = target) then Some true
      else match AppError_Unwrap err with
           | None => Some false
           | Some e' => errors_Is f e' target
           end
  end.

Definition supportedTiers : gmap string bool :=
  {[ "TIER_1" := true; "TIER_2" := true; "TIER_3" := true ]}.

Definition validateCurrency (code : string) : option AppError :=
  let n := Z.of_nat (String.length code) in
  if ((n <? 3) || (5 <? n))%Z then Some errBadCurrency
  else if existsb (fun r => ((r <? 65) || (90 <? r))%Z) (runes code) then Some errBadCurrency
  else None.

Definition validateTier (t : string) : option AppError :=
  if negb (default false (supportedTiers !! t)) then Some errBadTier else None.

Definition validateSide (s : string) : option AppError :=
  if negb (String.eqb s "BUY") && negb (String.eqb s "SELL") then Some errBadSide else None.

(** [quoteRequest], the POST /v1/quotes single payload. *)
Record quoteRequest := mkRequest {
  req_From : string;
  req_To : string;
  req_Amount : string;
  req_UserTier : string;
  req_Side : string;
}.

Section validation.
Context {D : Type} {ops : DecimalOps D}.

(** The returned pair [(Decimal, error)]: the zero decimal goes with an error. *)
Definition parseAmount (s : string) : D * option AppError :=
  if String.eqb s "" then (dec_zero, Some errBadAmount)
  else match dec_of_string s with
       | None => (dec_zero, Some errBadAmount)
       | Some f => if dec_le f dec_zero then (dec_zero, Some errBadAmount) else (f, None)
       end.

Definition validateRequest (req : quoteRequest) : option AppError :=
  match validateCurrency (req_From req) with
  | Some e => Some e
  | None =>
  match validateCurrency (req_To req) with
  | Some e => Some e
  | None =>
  match snd (parseAmount (req_Amount req)) with
  | Some e => Some e
  | None =>
  match validateTier (req_UserTier req) with
  | Some e => Some e
  | None =>
  match validateSide (req_Side req) with
  | Some e => Some e
  | None => None
  end end end end end.

End validation.

(** ** What the validators accept *)

(** Three to five bytes, all in A..Z. *)
Definition currency_ok (code : string) : Prop :=
  (3 <= String.length code <= 5)%nat /\ Forall (fun b => 65 <= b <= 90)%Z (bytes code).

Lemma existsb_not_upper l :
  existsb (fun r => ((r <? 65) || (90 <? r))%Z) l = negb (forallb is_upper l).
Proof.
  induction l as [| r l IH]; simpl; [done |]. rewrite IH, negb_andb. f_equal.
  unfold is_upper. rewrite negb_andb, <- !Z.ltb_antisym. done.
Qed.

Lemma forallb_upper l : forallb is_upper l = true <-> Forall (fun b => 65 <= b <= 90)%Z l.
Proof.
  rewrite forallb_forall, List.Forall_forall. unfold is_upper.
  split; intros H x Hx; specialize (H x Hx); [zbool; lia | apply andb_true_iff; lia].
Qed.

Lemma validateCurrency_None code : validateCurrency code = None <-> currency_ok code.
Proof.
  unfold validateCurrency, currency_ok. rewrite existsb_not_upper, runes_upper, <- forallb_upper.
  destruct (_ || _) eqn:Hn.
  - apply orb_true_iff in Hn. split; [done |]. intros [Hl _]. lia.
  - apply orb_false_iff in Hn as [H1 H2]. zbool.
    destruct (forallb is_upper (bytes code)); simpl; split; try done; [| by intros [_ ?]].
    intros _. split; [lia | done].
Qed.

Lemma validateCurrency_Some code e : validateCurrency code = Some e -> e = errBadCurrency.
Proof. unfold validateCurrency. intros H. go_cases. Qed.

Lemma validateTier_None t :
  validateTier t = None <-> t = "TIER_1" \/ t = "TIER_2" \/ t = "TIER_3".
Proof.
  unfold validateTier, supportedTiers. split.
  - rewrite !lookup_insert, lookup_singleton. intros H. repeat case_decide; simplify_eq/=; tauto.
  - intros [-> | [-> | ->]]; reflexivity.
Qed.

Lemma validateTier_Some t e : validateTier t = Some e -> e = errBadTier.
Proof. unfold validateTier. intros H. go_cases. Qed.

Lemma validateSide_None s : validateSide s = None <-> s = "BUY" \/ s = "SELL".
Proof.
  unfold validateSide. destruct (String.eqb_spec s "BUY"), (String.eqb_spec s "SELL"); naive_solver.
Qed.

Lemma validateSide_Some s e : validateSide s = Some e -> e = errBadSide.
Proof. unfold validateSide. intros H. go_cases. Qed.

Section validation_theorems.
Context {D : Type} {ops : DecimalOps D} {laws : DecimalLaws D}.

Lemma parseAmount_ok s d :
  parseAmount s = (d, None) <->
  s <> "" /\ dec_of_string s = Some d /\ (0 < val d)%Q.
Proof.
  unfold parseAmount. destruct (String.eqb_spec s "") as [-> | Hs].
  { split; [done |]. by intros [? _]. }
  destruct (dec_of_string s) as [f |]; [| naive_solver].
  destruct (dec_le f dec_zero) eqn:Hle.
  - split; [done |]. intros (_ & [= ->] & Hv). apply val_zero_pos in Hv. congruence.
  - apply val_zero_pos in Hle. naive_solver.
Qed.

Lemma parseAmount_error s d e :
  parseAmount s = (d, Some e) -> e = errBadAmount /\ d = dec_zero.
Proof. unfold parseAmount. intros H. go_cases. Qed.

(** A non-empty amount that parses to a positive decimal. *)
Definition amount_ok (s : string) : Prop :=
  s <> "" /\ exists d : D, dec_of_string s = Some d /\ (0 < val d)%Q.
Definition currencies_ok (req : quoteRequest) : Prop :=
  currency_ok (req_From req) /\ currency_ok (req_To req).
Definition tier_ok (t : string) : Prop := t = "TIER_1" \/ t = "TIER_2" \/ t = "TIER_3".
Definition side_ok (s : string) : Prop := s = "BUY" \/ s = "SELL".

Lemma parse_ok_iff s : snd (parseAmount (D := D) s) = None <-> amount_ok s.
Proof.
  unfold amount_ok. destruct (parseAmount s) as [d oe] eqn:H. simpl. split.
  - intros ->. apply parseAmount_ok in H. naive_solver.
  - intros (Hs & d' & Hd & Hv).
    assert (parseAmount s = (d', None)) as H' by (apply parseAmount_ok; naive_solver).
    congruence.
Qed.

Lemma validation_errors_distinct : NoDup [errBadCurrency; errBadAmount; errBadTier; errBadSide].
Proof. apply (bool_decide_unpack _). vm_compute. done. Qed.

(** C35: a request is accepted exactly when both codes are three to five bytes
    in A..Z, the amount parses to a positive decimal, the tier is one of the
    three supported ones and the side is BUY or SELL; otherwise the error is
    that of the first failing check, in the order currency, amount, tier,
    side. *)
Theorem validateRequest_correct (req : quoteRequest) :
  let amt := amount_ok (req_Amount req) in
  let tier := tier_ok (req_UserTier req) in
  let side := side_ok (req_Side req) in
  (validateRequest (D := D) req = None <-> currencies_ok req /\ amt /\ tier /\ side) /\
  (validateRequest (D := D) req = Some errBadCurrency <-> ~ currencies_ok req) /\
  (validateRequest (D := D) req = Some errBadAmount <-> currencies_ok req /\ ~ amt) /\
  (validateRequest (D := D) req = Some errBadTier <-> currencies_ok req /\ amt /\ ~ tier) /\
  (validateRequest (D := D) req = Some errBadSide <-> currencies_ok req /\ amt /\ tier /\ ~ side).
Proof.
  intros amt tier side. subst amt tier side. unfold validateRequest, currencies_ok, tier_ok, side_ok.
  rewrite <- !validateCurrency_None, <- validateTier_None, <- validateSide_None, <- parse_ok_iff.
  pose proof validation_errors_distinct as Hd.
  rewrite !list.NoDup_cons, !not_elem_of_cons in Hd. destruct_and! Hd.
  destruct (validateCurrency (req_From req)) eqn:V1;
    [apply validateCurrency_Some in V1 as -> |].
  { intuition congruence. }
  destruct (validateCurrency (req_To req)) eqn:V2;
    [apply validateCurrency_Some in V2 as -> |].
  { intuition congruence. }
  destruct (parseAmount (req_Amount req)) as [d [e |]] eqn:V3; simpl in *.
  { apply parseAmount_error in V3 as [-> _]. intuition congruence. }
  destruct (validateTier (req_UserTier req)) eqn:V4; [apply validateTier_Some in V4 as -> |].
  { intuition congruence. }
  destruct (validateSide (req_Side req)) eqn:V5; [apply validateSide_Some in V5 as -> |].
  all: intuition congruence.
Qed.

End validation_theorems.

(** [errors.Is] on an [AppError] against a different target never returns:
    [Unwrap] yields the error itself, so the walk finds neither the target nor
    an end. *)
Theorem errors_Is_never_ends (fuel : nat) (e target : AppError) :
  e <> target -> errors_Is fuel e target = None.
Proof.
  intros Hne. induction fuel as [| f IH]; simpl; [done |].
  rewrite decide_False by done. exact IH.
Qed.

Lemma errors_Is_never_ends_witness :
  errNotFound <> errExpired /\ errors_Is 1000 errNotFound errExpired = None.
Proof.
  assert (errNotFound <> errExpired) as H by discriminate.
  split; [exact H | exact (errors_Is_never_ends 1000 errNotFound errExpired H)].
Defined.

Lemma validateRequest_correct_witness :
  validateRequest (D := refdec) (mkRequest "USD" "BTC" "500.00" "TIER_2" "BUY") = None /\
  currencies_ok (mkRequest "USD" "BTC" "500.00" "TIER_2" "BUY").
Proof.
  assert (validateRequest (D := refdec) (mkRequest "USD" "BTC" "500.00" "TIER_2" "BUY") = None) as H
    by (vm_compute; reflexivity).
  split; [exact H |].
  exact (proj1 (proj1 (proj1 (validateRequest_correct (D := refdec)
           (mkRequest "USD" "BTC" "500.00" "TIER_2" "BUY"))) H)).
Defined.

Example documented_request_is_rejected :
  validateRequest (D := refdec) (mkRequest "USD" "BTC" "500.00" "tier_2" "buy") = Some errBadTier.
Proof. vm_compute. reflexivity. Qed.
