(* ===== verification/Json.v ===== *)
(** * Json: decoding of request bodies

    What [encoding/json] does with a parsed document: [Unmarshal] into a
    struct of string fields and into a slice of such structs.  Keys match
    field names up to case folding, a null leaves a field unchanged, a value
    of the wrong type is an error that does not stop the other fields from
    being decoded, and a later occurrence of a key decodes over what an
    earlier one left, element by element for a slice.
    The text level (bytes to documents and back) is a parameter of the
    server. *)

From S2P Require Import Prelude GoStrings Utf8 Errors.

#[local] Set Warnings "-register-all".

Inductive json :=
  | JNull
  | JBool (b : bool)
  | JNum (n : Z)
  | JStr (s : string)
  | JArr (l : list json)
  | JObj (fields : list (string * json)).

(** ** Field names *)

(** Folding of a rune to the smallest rune of its case orbit, as far as ASCII
    letters are concerned: U+017F folds to S and U+212A to K. *)
Definition json_fold (r : Z) : Z :=
  (if (97 <=? r) && (r <=? 122) then r - 32 else if r =? 383 then 83 else if r =? 8490 then 75 else r)%Z.

Definition key_is (name k : string) : bool :=
  bool_decide (json_fold <$> runes k = json_fold <$> runes name).

(** ** Decoding into a variable: its new value, and whether there was an error *)

Definition decode_string (v : json) (cur : string) : string * bool :=
  match v with
  | JStr s => (s, false)
  | JNull => (cur, false)
  | _ => (cur, true)
  end.

(** A struct: [field] decodes one member, unknown names are ignored by it. *)
Definition decode_struct {A} (field : string -> json -> A -> A * bool) (v : json) (cur : A) : A * bool :=
  match v with
  | JObj fields =>
      fold_left (fun '(a, err) '(k, x) => let '(a', e) := field k x a in (a', err || e)) fields (cur, false)
  | JNull => (cur, false)
  | _ => (cur, true)
  end.

Definition on_fst {A} (f : string -> A) (r : string * bool) : A * bool := (f (fst r), snd r).

Definition request_field (k : string) (v : json) (q : quoteRequest) : quoteRequest * bool :=
  if key_is "from" k then
    on_fst (fun s => mkRequest s (req_To q) (req_Amount q) (req_UserTier q) (req_Side q)) (decode_string v (req_From q))
  else if key_is "to" k then
    on_fst (fun s => mkRequest (req_From q) s (req_Amount q) (req_UserTier q) (req_Side q)) (decode_string v (req_To q))
  else if key_is "amount" k then
    on_fst (fun s => mkRequest (req_From q) (req_To q) s (req_UserTier q) (req_Side q)) (decode_string v (req_Amount q))
  else if key_is "user_tier" k then
    on_fst (fun s => mkRequest (req_From q) (req_To q) (req_Amount q) s (req_Side q)) (decode_string v (req_UserTier q))
  else if key_is "side" k then
    on_fst (fun s => mkRequest (req_From q) (req_To q) (req_Amount q) (req_UserTier q) s) (decode_string v (req_Side q))
  else (q, false).

Definition zero_request : quoteRequest := mkRequest "" "" "" "" "".

(** [json.Unmarshal(body, &req)] for a [quoteRequest]. *)
Definition unmarshal_request (v : json) : option quoteRequest :=
  let '(q, err) := decode_struct request_field v zero_request in if (err : bool) then None else Some q.

(** A slice: its elements, and what is left in its array beyond them; a nil
    slice is [None]. *)
Definition slice (A : Type) : Type := option (list A * list A).

Definition elements {A} (s : slice A) : list A := default [] (fst <$> s).

(** Each element is decoded over what the array holds at its place, which is
    the zero value unless an earlier occurrence of the key left something. *)
Fixpoint decode_elements {A} (elem : json -> A -> A * bool) (zero : A) (l : list json) (old : list A)
  : list A * bool :=
  match l with
  | [] => ([], false)
  | v :: l' =>
      let '(x, err) := elem v (hd zero old) in
      let '(xs, errs) := decode_elements elem zero l' (tl old) in (x :: xs, err || errs)
  end.

(** An array sets the length; an empty one makes a new slice, a null a nil
    one. *)
Definition decode_slice {A} (elem : json -> A -> A * bool) (zero : A) (v : json) (cur : slice A) : slice A * bool :=
  match v with
  | JArr [] => (Some ([], []), false)
  | JArr l =>
      let old := match cur with Some (xs, spare) => xs ++ spare | None => [] end in
      let '(xs, err) := decode_elements elem zero l old in (Some (xs, drop (length l) old), err)
  | JNull => (None, false)
  | _ => (cur, true)
  end.

Definition items_field {A} (elem : json -> A -> A * bool) (zero : A) (k : string) (v : json) (cur : slice A)
  : slice A * bool :=
  if key_is "items" k then decode_slice elem zero v cur else (cur, false).

(** The probe: the [items] member as raw messages, nil when there is none. *)
Definition unmarshal_probe (v : json) : option (option (list json)) :=
  let '(p, err) := decode_struct (items_field (fun x _ => (x, false)) JNull) v None in
  if (err : bool) then None else Some (fst <$> p).

(** The bulk request; a nil slice has no element. *)
Definition unmarshal_bulk (v : json) : option (list quoteRequest) :=
  let '(p, err) := decode_struct (items_field (decode_struct request_field) zero_request) v None in
  if (err : bool) then None else Some (elements p).

(** The claim request. *)
Definition unmarshal_claim (v : json) : option string :=
  let '(s, err) := decode_struct (fun k x s => if key_is "claimed_by" k then decode_string x s else (s, false)) v "" in
  if (err : bool) then None else Some s.

(** A command of the rate stream: the action and the pairs. *)
Definition command_field (k : string) (v : json) (c : string * slice string) : string * slice string * bool :=
  if key_is "action" k then on_fst (fun a => (a, snd c)) (decode_string v (fst c))
  else if key_is "pairs" k then
    let '(ps, err) := decode_slice decode_string "" v (snd c) in ((fst c, ps), err)
  else (c, false).

Definition unmarshal_command (v : json) : option (string * list string) :=
  let '(c, err) := decode_struct command_field v ("", None) in
  if (err : bool) then None else Some (fst c, elements (snd c)).

(** A bulk body is recognised whenever it decodes as one with an [items]
    array in it. *)
Example probe_cases :
  unmarshal_probe (JObj [("Items", JArr [])]) = Some (Some []) /\
  unmarshal_probe (JObj [("items", JNull)]) = Some None /\
  unmarshal_probe (JObj [("items", JStr "x")]) = None /\
  unmarshal_request (JObj [("FROM", JStr "USD"); ("to", JStr "BTC"); ("amount", JNum 5)]) = None /\
  unmarshal_claim (JObj [("claimed_by", JNull)]) = Some "".
Proof. vm_compute. done. Qed.

(** With [items] given twice, the second array is decoded over the first: what
    its elements leave out is what the first had at their place. *)
Example items_twice :
  unmarshal_bulk (JObj [("items", JArr [JObj [("from", JStr "USD"); ("to", JStr "BTC")]; JObj [("side", JStr "BUY")]]);
                        ("items", JArr [JObj [("to", JStr "ETH")]]);
                        ("items", JArr [JNull; JObj [("amount", JStr "5")]])])
  = Some [mkRequest "USD" "ETH" "" "" ""; mkRequest "" "" "5" "" "BUY"].
Proof. vm_compute. reflexivity. Qed.
