(* ===== verification/Store.v ===== *)
(** * Store: the in-memory OLTP store (internal/store.go)

    Quotes keyed by id, the fee schedules, the rate sources keyed by name.
    Every method copies rows in and out ([cp := *q]), so a caller's pointer
    never aliases the store and rows are values here.  Ids are the
    third-party [uuid.UUID]: a countable parameter type.

    The iteration order of a Go map is unspecified and [sort.Slice] is not
    stable: a listing takes the iteration order as an argument, any
    permutation of the keys, and sorts it. *)

From S2P Require Import Prelude GoStrings Decimal.

(** [uuid.UUID] of github.com/google/uuid: the text form and its parser. *)
Class UuidOps (U : Type) := {
  uuid_String : U -> string;
  uuid_Parse : string -> option U;   (* None on error *)
}.

Class UuidLaws (U : Type) {uops : UuidOps U} := {
  uuid_Parse_String u : uuid_Parse (uuid_String u) = Some u;
}.

#[export] Instance uuid_String_inj `{UuidLaws U} : Inj (=) (=) (uuid_String (U := U)).
Proof.
  intros u v Huv. apply (f_equal (uuid_Parse (U := U))) in Huv. rewrite !uuid_Parse_String in Huv. congruence.
Qed.

Inductive QuoteStatus := StatusOpen | StatusClaimed | StatusExpired | StatusCanceled.

#[export] Instance QuoteStatus_eq_dec : EqDecision QuoteStatus.
Proof. solve_decision. Defined.

Definition status_string (s : QuoteStatus) : string :=
  match s with
  | StatusOpen => "OPEN"
  | StatusClaimed => "CLAIMED"
  | StatusExpired => "EXPIRED"
  | StatusCanceled => "CANCELED"
  end.

Record Quote (U D : Type) := mkQuote {
  QuoteID : U;
  From : string;
  To : string;
  Amount : string;
  Rate_ : string;
  SpreadBPS : Z;
  Fee : string;
  FeeCurrency : string;
  Total : string;
  CryptoAmount : string;
  UserTier : string;
  Side : string;
  Status : QuoteStatus;
  SourceVenue : string;
  CreatedAt : time;
  ExpiresAt : time;
  ClaimedAt : option time;
  ClaimedBy : string;
  LockedRate : D;
  SpotPrice : D;
}.
Arguments mkQuote {U D}.
Arguments QuoteID {U D} _.
Arguments From {U D} _.
Arguments To {U D} _.
Arguments Amount {U D} _.
Arguments Rate_ {U D} _.
Arguments SpreadBPS {U D} _.
Arguments Fee {U D} _.
Arguments FeeCurrency {U D} _.
Arguments Total {U D} _.
Arguments CryptoAmount {U D} _.
Arguments UserTier {U D} _.
Arguments Side {U D} _.
Arguments Status {U D} _.
Arguments SourceVenue {U D} _.
Arguments CreatedAt {U D} _.
Arguments ExpiresAt {U D} _.
Arguments ClaimedAt {U D} _.
Arguments ClaimedBy {U D} _.
Arguments LockedRate {U D} _.
Arguments SpotPrice {U D} _.

(** [row.Status = st]. *)
Definition set_status {U D} (st : QuoteStatus) (q : Quote U D) : Quote U D :=
  mkQuote (QuoteID q) (From q) (To q) (Amount q) (Rate_ q) (SpreadBPS q) (Fee q) (FeeCurrency q)
    (Total q) (CryptoAmount q) (UserTier q) (Side q) st (SourceVenue q) (CreatedAt q) (ExpiresAt q)
    (ClaimedAt q) (ClaimedBy q) (LockedRate q) (SpotPrice q).

(** The mutator of a successful claim. *)
Definition set_claimed {U D} (now : time) (by_ : string) (q : Quote U D) : Quote U D :=
  mkQuote (QuoteID q) (From q) (To q) (Amount q) (Rate_ q) (SpreadBPS q) (Fee q) (FeeCurrency q)
    (Total q) (CryptoAmount q) (UserTier q) (Side q) StatusClaimed (SourceVenue q) (CreatedAt q)
    (ExpiresAt q) (Some now) by_ (LockedRate q) (SpotPrice q).

Record FeeSchedule (U D : Type) := mkFeeSchedule {
  fs_ID : U;
  fs_UserTier : string;
  fs_Asset : string;
  fs_SizeBandMin : D;
  fs_SizeBandMax : D;
  fs_Side : string;
  fs_SpreadBPS : Z;
  fs_FeeType : string;
  fs_FeeAmount : D;
  fs_FeeBPS : Z;
  fs_Enabled : bool;
  fs_UpdatedAt : time;
}.
Arguments mkFeeSchedule {U D}.
Arguments fs_ID {U D} _.
Arguments fs_UserTier {U D} _.
Arguments fs_Asset {U D} _.
Arguments fs_SizeBandMin {U D} _.
Arguments fs_SizeBandMax {U D} _.
Arguments fs_Side {U D} _.
Arguments fs_SpreadBPS {U D} _.
Arguments fs_FeeType {U D} _.
Arguments fs_FeeAmount {U D} _.
Arguments fs_FeeBPS {U D} _.
Arguments fs_Enabled {U D} _.
Arguments fs_UpdatedAt {U D} _.

Record RateSource (U : Type) := mkRateSource {
  rs_ID : U;
  rs_Name : string;
  rs_Priority : Z;
  rs_Enabled : bool;
  rs_EndpointRef : string;
  rs_Weight : Z;
  rs_CreatedAt : time;
  rs_UpdatedAt : time;
}.
Arguments mkRateSource {U}.
Arguments rs_ID {U} _.
Arguments rs_Name {U} _.
Arguments rs_Priority {U} _.
Arguments rs_Enabled {U} _.
Arguments rs_EndpointRef {U} _.
Arguments rs_Weight {U} _.
Arguments rs_CreatedAt {U} _.
Arguments rs_UpdatedAt {U} _.

Record Store (U D : Type) `{Countable U} := mkStore {
  quotes : gmap U (Quote U D);
  schedules : list (FeeSchedule U D);
  sources : gmap string (RateSource U);
}.
Arguments mkStore {U D _ _}.
Arguments quotes {U D _ _} _.
Arguments schedules {U D _ _} _.
Arguments sources {U D _ _} _.

(** Any order in which a range loop may visit the keys of a map. *)
Definition iteration_of `{Countable K} {A} (ord : list K) (m : gmap K A) : Prop :=
  ord ≡ₚ (map_to_list m).*1.

Section store.
Context {U D : Type} `{Countable U}.
Implicit Types (s : Store U D) (q : Quote U D) (id : U).

Definition NewStore : Store U D := mkStore ∅ [] ∅.

Definition SaveQuote s q : Store U D :=
  mkStore (<[QuoteID q := q]> (quotes s)) (schedules s) (sources s).

Definition GetQuote s id : option (Quote U D) := quotes s !! id.

(** The mutator runs on the stored row under the lock; the updated row is
    returned, or nothing when the id is unknown. *)
Definition UpdateQuote s id (fn : Quote U D -> Quote U D) : Store U D * option (Quote U D) :=
  match quotes s !! id with
  | None => (s, None)
  | Some q => (mkStore (<[id := fn q]> (quotes s)) (schedules s) (sources s), Some (fn q))
  end.

Definition created_le (a b : Quote U D) : Prop := (CreatedAt a <= CreatedAt b)%Z.

#[export] Instance created_le_dec a b : Decision (created_le a b).
Proof. unfold created_le. apply _. Defined.

Definition ListQuotes s (ord : list U) : list (Quote U D) :=
  merge_sort created_le (omap (fun id => quotes s !! id) ord).

Definition SetFeeSchedules s (fs : list (FeeSchedule U D)) : Store U D :=
  mkStore (quotes s) fs (sources s).

Definition FeeSchedules s : list (FeeSchedule U D) := schedules s.

Definition SetRateSources s (rs : list (RateSource U)) : Store U D :=
  mkStore (quotes s) (schedules s)
    (fold_left (fun m r => <[rs_Name r := r]> m) rs ∅).

(** Not [less b a] for the comparison of [RateSources]: by priority, then by
    name, byte-wise. *)
Definition source_le (a b : RateSource U) : Prop :=
  if decide (rs_Priority a = rs_Priority b)
  then String.leb (rs_Name a) (rs_Name b) = true
  else (rs_Priority a < rs_Priority b)%Z.

#[export] Instance source_le_dec a b : Decision (source_le a b).
Proof. unfold source_le. case_decide; apply _. Defined.

Definition RateSources s (ord : list string) : list (RateSource U) :=
  merge_sort source_le (List.filter rs_Enabled (omap (fun n => sources s !! n) ord)).

(** selectRateSource (internal/feed.go): the first enabled source. *)
Definition selectRateSource (l : list (RateSource U)) : option (RateSource U) :=
  find_first rs_Enabled l.

(** ** Rows by id *)

Lemma GetQuote_SaveQuote s q id :
  GetQuote (SaveQuote s q) id = if decide (QuoteID q = id) then Some q else GetQuote s id.
Proof. unfold GetQuote, SaveQuote. simpl. apply lookup_insert. Qed.

Lemma GetQuote_UpdateQuote s id fn id' :
  GetQuote (fst (UpdateQuote s id fn)) id' =
  if decide (id = id') then fn <$> GetQuote s id' else GetQuote s id'.
Proof.
  unfold UpdateQuote, GetQuote. destruct (quotes s !! id) as [q |] eqn:Hq; simpl.
  - rewrite lookup_insert. case_decide; subst; [by rewrite Hq | done].
  - case_decide; subst; by rewrite ?Hq.
Qed.

Lemma UpdateQuote_snd s id fn : snd (UpdateQuote s id fn) = fn <$> GetQuote s id.
Proof. unfold UpdateQuote, GetQuote. by destruct (quotes s !! id). Qed.

(** Every row is stored under its own id. *)
Definition store_wf s : Prop :=
  map_Forall (fun id q => QuoteID q = id) (quotes s) /\
  map_Forall (fun n r => rs_Name r = n) (sources s).

Lemma NewStore_wf : store_wf NewStore.
Proof. split; apply map_Forall_empty. Qed.

Lemma SaveQuote_wf s q : store_wf s -> store_wf (SaveQuote s q).
Proof. intros [Hq Hs]. split; [| done]. by apply map_Forall_insert_2. Qed.

Lemma UpdateQuote_wf s id fn :
  (forall q, QuoteID (fn q) = QuoteID q) -> store_wf s -> store_wf (fst (UpdateQuote s id fn)).
Proof.
  intros Hfn [Hq Hs]. unfold UpdateQuote. destruct (quotes s !! id) eqn:Hid; [| done].
  split; [| done]. apply map_Forall_insert_2; [rewrite Hfn; by apply Hq | done].
Qed.

Lemma SetFeeSchedules_wf s fs : store_wf s -> store_wf (SetFeeSchedules s fs).
Proof. done. Qed.

Lemma SetRateSources_wf s rs : store_wf s -> store_wf (SetRateSources s rs).
Proof.
  intros [Hq _]. split; [done |]. simpl.
  cut (forall m : gmap string (RateSource U), map_Forall (fun n (r : RateSource U) => rs_Name r = n) m ->
         map_Forall (fun n r => rs_Name r = n) (fold_left (fun m r => <[rs_Name r := r]> m) rs m)).
  { intros Hf. apply Hf, map_Forall_empty. }
  induction rs as [| r rs IH]; intros m Hm; simpl; [done |].
  apply IH. by apply map_Forall_insert_2.
Qed.

(** ** Listings *)

Lemma omap_lookup_iteration {K A} `{Countable K} (m : gmap K A) (ord : list K) :
  iteration_of ord m -> omap (fun k => m !! k) ord ≡ₚ (map_to_list m).*2.
Proof.
  intros Hord. unfold iteration_of in Hord. rewrite Hord.
  assert (forall l, (forall kv, kv ∈ l -> m !! kv.1 = Some kv.2) ->
            omap (fun k => m !! k) l.*1 = l.*2) as Hl.
  { induction l as [| [k v] l IH]; intros Hin; [done |]. cbn.
    pose proof (Hin (k, v) ltac:(by left)) as Hk. simpl in Hk. rewrite Hk. simpl. f_equal. apply IH. intros kv Hkv. apply Hin. by right. }
  rewrite Hl; [done |]. intros [k v] Hkv. by apply elem_of_map_to_list in Hkv.
Qed.

#[local] Instance created_le_total : base.Total created_le.
Proof. intros a b. unfold created_le. lia. Qed.
#[local] Instance created_le_trans : Transitive created_le.
Proof. intros a b c. unfold created_le. lia. Qed.

Lemma ListQuotes_perm s ord :
  iteration_of ord (quotes s) -> ListQuotes s ord ≡ₚ (map_to_list (quotes s)).*2.
Proof.
  intros Hord. unfold ListQuotes. rewrite merge_sort_Permutation. by apply omap_lookup_iteration.
Qed.

Lemma ListQuotes_sorted s ord : StronglySorted created_le (ListQuotes s ord).
Proof. apply Sorted_StronglySorted; [apply _ | apply Sorted_merge_sort, _]. Qed.

Lemma elem_of_ListQuotes s ord q :
  iteration_of ord (quotes s) -> store_wf s ->
  q ∈ ListQuotes s ord <-> GetQuote s (QuoteID q) = Some q.
Proof.
  intros Hord [Hwf _]. rewrite (ListQuotes_perm s ord Hord). unfold GetQuote.
  rewrite list_elem_of_fmap. split.
  - intros ([k v] & -> & Hin). apply elem_of_map_to_list in Hin. simpl.
    by rewrite (Hwf k v Hin).
  - intros Hq. exists (QuoteID q, q). split; [done |]. by apply elem_of_map_to_list.
Qed.

(** The listing contains exactly the stored rows, each once, whatever the
    iteration order of the map, ordered by creation time with the oldest
    first. *)
Theorem ListQuotes_correct s ord :
  iteration_of ord (quotes s) ->
  ListQuotes s ord ≡ₚ (map_to_list (quotes s)).*2 /\
  (forall i j a b, ListQuotes s ord !! i = Some a -> ListQuotes s ord !! j = Some b ->
     (i < j)%nat -> (CreatedAt a <= CreatedAt b)%Z).
Proof.
  intros Hord. split; [by apply ListQuotes_perm |].
  pose proof (ListQuotes_sorted s ord) as Hs. revert Hs.
  generalize (ListQuotes s ord). intros l Hs.
  induction Hs as [| x l Hs IH Hx]; intros i j a b Hi Hj Hij; [done |].
  destruct i as [| i], j as [| j]; simplify_eq/=; try lia.
  - rewrite list.Forall_forall in Hx. apply (Hx b). by eapply list_elem_of_lookup_2.
  - apply (IH i j a b); [done | done | lia].
Qed.

#[local] Instance source_le_total : base.Total source_le.
Proof.
  intros a b. unfold source_le. repeat case_decide; try (by exfalso; congruence); try lia.
  apply String.leb_total.
Qed.

Lemma source_le_antisym a b : source_le a b -> source_le b a -> rs_Name a = rs_Name b.
Proof.
  unfold source_le. repeat case_decide; try (by exfalso; congruence); try lia.
  apply String.leb_antisym.
Qed.

#[local] Instance source_le_transitive : Transitive source_le.
Proof.
  intros a b c. unfold source_le. repeat case_decide; try (by exfalso; congruence); try lia.
  apply string_leb_trans.
Qed.

Lemma RateSources_sorted s ord : StronglySorted source_le (RateSources s ord).
Proof. apply Sorted_StronglySorted; [apply _ | apply Sorted_merge_sort, _]. Qed.

Lemma RateSources_perm s ord :
  iteration_of ord (sources s) ->
  RateSources s ord ≡ₚ List.filter rs_Enabled (map_to_list (sources s)).*2.
Proof.
  intros Hord. unfold RateSources. rewrite merge_sort_Permutation.
  by apply filter_perm, omap_lookup_iteration.
Qed.

Lemma elem_of_RateSources s ord r :
  iteration_of ord (sources s) ->
  r ∈ RateSources s ord <-> rs_Enabled r = true /\ exists n, sources s !! n = Some r.
Proof.
  intros Hord. rewrite (RateSources_perm s ord Hord), list_elem_of_In, filter_In, <- list_elem_of_In.
  rewrite list_elem_of_fmap. split.
  - intros [([n r'] & -> & Hin) He]. apply elem_of_map_to_list in Hin. eauto.
  - intros [He [n Hn]]. split; [| done]. exists (n, r). split; [done |]. by apply elem_of_map_to_list.
Qed.

(** The enabled sources in failover order do not depend on the iteration
    order of the map: priority first, ties broken by the (unique) name; and
    the selected source is an enabled one of least priority. *)
Theorem RateSources_deterministic s ord1 ord2 :
  store_wf s -> iteration_of ord1 (sources s) -> iteration_of ord2 (sources s) ->
  RateSources s ord1 = RateSources s ord2 /\
  (forall r, r ∈ RateSources s ord1 <-> rs_Enabled r = true /\ sources s !! rs_Name r = Some r) /\
  (forall r, selectRateSource (RateSources s ord1) = Some r ->
     forall n r', sources s !! n = Some r' -> rs_Enabled r' = true ->
     (rs_Priority r <= rs_Priority r')%Z).
Proof.
  intros [_ Hwf] Ho1 Ho2.
  assert (forall r, r ∈ RateSources s ord1 <-> rs_Enabled r = true /\ sources s !! rs_Name r = Some r)
    as Hin.
  { intros r. rewrite elem_of_RateSources by done. split; [| naive_solver].
    intros [He [n Hn]]. by rewrite (Hwf n r Hn). }
  split; [| split; [done |]].
  - apply (StronglySorted_unique_on source_le); [| apply RateSources_sorted.. |].
    + intros x y Hx Hy Hxy Hyx. apply Hin in Hx as [_ Hx], Hy as [_ Hy].
      rewrite (source_le_antisym x y Hxy Hyx) in Hx. congruence.
    + by rewrite !RateSources_perm.
  - intros r Hsel n r' Hr' He'. apply find_first_Some in Hsel as (l1 & l2 & Hl & He & Hl1).
    assert (r' ∈ RateSources s ord1) as Hmem by (apply elem_of_RateSources; eauto).
    pose proof (RateSources_sorted s ord1) as Hs. rewrite Hl in Hmem, Hs.
    destruct l1 as [| x l1].
    2: { assert (x ∈ RateSources s ord1) as Hx by (rewrite Hl; by left).
         apply Hin in Hx as [Hx _]. apply Forall_cons_1 in Hl1 as [Hx' _]. congruence. }
    simpl in Hmem, Hs. apply elem_of_cons in Hmem as [-> | Hmem]; [done |].
    inversion Hs as [| ? ? _ Hf]; subst. rewrite list.Forall_forall in Hf. specialize (Hf r' Hmem).
    unfold source_le in Hf. case_decide; lia.
Qed.

End store.

(** ** Witnesses: ids represented by their text *)

#[export] Instance string_uuid_ops : UuidOps string := {
  uuid_String u := u;
  uuid_Parse s := Some s;
}.

#[export] Instance string_uuid_laws : UuidLaws string.
Proof. by constructor. Defined.

Lemma iteration_of_keys `{Countable K} {A} (m : gmap K A) : iteration_of (map_to_list m).*1 m.
Proof. unfold iteration_of. reflexivity. Qed.

Definition sample_quote (id : string) (at_ : time) : Quote string Z :=
  mkQuote id "USD" "BTC" "500" "65520" 80 "2.5" "USD" "502.5" "0.00763126" "TIER_1" "BUY"
    StatusOpen "kraken" at_ (at_ + 30 * Second) None "" 65520%Z 65000%Z.

Definition sample_store : Store string Z :=
  SetRateSources (SaveQuote (SaveQuote NewStore (sample_quote "b" 2)) (sample_quote "a" 1))
    [mkRateSource "1" "kraken" 2 true "" 1 0 0; mkRateSource "2" "coinbase" 1 true "" 1 0 0;
     mkRateSource "3" "binance" 1 true "" 1 0 0].

Lemma ListQuotes_correct_witness :
  ListQuotes sample_store ["b"; "a"] = [sample_quote "a" 1; sample_quote "b" 2] /\
  ListQuotes sample_store ["b"; "a"] ≡ₚ (map_to_list (quotes sample_store)).*2.
Proof.
  split; [vm_compute; reflexivity |].
  apply (ListQuotes_correct sample_store ["b"; "a"]).
  apply (bool_decide_unpack (["b"; "a"] ≡ₚ (map_to_list (quotes sample_store)).*1)).
  vm_compute. exact I.
Defined.

Lemma RateSources_deterministic_witness :
  RateSources sample_store ["coinbase"; "kraken"; "binance"]
  = RateSources sample_store ["binance"; "coinbase"; "kraken"] /\
  rs_Name <$> selectRateSource (RateSources sample_store ["kraken"; "coinbase"; "binance"])
  = Some "binance".
Proof.
  split; [| vm_compute; reflexivity].
  apply (RateSources_deterministic sample_store ["coinbase"; "kraken"; "binance"]
           ["binance"; "coinbase"; "kraken"]).
  - apply SetRateSources_wf, SaveQuote_wf, SaveQuote_wf, NewStore_wf.
  - apply (bool_decide_unpack (_ ≡ₚ (map_to_list (sources sample_store)).*1)).
    vm_compute. exact I.
  - apply (bool_decide_unpack (_ ≡ₚ (map_to_list (sources sample_store)).*1)).
    vm_compute. exact I.
Defined.
