(* ===== verification/FeeIndex.v ===== *)
(** * FeeIndex: the in-memory fee-schedule index (internal/fee_index.go)

    Enabled schedules grouped by (tier, asset, side); a lookup scans the
    group for the first size band that contains the amount.  The specification
    is the linear scan over all schedules. *)

From S2P Require Import Prelude GoStrings Decimal RefDecimal Store.

(** [feeIndexKey]: tier, asset, side. *)
Definition feeIndexKey : Type := string * string * string.

Section fee_index.
Context {U D : Type} {ops : DecimalOps D}.
Implicit Types (fs : list (FeeSchedule U D)) (s : FeeSchedule U D).

Record feeIndex := mkFeeIndex { data : gmap feeIndexKey (list (FeeSchedule U D)) }.

Definition newFeeIndex : feeIndex := mkFeeIndex ∅.

Definition schedule_key s : feeIndexKey := (fs_UserTier s, fs_Asset s, fs_Side s).

(** [f.data[k] = append(f.data[k], s)] for each enabled schedule; a missing
    key reads as the nil slice. *)
Definition index_add (m : gmap feeIndexKey (list (FeeSchedule U D))) s :=
  if negb (fs_Enabled s) then m
  else <[schedule_key s := default [] (m !! schedule_key s) ++ [s]]> m.

Definition feeIndex_Rebuild (f : feeIndex) (schedules : list (FeeSchedule U D)) : feeIndex :=
  mkFeeIndex (fold_left index_add schedules ∅).

(** The size-band test of the scan loops. *)
Definition in_band (amount : D) s : bool :=
  if dec_lt amount (fs_SizeBandMin s) then false
  else if dec_gt (fs_SizeBandMax s) dec_zero && dec_gt amount (fs_SizeBandMax s) then false
  else true.

Definition feeIndex_Lookup (f : feeIndex) (tier asset side : string) (amount : D)
  : option (FeeSchedule U D) :=
  find_first (in_band amount) (default [] (data f !! (tier, asset, side))).

Definition feeIndex_Len (f : feeIndex) : Z :=
  map_fold (fun _ v n => n + Z.of_nat (length v))%Z 0%Z (data f).

(** ** The specification: a scan over all schedules *)

Definition key_match (tier asset side : string) s : bool :=
  bool_decide (schedule_key s = (tier, asset, side)).

Definition scan (tier asset side : string) (amount : D) fs : option (FeeSchedule U D) :=
  find_first (fun s => fs_Enabled s && key_match tier asset side s && in_band amount s) fs.

Lemma index_add_lookup m s k :
  default [] (index_add m s !! k) =
  default [] (m !! k) ++ (if fs_Enabled s && bool_decide (schedule_key s = k) then [s] else []).
Proof.
  unfold index_add. destruct (fs_Enabled s); simpl; [| by rewrite app_nil_r].
  rewrite lookup_insert. case_decide as Hk; subst.
  - by rewrite bool_decide_true.
  - rewrite bool_decide_false by done. by rewrite app_nil_r.
Qed.

Lemma fold_index_lookup fs m k :
  default [] (fold_left index_add fs m !! k) =
  default [] (m !! k) ++ List.filter (fun s => fs_Enabled s && bool_decide (schedule_key s = k)) fs.
Proof.
  revert m. induction fs as [| s fs IH]; intros m; simpl; [by rewrite app_nil_r |].
  rewrite IH, index_add_lookup, <- app_assoc. f_equal. by destruct (_ && _).
Qed.

(** The group of a key: the enabled schedules of that key, in order. *)
Lemma Rebuild_group f fs k :
  default [] (data (feeIndex_Rebuild f fs) !! k) =
  List.filter (fun s => fs_Enabled s && bool_decide (schedule_key s = k)) fs.
Proof. unfold feeIndex_Rebuild. simpl. by rewrite fold_index_lookup, lookup_empty. Qed.

Lemma Rebuild_Lookup f fs tier asset side amount :
  feeIndex_Lookup (feeIndex_Rebuild f fs) tier asset side amount = scan tier asset side amount fs.
Proof. unfold feeIndex_Lookup, scan. by rewrite Rebuild_group, find_first_filter. Qed.

Lemma map_len_insert (m : gmap feeIndexKey (list (FeeSchedule U D))) k v :
  map_fold (fun _ v n => n + Z.of_nat (length v))%Z 0%Z (<[k := v]> m) =
  (map_fold (fun _ v n => n + Z.of_nat (length v))%Z 0%Z (delete k m) + Z.of_nat (length v))%Z.
Proof.
  rewrite <- insert_delete_eq, map_fold_insert_L; [lia | intros; lia | apply lookup_delete_eq].
Qed.

Lemma index_add_Len m s :
  map_fold (fun _ v n => n + Z.of_nat (length v))%Z 0%Z (index_add m s) =
  (map_fold (fun _ v n => n + Z.of_nat (length v))%Z 0%Z m + (if fs_Enabled s then 1 else 0))%Z.
Proof.
  unfold index_add. destruct (fs_Enabled s); simpl; [| lia].
  rewrite map_len_insert, length_app. simpl.
  destruct (m !! schedule_key s) as [v |] eqn:Hk; simpl.
  - rewrite <- (insert_id m (schedule_key s) v Hk) at 2. rewrite map_len_insert. lia.
  - rewrite delete_id by done. lia.
Qed.

Lemma Rebuild_Len f fs :
  feeIndex_Len (feeIndex_Rebuild f fs) = Z.of_nat (length (List.filter fs_Enabled fs)).
Proof.
  unfold feeIndex_Len, feeIndex_Rebuild. simpl.
  cut (forall m, map_fold (fun _ v n => n + Z.of_nat (length v))%Z 0%Z (fold_left index_add fs m) =
    (map_fold (fun _ v n => n + Z.of_nat (length v))%Z 0%Z m +
     Z.of_nat (length (List.filter fs_Enabled fs)))%Z).
  { intros Hcut. by rewrite Hcut, map_fold_empty. }
  induction fs as [| s fs IH]; intros m; simpl; [lia |].
  rewrite IH, index_add_Len. destruct (fs_Enabled s); simpl; lia.
Qed.

(** C33: after a rebuild, whatever the index held before, an indexed lookup
    returns what a linear scan of the schedules returns (the first enabled
    schedule of the key whose size band contains the amount), and the length
    reported to the gauge counts exactly the enabled schedules. *)
Theorem feeIndex_refines_scan f fs :
  (forall tier asset side amount,
     feeIndex_Lookup (feeIndex_Rebuild f fs) tier asset side amount
     = scan tier asset side amount fs) /\
  feeIndex_Len (feeIndex_Rebuild f fs) = Z.of_nat (length (List.filter fs_Enabled fs)).
Proof. split; [apply Rebuild_Lookup | apply Rebuild_Len]. Qed.

End fee_index.
Arguments feeIndex : clear implicits.
