(* ===== verification/Lru.v ===== *)
(** * Lru: the bounded LRU cache of spot rates (internal/spot.go, lruCache)

    The cache is a map from keys to elements of a doubly linked list
    ([container/list]).  A [*list.Element] is a handle; the list is kept
    front first.  The specification is the recency list of (key, value)
    pairs; [lru_put_refines] and [lru_get_refines] relate the two. *)

From S2P Require Import Prelude GoStrings.

Section lru.
Context {V : Type}.

Record lruItem := mkItem { key : string; rate : V }.

(** An element of the list: its identity and its value. *)
Abbreviation element := (nat * lruItem)%type.

Record lruCache := mkLru {
  cap : Z;
  items : gmap string nat;
  ll : list element;
  next_el : nat;   (* the allocator of element identities *)
}.

(** The operations of [container/list] the cache uses. *)
Definition list_Len (l : list element) : Z := Z.of_nat (length l).
Definition list_Back (l : list element) : option element := list.last l.
Definition list_Remove (h : nat) (l : list element) : list element :=
  List.filter (fun e => negb (e.1 =? h)%nat) l.
Definition list_At (h : nat) (l : list element) : option element :=
  find_first (fun e => (e.1 =? h)%nat) l.
Definition list_MoveToFront (h : nat) (l : list element) : list element :=
  match list_At h l with Some e => e :: list_Remove h l | None => l end.
(** [el.Value.( *lruItem).rate = r]. *)
Definition list_SetRate (h : nat) (r : V) (l : list element) : list element :=
  map (fun e => if (e.1 =? h)%nat then (e.1, mkItem (key e.2) r) else e) l.

Definition newLRUCache (c : Z) : lruCache :=
  mkLru (if (c <=? 0)%Z then 4096 else c) ∅ [] 0.

Definition lruCache_put (c : lruCache) (k : string) (r : V) : lruCache :=
  match items c !! k with
  | Some el => mkLru (cap c) (items c) (list_MoveToFront el (list_SetRate el r (ll c))) (next_el c)
  | None =>
      let '(its, l) :=
        if (cap c <=? list_Len (ll c))%Z then
          match list_Back (ll c) with
          | Some oldest => (delete (key oldest.2) (items c), list_Remove oldest.1 (ll c))
          | None => (items c, ll c)
          end
        else (items c, ll c) in
      let el := next_el c in
      mkLru (cap c) (<[k := el]> its) ((el, mkItem k r) :: l) (S el)
  end.

Definition lruCache_get (c : lruCache) (k : string) : lruCache * option V :=
  match items c !! k with
  | None => (c, None)
  | Some el =>
      let l := list_MoveToFront el (ll c) in
      (mkLru (cap c) (items c) l (next_el c), (fun e => rate e.2) <$> list_At el l)
  end.

(** ** The specification: recency lists *)

Definition contents (c : lruCache) : list (string * V) := map (fun e => (key e.2, rate e.2)) (ll c).

Definition without (k : string) (l : list (string * V)) : list (string * V) :=
  List.filter (fun p => negb (String.eqb p.1 k)) l.

Definition assoc (k : string) (l : list (string * V)) : option V :=
  snd <$> find_first (fun p => String.eqb p.1 k) l.

Definition spec_put (capacity : Z) (k : string) (v : V) (l : list (string * V)) :=
  (k, v) ::
  match assoc k l with
  | Some _ => without k l
  | None => if (capacity <=? Z.of_nat (length l))%Z then removelast l else l
  end.

Definition spec_get (k : string) (l : list (string * V)) : list (string * V) * option V :=
  match assoc k l with
  | Some v => ((k, v) :: without k l, Some v)
  | None => (l, None)
  end.

(** ** Well-formedness: map and list agree *)

Record lru_wf (c : lruCache) : Prop := {
  wf_cap : (0 < cap c)%Z;
  wf_len : (list_Len (ll c) <= cap c)%Z;
  wf_fresh : forall e, e ∈ ll c -> (e.1 < next_el c)%nat;
  wf_handles : NoDup (ll c).*1;
  wf_items : forall k h, items c !! k = Some h <-> exists v, (h, mkItem k v) ∈ ll c;
}.

(** Two elements of the list with the same handle or the same key coincide. *)
Lemma handle_inj (l : list element) e1 e2 :
  NoDup l.*1 -> e1 ∈ l -> e2 ∈ l -> e1.1 = e2.1 -> e1 = e2.
Proof.
  intros Hnd H1 H2 Heq. apply list_elem_of_lookup in H1 as [i Hi], H2 as [j Hj].
  assert (i = j) as ->; [| congruence].
  eapply (NoDup_lookup l.*1); [done | by rewrite list_lookup_fmap, Hi |].
  by rewrite list_lookup_fmap, Hj, Heq.
Qed.

Lemma handle_key c e h k :
  lru_wf c -> items c !! k = Some h -> e ∈ ll c -> (e.1 = h <-> key e.2 = k).
Proof.
  intros Hwf Hk He. split.
  - intros <-. apply (wf_items c Hwf) in Hk as [v Hv].
    by rewrite (handle_inj (ll c) e _ (wf_handles c Hwf) He Hv).
  - intros <-. destruct e as [h' [k' v']]. simpl in *.
    assert (items c !! k' = Some h') as Hk' by (apply (wf_items c Hwf); eauto). congruence.
Qed.

Lemma Remove_without c h k :
  lru_wf c -> items c !! k = Some h ->
  map (fun e => (key e.2, rate e.2)) (list_Remove h (ll c)) = without k (contents c).
Proof.
  intros Hwf Hk. unfold contents, without, list_Remove.
  assert (forall e, e ∈ ll c -> (e.1 = h <-> key e.2 = k)) as Hiff by eauto using handle_key.
  induction (ll c) as [| e l IH]; simpl; [done |].
  assert (IH' := IH (fun e' He' => Hiff e' (list_elem_of_further e' e l He'))).
  specialize (Hiff e ltac:(by left)).
  destruct (Nat.eqb_spec e.1 h), (String.eqb_spec (key e.2) k); simpl; try tauto.
  by rewrite IH'.
Qed.

Lemma At_assoc c h k :
  lru_wf c -> items c !! k = Some h ->
  exists v, list_At h (ll c) = Some (h, mkItem k v) /\ assoc k (contents c) = Some v.
Proof.
  intros Hwf Hk. unfold contents, assoc, list_At.
  assert (forall e, e ∈ ll c -> (e.1 = h <-> key e.2 = k)) as Hiff by eauto using handle_key.
  assert (exists v, (h, mkItem k v) ∈ ll c) as Hin by by apply (wf_items c Hwf).
  induction (ll c) as [| e l IH]; [by destruct Hin as [v ?%elem_of_nil] |]. simpl.
  assert (Hiff0 := Hiff e ltac:(by left)).
  destruct (Nat.eqb_spec e.1 h), (String.eqb_spec (key e.2) k); simpl; try tauto.
  - exists (rate e.2). split; [| done]. destruct e as [h' [k' v']]. simpl in *. by subst.
  - apply IH; [intros; apply Hiff; by right |].
    destruct Hin as [v [<- | Hv]%elem_of_cons]; [done | eauto].
Qed.

Lemma items_None_assoc c k :
  lru_wf c -> items c !! k = None -> assoc k (contents c) = None.
Proof.
  intros Hwf Hk. unfold assoc. rewrite fmap_None. apply find_first_None.
  unfold contents. apply Forall_forall. intros p Hp. apply in_map_iff in Hp as ([h [k' v]] & <- & Hin).
  simpl. apply String.eqb_neq. intros ->. apply list_elem_of_In in Hin.
  assert (items c !! k = Some h) by (apply (wf_items c Hwf); eauto). congruence.
Qed.

Lemma Remove_SetRate h r l : list_Remove h (list_SetRate h r l) = list_Remove h l.
Proof.
  unfold list_Remove, list_SetRate. induction l as [| e l IH]; simpl; [done |].
  destruct (Nat.eqb_spec e.1 h) as [He | He]; simpl.
  - by rewrite (proj2 (Nat.eqb_eq e.1 h) He).
  - rewrite (proj2 (Nat.eqb_neq e.1 h) He). simpl. by rewrite IH.
Qed.

Lemma At_SetRate h r k v l :
  list_At h l = Some (h, mkItem k v) -> list_At h (list_SetRate h r l) = Some (h, mkItem k r).
Proof.
  unfold list_At, list_SetRate. induction l as [| e l IH]; simpl; [done |].
  destruct (Nat.eqb_spec e.1 h) as [He | He]; simpl.
  - rewrite (proj2 (Nat.eqb_eq e.1 h) He). intros [= ->]. done.
  - rewrite (proj2 (Nat.eqb_neq e.1 h) He). exact IH.
Qed.

Lemma elem_of_Remove h l (e : element) : e ∈ list_Remove h l <-> e ∈ l /\ e.1 <> h.
Proof.
  unfold list_Remove. rewrite !list_elem_of_In, filter_In, negb_true_iff, Nat.eqb_neq. done.
Qed.

Lemma Remove_handles h l : (list_Remove h l).*1 = List.filter (fun x => negb (x =? h)%nat) l.*1.
Proof.
  unfold list_Remove. induction l as [| e l IH]; simpl; [done |].
  destruct (e.1 =? h)%nat; simpl; [exact IH | f_equal; exact IH].
Qed.

Lemma NoDup_list_filter {A} (f : A -> bool) (l : list A) : NoDup l -> NoDup (List.filter f l).
Proof.
  induction 1 as [| x l Hx _ IH]; simpl; [constructor |]. destruct (f x); [| done].
  constructor; [| done]. rewrite list_elem_of_In, filter_In, <- list_elem_of_In. tauto.
Qed.

Lemma Remove_NoDup h l : NoDup l.*1 -> NoDup (list_Remove h l).*1 /\ h ∉ (list_Remove h l).*1.
Proof.
  intros Hnd. rewrite Remove_handles. split; [by apply NoDup_list_filter |].
  rewrite list_elem_of_In, filter_In, negb_true_iff, Nat.eqb_neq. tauto.
Qed.

Lemma Remove_length h l :
  NoDup l.*1 -> h ∈ l.*1 -> S (length (list_Remove h l)) = length l.
Proof.
  unfold list_Remove. induction l as [| e l IH]; intros Hnd Hin; [by apply elem_of_nil in Hin |].
  simpl. apply list.NoDup_cons in Hnd as [Hne Hnd].
  destruct (Nat.eqb_spec e.1 h) as [<- | He]; simpl.
  - f_equal. clear IH Hin Hnd. induction l as [| e' l IH]; simpl; [done |].
    apply not_elem_of_cons in Hne as [Hne' Hne].
    rewrite (proj2 (Nat.eqb_neq e'.1 e.1)) by congruence. simpl. by rewrite IH.
  - rewrite IH; [done | done |]. apply elem_of_cons in Hin as [-> | Hin]; [done | done].
Qed.

Lemma handle_in (l : list element) e : e ∈ l -> e.1 ∈ l.*1.
Proof. intros He. apply list_elem_of_fmap. by exists e. Qed.

(** The state after an access or an in-place update of a present key. *)
Lemma front_wf c k h r :
  lru_wf c -> items c !! k = Some h ->
  lru_wf (mkLru (cap c) (items c) ((h, mkItem k r) :: list_Remove h (ll c)) (next_el c)).
Proof.
  intros Hwf Hk. destruct (proj1 (wf_items c Hwf k h) Hk) as [v0 Hin].
  pose proof (handle_in _ _ Hin) as Hh. simpl in Hh.
  pose proof (Remove_NoDup h (ll c) (wf_handles c Hwf)) as [Hnd Hnot].
  pose proof (Remove_length h (ll c) (wf_handles c Hwf) Hh) as Hlen.
  pose proof (wf_len c Hwf) as Hl. unfold list_Len in Hl.
  split; simpl.
  - apply (wf_cap c Hwf).
  - unfold list_Len. simpl. lia.
  - intros e [-> | [He _]%elem_of_Remove]%elem_of_cons; [apply (wf_fresh c Hwf _ Hin) |].
    by apply (wf_fresh c Hwf).
  - by apply list.NoDup_cons.
  - intros k' h'. rewrite (wf_items c Hwf). setoid_rewrite elem_of_cons.
    setoid_rewrite elem_of_Remove. split.
    + intros [v Hv]. destruct (decide (h' = h)) as [-> | Hne]; [| eauto].
      pose proof (handle_inj (ll c) _ _ (wf_handles c Hwf) Hin Hv eq_refl). simplify_eq. eauto.
    + intros [v [? | [Hv _]]]; simplify_eq; eauto.
Qed.

Lemma Back_In l (e : element) : list_Back l = Some e -> e ∈ l.
Proof. apply last_Some_elem_of. Qed.

Lemma map_removelast {A B} (f : A -> B) (l : list A) : map f (removelast l) = removelast (map f l).
Proof. induction l as [| x [| y l] IH]; simpl; [done.. |]. f_equal. exact IH. Qed.

Lemma Remove_Back l (e : element) :
  NoDup l.*1 -> list_Back l = Some e -> list_Remove e.1 l = removelast l.
Proof.
  unfold list_Back. intros Hnd He. apply last_Some in He as [l' ->].
  rewrite removelast_last, fmap_app in *. apply list.NoDup_app in Hnd as (_ & Hnot & _).
  unfold list_Remove. rewrite filter_app. simpl. rewrite Nat.eqb_refl. simpl. rewrite app_nil_r.
  assert (forall x, x ∈ l' -> x.1 <> e.1) as Hne.
  { intros x Hx Heq. apply (Hnot x.1); [by apply handle_in |]. simpl. rewrite Heq. left. }
  clear Hnot. induction l' as [| x l' IH]; simpl; [done |].
  rewrite (proj2 (Nat.eqb_neq x.1 e.1) (Hne x ltac:(by left))). simpl. f_equal.
  apply IH. intros y Hy. apply Hne. by right.
Qed.

(** Eviction of the least recently used element. *)
Lemma evict_wf c e :
  lru_wf c -> list_Back (ll c) = Some e ->
  let c' := mkLru (cap c) (delete (key e.2) (items c)) (list_Remove e.1 (ll c)) (next_el c) in
  lru_wf c' /\ (list_Len (ll c') < cap c)%Z /\ contents c' = removelast (contents c).
Proof.
  intros Hwf He. pose proof (Back_In _ _ He) as Hin.
  pose proof (handle_in _ _ Hin) as Hh.
  pose proof (Remove_length e.1 (ll c) (wf_handles c Hwf) Hh) as Hlen.
  pose proof (wf_len c Hwf) as Hl. unfold list_Len in Hl.
  split; [| split].
  - split; simpl.
    + apply (wf_cap c Hwf).
    + unfold list_Len. lia.
    + intros x [Hx _]%elem_of_Remove. by apply (wf_fresh c Hwf).
    + apply Remove_NoDup, (wf_handles c Hwf).
    + intros k h. setoid_rewrite elem_of_Remove. rewrite lookup_delete_Some, (wf_items c Hwf).
      destruct e as [he [ke ve]]. simpl in *.
      assert (items c !! ke = Some he) as Hke by (apply (wf_items c Hwf); eauto).
      split.
      * intros [Hne [v Hv]]. exists v. split; [done |]. intros ->.
        pose proof (handle_inj (ll c) _ _ (wf_handles c Hwf) Hin Hv eq_refl). congruence.
      * intros (v & Hv & Hne). split; [| eauto]. intros ->.
        assert (items c !! k = Some h) by (apply (wf_items c Hwf); eauto). congruence.
  - unfold list_Len. simpl. lia.
  - unfold contents. simpl. rewrite (Remove_Back _ _ (wf_handles c Hwf) He). apply map_removelast.
Qed.

(** A new element at the front. *)
Lemma push_wf c k r :
  lru_wf c -> items c !! k = None -> (list_Len (ll c) < cap c)%Z ->
  lru_wf (mkLru (cap c) (<[k := next_el c]> (items c)) ((next_el c, mkItem k r) :: ll c) (S (next_el c))).
Proof.
  intros Hwf Hk Hlen. unfold list_Len in Hlen.
  assert (forall e, e ∈ ll c -> e.1 <> next_el c) as Hnew.
  { intros e He. pose proof (wf_fresh c Hwf e He). lia. }
  split; simpl.
  - apply (wf_cap c Hwf).
  - unfold list_Len. simpl. lia.
  - intros e [-> | He]%elem_of_cons; [simpl; lia |]. pose proof (wf_fresh c Hwf e He). lia.
  - apply list.NoDup_cons. split; [| apply (wf_handles c Hwf)].
    intros (e & He & Hin)%list_elem_of_fmap. by apply (Hnew e).
  - intros k' h. setoid_rewrite elem_of_cons. rewrite lookup_insert_Some, (wf_items c Hwf). split.
    + intros [[<- <-] | [Hne [v Hv]]]; eauto.
    + intros [v [? | Hv]]; simplify_eq; [by left |]. right. split; [| eauto]. intros <-.
      assert (items c !! k = Some h) by (apply (wf_items c Hwf); eauto). congruence.
Qed.

Lemma newLRUCache_wf c : lru_wf (newLRUCache c) /\ contents (newLRUCache c) = [].
Proof.
  split; [| done]. split; simpl; try done.
  - destruct (c <=? 0)%Z eqn:Hc; zbool; lia.
  - unfold list_Len. simpl. destruct (c <=? 0)%Z eqn:Hc; zbool; lia.
  - intros e He. by apply elem_of_nil in He.
  - constructor.
  - intros k h. rewrite lookup_empty. split; [done |]. intros [v Hv]. by apply elem_of_nil in Hv.
Qed.

Lemma get_refines c k :
  lru_wf c ->
  lru_wf (fst (lruCache_get c k)) /\ cap (fst (lruCache_get c k)) = cap c /\
  (contents (fst (lruCache_get c k)), snd (lruCache_get c k)) = spec_get k (contents c).
Proof.
  intros Hwf. unfold lruCache_get, spec_get. destruct (items c !! k) as [h |] eqn:Hk; simpl.
  - destruct (At_assoc c h k Hwf Hk) as (v & Hat & Has). rewrite Has.
    unfold list_MoveToFront. rewrite Hat. split; [| split]; [by apply front_wf | done |].
    unfold contents. simpl. rewrite (Remove_without c h k Hwf Hk). f_equal.
    unfold list_At. simpl. by rewrite Nat.eqb_refl.
  - by rewrite (items_None_assoc c k Hwf Hk).
Qed.

Lemma put_refines c k r :
  lru_wf c ->
  lru_wf (lruCache_put c k r) /\ cap (lruCache_put c k r) = cap c /\
  contents (lruCache_put c k r) = spec_put (cap c) k r (contents c).
Proof.
  intros Hwf. unfold lruCache_put, spec_put. destruct (items c !! k) as [h |] eqn:Hk.
  - destruct (At_assoc c h k Hwf Hk) as (v & Hat & Has). rewrite Has.
    unfold list_MoveToFront. rewrite (At_SetRate h r k v _ Hat), Remove_SetRate.
    split; [| split]; [by apply front_wf | done |].
    unfold contents. simpl. by rewrite (Remove_without c h k Hwf Hk).
  - rewrite (items_None_assoc c k Hwf Hk).
    replace (Z.of_nat (length (contents c))) with (list_Len (ll c))
      by (unfold contents, list_Len; by rewrite length_map).
    destruct (cap c <=? list_Len (ll c))%Z eqn:Hfull; zbool.
    + destruct (list_Back (ll c)) as [e |] eqn:Hb.
      * destruct (evict_wf c e Hwf Hb) as (Hwf' & Hlen & Hcont).
        split; [| split]; [| done | by rewrite <- Hcont].
        apply (push_wf _ k r Hwf'); [| done]. simpl. rewrite lookup_delete_None. by right.
      * unfold list_Back in Hb. apply last_None in Hb. pose proof (wf_cap c Hwf).
        rewrite Hb in Hfull. unfold list_Len in Hfull. simpl in Hfull. lia.
    + split; [| split]; [by apply push_wf | done | done].
Qed.

(** ** Sequences of operations *)

Inductive lru_op := OpGet (k : string) | OpPut (k : string) (v : V).

Definition run_op (c : lruCache) (o : lru_op) : lruCache * list (option V) :=
  match o with
  | OpGet k => let '(c', r) := lruCache_get c k in (c', [r])
  | OpPut k v => (lruCache_put c k v, [])
  end.

Fixpoint run (c : lruCache) (os : list lru_op) : lruCache * list (option V) :=
  match os with
  | [] => (c, [])
  | o :: os' => let '(c1, r1) := run_op c o in let '(c2, r2) := run c1 os' in (c2, r1 ++ r2)
  end.

Definition spec_op (capacity : Z) (l : list (string * V)) (o : lru_op)
  : list (string * V) * list (option V) :=
  match o with
  | OpGet k => let '(l', r) := spec_get k l in (l', [r])
  | OpPut k v => (spec_put capacity k v l, [])
  end.

Fixpoint spec_run (capacity : Z) (l : list (string * V)) (os : list lru_op)
  : list (string * V) * list (option V) :=
  match os with
  | [] => (l, [])
  | o :: os' =>
      let '(l1, r1) := spec_op capacity l o in
      let '(l2, r2) := spec_run capacity l1 os' in (l2, r1 ++ r2)
  end.

Lemma run_refines c os :
  lru_wf c ->
  lru_wf (fst (run c os)) /\ cap (fst (run c os)) = cap c /\
  (contents (fst (run c os)), snd (run c os)) = spec_run (cap c) (contents c) os.
Proof.
  revert c. induction os as [| o os IH]; intros c Hwf; simpl; [done |].
  assert (lru_wf (fst (run_op c o)) /\ cap (fst (run_op c o)) = cap c /\
          (contents (fst (run_op c o)), snd (run_op c o)) = spec_op (cap c) (contents c) o)
    as (Hwf1 & Hcap1 & Hout1).
  { destruct o as [k | k v]; simpl.
    - destruct (get_refines c k Hwf) as (? & ? & Hg). destruct (lruCache_get c k) as [c' r].
      simpl in *. by rewrite <- Hg.
    - destruct (put_refines c k v Hwf) as (? & ? & Hp). by rewrite Hp. }
  rewrite <- Hout1. destruct (run_op c o) as [c1 r1]. simpl in *.
  destruct (IH c1 Hwf1) as (Hwf2 & Hcap2 & Hout2). rewrite <- Hcap1, <- Hout2.
  destruct (run c1 os) as [c2 r2]. simpl in *. by rewrite Hcap2.
Qed.

(** The keys other than [k] that a sequence accesses, and whether it writes [k]. *)
Definition op_key (o : lru_op) : string := match o with OpGet k | OpPut k _ => k end.
Definition touched (k : string) (os : list lru_op) : gset string :=
  list_to_set (List.filter (fun x => negb (String.eqb x k)) (map op_key os)).
Definition writes (k : string) (os : list lru_op) : Prop := exists v, OpPut k v ∈ os.

(** [k] sits in the list behind keys of [T] only. *)
Definition behind (T : gset string) (k : string) (v : V) (l : list (string * V)) : Prop :=
  exists pre post, l = pre ++ (k, v) :: post /\ NoDup l.*1 /\ (forall x, x ∈ pre.*1 -> x ∈ T).

Lemma assoc_here k v pre post :
  k ∉ pre.*1 -> assoc k (pre ++ (k, v) :: post) = Some v.
Proof.
  intros Hpre. unfold assoc. induction pre as [| p pre IH]; simpl; [by rewrite String.eqb_refl |].
  apply not_elem_of_cons in Hpre as [Hne Hpre].
  rewrite (proj2 (String.eqb_neq p.1 k)) by congruence. by apply IH.
Qed.

Lemma assoc_None_not_in k l : assoc k l = None <-> k ∉ l.*1.
Proof.
  unfold assoc. rewrite fmap_None, find_first_None, List.Forall_forall. split.
  - intros Hall Hin. apply list_elem_of_fmap in Hin as (p & -> & Hp).
    apply list_elem_of_In, Hall, String.eqb_neq in Hp. done.
  - intros Hnot p Hp. apply String.eqb_neq. intros <-. apply Hnot, list_elem_of_fmap.
    exists p. by rewrite list_elem_of_In.
Qed.

Lemma without_keys k l : (without k l).*1 = List.filter (fun x => negb (String.eqb x k)) l.*1.
Proof.
  unfold without. induction l as [| p l IH]; simpl; [done |].
  destruct (String.eqb p.1 k); simpl; [exact IH | f_equal; exact IH].
Qed.

Lemma elem_of_without_keys k x l : x ∈ (without k l).*1 <-> x ∈ l.*1 /\ x <> k.
Proof.
  rewrite without_keys, !list_elem_of_In, filter_In, negb_true_iff, String.eqb_neq. done.
Qed.

Lemma without_NoDup k v l : NoDup l.*1 -> NoDup (((k, v) :: without k l).*1).
Proof.
  intros Hnd. simpl. apply list.NoDup_cons. split; [rewrite elem_of_without_keys; tauto |].
  rewrite without_keys. by apply NoDup_list_filter.
Qed.

Lemma behind_front T k v k' v' l :
  k' <> k -> behind T k v l -> behind ({[k']} ∪ T) k v ((k', v') :: without k' l).
Proof.
  intros Hne (pre & post & -> & Hnd & Hpre).
  exists ((k', v') :: without k' pre), (without k' post). split; [| split].
  - unfold without. rewrite filter_app. simpl. by rewrite (proj2 (String.eqb_neq k k')) by congruence.
  - by apply without_NoDup.
  - intros x. simpl. rewrite elem_of_cons, elem_of_without_keys. set_solver.
Qed.

Lemma removelast_app_cons {A} (pre post : list A) x y :
  removelast (pre ++ x :: y :: post) = pre ++ x :: removelast (y :: post).
Proof. rewrite removelast_app by done. done. Qed.

Lemma removelast_NoDup {A} (l : list A) : NoDup l -> NoDup (removelast l).
Proof.
  destruct l as [| x l] using rev_ind; [done |]. rewrite removelast_last.
  by intros (? & _)%list.NoDup_app.
Qed.

Lemma elem_of_removelast {A} (x : A) l : x ∈ removelast l -> x ∈ l.
Proof.
  destruct l as [| y l _] using rev_ind; [done |]. rewrite removelast_last, elem_of_app. tauto.
Qed.

Lemma fst_removelast (l : list (string * V)) : (removelast l).*1 = removelast l.*1.
Proof. apply map_removelast. Qed.

Lemma behind_step cp T k v l o :
  behind T k v l -> ~ writes k [o] ->
  (Z.of_nat (size (touched k [o] ∪ T)) < cp)%Z ->
  behind (touched k [o] ∪ T) k v (fst (spec_op cp l o)).
Proof.
  intros Hb Hw Hsize. pose proof Hb as (pre & post & Hl & Hnd & Hpre).
  assert (k ∉ pre.*1) as Hk.
  { rewrite Hl, fmap_app in Hnd. apply list.NoDup_app in Hnd as (_ & Hd & _).
    intros Hin. apply (Hd k Hin). simpl. by left. }
  destruct (decide (op_key o = k)) as [Hok | Hok].
  - destruct o as [k' | k' v']; simpl in Hok; subst k'.
    2: { exfalso. apply Hw. exists v'. by left. }
    simpl. unfold spec_get. subst l. rewrite assoc_here by done. simpl.
    exists [], (without k (pre ++ (k, v) :: post)). split; [done |]. split.
    + by apply without_NoDup.
    + intros x Hx. by apply elem_of_nil in Hx.
  - assert (touched k [o] = {[op_key o]}) as Ht.
    { unfold touched. simpl. rewrite (proj2 (String.eqb_neq (op_key o) k) Hok). simpl. set_solver. }
    rewrite Ht in *. clear Ht. destruct o as [k' | k' v']; simpl in *.
    + unfold spec_get. destruct (assoc k' l) as [v0 |]; simpl; [by apply behind_front |].
      exists pre, post. split; [done |]. split; [done |]. set_solver.
    + unfold spec_put. destruct (assoc k' l) as [v0 |] eqn:Has; simpl; [by apply behind_front |].
      apply assoc_None_not_in in Has.
      destruct (cp <=? Z.of_nat (length l))%Z eqn:Hfull; zbool.
      2: { exists ((k', v') :: pre), post. subst l. split; [done |]. split.
           - simpl. by apply list.NoDup_cons.
           - simpl. intros x. rewrite elem_of_cons. set_solver. }
      destruct post as [| y post].
      * exfalso. subst l. rewrite length_app in Hfull. simpl in Hfull.
        assert (size (list_to_set (k' :: pre.*1) : gset string) <= size ({[k']} ∪ T))%nat as Hle
          by (apply subseteq_size; set_solver).
        rewrite size_list_to_set in Hle.
        -- simpl in Hle. rewrite length_fmap in Hle. lia.
        -- apply list.NoDup_cons. rewrite fmap_app in Hnd, Has. split; [set_solver |].
           by apply list.NoDup_app in Hnd as (? & _).
      * exists ((k', v') :: pre), (removelast (y :: post)). subst l. split; [| split].
        -- simpl. f_equal. apply removelast_app_cons.
        -- simpl. apply list.NoDup_cons. rewrite fst_removelast.
           split; [| by apply removelast_NoDup]. intros Hin. by apply Has, elem_of_removelast.
        -- simpl. intros x. rewrite elem_of_cons. set_solver.
Qed.

Lemma touched_cons k o os : touched k (o :: os) = touched k [o] ∪ touched k os.
Proof.
  unfold touched. simpl. destruct (String.eqb (op_key o) k); simpl; set_solver.
Qed.

Lemma behind_run cp T k v l os :
  behind T k v l -> ~ writes k os -> (Z.of_nat (size (touched k os ∪ T)) < cp)%Z ->
  assoc k (fst (spec_run cp l os)) = Some v.
Proof.
  revert T l. induction os as [| o os IH]; intros T l Hb Hw Hsize; simpl.
  - destruct Hb as (pre & post & -> & Hnd & _). apply assoc_here.
    rewrite fmap_app in Hnd. apply list.NoDup_app in Hnd as (_ & Hd & _).
    intros Hin. apply (Hd k Hin). by left.
  - rewrite touched_cons in Hsize.
    assert (behind (touched k [o] ∪ T) k v (fst (spec_op cp l o))) as Hb'.
    { apply behind_step; [done | |].
      - intros [v' Hv']. apply Hw. exists v'. apply list_elem_of_singleton in Hv' as <-. by left.
      - assert (size (touched k [o] ∪ T) <= size (touched k [o] ∪ touched k os ∪ T))%nat
          by (apply subseteq_size; set_solver). lia. }
    destruct (spec_op cp l o) as [l1 r1]. simpl in Hb'.
    specialize (IH _ _ Hb'). destruct (spec_run cp l1 os) as [l2 r2]. simpl in *. apply IH.
    + intros [v' Hv']. apply Hw. exists v'. by right.
    + replace (touched k os ∪ (touched k [o] ∪ T)) with (touched k [o] ∪ touched k os ∪ T)
        by set_solver. done.
Qed.

Lemma contents_NoDup c : lru_wf c -> NoDup (contents c).*1.
Proof.
  intros Hwf. replace ((contents c).*1) with ((fun e => key e.2) <$> ll c)
    by (unfold contents; rewrite <- list_fmap_compose; done).
  apply NoDup_fmap_2_strong; [| by eapply NoDup_fmap_1, (wf_handles c Hwf)].
  intros [h1 [k1 v1]] [h2 [k2 v2]] H1 H2 Heq. simpl in Heq. subst k2.
  apply (handle_inj (ll c)); [apply (wf_handles c Hwf) | done | done |]. simpl.
  assert (items c !! k1 = Some h1) by (apply (wf_items c Hwf); eauto).
  assert (items c !! k1 = Some h2) by (apply (wf_items c Hwf); eauto). congruence.
Qed.

Lemma spec_put_front cp k v l : NoDup l.*1 -> behind ∅ k v (spec_put cp k v l).
Proof.
  intros Hnd. unfold spec_put. eexists [], _. split; [done |]. split.
  2: { intros x Hx. by apply elem_of_nil in Hx. }
  destruct (assoc k l) as [v0 |] eqn:Has; [by apply without_NoDup |].
  apply assoc_None_not_in in Has. simpl. apply list.NoDup_cons. case_match.
  - rewrite fst_removelast. split; [| by apply removelast_NoDup].
    intros Hin. by apply Has, elem_of_removelast.
  - done.
Qed.

(** C34: any sequence of gets and puts on a new cache returns exactly what the
    recency list returns, and the cache never holds more entries than its
    capacity, each key at most once. *)
Theorem lruCache_refines_recency c0 os :
  let c := newLRUCache c0 in
  (contents (fst (run c os)), snd (run c os)) = spec_run (cap c) [] os /\
  (Z.of_nat (length (contents (fst (run c os)))) <= cap c)%Z /\
  NoDup (contents (fst (run c os))).*1.
Proof.
  intros c. destruct (newLRUCache_wf c0) as [Hwf Hc].
  destruct (run_refines c os Hwf) as (Hwf' & Hcap & Hout).
  split; [rewrite Hout; by subst c |]. split; [| by apply contents_NoDup].
  rewrite <- Hcap. unfold contents. rewrite length_map. apply (wf_len _ Hwf').
Qed.

(** A cached entry survives, and is what a get returns, as long as fewer
    than [cap] distinct other keys were accessed since it was stored and the
    key itself was not overwritten. *)
Theorem lruCache_keeps_recent c k v os :
  lru_wf c -> ~ writes k os -> (Z.of_nat (size (touched k os)) < cap c)%Z ->
  snd (lruCache_get (fst (run (lruCache_put c k v) os)) k) = Some v.
Proof.
  intros Hwf Hw Hsize. destruct (put_refines c k v Hwf) as (Hwf1 & Hcap1 & Hcont1).
  destruct (run_refines _ os Hwf1) as (Hwf2 & Hcap2 & Hout2).
  destruct (get_refines _ k Hwf2) as (_ & _ & Hget). apply (f_equal snd) in Hget. simpl in Hget.
  rewrite Hget. unfold spec_get.
  apply (f_equal fst) in Hout2. simpl in Hout2. rewrite Hout2, Hcap1, Hcont1.
  rewrite (behind_run (cap c) ∅ k v); [done | | done | by rewrite union_empty_r_L].
  by apply spec_put_front, contents_NoDup.
Qed.

End lru.
Arguments lruItem : clear implicits.
Arguments lruCache : clear implicits.

(** ** Witnesses *)

Lemma lruCache_keeps_recent_witness :
  snd (lruCache_get (fst (run (lruCache_put (newLRUCache (V := Z) 2) "USD-BTC" 65000%Z)
    [OpPut "USD-ETH" 3500%Z; OpGet "USD-ETH"])) "USD-BTC") = Some 65000%Z /\
  snd (lruCache_get (fst (run (lruCache_put (newLRUCache (V := Z) 2) "USD-BTC" 65000%Z)
    [OpPut "USD-ETH" 3500%Z; OpPut "EUR-BTC" 70000%Z])) "USD-BTC") = None.
Proof.
  split; [| vm_compute; reflexivity].
  apply (lruCache_keeps_recent (newLRUCache 2) "USD-BTC" 65000%Z
           [OpPut "USD-ETH" 3500%Z; OpGet "USD-ETH"]).
  - apply newLRUCache_wf.
  - intros [v Hv]. apply list_elem_of_In in Hv. simpl in Hv. destruct Hv as [Hv | [Hv | []]]; discriminate Hv.
  - vm_compute. reflexivity.
Defined.
