(* ===== verification/Spot.v ===== *)
(** * Spot: the spot-rate service (internal/spot.go, SpotService)

    Rate lookups over the LRU cache with stale-rate enforcement, the poll
    hook, reseeding, the last-good fallback, and the per-venue circuit
    breaker.  The two callbacks are arguments: [onUpdate] acts on a client
    world [W]; [pollHook] may update the service itself.  Each reading of the
    clock is an argument.  The Prometheus counters the service increments are
    part of its state; log output is not modelled. *)

From S2P Require Import Prelude GoStrings Decimal RefDecimal Lru.

Record Rate (D : Type) := mkRate {
  r_From : string;
  r_To : string;
  r_Bid : D;
  r_Ask : D;
  r_Mid : D;
  r_TS : time;
  r_SourceVenue : string;
  r_Stale : bool;
}.
Arguments mkRate {D}.
Arguments r_From {D} _.
Arguments r_To {D} _.
Arguments r_Bid {D} _.
Arguments r_Ask {D} _.
Arguments r_Mid {D} _.
Arguments r_TS {D} _.
Arguments r_SourceVenue {D} _.
Arguments r_Stale {D} _.

(** [r.TS = t] and [r.Stale = true]. *)
Definition set_TS {D} (t : time) (r : Rate D) : Rate D :=
  mkRate (r_From r) (r_To r) (r_Bid r) (r_Ask r) (r_Mid r) t (r_SourceVenue r) (r_Stale r).
Definition set_Stale {D} (r : Rate D) : Rate D :=
  mkRate (r_From r) (r_To r) (r_Bid r) (r_Ask r) (r_Mid r) (r_TS r) (r_SourceVenue r) true.

Record Venue := mkVenue {
  v_Name : string;
  v_Errors : Z;
  v_Down : bool;
  v_OpenedAt : time;
  v_ErrorThreshold : Z;
}.

(** The zero [time.Time]. *)
Definition zero_time : time := -62135596800 * Second.

Definition newVenue (n : string) (threshold : Z) : Venue := mkVenue n 0 false zero_time threshold.

(** The counters of internal/metrics.go that this component increments. *)
Record SpotMetrics := mkSpotMetrics {
  spotCacheHits : Z;
  spotCacheMisses : Z;
  quoteSourceStale : Z;
  venueFailover : gmap (string * string) Z;
}.

Definition inc_hits m :=
  mkSpotMetrics (spotCacheHits m + 1) (spotCacheMisses m) (quoteSourceStale m) (venueFailover m).
Definition inc_misses m :=
  mkSpotMetrics (spotCacheHits m) (spotCacheMisses m + 1) (quoteSourceStale m) (venueFailover m).
Definition inc_stale m :=
  mkSpotMetrics (spotCacheHits m) (spotCacheMisses m) (quoteSourceStale m + 1) (venueFailover m).
Definition inc_failover k m :=
  mkSpotMetrics (spotCacheHits m) (spotCacheMisses m) (quoteSourceStale m)
    (<[k := (default 0 (venueFailover m !! k) + 1)%Z]> (venueFailover m)).

Record SpotService (D : Type) := mkSpot {
  cache : lruCache (Rate D);
  lastGood : gmap string (Rate D);
  maxStaleAge : duration;
  venues : gmap string Venue;
  venueOrder : list string;
  errorThreshold : Z;
  ready : bool;
  met : SpotMetrics;
}.
Arguments mkSpot {D}.
Arguments cache {D} _.
Arguments lastGood {D} _.
Arguments maxStaleAge {D} _.
Arguments venues {D} _.
Arguments venueOrder {D} _.
Arguments errorThreshold {D} _.
Arguments ready {D} _.
Arguments met {D} _.

Section setters.
Context {D : Type}.
Implicit Types s : SpotService D.

Definition set_cache c s :=
  mkSpot c (lastGood s) (maxStaleAge s) (venues s) (venueOrder s) (errorThreshold s) (ready s) (met s).
Definition set_lastGood l s :=
  mkSpot (cache s) l (maxStaleAge s) (venues s) (venueOrder s) (errorThreshold s) (ready s) (met s).
Definition set_venues v s :=
  mkSpot (cache s) (lastGood s) (maxStaleAge s) v (venueOrder s) (errorThreshold s) (ready s) (met s).
Definition set_met f s :=
  mkSpot (cache s) (lastGood s) (maxStaleAge s) (venues s) (venueOrder s) (errorThreshold s) (ready s)
    (f (met s)).
Definition SetMaxStaleAge d s :=
  mkSpot (cache s) (lastGood s) d (venues s) (venueOrder s) (errorThreshold s) (ready s) (met s).

End setters.

Definition pairKey (from to : string) : string := from +:+ "-" +:+ to.

Section spot.
Context {D : Type} {ops : DecimalOps D}.
Implicit Types (s : SpotService D) (r : Rate D).

(** ** Seeding *)

Definition seeds (now : time) : list (Rate D) :=
  [ mkRate "USD" "BTC" (dec_of_int 64900) (dec_of_int 65100) (dec_of_int 65000) now "kraken" false;
    mkRate "USD" "ETH" (dec_of_int 3495) (dec_of_int 3505) (dec_of_int 3500) now "kraken" false;
    mkRate "EUR" "BTC" (dec_of_int 69800) (dec_of_int 70200) (dec_of_int 70000) now "kraken" false;
    mkRate "GBP" "BTC" (dec_of_int 82000) (dec_of_int 83000) (dec_of_int 82500) now "kraken" false ].

Definition store_rate (r : Rate D) s : SpotService D :=
  let k := pairKey (r_From r) (r_To r) in
  set_lastGood (<[k := r]> (lastGood s)) (set_cache (lruCache_put (cache s) k r) s).

Definition default_venues : list string := ["kraken"; "coinbase"; "binance"].

Definition seed (now : time) s : SpotService D :=
  let s1 := set_cache (newLRUCache (cap (cache s))) s in
  let s2 := fold_left (fun s r => store_rate r s) (seeds now) s1 in
  mkSpot (cache s2) (lastGood s2) (maxStaleAge s2)
    (fold_left (fun m n => <[n := newVenue n (errorThreshold s2)]> m) default_venues (venues s2))
    default_venues (errorThreshold s2) true (met s2).

Definition NewSpotService (age : duration) (now : time) : SpotService D :=
  seed now (mkSpot (newLRUCache 4096) ∅ age ∅ [] 3 false (mkSpotMetrics 0 0 0 ∅)).

Definition ReSeed := seed.

Definition IsReady s : bool := ready s && (0 <? list_Len (ll (cache s)))%Z.

(** ** Lookups and updates *)

Section hooks.
Context {W : Type}.

Record Hooks := mkHooks {
  onUpdate : option (string -> Rate D -> W -> W);
  pollHook : option (string -> string -> SpotService D -> W -> SpotService D * W * option (Rate D));
}.

Definition Update (h : Hooks) (now : time) (r : Rate D) s (w : W) : SpotService D * W :=
  let r := set_TS now r in
  let s' := store_rate r s in
  match onUpdate h with
  | Some f => (s', f (pairKey (r_From r) (r_To r)) r w)
  | None => (s', w)
  end.

(** The end of [Get]: the last-good rate flagged stale, or an error. *)
Definition get_last_good (from to : string) s : SpotService D * result (Rate D) string :=
  let s := set_met inc_misses s in
  match lastGood s !! pairKey from to with
  | Some lg => (set_met inc_stale s, Ok (set_Stale lg))
  | None => (s, Err ("no spot rate for pair " +:+ from +:+ "-" +:+ to))
  end.

(** After a stale hit that the poll hook did not resolve. *)
Definition get_reseed (t_reseed : time) (from to : string) s : SpotService D * result (Rate D) string :=
  let s := ReSeed t_reseed s in
  let '(c, ro) := lruCache_get (cache s) (pairKey from to) in
  let s := set_cache c s in
  match ro with
  | Some r => (set_met inc_misses s, Ok r)
  | None => get_last_good from to s
  end.

(** [Get]: [t_since] is the clock when the age is taken, [t_reseed] when the
    cache is reseeded. *)
Definition Get (h : Hooks) (t_since t_reseed : time) (from to : string) s (w : W)
  : SpotService D * W * result (Rate D) string :=
  let '(c, ro) := lruCache_get (cache s) (pairKey from to) in
  let s := set_cache c s in
  match ro with
  | None => let '(s', res) := get_last_good from to s in (s', w, res)
  | Some r =>
      if (time_Since t_since (r_TS r) <=? maxStaleAge s)%Z
      then (set_met inc_hits s, w, Ok r)
      else
        let '(s, w, po) := match pollHook h with
                           | Some hook => hook from to s w
                           | None => (s, w, None)
                           end in
        match po with
        | Some pr => (set_met inc_misses s, w, Ok pr)
        | None => let '(s', res) := get_reseed t_reseed from to s in (s', w, res)
        end
  end.

End hooks.

(** The server installs no poll hook: [Get] reduces to this. *)
Definition Get0 (t_since t_reseed : time) (from to : string) s : SpotService D * result (Rate D) string :=
  let '(s', _, res) := Get (W := unit) (mkHooks None None) t_since t_reseed from to s tt in (s', res).

(** ** The circuit breaker *)

Definition RecordVenueError (name : string) (now : time) s : SpotService D :=
  let v := default (newVenue name (errorThreshold s)) (venues s !! name) in
  let errors := wrap64 (v_Errors v + 1) in
  let v' :=
    if (v_ErrorThreshold v <=? errors)%Z && negb (v_Down v)
    then mkVenue (v_Name v) errors true now (v_ErrorThreshold v)
    else mkVenue (v_Name v) errors (v_Down v) (v_OpenedAt v) (v_ErrorThreshold v) in
  set_venues (<[name := v']> (venues s)) s.

Definition reset_venue (v : Venue) : Venue :=
  mkVenue (v_Name v) 0 false (v_OpenedAt v) (v_ErrorThreshold v).

Definition RecordVenueSuccess (name : string) s : SpotService D :=
  match venues s !! name with
  | Some v => set_venues (<[name := reset_venue v]> (venues s)) s
  | None => s
  end.

Definition IsVenueDown (name : string) s : bool :=
  match venues s !! name with Some v => v_Down v | None => false end.

Definition HalfOpenProbe (name : string) s : SpotService D * bool :=
  match venues s !! name with
  | Some v => if v_Down v then (set_venues (<[name := reset_venue v]> (venues s)) s, true) else (s, false)
  | None => (s, false)
  end.

Definition FetchVenueOrder s : list string := venueOrder s.

(** The loop of [AdvanceVenue]: the element after the first occurrence of
    [from] that has a successor. *)
Fixpoint next_venue (from : string) (order : list string) : option string :=
  match order with
  | v :: rest =>
      match rest with
      | n :: _ => if String.eqb v from then Some n else next_venue from rest
      | [] => None
      end
  | [] => None
  end.

Definition AdvanceVenue (from : string) s : SpotService D * (string * bool) :=
  match next_venue from (venueOrder s) with
  | Some n => (set_met (inc_failover (from, n)) s, (n, true))
  | None => (s, (from, false))
  end.

End spot.

(** ** The recency list seen as a partial map *)

Section assoc.
Context {V : Type}.
Implicit Types l : list (string * V).

Lemma assoc_cons k k' v l :
  assoc k' ((k, v) :: l) = if String.eqb k k' then Some v else assoc k' l.
Proof. unfold assoc. simpl. by destruct (String.eqb k k'). Qed.

Lemma assoc_removelast k v l : assoc k (removelast l) = Some v -> assoc k l = Some v.
Proof.
  induction l as [| [k1 v1] l IH]; [done |]. destruct l as [| p l]; [done |].
  change (removelast ((k1, v1) :: p :: l)) with ((k1, v1) :: removelast (p :: l)).
  rewrite !(assoc_cons k1). by destruct (String.eqb k1 k).
Qed.

Lemma assoc_without k k' v l : assoc k' (without k l) = Some v -> assoc k' l = Some v.
Proof.
  unfold without. induction l as [| [k1 v1] l IH]; simpl; [done |].
  destruct (String.eqb_spec k1 k) as [-> | Hne]; simpl; rewrite !assoc_cons.
  - intros Hl. destruct (String.eqb_spec k k') as [-> | Hk]; [| by apply IH].
    exfalso. revert Hl. clear. induction l as [| [k1 v1] l IH]; simpl; [done |].
    destruct (String.eqb_spec k1 k') as [-> | Hne]; simpl; [done |].
    rewrite assoc_cons, (proj2 (String.eqb_neq k1 k')) by done. done.
  - by destruct (String.eqb k1 k').
Qed.

Lemma assoc_spec_put cp k v k' v' l :
  assoc k' (spec_put cp k v l) = Some v' ->
  (k' = k /\ v' = v) \/ (k' <> k /\ assoc k' l = Some v').
Proof.
  unfold spec_put. rewrite assoc_cons. destruct (String.eqb_spec k k') as [-> | Hne].
  - intros [= ->]. by left.
  - intros Has. right. split; [done |]. repeat case_match; eauto using assoc_without, assoc_removelast.
Qed.

Lemma assoc_spec_get k k' l : assoc k' (fst (spec_get k l)) = assoc k' l.
Proof.
  unfold spec_get. destruct (assoc k l) as [v |] eqn:Hk; simpl; [| done].
  rewrite assoc_cons. destruct (String.eqb_spec k k') as [-> | Hne]; [done |]. clear Hk.
  unfold without. induction l as [| [k1 v1] l IH]; simpl; [done |].
  rewrite assoc_cons. destruct (String.eqb_spec k1 k) as [-> | Hne1]; simpl.
  - by rewrite (proj2 (String.eqb_neq k k')).
  - rewrite assoc_cons. by destruct (String.eqb k1 k').
Qed.

End assoc.

(** ** Invariant: every cached rate is the last-good rate of its pair *)

Section spot_theorems.
Context {D : Type} {ops : DecimalOps D}.
Implicit Types (s : SpotService D) (r : Rate D) (k : string).

Definition cached s k : option (Rate D) := assoc k (contents (cache s)).

Record spot_wf s : Prop := {
  wf_lru : lru_wf (cache s);
  wf_cap4096 : cap (cache s) = 4096%Z;
  wf_cached : forall k r, cached s k = Some r -> lastGood s !! k = Some r;
  wf_keys : forall k r, lastGood s !! k = Some r -> k = pairKey (r_From r) (r_To r);
}.

Lemma store_rate_wf r s : spot_wf s -> spot_wf (store_rate r s).
Proof.
  intros Hwf. set (k := pairKey (r_From r) (r_To r)).
  destruct (put_refines (cache s) k r (wf_lru s Hwf)) as (Hl & Hc & Hcont).
  split; simpl; fold k; [exact Hl | by rewrite Hc, (wf_cap4096 s Hwf) | |].
  - intros k' r'. unfold cached. simpl. fold k. rewrite Hcont. intros Has.
    apply assoc_spec_put in Has as [[-> ->] | [Hne Has]]; [by rewrite lookup_insert_eq |].
    rewrite lookup_insert_ne by congruence. by apply (wf_cached s Hwf).
  - intros k' r' Hk'. apply lookup_insert_Some in Hk' as [[<- <-] | [_ Hk']]; [done |].
    by apply (wf_keys s Hwf).
Qed.

Lemma store_rates_wf rs s : spot_wf s -> spot_wf (fold_left (fun s r => store_rate r s) rs s).
Proof. revert s. induction rs as [| r rs IH]; intros s Hwf; simpl; [done |]. by apply IH, store_rate_wf. Qed.

Lemma empty_cache_wf s : spot_wf s -> spot_wf (set_cache (newLRUCache (cap (cache s))) s).
Proof.
  intros Hwf. rewrite (wf_cap4096 s Hwf).
  split; simpl; [apply newLRUCache_wf | done | done | apply (wf_keys s Hwf)].
Qed.

Lemma seed_wf now s : spot_wf s -> spot_wf (seed now s).
Proof.
  intros Hwf. pose proof (store_rates_wf (seeds now) _ (empty_cache_wf s Hwf)) as Hs2.
  unfold seed. revert Hs2. generalize (fold_left (fun s r => store_rate r s) (seeds now)
    (set_cache (newLRUCache (cap (cache s))) s)).
  intros s2 [? ? ? ?]. by split.
Qed.

Lemma NewSpotService_wf age now : spot_wf (NewSpotService age now).
Proof.
  unfold NewSpotService. apply seed_wf. split; simpl; [apply newLRUCache_wf | done | done |].
  intros k r Hk. by rewrite lookup_empty in Hk.
Qed.

Lemma set_met_wf f s : spot_wf s -> spot_wf (set_met f s).
Proof. by intros [? ? ? ?]. Qed.

Lemma set_venues_wf v s : spot_wf s -> spot_wf (set_venues v s).
Proof. by intros [? ? ? ?]. Qed.

Lemma cache_get_wf k s :
  spot_wf s ->
  let s' := set_cache (fst (lruCache_get (cache s) k)) s in
  spot_wf s' /\ snd (lruCache_get (cache s) k) = cached s k /\ (forall k', cached s' k' = cached s k').
Proof.
  intros Hwf. destruct (get_refines (cache s) k (wf_lru s Hwf)) as (Hl & Hc & Hget).
  assert (forall k', assoc k' (contents (fst (lruCache_get (cache s) k))) = cached s k') as Hk'.
  { intros k'. apply (f_equal fst) in Hget. simpl in Hget. rewrite Hget. apply assoc_spec_get. }
  split; [| split].
  - split; simpl; [done | by rewrite Hc, (wf_cap4096 s Hwf) | | apply (wf_keys s Hwf)].
    intros k' r. unfold cached. simpl. rewrite Hk'. apply (wf_cached s Hwf).
  - apply (f_equal snd) in Hget. simpl in Hget. rewrite Hget. unfold spec_get, cached. by case_match.
  - exact Hk'.
Qed.

(** ** What seeding leaves behind *)

Definition seed_of (now : time) k : option (Rate D) :=
  find_first (fun r => String.eqb (pairKey (r_From r) (r_To r)) k) (seeds now).

Lemma seed_keys now : map (fun r => pairKey (r_From r) (r_To r)) (seeds now) =
  ["USD-BTC"; "USD-ETH"; "EUR-BTC"; "GBP-BTC"].
Proof. reflexivity. Qed.

Lemma seed_contents now s :
  spot_wf s ->
  contents (cache (seed now s)) = rev (map (fun r => (pairKey (r_From r) (r_To r), r)) (seeds now)).
Proof.
  intros Hwf. unfold seed. rewrite (wf_cap4096 s Hwf). reflexivity.
Qed.

Lemma seed_cached now s k : spot_wf s -> cached (seed now s) k = seed_of now k.
Proof.
  intros Hwf. unfold cached, seed_of. rewrite (seed_contents now s Hwf). unfold seeds. cbn [map rev app].
  rewrite !assoc_cons. cbn [find_first r_From r_To].
  change (pairKey "USD" "BTC") with "USD-BTC". change (pairKey "USD" "ETH") with "USD-ETH".
  change (pairKey "EUR" "BTC") with "EUR-BTC". change (pairKey "GBP" "BTC") with "GBP-BTC".
  destruct (String.eqb_spec "USD-BTC" k) as [<- |]; [done |].
  destruct (String.eqb_spec "USD-ETH" k) as [<- |]; [done |].
  destruct (String.eqb_spec "EUR-BTC" k) as [<- |]; [done |].
  by destruct (String.eqb_spec "GBP-BTC" k) as [<- |].
Qed.

Lemma fold_store_lastGood (rs : list (Rate D)) s k :
  Forall (fun r => pairKey (r_From r) (r_To r) <> k) rs ->
  lastGood (fold_left (fun s r => store_rate r s) rs s) !! k = lastGood s !! k.
Proof.
  revert s. induction rs as [| r rs IH]; intros s Hall; simpl; [done |].
  apply Forall_cons_1 in Hall as [Hr Hall]. rewrite IH by done. simpl. by rewrite lookup_insert_ne.
Qed.

Lemma seed_lastGood now s k :
  spot_wf s ->
  lastGood (seed now s) !! k = match seed_of now k with Some r => Some r | None => lastGood s !! k end.
Proof.
  intros Hwf. destruct (seed_of now k) as [r |] eqn:Hk.
  - apply (wf_cached _ (seed_wf now s Hwf)). by rewrite seed_cached.
  - unfold seed_of in Hk. apply find_first_None in Hk.
    unfold seed. cbn [lastGood]. rewrite fold_store_lastGood; [done |].
    eapply List.Forall_impl; [| exact Hk]. intros r Hr. by apply String.eqb_neq.
Qed.

Lemma seed_of_In now k r :
  seed_of now k = Some r -> In r (seeds now) /\ r_TS r = now /\ r_Stale r = false.
Proof.
  unfold seed_of. intros Hk. apply find_first_Some in Hk as (l1 & l2 & Hl & _ & _).
  assert (In r (seeds now)) as Hin by (rewrite Hl; apply in_app_iff; simpl; tauto).
  split; [done |]. unfold seeds in Hin. simpl in Hin. by destruct Hin as [<- | [<- | [<- | [<- | []]]]].
Qed.

Lemma IsVenueDown_venues n s s' : venues s = venues s' -> IsVenueDown n s = IsVenueDown n s'.
Proof. unfold IsVenueDown. by intros ->. Qed.

Lemma seed_venues now s n : n ∈ default_venues -> IsVenueDown n (seed now s) = false.
Proof.
  intros Hn. unfold IsVenueDown, seed. cbn [venues fold_left default_venues].
  apply list_elem_of_In in Hn. simpl in Hn.
  destruct Hn as [<- | [<- | [<- | []]]]; by rewrite !lookup_insert.
Qed.

(** ** What [Get] returns *)

Definition no_rate (from to : string) : string := "no spot rate for pair " +:+ from +:+ "-" +:+ to.

(** The contract of [Get] without a poll hook, on the abstract state: a fresh
    cached rate as it is; for a rate that is too old the default seed of the
    pair, or the rate itself flagged stale when the pair has no seed; for a
    pair that is not cached its last-good rate flagged stale, or an error. *)
Definition Get_spec (t_since t_reseed : time) (from to : string) s : result (Rate D) string :=
  let k := pairKey from to in
  match cached s k with
  | Some r =>
      if (time_Since t_since (r_TS r) <=? maxStaleAge s)%Z then Ok r
      else match seed_of t_reseed k with Some sd => Ok sd | None => Ok (set_Stale r) end
  | None =>
      match lastGood s !! k with Some lg => Ok (set_Stale lg) | None => Err (no_rate from to) end
  end.

Definition lookups (m : SpotMetrics) : Z := spotCacheHits m + spotCacheMisses m.

Lemma seed_met now s : met (seed now s) = met s.
Proof. reflexivity. Qed.

Lemma get_last_good_ok from to s :
  spot_wf s ->
  spot_wf (fst (get_last_good from to s)) /\
  snd (get_last_good from to s) =
    match lastGood s !! pairKey from to with
    | Some lg => Ok (set_Stale lg) | None => Err (no_rate from to) end /\
  lookups (met (fst (get_last_good from to s))) = (lookups (met s) + 1)%Z /\
  lastGood (fst (get_last_good from to s)) = lastGood s /\
  venues (fst (get_last_good from to s)) = venues s.
Proof.
  intros Hwf. unfold get_last_good, no_rate, lookups. cbn [lastGood set_met].
  destruct (lastGood s !! pairKey from to); simpl; split_and!;
    eauto using set_met_wf; lia.
Qed.

Lemma get_reseed_ok t from to s :
  spot_wf s ->
  let k := pairKey from to in
  spot_wf (fst (get_reseed t from to s)) /\
  snd (get_reseed t from to s) =
    match seed_of t k with
    | Some sd => Ok sd
    | None => match lastGood s !! k with
              | Some lg => Ok (set_Stale lg) | None => Err (no_rate from to) end
    end /\
  lookups (met (fst (get_reseed t from to s))) = (lookups (met s) + 1)%Z /\
  lastGood (fst (get_reseed t from to s)) = lastGood (seed t s) /\
  venues (fst (get_reseed t from to s)) = venues (seed t s).
Proof.
  intros Hwf k. unfold get_reseed, ReSeed. fold k.
  pose proof (seed_wf t s Hwf) as Hwf1. pose proof (seed_cached t s k Hwf) as Hc.
  pose proof (seed_lastGood t s k Hwf) as Hlg. pose proof (seed_met t s) as Hmet.
  revert Hwf1 Hc Hlg Hmet. generalize (seed t s). intros s1 Hwf1 Hc Hlg Hmet.
  destruct (cache_get_wf k s1 Hwf1) as (Hwf2 & Hres & _). rewrite Hc in Hres.
  destruct (lruCache_get (cache s1) k) as [c ro]. cbn [fst snd] in *. subst ro.
  destruct (seed_of t k) as [sd |]; cbn [fst snd].
  - split_and!; [by apply set_met_wf | done | | done | done].
    rewrite <- Hmet. unfold lookups. simpl. lia.
  - destruct (get_last_good_ok from to _ Hwf2) as (? & Hr & Hm & Hl & Hv). fold k in Hr.
    split_and!; [done | | | by rewrite Hl | by rewrite Hv].
    + rewrite Hr. cbn [lastGood set_cache]. by rewrite Hlg.
    + rewrite Hm, <- Hmet. done.
Qed.

(** The three outcomes of a lookup, once for all the theorems about [Get0]. *)
Lemma Get0_cases t_since t_reseed from to s :
  spot_wf s ->
  let k := pairKey from to in
  let s1 := set_cache (fst (lruCache_get (cache s) k)) s in
  spot_wf s1 /\
  Get0 t_since t_reseed from to s =
    match cached s k with
    | None => get_last_good from to s1
    | Some r => if (time_Since t_since (r_TS r) <=? maxStaleAge s)%Z then (set_met inc_hits s1, Ok r)
                else get_reseed t_reseed from to s1
    end.
Proof.
  intros Hwf k s1. destruct (cache_get_wf k s Hwf) as (Hwf1 & Hres & _). split; [done |].
  unfold Get0, Get. fold k. subst s1.
  destruct (lruCache_get (cache s) k) as [c ro]. cbn [fst snd] in *. subst ro.
  destruct (cached s k) as [r |]; [| by destruct (get_last_good _ _ _)].
  cbn [maxStaleAge set_cache]. destruct (_ <=? _)%Z; [done |]. simpl.
  by destruct (get_reseed _ _ _ _).
Qed.

(** C29: in a well-formed service, [Get] without a poll hook returns exactly
    what its contract says, keeps the service well formed and counts exactly
    one hit or one miss. *)
Theorem Get_correct t_since t_reseed from to s :
  spot_wf s ->
  snd (Get0 t_since t_reseed from to s) = Get_spec t_since t_reseed from to s /\
  spot_wf (fst (Get0 t_since t_reseed from to s)) /\
  lookups (met (fst (Get0 t_since t_reseed from to s))) = (lookups (met s) + 1)%Z.
Proof.
  intros Hwf. destruct (Get0_cases t_since t_reseed from to s Hwf) as [Hwf1 ->].
  unfold Get_spec. destruct (cached s (pairKey from to)) as [r |] eqn:Hc.
  - destruct (_ <=? _)%Z.
    + unfold lookups. simpl. split_and!; eauto using set_met_wf. lia.
    + destruct (get_reseed_ok t_reseed from to _ Hwf1) as (? & Hr & Hm & _).
      split_and!; [| done | done].
      rewrite Hr. cbn [lastGood set_cache]. by rewrite (wf_cached s Hwf _ _ Hc).
  - by destruct (get_last_good_ok from to _ Hwf1) as (? & Hr & Hm & _).
Qed.

(** ** Reachable services *)

(** A service as the server uses it: created, updated by the feed, looked up
    and driven by the circuit breaker in any order. *)
Inductive spot_reachable : SpotService D -> Prop :=
  | reach_new age now : spot_reachable (NewSpotService age now)
  | reach_update s now r : spot_reachable s -> spot_reachable (store_rate (set_TS now r) s)
  | reach_get s t1 t2 from to : spot_reachable s -> spot_reachable (fst (Get0 t1 t2 from to s))
  | reach_reseed s now : spot_reachable s -> spot_reachable (ReSeed now s)
  | reach_error s n now : spot_reachable s -> spot_reachable (RecordVenueError n now s)
  | reach_success s n : spot_reachable s -> spot_reachable (RecordVenueSuccess n s)
  | reach_probe s n : spot_reachable s -> spot_reachable (fst (HalfOpenProbe n s))
  | reach_advance s n : spot_reachable s -> spot_reachable (fst (AdvanceVenue n s))
  | reach_age s d : spot_reachable s -> spot_reachable (SetMaxStaleAge d s).

Lemma Get0_wf t1 t2 from to s : spot_wf s -> spot_wf (fst (Get0 t1 t2 from to s)).
Proof.
  intros Hwf. destruct (Get0_cases t1 t2 from to s Hwf) as [Hwf1 ->].
  destruct (cached s (pairKey from to)); [destruct (_ <=? _)%Z |].
  - by apply set_met_wf.
  - by apply get_reseed_ok.
  - by apply get_last_good_ok.
Qed.

Lemma spot_reachable_wf s : spot_reachable s -> spot_wf s.
Proof.
  induction 1 as [| | | | | s n _ IH | s n _ IH | s n _ IH | s d _ [? ? ? ?]].
  - apply NewSpotService_wf.
  - by apply store_rate_wf.
  - by apply Get0_wf.
  - by apply seed_wf.
  - by apply set_venues_wf.
  - unfold RecordVenueSuccess. destruct (venues s !! n); [by apply set_venues_wf | done].
  - unfold HalfOpenProbe. destruct (venues s !! n) as [v |]; [destruct (v_Down v) |]; simpl;
      [by apply set_venues_wf | done | done].
  - unfold AdvanceVenue. destruct (next_venue n (venueOrder s)); simpl; [by apply set_met_wf | done].
  - by split.
Qed.

(** A pair with a last-good rate keeps one. *)
Lemma Get0_lastGood t1 t2 from to s k :
  spot_wf s -> is_Some (lastGood s !! k) -> is_Some (lastGood (fst (Get0 t1 t2 from to s)) !! k).
Proof.
  intros Hwf Hk. destruct (Get0_cases t1 t2 from to s Hwf) as [Hwf1 ->].
  destruct (cached s (pairKey from to)); [destruct (_ <=? _)%Z |].
  - done.
  - destruct (get_reseed_ok t2 from to _ Hwf1) as (_ & _ & _ & -> & _).
    rewrite (seed_lastGood t2 _ k Hwf1). by case_match.
  - destruct (get_last_good_ok from to _ Hwf1) as (_ & _ & _ & -> & _). done.
Qed.

Inductive spot_steps (s : SpotService D) : SpotService D -> Prop :=
  | steps_refl : spot_steps s s
  | steps_update s' now r : spot_steps s s' -> spot_steps s (store_rate (set_TS now r) s')
  | steps_get s' t1 t2 from to : spot_steps s s' -> spot_steps s (fst (Get0 t1 t2 from to s'))
  | steps_reseed s' now : spot_steps s s' -> spot_steps s (ReSeed now s').

Lemma steps_lastGood s s' k :
  spot_wf s -> spot_steps s s' -> is_Some (lastGood s !! k) ->
  spot_wf s' /\ is_Some (lastGood s' !! k).
Proof.
  intros Hwf Hsteps Hk. induction Hsteps as [| s' now r _ [IH1 IH2] | s' t1 t2 f t _ [IH1 IH2] | s' now _ [IH1 IH2]].
  - done.
  - split; [by apply store_rate_wf |]. simpl. rewrite lookup_insert. by case_decide.
  - split; [by apply Get0_wf | by apply Get0_lastGood].
  - split; [by apply seed_wf |]. unfold ReSeed. rewrite (seed_lastGood now s' k IH1). by case_match.
Qed.

(** C30: stale-rate protection.  A rate returned by a reachable service is
    within the maximum age when it is read, or is flagged stale, or is one of
    the hard-coded seeds stamped by the reseed of this very call. *)
Theorem Get_never_silently_stale t_since t_reseed from to s r :
  spot_reachable s ->
  snd (Get0 t_since t_reseed from to s) = Ok r ->
  (time_Since t_since (r_TS r) <= maxStaleAge s)%Z \/ r_Stale r = true \/
  (In r (seeds t_reseed) /\ r_TS r = t_reseed).
Proof.
  intros Hreach Hget. pose proof (spot_reachable_wf s Hreach) as Hwf.
  destruct (Get0_cases t_since t_reseed from to s Hwf) as [Hwf1 Heq]. rewrite Heq in Hget. clear Heq.
  destruct (cached s (pairKey from to)) as [r0 |]; [destruct (_ <=? _)%Z eqn:Hage |].
  - simplify_eq/=. left. by zbool.
  - destruct (get_reseed_ok t_reseed from to _ Hwf1) as (_ & Hr & _). rewrite Hr in Hget.
    destruct (seed_of t_reseed (pairKey from to)) as [sd |] eqn:Hsd; simplify_eq.
    + right. right. by destruct (seed_of_In _ _ _ Hsd) as (? & ? & _).
    + case_match; simplify_eq. by right; left.
  - destruct (get_last_good_ok from to _ Hwf1) as (_ & Hr & _). rewrite Hr in Hget.
    case_match; simplify_eq. by right; left.
Qed.

(** Once the feed has delivered a rate for a pair, no later sequence of
    updates, lookups and reseeds makes a lookup of that pair fail. *)
Theorem Get_available_after_update now r s s' t_since t_reseed :
  spot_reachable s ->
  spot_steps (store_rate (set_TS now r) s) s' ->
  exists r', snd (Get0 t_since t_reseed (r_From r) (r_To r) s') = Ok r'.
Proof.
  intros Hreach Hsteps. pose proof (spot_reachable_wf s Hreach) as Hwf.
  pose proof (store_rate_wf (set_TS now r) s Hwf) as Hwf1.
  destruct (steps_lastGood _ s' (pairKey (r_From r) (r_To r)) Hwf1 Hsteps) as [Hwf' [lg Hlg]].
  { simpl. rewrite lookup_insert_eq. eauto. }
  destruct (Get0_cases t_since t_reseed (r_From r) (r_To r) s' Hwf') as [Hwf2 ->].
  destruct (cached s' (pairKey (r_From r) (r_To r))); [destruct (_ <=? _)%Z |].
  - simpl. eauto.
  - destruct (get_reseed_ok t_reseed (r_From r) (r_To r) _ Hwf2) as (_ & -> & _).
    cbn [lastGood set_cache]. rewrite Hlg. case_match; eauto.
  - destruct (get_last_good_ok (r_From r) (r_To r) _ Hwf2) as (_ & -> & _).
    cbn [lastGood set_cache]. rewrite Hlg. eauto.
Qed.

(** A lookup of a seeded pair that is too old throws the market away: it
    returns the hard-coded seed unflagged, overwrites the last-good rate of
    every seeded pair with its seed and closes the circuit breaker of every
    default venue. *)
Theorem stale_Get_resets_to_seeds t_since t_reseed from to s r sd :
  spot_reachable s ->
  cached s (pairKey from to) = Some r ->
  (maxStaleAge s < time_Since t_since (r_TS r))%Z ->
  seed_of t_reseed (pairKey from to) = Some sd ->
  snd (Get0 t_since t_reseed from to s) = Ok sd /\ r_Stale sd = false /\
  (forall k sd', seed_of t_reseed k = Some sd' ->
     lastGood (fst (Get0 t_since t_reseed from to s)) !! k = Some sd') /\
  (forall n, n ∈ default_venues -> IsVenueDown n (fst (Get0 t_since t_reseed from to s)) = false).
Proof.
  intros Hreach Hc Hage Hsd. pose proof (spot_reachable_wf s Hreach) as Hwf.
  destruct (Get0_cases t_since t_reseed from to s Hwf) as [Hwf1 ->]. rewrite Hc.
  apply Z.leb_gt in Hage. rewrite Hage.
  destruct (get_reseed_ok t_reseed from to _ Hwf1) as (_ & Hr & _ & Hlg & Hv). rewrite Hsd in Hr.
  split; [exact Hr |]. split; [by apply (seed_of_In t_reseed (pairKey from to) sd) |]. split.
  - intros k sd' Hk. by rewrite Hlg, (seed_lastGood t_reseed _ k Hwf1), Hk.
  - intros n Hn. by rewrite (IsVenueDown_venues n _ _ Hv), seed_venues.
Qed.

End spot_theorems.

(** ** The circuit breaker *)

Section breaker.
Context {D : Type} {ops : DecimalOps D}.
Implicit Types s : SpotService D.

(** The record a venue has, or would get on its first error. *)
Definition venue_of (n : string) s : Venue :=
  default (newVenue n (errorThreshold s)) (venues s !! n).

Definition closed (n : string) (th : Z) s : Prop :=
  v_Errors (venue_of n s) = 0%Z /\ v_Down (venue_of n s) = false /\ v_ErrorThreshold (venue_of n s) = th.

(** Errors of one venue at the given instants, in order. *)
Definition errors_at (n : string) (ts : list time) s : SpotService D :=
  fold_left (fun s t => RecordVenueError n t s) ts s.

Lemma errors_at_snoc n ts t s : errors_at n (ts ++ [t]) s = RecordVenueError n t (errors_at n ts s).
Proof. unfold errors_at. by rewrite fold_left_app. Qed.

Lemma venue_of_RecordVenueError n m t s :
  venue_of m (RecordVenueError n t s) =
  if decide (n = m) then
    let v := venue_of n s in
    let e := wrap64 (v_Errors v + 1) in
    if (v_ErrorThreshold v <=? e)%Z && negb (v_Down v)
    then mkVenue (v_Name v) e true t (v_ErrorThreshold v)
    else mkVenue (v_Name v) e (v_Down v) (v_OpenedAt v) (v_ErrorThreshold v)
  else venue_of m s.
Proof.
  unfold venue_of, RecordVenueError. cbn [venues set_venues errorThreshold].
  rewrite lookup_insert. by case_decide.
Qed.

Lemma IsVenueDown_venue_of n s : IsVenueDown n s = v_Down (venue_of n s).
Proof. unfold IsVenueDown, venue_of. by destruct (venues s !! n). Qed.

Lemma errors_at_venue n ts th s :
  closed n th s -> (0 < th)%Z -> (Z.of_nat (length ts) <= max_int64)%Z ->
  let v := venue_of n (errors_at n ts s) in
  v_Errors v = Z.of_nat (length ts) /\ v_ErrorThreshold v = th /\
  v_Down v = (th <=? Z.of_nat (length ts))%Z /\
  (v_Down v = true -> ts !! Z.to_nat (th - 1) = Some (v_OpenedAt v)).
Proof.
  intros (He & Hd & Ht) Hth. induction ts as [| t ts IH] using rev_ind; intros Hlen.
  { simpl. rewrite He, Hd, Ht. split_and!; [done | done | | done]. symmetry. apply Z.leb_gt. lia. }
  rewrite length_app in *. simpl in Hlen.
  destruct IH as (IHe & IHt & IHd & IHo); [lia |].
  rewrite errors_at_snoc, venue_of_RecordVenueError, decide_True by done. cbv zeta.
  set (v := venue_of n (errors_at n ts s)) in *.
  rewrite wrap64_id by (rewrite IHe; unfold in_int64, min_int64, max_int64 in *; lia).
  rewrite IHe, IHt, IHd. simpl length.
  destruct (th <=? Z.of_nat (length ts))%Z eqn:Hdown; zbool.
  - rewrite andb_false_r. simpl. split_and!; [lia | done | |].
    + symmetry. apply Z.leb_le. lia.
    + intros _. rewrite lookup_app_l by lia. by apply IHo.
  - rewrite andb_true_r. destruct (th <=? Z.of_nat (length ts) + 1)%Z eqn:Hnow; zbool; simpl.
    + split_and!; [lia | done | symmetry; apply Z.leb_le; lia |].
      intros _. replace (Z.to_nat (th - 1)) with (length ts) by lia.
      rewrite lookup_app_r, Nat.sub_diag by lia. done.
    + split_and!; [lia | done | symmetry; apply Z.leb_gt; lia | done].
Qed.

Lemma venue_of_reset n s s' :
  venues s' = <[n := reset_venue (venue_of n s)]> (venues s) -> errorThreshold s' = errorThreshold s ->
  venue_of n s' = reset_venue (venue_of n s).
Proof. intros Hv Hth. unfold venue_of at 1. by rewrite Hv, lookup_insert_eq. Qed.

(** A closed venue is down exactly from its [threshold]-th consecutive
    error on, opened at the instant of that error; other venues are not
    affected; a half-open probe succeeds exactly when the venue is down, and
    a probe of a down venue or a success closes it again. *)
Theorem breaker_opens_at_threshold n th ts s :
  closed n th s -> (0 < th)%Z -> (Z.of_nat (length ts) <= max_int64)%Z ->
  let s' := errors_at n ts s in
  IsVenueDown n s' = (th <=? Z.of_nat (length ts))%Z /\
  (IsVenueDown n s' = true -> ts !! Z.to_nat (th - 1) = Some (v_OpenedAt (venue_of n s'))) /\
  (forall m, m <> n -> IsVenueDown m s' = IsVenueDown m s) /\
  snd (HalfOpenProbe n s') = IsVenueDown n s' /\
  (IsVenueDown n s' = true -> closed n th (fst (HalfOpenProbe n s'))) /\
  (ts <> [] -> closed n th (RecordVenueSuccess n s')).
Proof.
  intros Hcl Hth Hlen s'.
  destruct (errors_at_venue n ts th s Hcl Hth Hlen) as (He & Ht & Hd & Ho). fold s' in He, Ht, Hd, Ho.
  rewrite IsVenueDown_venue_of. split_and!; [done | done | | | |].
  - intros m Hm. subst s'. rewrite !IsVenueDown_venue_of. f_equal.
    clear -Hm. induction ts as [| t ts IH] using rev_ind; [done |].
    rewrite errors_at_snoc, venue_of_RecordVenueError, decide_False by done. done.
  - unfold HalfOpenProbe, venue_of. destruct (venues s' !! n) as [v |]; [| done]. simpl.
    by destruct (v_Down v).
  - unfold HalfOpenProbe. intros Hdown. unfold venue_of in Hdown.
    destruct (venues s' !! n) as [v |] eqn:Hv; [| done]. simpl in Hdown. rewrite Hdown. simpl.
    assert (venue_of n s' = v) as Hof by (unfold venue_of; by rewrite Hv).
    unfold closed. rewrite (venue_of_reset n s') by (simpl; by rewrite ?Hof). by rewrite Hof in *.
  - intros Hne. unfold RecordVenueSuccess.
    destruct (venues s' !! n) as [v |] eqn:Hv.
    + assert (venue_of n s' = v) as Hof by (unfold venue_of; by rewrite Hv).
      unfold closed. rewrite (venue_of_reset n s') by (simpl; by rewrite ?Hof). by rewrite Hof in *.
    + exfalso. subst s'. destruct ts as [| t ts _] using rev_ind; [done |].
      rewrite errors_at_snoc in Hv. unfold RecordVenueError in Hv. cbn [venues set_venues] in Hv.
      by rewrite lookup_insert_eq in Hv.
Qed.

(** ** Failover *)

Lemma next_venue_app pre a b post :
  a ∉ pre -> next_venue a (pre ++ a :: b :: post) = Some b.
Proof.
  induction pre as [| x pre IH]; intros Hna; simpl; [by rewrite String.eqb_refl |].
  apply not_elem_of_cons in Hna as [Hne Hna].
  destruct (pre ++ a :: b :: post) as [| y l] eqn:Hl; [by destruct pre |].
  rewrite (proj2 (String.eqb_neq x a)) by congruence. by apply IH.
Qed.

Lemma next_venue_None a order :
  (forall pre b post, order <> pre ++ a :: b :: post) -> next_venue a order = None.
Proof.
  induction order as [| x order IH]; intros Hno; simpl; [done |].
  destruct order as [| y order]; [done |].
  destruct (String.eqb_spec x a) as [-> | Hne]; [by destruct (Hno [] y order) |].
  apply IH. intros pre b post Heq. apply (Hno (x :: pre) b post). by rewrite Heq.
Qed.

(** Failover moves from a venue to its successor in priority order and
    counts the transition; from the last venue, or from an unknown one, there
    is no failover and nothing changes. *)
Theorem AdvanceVenue_order a s :
  NoDup (venueOrder s) ->
  (forall pre b post, venueOrder s = pre ++ a :: b :: post ->
     AdvanceVenue a s = (set_met (inc_failover (a, b)) s, (b, true))) /\
  ((forall pre b post, venueOrder s <> pre ++ a :: b :: post) -> AdvanceVenue a s = (s, (a, false))).
Proof.
  intros Hnd. split.
  - intros pre b post Heq. unfold AdvanceVenue. rewrite Heq in *.
    rewrite next_venue_app; [done |]. apply list.NoDup_app in Hnd as (_ & Hd & _).
    intros Hin. apply (Hd a Hin). by left.
  - intros Hno. unfold AdvanceVenue. by rewrite next_venue_None.
Qed.

End breaker.

(** ** Witnesses: a service created at time 0 with a 250 ms maximum age *)

Definition sample_spot : SpotService refdec := NewSpotService (250 * Millisecond) 0.

Definition sample_rate (mid : Z) : Rate refdec :=
  mkRate "USD" "BTC" (RD (mid - 100) 0) (RD (mid + 100) 0) (RD mid 0) 0 "coinbase" false.

Lemma Get_correct_witness :
  spot_wf sample_spot /\
  snd (Get0 (100 * Millisecond) 0 "USD" "BTC" sample_spot)
  = Get_spec (100 * Millisecond) 0 "USD" "BTC" sample_spot.
Proof.
  split; [apply NewSpotService_wf |].
  apply (Get_correct (100 * Millisecond) 0 "USD" "BTC" sample_spot). apply NewSpotService_wf.
Defined.

(** A feed rate of 70000 read one second later: the seed comes back. *)
Definition fed_spot : SpotService refdec := store_rate (set_TS 0 (sample_rate 70000)) sample_spot.

Lemma fed_spot_reachable : spot_reachable fed_spot.
Proof. apply reach_update, reach_new. Qed.

Lemma Get_never_silently_stale_witness :
  (time_Since (100 * Millisecond) 0 <= maxStaleAge fed_spot)%Z \/
  r_Stale (set_TS 0 (sample_rate 70000)) = true \/
  (In (set_TS 0 (sample_rate 70000)) (seeds 5) /\ r_TS (set_TS 0 (sample_rate 70000)) = 5%Z).
Proof.
  apply (Get_never_silently_stale (100 * Millisecond) 5 "USD" "BTC" fed_spot
           (set_TS 0 (sample_rate 70000)) fed_spot_reachable).
  vm_compute. reflexivity.
Defined.

Lemma Get_available_after_update_witness :
  exists r', snd (Get0 Second Second "USD" "BTC" (fst (Get0 Second Second "EUR" "BTC" fed_spot))) = Ok r'.
Proof.
  apply (Get_available_after_update 0 (sample_rate 70000) sample_spot
           (fst (Get0 Second Second "EUR" "BTC" fed_spot)) Second Second).
  - apply reach_new.
  - apply steps_get, steps_refl.
Defined.

Lemma stale_Get_resets_to_seeds_witness :
  r_Mid <$> cached fed_spot "USD-BTC" = Some (RD 70000 0) /\
  snd (Get0 Second Second "USD" "BTC" fed_spot) =
    Ok (mkRate "USD" "BTC" (RD 64900 0) (RD 65100 0) (RD 65000 0) Second "kraken" false).
Proof.
  split; [vm_compute; reflexivity |].
  apply (stale_Get_resets_to_seeds Second Second "USD" "BTC" fed_spot (set_TS 0 (sample_rate 70000)) _
           fed_spot_reachable).
  - vm_compute. reflexivity.
  - vm_compute. reflexivity.
  - vm_compute. reflexivity.
Defined.

Lemma breaker_opens_at_threshold_witness :
  closed "kraken" 3 sample_spot /\
  IsVenueDown "kraken" (errors_at "kraken" [10; 20; 30]%Z sample_spot) = true /\
  IsVenueDown "kraken" (errors_at "kraken" [10; 20]%Z sample_spot) = false.
Proof.
  assert (closed "kraken" 3 sample_spot) as Hcl by (vm_compute; done).
  split; [exact Hcl |]. split.
  - exact (proj1 (breaker_opens_at_threshold "kraken" 3 [10; 20; 30]%Z sample_spot Hcl
             ltac:(lia) ltac:(vm_compute; discriminate))).
  - exact (proj1 (breaker_opens_at_threshold "kraken" 3 [10; 20]%Z sample_spot Hcl
             ltac:(lia) ltac:(vm_compute; discriminate))).
Defined.

Lemma AdvanceVenue_order_witness :
  NoDup (venueOrder sample_spot) /\
  snd (AdvanceVenue "kraken" sample_spot) = ("coinbase", true).
Proof.
  assert (NoDup (venueOrder sample_spot)) as Hnd
    by (apply (bool_decide_unpack _); vm_compute; exact I).
  split; [exact Hnd |].
  rewrite (proj1 (AdvanceVenue_order "kraken" sample_spot Hnd) [] "coinbase" ["binance"] eq_refl).
  reflexivity.
Defined.
