(* ===== verification/Pricer.v ===== *)
(** * Pricer: rate, spread, fee and totals of a quote (internal/pricer.go)

    [Compute] reads the spot service (which it may change: LRU order,
    reseeding, counters), matches a fee schedule and computes the quote with
    decimals.  A decimal division may panic on zero, and a product or division
    whose exponent leaves int32 panics, so the result is an [outcome] of the
    service state and a Go (value, error) pair.  The theorems give the exact
    rational value of every component of a quote, and exactly when pricing
    panics. *)

From S2P Require Import Prelude GoStrings Decimal RefDecimal Store FeeIndex Lru Spot.

Record ComputeResult (D : Type) := mkResult {
  cr_Rate : D;
  cr_Spot : D;
  cr_SpreadBPS : Z;
  cr_Fee : D;
  cr_Total : D;
  cr_CryptoAmount : D;
  cr_SourceVenue : string;
}.
Arguments mkResult {D}.
Arguments cr_Rate {D} _.
Arguments cr_Spot {D} _.
Arguments cr_SpreadBPS {D} _.
Arguments cr_Fee {D} _.
Arguments cr_Total {D} _.
Arguments cr_CryptoAmount {D} _.
Arguments cr_SourceVenue {D} _.

Definition errBadRate : string := "invalid spot rate".

Section pricer.
Context {U D : Type} `{Countable U} {ops : DecimalOps D}.
Implicit Types (st : Store U D) (sv : SpotService D).

(** The pricer's own state; the store and the spot service are shared with
    the server and passed in. *)
Record Pricer := mkPricer { defaultSpreadBPS : Z; index : feeIndex U D }.

Definition NewPricer st (spread : Z) : Pricer :=
  mkPricer spread (feeIndex_Rebuild newFeeIndex (FeeSchedules st)).

(** [ReloadIndex], with the value the loaded-schedules gauge is set to. *)
Definition ReloadIndex (p : Pricer) st : Pricer * Z :=
  let idx := feeIndex_Rebuild (index p) (FeeSchedules st) in
  (mkPricer (defaultSpreadBPS p) idx, feeIndex_Len idx).

(** The test of the fallback scan, condition by condition. *)
Definition fallback_match (tier asset side : string) (amount : D) (s : FeeSchedule U D) : bool :=
  if negb (fs_Enabled s) then false
  else if negb (String.eqb (fs_UserTier s) tier) then false
  else if negb (String.eqb (fs_Asset s) asset) then false
  else if negb (String.eqb (fs_Side s) "") && negb (String.eqb (fs_Side s) side) then false
  else if dec_lt amount (fs_SizeBandMin s)
          || (dec_gt (fs_SizeBandMax s) dec_zero && dec_gt amount (fs_SizeBandMax s)) then false
  else true.

Definition matchSchedule (p : Pricer) st (tier asset side : string) (amount : D)
  : option (FeeSchedule U D) :=
  match feeIndex_Lookup (index p) tier asset side amount with
  | Some s => Some s
  | None => find_first (fallback_match tier asset side amount) (FeeSchedules st)
  end.

Definition computeFee (s : option (FeeSchedule U D)) (base : D) : outcome D :=
  match s with
  | None => mret dec_zero
  | Some s =>
      if String.eqb (fs_FeeType s) "FLAT" then mret (fs_FeeAmount s)
      else if String.eqb (fs_FeeType s) "BPS"
      then x ← (base * dec_of_int (fs_FeeBPS s))%pq; dec_div x (dec_of_int 10000)
      else mret dec_zero
  end.

Definition round (v : D) (places : Z) : outcome D :=
  let pow := dec_pow (dec_of_int 10) (dec_of_int places) in
  x ← (v * pow)%pq;
  dec_div (dec_round x 0) pow.

(** The price the spread is applied to: the mid, or half way between bid and
    ask when the mid is not positive. *)
Definition spot_of (r : Rate D) : outcome D :=
  if dec_le (r_Mid r) dec_zero
  then half ← dec_div (r_Ask r - r_Bid r)%pq (dec_of_int 2); mret (r_Bid r + half)%pq
  else mret (r_Mid r).

(** The [switch side]: rate, fee, total and crypto amount; for an unknown side
    the four variables keep their zero values.  In the SELL branch the fee is
    computed from [total], which still is the zero decimal. *)
Definition side_amounts (sched : option (FeeSchedule U D)) (spot spread amount : D) (side : string)
  : outcome (D * D * D * D) :=
  if String.eqb side "BUY" then
    rate ← (spot * (dec_of_int 1 + spread))%pq;
    fee ← computeFee sched amount;
    let total := (amount + fee)%pq in
    cryptoAmount ← dec_div amount rate;
    mret (rate, fee, total, cryptoAmount)
  else if String.eqb side "SELL" then
    let total := dec_zero in
    rate ← (spot * (dec_of_int 1 - spread))%pq;
    let cryptoAmount := amount in
    fee ← computeFee sched total;
    gross ← (amount * rate)%pq;
    let total := (gross - fee)%pq in
    mret (rate, fee, total, cryptoAmount)
  else mret (dec_zero, dec_zero, dec_zero, dec_zero).

(** The part of [Compute] after the spot lookup. *)
Definition compute_with (p : Pricer) st (r : Rate D) (to : string) (amount : D) (userTier side : string)
  : outcome (result (ComputeResult D) string) :=
  let sched := matchSchedule p st userTier to side amount in
  let spreadBPS := match sched with Some s => fs_SpreadBPS s | None => defaultSpreadBPS p end in
  spot ← spot_of r;
  if dec_le spot dec_zero then mret (Err errBadRate)
  else
    spread ← dec_div (dec_of_int spreadBPS) (dec_of_int 10000);
    '(rate, fee, total, cryptoAmount) ← side_amounts sched spot spread amount side;
    fee ← round fee 8;
    total ← round total 8;
    cryptoAmount ← round cryptoAmount 8;
    mret (Ok (mkResult rate spot spreadBPS fee total cryptoAmount (r_SourceVenue r))).

Definition Compute (p : Pricer) st sv (t_since t_reseed : time)
    (from to : string) (amount : D) (userTier side : string)
  : outcome (SpotService D * result (ComputeResult D) string) :=
  let '(sv', gr) := Get0 t_since t_reseed from to sv in
  match gr with
  | Err e => mret (sv', Err e)
  | Ok r => res ← compute_with p st r to amount userTier side; mret (sv', res)
  end.

(** ** Which schedule is matched *)

Lemma key_match_eqb tier asset side s :
  key_match (U := U) (D := D) tier asset side s =
  String.eqb (fs_UserTier s) tier && String.eqb (fs_Asset s) asset && String.eqb (fs_Side s) side.
Proof.
  unfold key_match, schedule_key.
  destruct (String.eqb_spec (fs_UserTier s) tier) as [<- | Ht];
    [| by rewrite bool_decide_false by congruence].
  destruct (String.eqb_spec (fs_Asset s) asset) as [<- | Ha];
    [| by rewrite bool_decide_false by congruence].
  destruct (String.eqb_spec (fs_Side s) side) as [<- | Hs];
    [by rewrite bool_decide_true | by rewrite bool_decide_false by congruence].
Qed.

Lemma fallback_match_keys tier asset side amount s :
  fallback_match tier asset side amount s =
  (fs_Enabled s && key_match tier asset side s && in_band amount s) ||
  (fs_Enabled s && key_match tier asset "" s && in_band amount s).
Proof.
  unfold fallback_match, in_band. rewrite !key_match_eqb.
  destruct (fs_Enabled s), (String.eqb (fs_UserTier s) tier), (String.eqb (fs_Asset s) asset),
    (String.eqb (fs_Side s) ""), (String.eqb (fs_Side s) side), (dec_lt amount (fs_SizeBandMin s)),
    (dec_gt (fs_SizeBandMax s) dec_zero), (dec_gt amount (fs_SizeBandMax s)); reflexivity.
Qed.

Lemma find_first_orb {A} (f g : A -> bool) l :
  find_first f l = None -> find_first (fun x => f x || g x) l = find_first g l.
Proof.
  induction l as [| x l IH]; simpl; [done |]. destruct (f x); [done |].
  intros Hl. by rewrite (IH Hl).
Qed.

(** With an index built from the store's schedules, the schedule that prices
    a quote is the first exact-side match, else the first side-less one. *)
Lemma matchSchedule_correct p st tier asset side amount f :
  index p = feeIndex_Rebuild f (FeeSchedules st) ->
  matchSchedule p st tier asset side amount =
  match scan tier asset side amount (FeeSchedules st) with
  | Some s => Some s
  | None => scan tier asset "" amount (FeeSchedules st)
  end.
Proof.
  intros Hidx. unfold matchSchedule. rewrite Hidx, Rebuild_Lookup.
  destruct (scan tier asset side amount (FeeSchedules st)) as [s |] eqn:Hscan; [done |].
  rewrite (find_first_ext _ _ _ (fallback_match_keys tier asset side amount)).
  by apply find_first_orb.
Qed.

End pricer.
Arguments Pricer : clear implicits.
Arguments Pricer U D : assert.

(** ** The exact value of every component *)

Section pricing_theorems.
Context {U D : Type} `{Countable U} {ops : DecimalOps D} {laws : DecimalLaws D}.
Implicit Types (st : Store U D) (sv : SpotService D) (p : Pricer U D) (r : Rate D).
Local Open Scope Q_scope.

(** Basis points as a rational. *)
Definition bps (n : Z) : Q := inject_Z n / 10000.

Definition spot_price r : Q :=
  if Qle_bool (val (r_Mid r)) 0
  then val (r_Bid r) + qround division_precision ((val (r_Ask r) - val (r_Bid r)) / 2)
  else val (r_Mid r).

Definition fee_of (sched : option (FeeSchedule U D)) (base : Q) : Q :=
  match sched with
  | None => 0
  | Some s =>
      if String.eqb (fs_FeeType s) "FLAT" then val (fs_FeeAmount s)
      else if String.eqb (fs_FeeType s) "BPS"
      then qround division_precision (base * inject_Z (fs_FeeBPS s) / 10000)
      else 0
  end.

Definition spread_of p st (tier asset side : string) (amount : D) : Z :=
  match matchSchedule p st tier asset side amount with
  | Some s => fs_SpreadBPS s
  | None => defaultSpreadBPS p
  end.

(** The exponents pricing works with.  Every decimal's exponent is an int32;
    a product or a division that would need another one panics. *)
Definition price_exp r : Z :=
  if dec_le (r_Mid r) dec_zero then Z.min (dec_exp (r_Bid r)) (-16) else dec_exp (r_Mid r).

Definition price_overflows r : bool :=
  dec_le (r_Mid r) dec_zero && negb (in_int32 (Z.min (dec_exp (r_Ask r)) (dec_exp (r_Bid r)) + 16)).

Definition fee_overflows (sched : option (FeeSchedule U D)) (base : D) : bool :=
  match sched with
  | Some s => String.eqb (fs_FeeType s) "BPS" && negb (in_int32 (dec_exp base + 16))
  | None => false
  end.

(** The rate has 16 decimals more than the price [pe]. *)
Definition side_overflows (sched : option (FeeSchedule U D)) (pe : Z) (amount : D) (side : string) : bool :=
  if String.eqb side "BUY"
  then negb (in_int32 (pe - 16)) || fee_overflows sched amount || negb (in_int32 (dec_exp amount - (pe - 16) + 16))
  else if String.eqb side "SELL"
  then negb (in_int32 (pe - 16)) || negb (in_int32 (dec_exp amount + (pe - 16)))
  else false.

Definition overflows p st r (to : string) (amount : D) (tier side : string) : bool :=
  price_overflows r ||
  side_overflows (matchSchedule p st tier to side amount) (price_exp r) amount side.

Lemma spread_val n :
  exists sp : D, dec_div (dec_of_int n) (dec_of_int 10000) = Ret sp /\ val sp == bps n /\ dec_exp sp = (-16)%Z.
Proof.
  destruct (div_pow10 (dec_of_int n) n 4 0) as (q & Hq & Hv & He).
  - lia.
  - unfold division_precision. lia.
  - apply div_overflows_false. rewrite !exp_of_int. lia.
  - rewrite val_of_int. change (inject_Z (pow10 0)) with 1. field.
  - exists q. split; [exact Hq |]. by split.
Qed.

(** [round v places] rounds half away from zero at [places] digits, and never
    panics. *)
Lemma round_val (v : D) (places : Z) :
  (0 < places <= 16)%Z ->
  exists d : D, round v places = Ret d /\ val d == qround (Z.to_nat places) (val v).
Proof.
  intros Hp. unfold round. set (pw := dec_pow (dec_of_int 10) (dec_of_int places)).
  destruct (pow_int (D := D) 10 places) as [Hpv Hpe]; [lia |]. fold pw in Hpv, Hpe.
  assert (val pw == inject_Z (pow10 (Z.to_nat places))) as Hpw.
  { rewrite Hpv. unfold pow10. rewrite Z2Nat.id by lia. reflexivity. }
  assert (~ val pw == 0) as Hnz by (rewrite Hpw; apply inject_pow10_nz).
  destruct (mul_ret v pw) as (m & -> & Hm & _); [by apply mul_overflows_exp0 |]. cbn [mbind outcome_bind].
  destruct (div_ret (dec_round m 0) pw Hnz) as (d & Hd & Hv & _).
  { apply div_overflows_false. rewrite exp_round, Hpe. lia. }
  exists d. split; [done |]. rewrite Hv, val_round, Hm, Hpw, qround_scale.
  unfold qround at 2 3. apply qround_exact_le. unfold division_precision. lia.
Qed.

Lemma half_spread_overflows r :
  dec_le (r_Mid r) dec_zero = true ->
  div_overflows (r_Ask r - r_Bid r)%pq (dec_of_int 2) = price_overflows r.
Proof.
  intros Hle. unfold div_overflows, price_overflows.
  rewrite Hle, exp_sub, exp_of_int, Z.sub_0_r. done.
Qed.

Lemma spot_of_val r : price_overflows r = false ->
  exists px : D, spot_of r = Ret px /\ val px == spot_price r /\ dec_exp px = price_exp r.
Proof.
  intros Ho. unfold spot_of, spot_price, price_exp. destruct (dec_le (r_Mid r) dec_zero) eqn:Hle.
  - pose proof (half_spread_overflows r Hle) as Hh. rewrite Ho in Hh.
    apply le_val in Hle. rewrite val_zero in Hle. apply Qle_bool_iff in Hle. rewrite Hle.
    assert (~ val (dec_of_int (D := D) 2) == 0) as Hnz by (rewrite val_of_int; discriminate).
    destruct (div_ret _ _ Hnz Hh) as (h & -> & Hv & He). simpl. eexists. split; [done |].
    rewrite val_add, Hv, val_sub, val_of_int, exp_add, He. split; reflexivity.
  - apply le_val_false in Hle. rewrite val_zero in Hle.
    assert (Qle_bool (val (r_Mid r)) 0 = false) as Hb.
    { apply not_true_iff_false. rewrite Qle_bool_iff. lra. }
    rewrite Hb. simpl. eexists. split; [done |]. split; reflexivity.
Qed.

Lemma spot_of_panics r : price_overflows r = true -> exists why, spot_of r = Panic why.
Proof.
  intros Ho. unfold spot_of. destruct (dec_le (r_Mid r) dec_zero) eqn:Hle.
  - rewrite <- (half_spread_overflows r Hle) in Ho. destruct (div_panics _ _ Ho) as [w ->]. by eexists.
  - unfold price_overflows in Ho. by rewrite Hle in Ho.
Qed.

Lemma computeFee_val sched (base : D) : fee_overflows sched base = false ->
  exists f : D, computeFee sched base = Ret f /\ val f == fee_of sched (val base).
Proof.
  unfold computeFee, fee_of, fee_overflows. intros Ho. destruct sched as [s |]; [| eexists; split; [done | apply val_zero]].
  destruct (String.eqb (fs_FeeType s) "FLAT"); [eexists; split; [done | reflexivity] |].
  destruct (String.eqb (fs_FeeType s) "BPS"); [| eexists; split; [done | apply val_zero]].
  destruct (mul_int base (fs_FeeBPS s)) as (x & -> & Hx & He). cbn [mbind outcome_bind].
  assert (~ val (dec_of_int (D := D) 10000) == 0) as Hnz by (rewrite val_of_int; discriminate).
  destruct (div_ret x _ Hnz) as (f & Hf & Hv & _).
  { unfold div_overflows. rewrite He, exp_of_int, Z.sub_0_r. exact Ho. }
  exists f. split; [done |]. rewrite Hv, Hx, !val_of_int. reflexivity.
Qed.

Lemma computeFee_panics sched (base : D) : fee_overflows sched base = true ->
  exists why, computeFee sched base = Panic why.
Proof.
  unfold computeFee, fee_overflows. destruct sched as [s |]; [| done]. intros [Hb Ho]%andb_true_iff.
  apply String.eqb_eq in Hb. rewrite Hb. simpl.
  destruct (mul_int base (fs_FeeBPS s)) as (x & -> & _ & He). cbn [mbind outcome_bind].
  apply div_panics. unfold div_overflows. rewrite He, exp_of_int, Z.sub_0_r. exact Ho.
Qed.

(** A fee on the zero decimal never overflows. *)
Lemma fee_overflows_zero sched : fee_overflows sched (dec_zero (D := D)) = false.
Proof.
  unfold fee_overflows. destruct sched as [s |]; [| done].
  assert (in_int32 (dec_exp (dec_zero (D := D)) + 16) = true) as ->; [| by rewrite andb_false_r].
  apply in_int32_spec. pose proof (exp_zero (D := D)). lia.
Qed.

#[export] Instance fee_of_proper sched : Proper (Qeq ==> Qeq) (fee_of sched).
Proof.
  intros x y Hxy. unfold fee_of. repeat case_match; try reflexivity. by rewrite Hxy.
Qed.

(** The components of a computed quote, by value. *)
Record quote_values (res : ComputeResult D) (px : Q) (spread : Z) (rate fee total crypto : Q)
    (venue : string) : Prop := {
  qv_spot : val (cr_Spot res) == px;
  qv_spread : cr_SpreadBPS res = spread;
  qv_rate : val (cr_Rate res) == rate;
  qv_fee : val (cr_Fee res) == qround 8 fee;
  qv_total : val (cr_Total res) == qround 8 total;
  qv_crypto : val (cr_CryptoAmount res) == qround 8 crypto;
  qv_venue : cr_SourceVenue res = venue;
}.

(** The three final roundings never fail. *)
Lemma compute_finish (rate spot fee total crypto : D) (n : Z) (venue : string) :
  exists res,
    (fee ← round fee 8; total ← round total 8; crypto ← round crypto 8;
     mret (Ok (mkResult rate spot n fee total crypto venue)))
    = Ret (Ok res : result (ComputeResult D) string) /\
    quote_values res (val spot) n (val rate) (val fee) (val total) (val crypto) venue.
Proof.
  destruct (round_val fee 8 ltac:(lia)) as (f & Hf & Hfv).
  destruct (round_val total 8 ltac:(lia)) as (t & Ht & Htv).
  destruct (round_val crypto 8 ltac:(lia)) as (c & Hc & Hcv).
  rewrite Hf, Ht, Hc. simpl. eexists. split; [done |]. by split.
Qed.

Lemma quote_values_proper res px px' n rate rate' fee fee' total total' crypto crypto' venue :
  px == px' -> rate == rate' -> fee == fee' -> total == total' -> crypto == crypto' ->
  quote_values res px n rate fee total crypto venue ->
  quote_values res px' n rate' fee' total' crypto' venue.
Proof.
  intros H1 H2 H3 H4 H5 [? ? ? ? ? ? ?].
  split; [by rewrite <- H1 | done | by rewrite <- H2 | by rewrite <- H3 | by rewrite <- H4 |
    by rewrite <- H5 | done].
Qed.

(** The rate of either side: the price times one plus or minus the spread. *)
Lemma rate_product (spot k : D) (pe : Z) :
  dec_exp spot = pe -> dec_exp k = (-16)%Z -> mul_overflows spot k = negb (in_int32 (pe - 16)).
Proof. intros Hs Hk. unfold mul_overflows. rewrite Hs, Hk. done. Qed.

Lemma one_plus_exp (sp : D) : dec_exp sp = (-16)%Z -> dec_exp (dec_of_int 1 + sp)%pq = (-16)%Z.
Proof. intros He. rewrite exp_add, exp_of_int, He. done. Qed.
Lemma one_minus_exp (sp : D) : dec_exp sp = (-16)%Z -> dec_exp (dec_of_int 1 - sp)%pq = (-16)%Z.
Proof. intros He. rewrite exp_sub, exp_of_int, He. done. Qed.

(** The three side branches, by value. *)
Lemma side_amounts_buy sched (spot spread amount : D) :
  dec_exp spread = (-16)%Z -> side_overflows sched (dec_exp spot) amount "BUY" = false ->
  ~ val spot * (1 + val spread) == 0 ->
  exists rate fee total crypto,
    side_amounts sched spot spread amount "BUY" = Ret (rate, fee, total, crypto) /\
    val rate == val spot * (1 + val spread) /\ val fee == fee_of sched (val amount) /\
    val total == val amount + fee_of sched (val amount) /\
    val crypto == qround division_precision (val amount / (val spot * (1 + val spread))).
Proof.
  intros Hse Ho Hnz. unfold side_overflows in Ho. simpl in Ho. apply orb_false_iff in Ho as [[Hr Hf]%orb_false_iff Hd].
  unfold side_amounts. simpl.
  destruct (mul_ret spot (dec_of_int 1 + spread)%pq) as (rate & -> & Hrate & Hre).
  { by rewrite (rate_product _ _ _ eq_refl (one_plus_exp _ Hse)). }
  rewrite val_add, val_of_int in Hrate. rewrite (one_plus_exp _ Hse) in Hre. cbn [mbind outcome_bind].
  destruct (computeFee_val sched amount Hf) as (f & -> & Hfv). cbn [mbind outcome_bind].
  destruct (div_ret amount rate) as (c & -> & Hcv & _).
  { rewrite Hrate. exact Hnz. }
  { unfold div_overflows. rewrite Hre. exact Hd. }
  exists rate, f, (dec_add amount f), c. split_and!; [done | done | done | |].
  - rewrite val_add, Hfv. reflexivity.
  - rewrite Hcv, Hrate. reflexivity.
Qed.

Lemma side_amounts_sell sched (spot spread amount : D) :
  dec_exp spread = (-16)%Z -> side_overflows sched (dec_exp spot) amount "SELL" = false ->
  exists rate fee total crypto,
    side_amounts sched spot spread amount "SELL" = Ret (rate, fee, total, crypto) /\
    val rate == val spot * (1 - val spread) /\ val fee == fee_of sched 0 /\
    val total == val amount * (val spot * (1 - val spread)) - fee_of sched 0 /\
    val crypto == val amount.
Proof.
  intros Hse Ho. unfold side_overflows in Ho. simpl in Ho. apply orb_false_iff in Ho as [Hr Hd].
  unfold side_amounts. simpl.
  destruct (mul_ret spot (dec_of_int 1 - spread)%pq) as (rate & -> & Hrate & Hre).
  { by rewrite (rate_product _ _ _ eq_refl (one_minus_exp _ Hse)). }
  rewrite val_sub, val_of_int in Hrate. rewrite (one_minus_exp _ Hse) in Hre. cbn [mbind outcome_bind].
  destruct (computeFee_val sched (dec_zero (D := D)) (fee_overflows_zero _)) as (f & -> & Hfv). cbn [mbind outcome_bind].
  rewrite val_zero in Hfv.
  destruct (mul_ret amount rate) as (g & -> & Hg & _).
  { unfold mul_overflows. rewrite Hre. exact Hd. }
  cbn [mbind outcome_bind]. do 4 eexists. split; [done |]. rewrite val_sub, Hg, Hrate, Hfv. split_and!; reflexivity.
Qed.

(** The side branches panic on an overflow, and a BUY on a zero rate. *)
Lemma side_amounts_panics sched (spot spread amount : D) side :
  dec_exp spread = (-16)%Z ->
  side_overflows sched (dec_exp spot) amount side = true \/ side = "BUY" /\ val spot * (1 + val spread) == 0 ->
  exists why, side_amounts sched spot spread amount side = Panic why.
Proof.
  intros Hse Hor. unfold side_overflows, side_amounts in *. destruct (String.eqb_spec side "BUY") as [-> | Hnb].
  - destruct (mul_cases spot (dec_of_int 1 + spread)%pq) as [[_ [w ->]] | [Hr [rate Hrate]]]; [by eexists |].
    rewrite Hrate. cbn [mbind outcome_bind]. destruct (mul_Ret _ _ _ Hrate) as (_ & Hv & Hre).
    rewrite (rate_product _ _ _ eq_refl (one_plus_exp _ Hse)) in Hr. rewrite (one_plus_exp _ Hse) in Hre.
    destruct (fee_overflows sched amount) eqn:Hf.
    { destruct (computeFee_panics _ _ Hf) as [w ->]. by eexists. }
    destruct (computeFee_val sched amount Hf) as (f & -> & _). cbn [mbind outcome_bind].
    assert (exists w, dec_div amount rate = Panic w) as [w ->]; [| by eexists].
    destruct Hor as [Ho | [_ Hz]].
    + rewrite Hr in Ho. simpl in Ho. apply div_panics. unfold div_overflows. rewrite Hre. exact Ho.
    + apply div_zero. rewrite Hv, val_add, val_of_int. exact Hz.
  - destruct Hor as [Ho | [? _]]; [| done]. destruct (String.eqb side "SELL"); [| done].
    destruct (mul_cases spot (dec_of_int 1 - spread)%pq) as [[_ [w ->]] | [Hr [rate Hrate]]]; [by eexists |].
    rewrite Hrate. cbn [mbind outcome_bind]. destruct (mul_Ret _ _ _ Hrate) as (_ & _ & Hre).
    rewrite (rate_product _ _ _ eq_refl (one_minus_exp _ Hse)) in Hr. rewrite (one_minus_exp _ Hse) in Hre.
    rewrite Hr in Ho. simpl in Ho.
    destruct (computeFee_val sched (dec_zero (D := D)) (fee_overflows_zero _)) as (f & -> & _). cbn [mbind outcome_bind].
    destruct (mul_panics amount rate) as [w ->]; [| by eexists].
    unfold mul_overflows. rewrite Hre. exact Ho.
Qed.

(** Otherwise they return. *)
Lemma side_amounts_ret sched (spot spread amount : D) side :
  dec_exp spread = (-16)%Z -> side_overflows sched (dec_exp spot) amount side = false ->
  (side = "BUY" -> ~ val spot * (1 + val spread) == 0) ->
  exists x, side_amounts sched spot spread amount side = Ret x.
Proof.
  intros Hse Ho Hnz. destruct (String.eqb_spec side "BUY") as [-> | Hb].
  { destruct (side_amounts_buy _ _ _ _ Hse Ho (Hnz eq_refl)) as (ra & fe & to_ & cr & Hs & _). by eexists. }
  destruct (String.eqb_spec side "SELL") as [-> | Hs].
  { destruct (side_amounts_sell _ _ _ _ Hse Ho) as (ra & fe & to_ & cr & Hs & _). by eexists. }
  unfold side_amounts. rewrite (proj2 (String.eqb_neq _ _) Hb), (proj2 (String.eqb_neq _ _) Hs). by eexists.
Qed.

(** [Compute] after a successful lookup is [compute_with]. *)
Lemma Compute_lookup p st sv t1 t2 from to amount tier side sv' r :
  Get0 t1 t2 from to sv = (sv', Ok r) ->
  Compute p st sv t1 t2 from to amount tier side =
  (res ← compute_with p st r to amount tier side; mret (sv', res)).
Proof. intros Hget. unfold Compute. by rewrite Hget. Qed.

Lemma compute_with_pos p st r to amount tier side :
  0 < spot_price r -> price_overflows r = false ->
  exists (px sp : D), val px == spot_price r /\ dec_exp px = price_exp r /\
    val sp == bps (spread_of p st tier to side amount) /\ dec_exp sp = (-16)%Z /\
    compute_with p st r to amount tier side =
    ('(rate, fee, total, cryptoAmount) ←
       side_amounts (matchSchedule p st tier to side amount) px sp amount side;
     fee ← round fee 8; total ← round total 8; cryptoAmount ← round cryptoAmount 8;
     mret (Ok (mkResult rate px (spread_of p st tier to side amount) fee total cryptoAmount
                 (r_SourceVenue r)))).
Proof.
  intros Hpos Ho. destruct (spot_of_val r Ho) as (px & Hpx & Hpv & Hpe).
  destruct (spread_val (spread_of p st tier to side amount)) as (sp & Hsp & Hsv & Hse).
  exists px, sp. split; [done |]. split; [done |]. split; [done |]. split; [done |].
  unfold compute_with. rewrite Hpx. simpl.
  assert (dec_le px dec_zero = false) as -> by (apply val_zero_pos; by rewrite Hpv).
  change (match matchSchedule p st tier to side amount with
          | Some s => fs_SpreadBPS s | None => defaultSpreadBPS p end)
    with (spread_of p st tier to side amount).
  rewrite Hsp. reflexivity.
Qed.

Lemma rate_nonzero (px : Q) (n : Z) : 0 < px -> n <> (-10000)%Z -> ~ px * (1 + bps n) == 0.
Proof.
  intros Hpx Hn Hz. apply Qmult_integral in Hz as [Hz | Hz]; [lra |]. unfold bps in Hz.
  assert (inject_Z n == inject_Z (-10000)) as Heq.
  { assert (inject_Z n == (1 + inject_Z n / 10000 - 1) * 10000) as -> by field. rewrite Hz. reflexivity. }
  rewrite inject_Z_injective in Heq. done.
Qed.

(** A computed quote did not overflow. *)
Lemma Compute_panics p st sv t1 t2 from to amount tier side sv' r :
  Get0 t1 t2 from to sv = (sv', Ok r) -> 0 < spot_price r ->
  overflows p st r to amount tier side = true \/
  side = "BUY" /\ spread_of p st tier to side amount = (-10000)%Z ->
  exists why, Compute p st sv t1 t2 from to amount tier side = Panic why.
Proof.
  intros Hget Hpos Hor. rewrite (Compute_lookup _ _ _ _ _ _ _ _ _ _ _ _ Hget).
  destruct (price_overflows r) eqn:Hpo.
  { unfold compute_with. destruct (spot_of_panics r Hpo) as [w ->]. by eexists. }
  destruct (compute_with_pos p st r to amount tier side Hpos Hpo) as (px & sp & Hpx & Hpe & Hsp & Hse & ->).
  destruct (side_amounts_panics (matchSchedule p st tier to side amount) px sp amount side Hse) as [w ->]; [| by eexists].
  destruct Hor as [Ho | [-> Hn]].
  - left. unfold overflows in Ho. rewrite Hpo in Ho. by rewrite Hpe.
  - right. split; [done |]. rewrite Hsp, Hn. unfold bps. field.
Qed.

Lemma Compute_returns p st sv t1 t2 from to amount tier side sv' r :
  Get0 t1 t2 from to sv = (sv', Ok r) -> 0 < spot_price r ->
  overflows p st r to amount tier side = false ->
  (side = "BUY" -> spread_of p st tier to side amount <> (-10000)%Z) ->
  exists x, Compute p st sv t1 t2 from to amount tier side = Ret x.
Proof.
  intros Hget Hpos [Hpo Hso]%orb_false_iff Hn. rewrite (Compute_lookup _ _ _ _ _ _ _ _ _ _ _ _ Hget).
  destruct (compute_with_pos p st r to amount tier side Hpos Hpo) as (px & sp & Hpx & Hpe & Hsp & Hse & ->).
  destruct (side_amounts_ret (matchSchedule p st tier to side amount) px sp amount side Hse)
    as [[[[ra fe] to_] cr] ->].
  { by rewrite Hpe. }
  { intros Hb. rewrite Hpx, Hsp. apply rate_nonzero; [done | by apply Hn]. }
  cbn [mbind outcome_bind].
  destruct (compute_finish ra px fe to_ cr (spread_of p st tier to side amount) (r_SourceVenue r))
    as (res & -> & _). by eexists.
Qed.

Lemma Compute_Ret_no_overflow p st sv t1 t2 from to amount tier side sv' r x :
  Get0 t1 t2 from to sv = (sv', Ok r) -> 0 < spot_price r ->
  Compute p st sv t1 t2 from to amount tier side = Ret x -> overflows p st r to amount tier side = false.
Proof.
  intros Hget Hpos Hc. apply not_true_iff_false. intros Ho.
  destruct (Compute_panics p st sv t1 t2 from to amount tier side sv' r Hget Hpos (or_introl Ho)) as [w Hw].
  congruence.
Qed.

Lemma buy_result p st sv t1 t2 from to amount tier sv' r :
  let n := spread_of p st tier to "BUY" amount in
  let fee := fee_of (matchSchedule p st tier to "BUY" amount) (val amount) in
  let rate := spot_price r * (1 + bps n) in
  Get0 t1 t2 from to sv = (sv', Ok r) ->
  0 < spot_price r -> n <> (-10000)%Z -> overflows p st r to amount tier "BUY" = false ->
  exists res, Compute p st sv t1 t2 from to amount tier "BUY" = Ret (sv', Ok res) /\
    quote_values res (spot_price r) n rate fee (val amount + fee)
      (qround division_precision (val amount / rate)) (r_SourceVenue r).
Proof.
  intros n fee rate Hget Hpos Hn [Hpo Hso]%orb_false_iff. rewrite (Compute_lookup _ _ _ _ _ _ _ _ _ _ _ _ Hget).
  destruct (compute_with_pos p st r to amount tier "BUY" Hpos Hpo) as (px & sp & Hpx & Hpe & Hsp & Hse & ->).
  rewrite <- Hpe in Hso.
  assert (~ val px * (1 + val sp) == 0) as Hnz.
  { rewrite Hpx, Hsp. apply rate_nonzero; [done | by fold n]. }
  destruct (side_amounts_buy (matchSchedule p st tier to "BUY" amount) px sp amount Hse Hso Hnz)
    as (ra & fe & to_ & cr & -> & Hra & Hfe & Hto & Hcr). simpl.
  destruct (compute_finish ra px fe to_ cr n (r_SourceVenue r)) as (res & Heq & Hqv).
  fold n. rewrite Heq. simpl. exists res. split; [done |]. revert Hqv.
  apply quote_values_proper; [done | by rewrite Hra, Hpx, Hsp | done | done |].
  rewrite Hcr, Hpx, Hsp. reflexivity.
Qed.

(** C9: a BUY quote, for a positive spot price, a spread other than
    -10000 bps and exponents that fit.  The rate is the spot price marked up
    by the spread, exactly; the fee, the total (amount plus fee) and the
    crypto amount (amount over rate, divided at 16 digits) are rounded half
    away from zero at 8 digits. *)
Theorem Compute_buy p st sv t1 t2 from to amount tier sv' r :
  let n := spread_of p st tier to "BUY" amount in
  let fee := fee_of (matchSchedule p st tier to "BUY" amount) (val amount) in
  let rate := spot_price r * (1 + bps n) in
  Get0 t1 t2 from to sv = (sv', Ok r) ->
  0 < spot_price r -> n <> (-10000)%Z -> overflows p st r to amount tier "BUY" = false ->
  exists res, Compute p st sv t1 t2 from to amount tier "BUY" = Ret (sv', Ok res) /\
    quote_values res (spot_price r) n rate fee (val amount + fee)
      (qround division_precision (val amount / rate)) (r_SourceVenue r).
Proof. exact (buy_result p st sv t1 t2 from to amount tier sv' r). Qed.

Lemma sell_result p st sv t1 t2 from to amount tier sv' r :
  let n := spread_of p st tier to "SELL" amount in
  let fee := fee_of (matchSchedule p st tier to "SELL" amount) 0 in
  let rate := spot_price r * (1 - bps n) in
  Get0 t1 t2 from to sv = (sv', Ok r) ->
  0 < spot_price r -> overflows p st r to amount tier "SELL" = false ->
  exists res, Compute p st sv t1 t2 from to amount tier "SELL" = Ret (sv', Ok res) /\
    quote_values res (spot_price r) n rate fee (val amount * rate - fee) (val amount)
      (r_SourceVenue r).
Proof.
  intros n fee rate Hget Hpos [Hpo Hso]%orb_false_iff. rewrite (Compute_lookup _ _ _ _ _ _ _ _ _ _ _ _ Hget).
  destruct (compute_with_pos p st r to amount tier "SELL" Hpos Hpo) as (px & sp & Hpx & Hpe & Hsp & Hse & ->).
  rewrite <- Hpe in Hso.
  destruct (side_amounts_sell (matchSchedule p st tier to "SELL" amount) px sp amount Hse Hso)
    as (ra & fe & to_ & cr & -> & Hra & Hfe & Hto & Hcr). simpl.
  destruct (compute_finish ra px fe to_ cr n (r_SourceVenue r)) as (res & Heq & Hqv).
  fold n. rewrite Heq. simpl. exists res. split; [done |]. revert Hqv.
  apply quote_values_proper; [done | by rewrite Hra, Hpx, Hsp | done | | done].
  rewrite Hto, Hpx, Hsp. reflexivity.
Qed.

(** C10: a SELL quote, for a positive spot price and exponents that fit.  The
    rate is the spot price marked down by the spread; the crypto amount is the
    requested amount; the fee is the schedule's fee on a base of zero, because
    it is taken from the total before the total is computed; and the total is
    amount times rate minus that fee. *)
Theorem Compute_sell p st sv t1 t2 from to amount tier sv' r :
  let n := spread_of p st tier to "SELL" amount in
  let fee := fee_of (matchSchedule p st tier to "SELL" amount) 0 in
  let rate := spot_price r * (1 - bps n) in
  Get0 t1 t2 from to sv = (sv', Ok r) ->
  0 < spot_price r -> overflows p st r to amount tier "SELL" = false ->
  exists res, Compute p st sv t1 t2 from to amount tier "SELL" = Ret (sv', Ok res) /\
    quote_values res (spot_price r) n rate fee (val amount * rate - fee) (val amount)
      (r_SourceVenue r).
Proof. exact (sell_result p st sv t1 t2 from to amount tier sv' r). Qed.

(** [Compute] fails with the lookup's error when the lookup fails and
    with [errBadRate] when the spot price is not positive, on every side. *)
Theorem Compute_error p st sv t1 t2 from to amount tier side sv' :
  (forall e, Get0 t1 t2 from to sv = (sv', Err e) ->
     Compute p st sv t1 t2 from to amount tier side = Ret (sv', Err e)) /\
  (forall r, Get0 t1 t2 from to sv = (sv', Ok r) -> spot_price r <= 0 -> price_overflows r = false ->
     Compute p st sv t1 t2 from to amount tier side = Ret (sv', Err errBadRate)).
Proof.
  split.
  - intros e He. unfold Compute. by rewrite He.
  - intros r Hget Hle Ho. rewrite (Compute_lookup _ _ _ _ _ _ _ _ _ _ _ _ Hget).
    destruct (spot_of_val r Ho) as (px & Hpx & Hpv & _). unfold compute_with. rewrite Hpx. simpl.
    assert (dec_le px dec_zero = true) as ->; [| done].
    apply le_val. rewrite val_zero, Hpv. done.
Qed.

(** C38: for a positive price, pricing panics exactly when an exponent leaves
    int32 (the amount's, against the rate's), or for a BUY whose spread is
    -10000 bps: the rate is zero and the crypto amount divides by it. *)
Theorem Compute_panics_iff p st sv t1 t2 from to amount tier side sv' r :
  Get0 t1 t2 from to sv = (sv', Ok r) -> 0 < spot_price r ->
  (exists why, Compute p st sv t1 t2 from to amount tier side = Panic why) <->
  overflows p st r to amount tier side = true \/
  side = "BUY" /\ spread_of p st tier to side amount = (-10000)%Z.
Proof.
  intros Hget Hpos. split; [| by eapply Compute_panics]. intros [why Hwhy].
  destruct (overflows p st r to amount tier side) eqn:Ho; [by left | right].
  destruct (decide (side = "BUY" /\ spread_of p st tier to side amount = (-10000)%Z)) as [? | Hno]; [done |].
  destruct (Compute_returns p st sv t1 t2 from to amount tier side sv' r Hget Hpos Ho) as [x Hx]; [| congruence].
  intros Hb Hn. by apply Hno.
Qed.

(** A percentage fee is never charged on a SELL: whatever the matched
    schedule's basis points, the fee is zero and the total is the full
    amount times rate. *)
Theorem sell_bps_fee_is_zero p st sv t1 t2 from to amount tier sv' r s :
  Get0 t1 t2 from to sv = (sv', Ok r) -> 0 < spot_price r -> overflows p st r to amount tier "SELL" = false ->
  matchSchedule p st tier to "SELL" amount = Some s -> fs_FeeType s = "BPS" ->
  exists res, Compute p st sv t1 t2 from to amount tier "SELL" = Ret (sv', Ok res) /\
    val (cr_Fee res) == 0 /\ val (cr_Total res) == qround 8 (val amount * val (cr_Rate res)).
Proof.
  intros Hget Hpos Ho Hs Hbps.
  destruct (sell_result p st sv t1 t2 from to amount tier sv' r Hget Hpos Ho) as (res & -> & Hqv).
  assert (fee_of (matchSchedule p st tier to "SELL" amount) 0 == 0) as Hz.
  { rewrite Hs. unfold fee_of. rewrite Hbps. simpl.
    assert (0 * inject_Z (fs_FeeBPS s) / 10000 == 0) as -> by field. apply qround_0. }
  exists res. split; [done |]. destruct Hqv as [_ _ Hr Hf Ht _ _]. split.
  - rewrite Hf, Hz. apply qround_0.
  - rewrite Ht, Hr, Hz. apply qround_proper. ring.
Qed.

(** ** Bounds on what the user gets *)

(** The rounding error of a crypto amount: 8 digits after 16 digits. *)
Definition crypto_eps : Q := half_ulp 8 + half_ulp division_precision.

Lemma crypto_bounds (x : Q) :
  x - crypto_eps <= qround 8 (qround division_precision x) <= x + crypto_eps.
Proof.
  pose proof (qround_bounds 8 (qround division_precision x)).
  pose proof (qround_bounds division_precision x). unfold crypto_eps. lra.
Qed.

Lemma bps_nonneg n : (0 <= n)%Z -> 0 <= bps n.
Proof.
  intros Hn. unfold bps. apply Qle_shift_div_l; [reflexivity |]. rewrite Qmult_0_l.
  change 0 with (inject_Z 0). by rewrite <- Zle_Qle.
Qed.

Lemma bps_le_1 n : (n <= 10000)%Z -> bps n <= 1.
Proof.
  intros Hn. unfold bps. apply Qle_shift_div_r; [reflexivity |]. rewrite Qmult_1_l.
  change 10000 with (inject_Z 10000). by rewrite <- Zle_Qle.
Qed.

(** The values of a successful BUY, from [Compute]'s result. *)
Lemma Compute_buy_inv p st sv t1 t2 from to amount tier sv' r res :
  let n := spread_of p st tier to "BUY" amount in
  let fee := fee_of (matchSchedule p st tier to "BUY" amount) (val amount) in
  let rate := spot_price r * (1 + bps n) in
  Get0 t1 t2 from to sv = (sv', Ok r) -> 0 < spot_price r -> n <> (-10000)%Z ->
  Compute p st sv t1 t2 from to amount tier "BUY" = Ret (sv', Ok res) ->
  quote_values res (spot_price r) n rate fee (val amount + fee)
    (qround division_precision (val amount / rate)) (r_SourceVenue r).
Proof.
  intros n fee rate Hget Hpos Hn Hc.
  destruct (buy_result p st sv t1 t2 from to amount tier sv' r Hget Hpos Hn
    (Compute_Ret_no_overflow _ _ _ _ _ _ _ _ _ _ _ _ _ Hget Hpos Hc)) as (res' & Hc' & Hqv).
  rewrite Hc in Hc'. by injection Hc' as ->.
Qed.

Lemma Compute_sell_inv p st sv t1 t2 from to amount tier sv' r res :
  let n := spread_of p st tier to "SELL" amount in
  let fee := fee_of (matchSchedule p st tier to "SELL" amount) 0 in
  let rate := spot_price r * (1 - bps n) in
  Get0 t1 t2 from to sv = (sv', Ok r) -> 0 < spot_price r ->
  Compute p st sv t1 t2 from to amount tier "SELL" = Ret (sv', Ok res) ->
  quote_values res (spot_price r) n rate fee (val amount * rate - fee) (val amount)
    (r_SourceVenue r).
Proof.
  intros n fee rate Hget Hpos Hc.
  destruct (sell_result p st sv t1 t2 from to amount tier sv' r Hget Hpos
    (Compute_Ret_no_overflow _ _ _ _ _ _ _ _ _ _ _ _ _ Hget Hpos Hc)) as (res' & Hc' & Hqv).
  rewrite Hc in Hc'. by injection Hc' as ->.
Qed.

(** C27: a BUY is fair up to rounding.  With a positive rate, the crypto
    amount times the rate is the amount paid for it up to the rounding of the
    crypto amount, and the total is the amount plus the fee up to 1e-8. *)
Theorem buy_is_fair p st sv t1 t2 from to amount tier sv' r res :
  Get0 t1 t2 from to sv = (sv', Ok r) -> 0 < spot_price r ->
  (-10000 < spread_of p st tier to "BUY" amount)%Z ->
  Compute p st sv t1 t2 from to amount tier "BUY" = Ret (sv', Ok res) ->
  0 < val (cr_Rate res) /\
  Qabs (val (cr_CryptoAmount res) * val (cr_Rate res) - val amount)
    <= val (cr_Rate res) * crypto_eps /\
  Qabs (val (cr_Total res) - (val amount + val (cr_Fee res))) <= 2 * half_ulp 8.
Proof.
  intros Hget Hpos Hn Hc.
  assert (spread_of p st tier to "BUY" amount <> (-10000)%Z) as Hn' by lia.
  destruct (Compute_buy_inv _ _ _ _ _ _ _ _ _ _ _ _ Hget Hpos Hn' Hc) as [_ _ Hr Hf Ht Hcr _].
  set (n := spread_of p st tier to "BUY" amount) in *.
  set (rate := spot_price r * (1 + bps n)) in *.
  assert (0 < 1 + bps n) as Hone.
  { unfold bps. assert (inject_Z (-10000) < inject_Z n) as Hz by (by rewrite <- Zlt_Qlt).
    assert (1 + inject_Z n / 10000 == (inject_Z n - inject_Z (-10000)) / 10000) as -> by
      (change (inject_Z (-10000)) with (-10000); field).
    apply Qlt_shift_div_l; [reflexivity | lra]. }
  assert (0 < rate) as Hrate by (by apply Qmult_lt_0_compat).
  split; [by rewrite Hr |]. split.
  - rewrite Hr, Hcr. assert (val amount == val amount / rate * rate) as Ha by (field; lra).
    set (x := val amount / rate) in *. pose proof (crypto_bounds x) as [Hlo Hhi]. set (c := qround 8 (qround division_precision x)) in *.
    rewrite Ha. clear Ha. clearbody c x rate. apply Qabs_Qle_condition.
    assert (0 <= (c - x + crypto_eps) * rate) as H1 by (apply Qmult_le_0_compat; lra).
    assert (0 <= (x + crypto_eps - c) * rate) as H2 by (apply Qmult_le_0_compat; lra).
    split; lra.
  - rewrite Ht, Hf. set (f := fee_of _ _). apply Qabs_Qle_condition.
    pose proof (qround_bounds 8 (val amount + f)). pose proof (qround_bounds 8 f). lra.
Qed.

(** The value at the sell rate of the crypto bought for [a]. *)
Lemma round_trip_value (a px b sl c : Q) :
  0 <= a -> 0 < px -> 0 <= b -> 0 <= sl <= 1 ->
  c <= a / (px * (1 + b)) + crypto_eps ->
  c * (px * (1 - sl)) <= a + px * crypto_eps.
Proof.
  intros Ha Hpx Hb Hs Hc.
  assert (0 <= crypto_eps) as He.
  { unfold crypto_eps. pose proof (half_ulp_pos 8). pose proof (half_ulp_pos division_precision). lra. }
  assert (a / (px * (1 + b)) * px == a / (1 + b)) as Hq by (field; lra).
  assert (a / (1 + b) <= a) as Hle.
  { apply Qle_shift_div_r; [lra |]. assert (0 <= a * b) by (by apply Qmult_le_0_compat). lra. }
  assert (c * px <= a + px * crypto_eps) as Hcp.
  { assert (c * px <= (a / (px * (1 + b)) + crypto_eps) * px) as H1
      by (apply Qmult_le_compat_r; [done | lra]).
    rewrite Qmult_plus_distr_l, Hq in H1. lra. }
  assert (0 <= (a + px * crypto_eps - c * px) * (1 - sl)) as H2 by (apply Qmult_le_0_compat; lra).
  assert (0 <= (a + px * crypto_eps) * sl) as H3.
  { apply Qmult_le_0_compat; [| lra]. assert (0 <= px * crypto_eps) by (apply Qmult_le_0_compat; lra). lra. }
  lra.
Qed.

(** C28: no round-trip profit.  Buying and selling the bought crypto back at
    the same spot price, with non-negative spreads (at most 100 % on the sell
    side), non-negative fees and a non-negative amount, returns at most the
    amount spent plus the rounding of the two quotes. *)
Theorem no_round_trip_profit p st sv1 sv2 t1 t2 t3 t4 from to amount tier sv1' sv2' r1 r2 resb ress :
  Get0 t1 t2 from to sv1 = (sv1', Ok r1) -> Get0 t3 t4 from to sv2 = (sv2', Ok r2) ->
  0 < spot_price r1 -> spot_price r2 == spot_price r1 ->
  (0 <= spread_of p st tier to "BUY" amount)%Z ->
  (0 <= spread_of p st tier to "SELL" (cr_CryptoAmount resb) <= 10000)%Z ->
  0 <= fee_of (matchSchedule p st tier to "SELL" (cr_CryptoAmount resb)) 0 ->
  0 <= val amount ->
  Compute p st sv1 t1 t2 from to amount tier "BUY" = Ret (sv1', Ok resb) ->
  Compute p st sv2 t3 t4 from to (cr_CryptoAmount resb) tier "SELL" = Ret (sv2', Ok ress) ->
  val (cr_Total ress) <= val amount + spot_price r1 * crypto_eps + half_ulp 8.
Proof.
  intros Hg1 Hg2 Hpos Hsame Hnb Hns Hfee Ha Hb Hs.
  assert (spread_of p st tier to "BUY" amount <> (-10000)%Z) as Hn' by lia.
  assert (0 < spot_price r2) as Hpos2 by (by rewrite Hsame).
  destruct (Compute_buy_inv _ _ _ _ _ _ _ _ _ _ _ _ Hg1 Hpos Hn' Hb) as [_ _ _ _ _ Hcr _].
  destruct (Compute_sell_inv _ _ _ _ _ _ _ _ _ _ _ _ Hg2 Hpos2 Hs) as [_ _ _ _ Ht _ _].
  rewrite Ht. eapply Qle_trans; [apply qround_bounds |].
  set (b := spread_of p st tier to "BUY" amount) in *.
  set (sl := spread_of p st tier to "SELL" (cr_CryptoAmount resb)) in *.
  pose proof (round_trip_value (val amount) (spot_price r1) (bps b) (bps sl) (val (cr_CryptoAmount resb))
    Ha Hpos (bps_nonneg b Hnb)) as Hv.
  assert (0 <= bps sl <= 1) as Hsl by (split; [apply bps_nonneg | apply bps_le_1]; lia).
  specialize (Hv Hsl). rewrite Hcr in Hv at 1. specialize (Hv (proj2 (crypto_bounds _))).
  rewrite Hsame. lra.
Qed.

End pricing_theorems.

(** ** Witnesses: the seeded service, one schedule per side *)

Definition sample_schedule (side kind : string) : FeeSchedule string refdec :=
  mkFeeSchedule "fs" "TIER_1" "BTC" (RD 0 0) (RD 1000 0) side 80 kind (RD 0 0) 50 true 0.

Definition pricing_store : Store string refdec :=
  SetFeeSchedules NewStore [sample_schedule "BUY" "BPS"; sample_schedule "SELL" "BPS"].

Definition sample_pricer : Pricer string refdec := NewPricer pricing_store 100.

Definition seed_rate (now : time) : Rate refdec :=
  mkRate "USD" "BTC" (RD 64900 0) (RD 65100 0) (RD 65000 0) now "kraken" false.

Definition no_schedules : Store string refdec := NewStore.

(** The service after its first lookup at time 0. *)
Definition sample_spot1 : SpotService refdec := fst (Get0 0 0 "USD" "BTC" sample_spot).

Lemma sample_get : Get0 0 0 "USD" "BTC" sample_spot = (sample_spot1, Ok (seed_rate 0)).
Proof. vm_compute. reflexivity. Qed.

Lemma sample_spot_price : (0 < spot_price (seed_rate 0))%Q.
Proof. vm_compute. reflexivity. Qed.

(** 500 USD bought at 65000 with 80 bps of spread and 50 bps of fee. *)
Lemma Compute_buy_witness :
  exists res,
    Compute sample_pricer pricing_store sample_spot 0 0 "USD" "BTC" (RD 500 0) "TIER_1" "BUY"
    = Ret (sample_spot1, Ok res) /\
    (val (cr_Rate res) == 65520)%Q /\ (val (cr_Fee res) == 5 # 2)%Q.
Proof.
  destruct (Compute_buy sample_pricer pricing_store sample_spot 0 0 "USD" "BTC" (RD 500 0) "TIER_1"
    sample_spot1 (seed_rate 0) sample_get sample_spot_price ltac:(vm_compute; discriminate) eq_refl)
    as (res & Hres & Hv).
  exists res. split; [exact Hres |]. split.
  - rewrite (qv_rate _ _ _ _ _ _ _ _ Hv). vm_compute. reflexivity.
  - rewrite (qv_fee _ _ _ _ _ _ _ _ Hv). vm_compute. reflexivity.
Defined.

Lemma Compute_sell_witness :
  exists res,
    Compute sample_pricer pricing_store sample_spot 0 0 "USD" "BTC" (RD 1 0) "TIER_1" "SELL"
    = Ret (sample_spot1, Ok res) /\
    (val (cr_Rate res) == 64480)%Q /\ (val (cr_Total res) == 64480)%Q.
Proof.
  destruct (Compute_sell sample_pricer pricing_store sample_spot 0 0 "USD" "BTC" (RD 1 0) "TIER_1"
    sample_spot1 (seed_rate 0) sample_get sample_spot_price eq_refl) as (res & Hres & Hv).
  exists res. split; [exact Hres |]. split.
  - rewrite (qv_rate _ _ _ _ _ _ _ _ Hv). vm_compute. reflexivity.
  - rewrite (qv_total _ _ _ _ _ _ _ _ Hv). vm_compute. reflexivity.
Defined.

Lemma Compute_error_witness :
  Compute sample_pricer pricing_store sample_spot 0 0 "JPY" "BTC" (RD 500 0) "TIER_1" "BUY"
  = Ret (fst (Get0 0 0 "JPY" "BTC" sample_spot), Err "no spot rate for pair JPY-BTC").
Proof.
  apply (proj1 (Compute_error sample_pricer pricing_store sample_spot 0 0 "JPY" "BTC" (RD 500 0)
    "TIER_1" "BUY" (fst (Get0 0 0 "JPY" "BTC" sample_spot)))).
  vm_compute. reflexivity.
Defined.

(** A default spread of -10000 bps, which the configuration accepts. *)
Lemma negative_spread_panics :
  exists why, Compute (NewPricer no_schedules (-10000)) no_schedules sample_spot 0 0 "USD" "BTC" (RD 500 0)
    "TIER_1" "BUY" = Panic why.
Proof.
  apply (Compute_panics (U := string) (NewPricer no_schedules (-10000)) no_schedules sample_spot 0 0 "USD" "BTC"
    (RD 500 0) "TIER_1" "BUY" sample_spot1 (seed_rate 0) sample_get sample_spot_price).
  right. vm_compute. by split.
Qed.

(** The amount 1e-2147483648, a positive decimal: selling it panics. *)
Lemma Compute_panics_iff_witness :
  exists why, Compute (NewPricer no_schedules 80) no_schedules sample_spot 0 0 "USD" "BTC" (RD 1 2147483648)
    "TIER_1" "SELL" = Panic why.
Proof.
  apply (Compute_panics_iff (U := string) (NewPricer no_schedules 80) no_schedules sample_spot 0 0 "USD" "BTC"
    (RD 1 2147483648) "TIER_1" "SELL" sample_spot1 (seed_rate 0) sample_get sample_spot_price).
  left. vm_compute. reflexivity.
Defined.

Lemma sell_bps_fee_is_zero_witness :
  exists res,
    Compute sample_pricer pricing_store sample_spot 0 0 "USD" "BTC" (RD 1 0) "TIER_1" "SELL"
    = Ret (sample_spot1, Ok res) /\ (val (cr_Fee res) == 0)%Q.
Proof.
  destruct (sell_bps_fee_is_zero sample_pricer pricing_store sample_spot 0 0 "USD" "BTC" (RD 1 0)
    "TIER_1" sample_spot1 (seed_rate 0) (sample_schedule "SELL" "BPS") sample_get sample_spot_price eq_refl
    ltac:(vm_compute; reflexivity) eq_refl) as (res & Hres & Hf & _).
  exists res. by split.
Defined.

(** The quote of the BUY above, as computed. *)
Definition sample_buy : ComputeResult refdec :=
  match Compute sample_pricer pricing_store sample_spot 0 0 "USD" "BTC" (RD 500 0) "TIER_1" "BUY" with
  | Ret (_, Ok res) => res
  | _ => mkResult (RD 0 0) (RD 0 0) 0 (RD 0 0) (RD 0 0) (RD 0 0) ""
  end.

Definition sample_sell : ComputeResult refdec :=
  match Compute sample_pricer pricing_store sample_spot 0 0 "USD" "BTC" (cr_CryptoAmount sample_buy)
          "TIER_1" "SELL" with
  | Ret (_, Ok res) => res
  | _ => mkResult (RD 0 0) (RD 0 0) 0 (RD 0 0) (RD 0 0) (RD 0 0) ""
  end.

Lemma buy_is_fair_witness :
  (0 < val (cr_Rate sample_buy))%Q /\ rstring (cr_CryptoAmount sample_buy) = "0.00763126".
Proof.
  split; [| vm_compute; reflexivity].
  apply (buy_is_fair sample_pricer pricing_store sample_spot 0 0 "USD" "BTC" (RD 500 0) "TIER_1"
    sample_spot1 (seed_rate 0) sample_buy sample_get sample_spot_price);
    vm_compute; reflexivity.
Defined.

Lemma no_round_trip_profit_witness :
  (val (cr_Total sample_sell) <= 500 + 65000 * crypto_eps + half_ulp 8)%Q.
Proof.
  apply (no_round_trip_profit sample_pricer pricing_store sample_spot sample_spot 0 0 0 0 "USD" "BTC"
    (RD 500 0) "TIER_1" sample_spot1 sample_spot1 (seed_rate 0) (seed_rate 0) sample_buy sample_sell
    sample_get sample_get sample_spot_price).
  - reflexivity.
  - vm_compute. discriminate.
  - vm_compute. split; discriminate.
  - vm_compute. discriminate.
  - vm_compute. discriminate.
  - vm_compute. reflexivity.
  - vm_compute. reflexivity.
Defined.
