(* ===== verification/AuditTrail.v ===== *)
(** * AuditTrail: the audit log and its asynchronous fan-out (internal/quotes.go)

    [Append] records an event locally and offers it to a bounded queue that a
    worker goroutine drains into a sink.  The interleaving of the appending
    goroutines with the worker is a sequence of actions ([audit_exec]): the
    appenders offer in any order, and [a.dropped++], which no lock protects, is
    a read and a write with anything in between.  The outcome of each [Send] is
    part of its action, since the sink is an interface.  The worlds also record
    what became of each event (consumed, dropped, lost in the final drain),
    which the code only counts. *)

From S2P Require Import Prelude Spot.

Record AuditEvent (U : Type) := mkEvent {
  ev_Type : string;
  ev_QuoteID : U;
  ev_UserTier : string;
  ev_SourceVenue : string;
  ev_Reason : string;
  ev_At : time;
}.
Arguments mkEvent {U}.
Arguments ev_Type {U} _.
Arguments ev_QuoteID {U} _.
Arguments ev_UserTier {U} _.
Arguments ev_SourceVenue {U} _.
Arguments ev_Reason {U} _.
Arguments ev_At {U} _.

(** [if e.At.IsZero() { e.At = time.Now().UTC() }]. *)
Definition stamp {U} (now : time) (e : AuditEvent U) : AuditEvent U :=
  if (ev_At e =? zero_time)%Z
  then mkEvent (ev_Type e) (ev_QuoteID e) (ev_UserTier e) (ev_SourceVenue e) (ev_Reason e) now
  else e.

(** ** The log *)

Record AuditLog (U : Type) := mkAudit {
  has_sink : bool;
  queue : list (AuditEvent U);
  queue_cap : nat;
  dropped : Z;
  stopped : bool;                    (* [a.stop] is closed *)
  local : list (AuditEvent U);       (* the memAuditSink *)
}.
Arguments mkAudit {U}.
Arguments has_sink {U} _.
Arguments queue {U} _.
Arguments queue_cap {U} _.
Arguments dropped {U} _.
Arguments stopped {U} _.
Arguments local {U} _.

Section audit.
Context {U : Type}.
Implicit Types (e : AuditEvent U) (a : AuditLog U).

Definition memAuditSink_Send e (events : list (AuditEvent U)) : list (AuditEvent U) := events ++ [e].
Definition snapshot (events : list (AuditEvent U)) : list (AuditEvent U) := events.

Definition NewAuditLogWithSink (queueSize : Z) (sink : bool) : AuditLog U :=
  mkAudit sink [] (Z.to_nat (if (queueSize <=? 0)%Z then 256 else queueSize)) 0 false [].

Definition NewAuditLog : AuditLog U := NewAuditLogWithSink 256 false.

Definition record_local e a : AuditLog U :=
  mkAudit (has_sink a) (queue a) (queue_cap a) (dropped a) (stopped a) (memAuditSink_Send e (local a)).

(** [select { case a.queue <- e: default: ... }]: the log, and whether the
    event was dropped, which is yet to be counted. *)
Definition offer e a : AuditLog U * bool :=
  if decide (length (queue a) < queue_cap a)%nat
  then (mkAudit (has_sink a) (queue a ++ [e]) (queue_cap a) (dropped a) (stopped a) (local a), false)
  else (a, true).

(** The write of [a.dropped++] after a read of [v]. *)
Definition set_dropped (v : Z) a : AuditLog U :=
  mkAudit (has_sink a) (queue a) (queue_cap a) v (stopped a) (local a).

(** [Append], undisturbed. *)
Definition Append (now : time) e a : AuditLog U :=
  let '(a, d) := offer (stamp now e) (record_local (stamp now e) a) in
  if (d : bool) then set_dropped (dropped a + 1) a else a.

Definition Events a : list (AuditEvent U) := snapshot (local a).
Definition Dropped a : Z := dropped a.

Definition set_queue q a : AuditLog U :=
  mkAudit (has_sink a) q (queue_cap a) (dropped a) (stopped a) (local a).
Definition set_stopped a : AuditLog U :=
  mkAudit (has_sink a) (queue a) (queue_cap a) (dropped a) true (local a).

(** ** The worker *)

(** Where [dispatch] is: waiting in its first select, sending, about to offer
    a failed event again, about to count its drop, having read the counter, in
    the drain after the stop, sending in the drain, returned. *)
Inductive worker :=
  | Waiting
  | Sending e
  | Requeueing e
  | ToCount
  | Counting (v : Z)
  | Draining
  | DrainSending e
  | Returned.

Record world := mkWorld {
  alog : AuditLog U;
  wk : worker;
  pending : list (AuditEvent U);      (* recorded, not yet offered *)
  uncounted : nat;                    (* appenders about to count a drop *)
  counting : list Z;                  (* ... that have read the counter *)
  consumed : list (AuditEvent U);     (* sent, or discarded when there is no sink *)
  dropped_events : list (AuditEvent U);
  lost : list (AuditEvent U);         (* failed in the drain *)
}.

Inductive action :=
  | ARecord (now : time) e       (* Append: stamp and record *)
  | AOffer (i : nat)             (* Append: the select of one pending call *)
  | ARead                        (* Append: the read of a.dropped++ *)
  | AWrite (i : nat)             (* Append: the write of one a.dropped++ *)
  | AReceive                     (* the worker takes an event *)
  | ASend (ok : bool)
  | ARequeue
  | AWorkerRead
  | AWorkerWrite
  | AClose                       (* close(a.stop); once, a second close would panic *)
  | AStop                        (* the worker sees it *)
  | ADrainReceive
  | ADrainSend (ok : bool)
  | ADrainEmpty.

Implicit Types w : world.

Definition set_worker k w : world :=
  mkWorld (alog w) k (pending w) (uncounted w) (counting w) (consumed w) (dropped_events w) (lost w).
Definition set_log a w : world :=
  mkWorld a (wk w) (pending w) (uncounted w) (counting w) (consumed w) (dropped_events w) (lost w).
Definition consume_event e w : world :=
  mkWorld (alog w) (wk w) (pending w) (uncounted w) (counting w) (consumed w ++ [e]) (dropped_events w) (lost w).
Definition drop_event e w : world :=
  mkWorld (alog w) (wk w) (pending w) (uncounted w) (counting w) (consumed w) (dropped_events w ++ [e]) (lost w).
Definition lose_event e w : world :=
  mkWorld (alog w) (wk w) (pending w) (uncounted w) (counting w) (consumed w) (dropped_events w) (lost w ++ [e]).
Definition set_appenders p (u : nat) c w : world :=
  mkWorld (alog w) (wk w) p u c (consumed w) (dropped_events w) (lost w).

Definition receive (next : AuditEvent U -> worker) (idle : worker) w : option world :=
  match queue (alog w) with
  | [] => None
  | e :: q =>
      let w := set_log (set_queue q (alog w)) w in
      Some (if has_sink (alog w) then set_worker (next e) w else consume_event e (set_worker idle w))
  end.

(** One action, when it is possible. *)
Definition audit_exec (ac : action) w : option world :=
  match ac, wk w with
  | ARecord now e, _ =>
      let e := stamp now e in
      Some (set_appenders (pending w ++ [e]) (uncounted w) (counting w) (set_log (record_local e (alog w)) w))
  | AOffer i, _ =>
      match pending w !! i with
      | None => None
      | Some e =>
          let '(a, d) := offer e (alog w) in
          let w := set_log a w in
          Some (if (d : bool) then drop_event e (set_appenders (delete i (pending w)) (S (uncounted w)) (counting w) w)
                else set_appenders (delete i (pending w)) (uncounted w) (counting w) w)
      end
  | ARead, _ =>
      match uncounted w with
      | O => None
      | S u => Some (set_appenders (pending w) u (counting w ++ [dropped (alog w)]) w)
      end
  | AWrite i, _ =>
      match counting w !! i with
      | None => None
      | Some v => Some (set_log (set_dropped (v + 1) (alog w))
                          (set_appenders (pending w) (uncounted w) (delete i (counting w)) w))
      end
  | AReceive, Waiting => receive Sending Waiting w
  | ASend ok, Sending e =>
      Some (if (ok : bool) then consume_event e (set_worker Waiting w) else set_worker (Requeueing e) w)
  | ARequeue, Requeueing e =>
      let '(a, d) := offer e (alog w) in
      let w := set_log a w in
      Some (if (d : bool) then drop_event e (set_worker ToCount w) else set_worker Waiting w)
  | AWorkerRead, ToCount => Some (set_worker (Counting (dropped (alog w))) w)
  | AWorkerWrite, Counting v => Some (set_worker Waiting (set_log (set_dropped (v + 1) (alog w)) w))
  | AClose, _ => if stopped (alog w) then None else Some (set_log (set_stopped (alog w)) w)
  | AStop, Waiting => if stopped (alog w) then Some (set_worker Draining w) else None
  | ADrainReceive, Draining => receive DrainSending Draining w
  | ADrainSend ok, DrainSending e =>
      Some (let w := set_worker Draining w in if (ok : bool) then consume_event e w else lose_event e w)
  | ADrainEmpty, Draining =>
      match queue (alog w) with
      | [] => Some (set_worker Returned w)
      | _ => None
      end
  | _, _ => None
  end.

Fixpoint run_actions (acs : list action) w : option world :=
  match acs with
  | [] => Some w
  | ac :: acs' => w' ← audit_exec ac w; run_actions acs' w'
  end.

Definition start (queueSize : Z) (sink : bool) : world :=
  mkWorld (NewAuditLogWithSink queueSize sink) Waiting [] 0 [] [] [] [].

(** ** No event is unaccounted for *)

Definition in_flight (k : worker) : list (AuditEvent U) :=
  match k with Sending e | Requeueing e | DrainSending e => [e] | _ => [] end.

(** The increments begun: those that have read the counter, with what they
    read, and all of them. *)
Definition being_counted w : list Z :=
  counting w ++ match wk w with Counting v => [v] | _ => [] end.

Definition outstanding w : nat :=
  uncounted w + length (being_counted w) + match wk w with ToCount => 1 | _ => 0 end.

(** The increments written. *)
Definition counted w : Z := Z.of_nat (length (dropped_events w)) - Z.of_nat (outstanding w).

Record audit_inv w : Prop := {
  ai_account : local (alog w) ≡ₚ
    pending w ++ queue (alog w) ++ in_flight (wk w) ++ consumed w ++ dropped_events w ++ lost w;
  ai_count : (dropped (alog w) <= counted w)%Z;
  ai_read : Forall (fun v => v <= counted w)%Z (being_counted w);
  ai_cap : (length (queue (alog w)) <= queue_cap (alog w))%nat;
}.

Lemma start_inv n sink : audit_inv (start n sink).
Proof. split; cbn; [done | done | constructor | lia]. Qed.

Ltac fields :=
  unfold receive, consume_event, drop_event, lose_event, set_worker, set_log, set_appenders, set_queue, set_stopped, set_dropped,
    record_local, memAuditSink_Send, counted, outstanding, being_counted in *;
  cbn [alog wk pending uncounted counting consumed dropped_events lost in_flight local queue queue_cap dropped
    has_sink stopped length] in *.

(** The account of events. *)
Lemma exec_account ac w w' : audit_exec ac w = Some w' ->
  local (alog w) ≡ₚ pending w ++ queue (alog w) ++ in_flight (wk w) ++ consumed w ++ dropped_events w ++ lost w ->
  local (alog w') ≡ₚ pending w' ++ queue (alog w') ++ in_flight (wk w') ++ consumed w' ++ dropped_events w' ++ lost w'.
Proof.
  destruct ac; cbn [audit_exec]; intros He Ha; unfold offer, receive in He;
    repeat case_match; simplify_eq; fields;
    repeat match goal with Hk : wk w = _ |- _ => rewrite Hk in *; clear Hk end; cbn [in_flight] in *;
    try match goal with Hq : queue (alog w) = _ |- _ => rewrite Hq in * end;
    rewrite Ha; try (by rewrite ?app_nil_r);
    try match goal with Hp : pending w !! ?i = Some ?e |- _ =>
      rewrite (delete_Permutation (pending w) i e Hp) at 1 end;
    rewrite ?app_nil_r, <- ?app_assoc; cbn [app]; try done; solve_Permutation.
Qed.

Lemma exec_cap ac w w' : audit_exec ac w = Some w' ->
  queue_cap (alog w') = queue_cap (alog w) /\
  ((length (queue (alog w)) <= queue_cap (alog w))%nat -> (length (queue (alog w')) <= queue_cap (alog w'))%nat).
Proof.
  destruct ac; cbn [audit_exec]; intros He; unfold offer, receive in He;
    repeat case_match; simplify_eq; fields; (split; [done |]);
    try match goal with Hq : queue (alog w) = _ |- _ => rewrite Hq in * end;
    rewrite ?length_app; cbn [length]; lia.
Qed.

(** How one action moves the counter and the increments under way. *)
Inductive counter_step w w' : Prop :=
  | cs_same : dropped (alog w') = dropped (alog w) -> being_counted w' = being_counted w ->
      counted w' = counted w -> counter_step w w'
  | cs_read l1 l2 : dropped (alog w') = dropped (alog w) -> being_counted w = l1 ++ l2 ->
      being_counted w' = l1 ++ dropped (alog w) :: l2 -> counted w' = counted w -> counter_step w w'
  | cs_write l1 v l2 : dropped (alog w') = (v + 1)%Z -> being_counted w = l1 ++ v :: l2 ->
      being_counted w' = l1 ++ l2 -> counted w' = (counted w + 1)%Z -> counter_step w w'.

Lemma exec_counter ac w w' : audit_exec ac w = Some w' -> counter_step w w'.
Proof.
  destruct ac; cbn [audit_exec]; intros He; unfold offer, receive in He; repeat case_match; simplify_eq;
    try (apply cs_same; fields; repeat match goal with Hk : wk w = _ |- _ => rewrite Hk in *; clear Hk end;
         rewrite ?length_app; cbn [length]; (done || lia)).
  - apply (cs_read w _ (counting w) (match wk w with Counting v => [v] | _ => [] end)); fields.
    + done.
    + done.
    + by rewrite <- app_assoc.
    + rewrite !length_app. cbn [length]. lia.
  - rename select (counting w !! i = Some z) into Hc.
    pose proof (take_drop_middle (counting w) i z Hc) as Hm. pose proof (delete_take_drop (counting w) i) as Hd.
    set (k := match wk w with Counting x => [x] | _ => [] end).
    apply (cs_write w _ (take i (counting w)) z (drop (S i) (counting w) ++ k)); fields; fold k.
    + done.
    + rewrite <- Hm at 1. by rewrite <- app_assoc.
    + by rewrite Hd, <- app_assoc.
    + rewrite Hd. rewrite <- Hm at 3. rewrite !length_app. cbn [length]. lia.
  - rename select (wk w = _) into Hk. apply (cs_read w _ (counting w) []); fields; rewrite ?Hk, ?app_nil_r; try done.
    rewrite !length_app. cbn [length]. lia.
  - rename select (wk w = _) into Hk. apply (cs_write w _ (counting w) v []); fields; rewrite ?Hk, ?app_nil_r; try done.
    rewrite !length_app. cbn [length]. lia.
Qed.

Lemma audit_exec_inv ac w w' : audit_inv w -> audit_exec ac w = Some w' -> audit_inv w'.
Proof.
  intros [Ha Hc Hr Hcap] He. split.
  - by eapply exec_account.
  - destruct (exec_counter _ _ _ He) as [-> _ -> | l1 l2 -> _ _ -> | l1 v l2 -> Hb _ ->]; [done | done |].
    rewrite Hb in Hr. apply list.Forall_app in Hr as [_ Hr]. apply list.Forall_cons in Hr as [Hv _]. lia.
  - destruct (exec_counter _ _ _ He) as [_ -> -> | l1 l2 _ Hb -> -> | l1 v l2 _ Hb -> ->]; [done | |];
      rewrite Hb in Hr; apply list.Forall_app in Hr as [H1 H2]; apply list.Forall_app.
    + split; [done |]. by constructor.
    + apply list.Forall_cons in H2 as [_ H2].
      split; eapply list.Forall_impl; try eassumption; cbn; lia.
  - by apply (exec_cap _ _ _ He).
Qed.

Lemma run_actions_inv acs w w' : audit_inv w -> run_actions acs w = Some w' -> audit_inv w'.
Proof.
  revert w. induction acs as [| ac acs IH]; intros w Hi; simpl; [by intros [= <-] |].
  destruct (audit_exec ac w) as [w1 |] eqn:He; [| done]. simpl. apply IH. by eapply audit_exec_inv.
Qed.

(** Nobody reads the counter while another increment is under way. *)
Fixpoint apart (acs : list action) w : bool :=
  match acs with
  | [] => true
  | ac :: acs' =>
      match ac with ARead | AWorkerRead => bool_decide (being_counted w = []) | _ => true end &&
      match audit_exec ac w with Some w' => apart acs' w' | None => true end
  end.

(** Then nothing is lost. *)
Lemma apart_step ac w w' : audit_exec ac w = Some w' ->
  match ac with ARead | AWorkerRead => bool_decide (being_counted w = []) | _ => true end = true ->
  dropped (alog w) = counted w /\ Forall (fun v => v = counted w) (being_counted w) /\ (length (being_counted w) <= 1)%nat ->
  dropped (alog w') = counted w' /\ Forall (fun v => v = counted w') (being_counted w') /\ (length (being_counted w') <= 1)%nat.
Proof.
  intros He Ha (Hd & Hv & Hl).
  assert (being_counted w <> [] -> ac <> ARead /\ ac <> AWorkerRead) as Hnr.
  { intros Hne. split; intros ->; apply bool_decide_eq_true in Ha; done. }
  destruct (exec_counter _ _ _ He) as [Hd' Hb' Hc' | l1 l2 Hd' Hb Hb' Hc' | l1 v l2 Hd' Hb Hb' Hc'].
  - by rewrite Hd', Hb', Hc'.
  - rewrite Hd', Hc'. split; [done |].
    assert (being_counted w = []) as Hnil.
    { destruct (being_counted w) as [| x l] eqn:Hx; [done |]. exfalso. destruct Hnr as [H1 H2]; [done |].
      apply (f_equal length) in Hb, Hb'. rewrite length_app in Hb, Hb'. cbn [length] in Hb'.
      assert (length (being_counted w') = S (length (being_counted w))) as Hlen by (rewrite Hx; lia).
      clear - He H1 H2 Hlen. destruct ac; try done; cbn [audit_exec] in He; unfold offer, receive in He;
        repeat case_match; simplify_eq; fields;
        repeat match goal with Hk : wk w = _ |- _ => rewrite Hk in *; clear Hk end;
        rewrite ?length_app in Hlen; cbn [length] in Hlen; try lia.
      all: match goal with Hc : lookup _ _ = Some _ |- _ =>
        apply delete_Permutation, Permutation_length in Hc; cbn [length] in Hc end; lia. }
    rewrite Hnil in Hb. symmetry in Hb. apply app_nil in Hb as [-> ->]. rewrite Hb'. cbn. split; [by repeat constructor | lia].
  - rewrite Hb in Hv, Hl. apply list.Forall_app in Hv as [_ Hv]. apply list.Forall_cons in Hv as [-> _].
    rewrite length_app in Hl. cbn [length] in Hl.
    assert (l1 = []) as -> by (apply length_zero_iff_nil; lia). assert (l2 = []) as -> by (apply length_zero_iff_nil; lia).
    rewrite Hb'. cbn. split; [lia |]. split; [constructor | lia].
Qed.

Lemma apart_counts acs : forall w w',
  dropped (alog w) = counted w /\ Forall (fun v => v = counted w) (being_counted w) /\ (length (being_counted w) <= 1)%nat ->
  run_actions acs w = Some w' -> apart acs w = true -> dropped (alog w') = counted w'.
Proof.
  induction acs as [| ac acs IH]; intros w w' Hi; cbn [run_actions apart].
  { intros [= <-] _. by destruct Hi. }
  destruct (audit_exec ac w) as [w1 |] eqn:He; [| done]. cbn [mbind option_bind].
  intros Hr [Ha1 Ha2]%andb_true_iff. apply (IH w1 w'); [by eapply apart_step | done | done].
Qed.

Lemma run_cap acs : forall w w', run_actions acs w = Some w' -> queue_cap (alog w') = queue_cap (alog w).
Proof.
  induction acs as [| ac acs IH]; intros w w'; cbn [run_actions]; [by intros [= <-] |].
  destruct (audit_exec ac w) as [w1 |] eqn:He; [| done]. cbn [mbind option_bind]. intros Hr.
  rewrite (IH _ _ Hr). by apply (exec_cap _ _ _ He).
Qed.

(** C36: no event is unaccounted for.  In every state that appending
    goroutines, the worker, a failing sink and a shutdown can reach, whatever
    the order of their steps, each recorded event is waiting to be offered,
    queued, in the worker's hands, consumed, dropped, or was lost in the final
    drain, and exactly one of these; the queue stays within its bound.  The
    counter of drops never exceeds the number of increments completed, and is
    that number when no increment began while another was under way; two that
    overlap may count as one. *)
Theorem audit_accounts n sink acs w :
  run_actions acs (start n sink) = Some w ->
  local (alog w) ≡ₚ
    pending w ++ queue (alog w) ++ in_flight (wk w) ++ consumed w ++ dropped_events w ++ lost w /\
  (length (queue (alog w)) <= Z.to_nat (if (n <=? 0)%Z then 256 else n))%nat /\
  (Dropped (alog w) + Z.of_nat (outstanding w) <= Z.of_nat (length (dropped_events w)))%Z /\
  (apart acs (start n sink) = true ->
   (Dropped (alog w) + Z.of_nat (outstanding w) = Z.of_nat (length (dropped_events w)))%Z).
Proof.
  intros Hr. destruct (run_actions_inv acs _ w (start_inv n sink) Hr) as [Ha Hc _ Hcap].
  rewrite (run_cap _ _ _ Hr) in Hcap. unfold Dropped. unfold counted in Hc.
  split; [exact Ha |]. split; [exact Hcap |]. split; [lia |]. intros Hap.
  assert (dropped (alog w) = counted w) as Hd; [| unfold counted in Hd; lia].
  apply (apart_counts acs (start n sink) w); [| done | done]. split; [done |]. split; [constructor | cbn; lia].
Qed.

(** ** The worker's steps end *)

(** What the drain still has to do. *)
Definition drain_left w : nat :=
  match wk w with
  | Draining => 2 * length (queue (alog w)) + 1
  | DrainSending _ => 2 * length (queue (alog w)) + 2
  | _ => 0
  end.

Definition in_drain w : Prop :=
  match wk w with Draining | DrainSending _ => True | _ => False end.

Definition worker_action (ac : action) : bool :=
  match ac with ARecord _ _ | AOffer _ | ARead | AWrite _ | AClose => false | _ => true end.

(** The shutdown ends and flushes.  A worker that has seen the stop
    always has a step to take whatever the sink answers, each of its steps
    brings it closer to the end, and when it returns the queue is empty: with
    no append under way, every event was consumed, dropped, or failed in the drain, where a failed event is not offered again. *)
Theorem drain_ends w ok : audit_inv w -> in_drain w ->
  (exists ac w', worker_action ac = true /\ (forall b, ac = ADrainSend b -> b = ok) /\
     audit_exec ac w = Some w') /\
  (forall ac w', worker_action ac = true -> audit_exec ac w = Some w' ->
     (drain_left w' < drain_left w)%nat /\
     (in_drain w' \/
      (wk w' = Returned /\ queue (alog w') = [] /\
       (pending w' = [] -> local (alog w') ≡ₚ consumed w' ++ dropped_events w' ++ lost w')))).
Proof.
  unfold in_drain. intros Hi Hd. split.
  - destruct (wk w) eqn:Hk; try done.
    + destruct (queue (alog w)) as [| e q] eqn:Hq.
      * exists ADrainEmpty. cbn [audit_exec]. rewrite Hk, Hq. eexists. split_and!; done.
      * exists ADrainReceive. cbn [audit_exec]. rewrite Hk. unfold receive. rewrite Hq. eexists. split_and!; done.
    + exists (ADrainSend ok). cbn [audit_exec]. rewrite Hk. eexists. split; [done |]. split; [by intros b [= ->] | done].
  - intros ac w' Hw He. pose proof (ai_account _ (audit_exec_inv ac w w' Hi He)) as Ha.
    unfold drain_left. destruct ac; try done; cbn [audit_exec] in He; destruct (wk w) eqn:Hk; try done.
    + fields. destruct (queue (alog w)) as [| e q] eqn:Hq; [done |]. cbn [alog has_sink] in He.
      destruct (has_sink (alog w)); simplify_eq; fields; rewrite ?Hk, ?Hq; cbn [length]; (split; [lia | by left]).
    + destruct ok0; simplify_eq; fields; rewrite ?Hk; (split; [lia | by left]).
    + destruct (queue (alog w)) as [| e q] eqn:Hq; [| done]. simplify_eq. fields. split; [lia |]. right.
      split; [done |]. split; [done |]. intros Hp. rewrite Hp, Hq in Ha. done.
Qed.

(** ** Failed events come back *)

(** The worker takes the only queued event, fails to send it, offers it
    again. *)
Definition retry : list action := [AReceive; ASend false; ARequeue].

(** A failed event is offered again without limit, not once.  With room
    in the queue, the worker that fails to send the only queued event is back
    in the state it started from, any number of times. *)
Theorem requeue_is_unbounded e w (k : nat) :
  wk w = Waiting -> has_sink (alog w) = true -> queue (alog w) = [e] -> (0 < queue_cap (alog w))%nat ->
  run_actions (concat (replicate k retry)) w = Some w.
Proof.
  intros Hk Hs Hq Hc. induction k as [| k IH]; [done |]. cbn [replicate concat].
  assert (run_actions retry w = Some w) as H1.
  { destruct w as [[hs q c d st lo] wk0 pe u cn co dr lo']. simpl in *. subst. simpl. unfold offer. simpl.
    by rewrite decide_True. }
  assert (forall l1 l2 w1 w2, run_actions l1 w1 = Some w2 -> run_actions (l1 ++ l2) w1 = run_actions l2 w2) as Happ.
  { clear. induction l1 as [| ac l1 IH]; intros l2 w1 w2; simpl; [by intros [= ->] |].
    destruct (audit_exec ac w1); [apply IH | done]. }
  by rewrite (Happ _ _ _ _ H1).
Qed.

End audit.
Arguments worker : clear implicits.
Arguments world : clear implicits.
Arguments action : clear implicits.

(** ** Concrete runs *)

Definition sample_event (ty : string) : AuditEvent string := mkEvent ty "q1" "TIER_1" "kraken" "" zero_time.

(** A queue of one: the second event finds it full, and so does the third; the
    two increments overlap and count as one. *)
Lemma audit_accounts_witness :
  let acs := [ARecord 1 (sample_event "quote.issued"); AOffer 0; ARecord 2 (sample_event "quote.claimed");
              ARecord 3 (sample_event "quote.refreshed"); AOffer 1; AOffer 0; ARead; ARead; AWrite 1; AWrite 0;
              AReceive; ASend false; ARequeue; AReceive; ASend true] in
  exists w, run_actions acs (start 1 true) = Some w /\ Dropped (alog w) = 1%Z /\ length (dropped_events w) = 2%nat /\
    local (alog w) ≡ₚ
      pending w ++ queue (alog w) ++ in_flight (wk w) ++ consumed w ++ dropped_events w ++ lost w.
Proof.
  intros acs. destruct (run_actions acs (start 1 true)) as [w |] eqn:Hr; [| by vm_compute in Hr].
  exists w. split; [done |]. split; [by vm_compute in Hr; injection Hr as <- |].
  split; [by vm_compute in Hr; injection Hr as <- |].
  exact (proj1 (audit_accounts 1 true acs w Hr)).
Defined.

Definition stopping : world string :=
  mkWorld (mkAudit true [sample_event "quote.expired"] 4 0 true [sample_event "quote.expired"]) Draining [] 0 [] [] [] [].

Lemma stopping_inv : audit_inv stopping.
Proof. split; cbn; [done | done | constructor | lia]. Qed.

Lemma drain_ends_witness :
  audit_exec ADrainReceive stopping <> None /\
  (forall ac w', worker_action ac = true -> audit_exec ac stopping = Some w' ->
     (drain_left w' < drain_left stopping)%nat).
Proof.
  split; [done |]. intros ac w' Hw He.
  exact (proj1 (proj2 (drain_ends stopping true stopping_inv I) ac w' Hw He)).
Defined.

Lemma requeue_is_unbounded_witness :
  let w := mkWorld (mkAudit true [sample_event "quote.expired"] 4 0 false [sample_event "quote.expired"])
             Waiting [] 0 [] [] [] [] in
  run_actions (concat (replicate 1000 retry)) w = Some w.
Proof.
  intros w. apply (requeue_is_unbounded (sample_event "quote.expired") w 1000); try reflexivity.
  simpl. lia.
Defined.
