(* ===== verification/Fx.v ===== *)
(** * Fx: cross-pair quotes (internal/fx.go)

    The fx-hedging service is behind an interface; its client is a function
    from a fiat code to a rate and a hedge cost in basis points, or an error.
    The rate is a [float64], converted by the decimal library ([NewFromFloat]
    panics on NaN and infinities): both are parameters.  Dividing by the rate,
    and multiplying with the result, may panic like all of pricing. *)

From S2P Require Import Prelude GoStrings Decimal RefDecimal Store FeeIndex Lru Spot Pricer.

Section fx.
Context {U D F : Type} `{Countable U} {ops : DecimalOps D}.
Variable NewFromFloat : F -> outcome D.
Implicit Types (st : Store U D) (sv : SpotService D) (p : Pricer U D).

Definition FXClient : Type := string -> result (F * Z) string.

Definition ErrFXUnavailable : string := "fx service unavailable".

Definition noopFXClient : FXClient := fun _ => Err ErrFXUnavailable.

(** [strings.TrimRight(s, "/")]. *)
Fixpoint trim_right_slash (s : string) : string :=
  match s with
  | EmptyString => EmptyString
  | String c s' =>
      match trim_right_slash s' with
      | EmptyString => if Ascii.eqb c "/"%char then EmptyString else String c EmptyString
      | r => String c r
      end
  end.

(** [newHTTPFXClient]: the base URL it keeps, or nil. *)
Definition newHTTPFXClient (baseURL : string) : option string :=
  if bool_decide (baseURL = "") then None else Some (trim_right_slash baseURL).

(** The HTTP client [FetchFX], given what the request for a URL brings: an
    error, or a status code and a body that decodes or does not. *)
Definition FetchFX (do_request : string -> result (Z * result (F * Z) string) string)
    (status_error : Z -> string) (BaseURL : string) : FXClient := fun fiat =>
  let url := BaseURL +:+ "/fx?fiat=" +:+ fiat in
  match do_request url with
  | Err e => Err e
  | Ok (status, body) => if negb (status =? 200)%Z then Err (status_error status) else body
  end.

(** [CrossPairQuote]; [fx] is [None] when no client is wired. *)
Definition CrossPairQuote (fx : option FXClient) p st sv (t_since t_reseed : time)
    (from to : string) (amount : D) (userTier side : string)
  : outcome (SpotService D * result (ComputeResult D) string) :=
  match (if String.eqb from "USD" then None else fx) with
  | None => Compute p st sv t_since t_reseed from to amount userTier side
  | Some fetch =>
      match fetch from with
      | Err _ => Compute p st sv t_since t_reseed from to amount userTier side
      | Ok (fxRate, hedgeBPS) =>
          '(sv, ur) ← Compute p st sv t_since t_reseed "USD" to amount userTier side;
          match ur with
          | Err e => mret (sv, Err e)
          | Ok usd =>
              fxRateDec ← NewFromFloat fxRate;
              rate ← dec_div (cr_Rate usd) fxRateDec;
              spot ← dec_div (cr_Spot usd) fxRateDec;
              if (0 <? hedgeBPS)%Z then
                let spreadBPS := wrap64 (cr_SpreadBPS usd + hedgeBPS) in
                spread ← dec_div (dec_of_int spreadBPS) (dec_of_int 10000);
                '(rate, total, crypto) ←
                  (if String.eqb side "BUY" then
                     rate ← (spot * (dec_of_int 1 + spread))%pq;
                     crypto ← dec_div amount rate;
                     mret (rate, cr_Total usd, crypto)
                   else if String.eqb side "SELL" then
                     rate ← (spot * (dec_of_int 1 - spread))%pq;
                     gross ← (amount * rate)%pq;
                     mret (rate, (gross - cr_Fee usd)%pq, cr_CryptoAmount usd)
                   else mret (rate, cr_Total usd, cr_CryptoAmount usd));
                total ← round total 8;
                crypto ← round crypto 8;
                mret (sv, Ok (mkResult rate spot spreadBPS (cr_Fee usd) total crypto (cr_SourceVenue usd)))
              else
                mret (sv, Ok (mkResult rate spot (cr_SpreadBPS usd) (cr_Fee usd) (cr_Total usd)
                                (cr_CryptoAmount usd) (cr_SourceVenue usd)))
          end
      end
  end.

End fx.
Arguments FXClient F : clear implicits.

(** ** What a cross quote is worth *)

Section fx_theorems.
Context {U D F : Type} `{Countable U} {ops : DecimalOps D} {laws : DecimalLaws D}.
Variable NewFromFloat : F -> outcome D.
Implicit Types (st : Store U D) (sv : SpotService D) (p : Pricer U D).
Local Open Scope Q_scope.

(** Without a client, for USD, and when the client fails, the quote is the
    direct one. *)
Lemma cross_direct fx p st sv t1 t2 from to amount tier side :
  from = "USD" \/ fx = None \/ (exists fetch e, fx = Some fetch /\ fetch from = Err e) ->
  CrossPairQuote NewFromFloat fx p st sv t1 t2 from to amount tier side =
  Compute p st sv t1 t2 from to amount tier side.
Proof.
  unfold CrossPairQuote. destruct (String.eqb_spec from "USD") as [-> | Hne]; [done |].
  intros [? | [-> | (fetch & e & -> & He)]]; [done | done | by rewrite He].
Qed.

(** The exponents of a cross quote: the rate and the spot are divided by the
    exchange rate, and with a hedge cost the amount is divided by, or
    multiplied with, a rate of 32 decimals. *)
Definition convert_overflows (usd : ComputeResult D) (fx : D) : bool :=
  div_overflows (cr_Rate usd) fx || div_overflows (cr_Spot usd) fx.

Definition hedged_overflows (usd : ComputeResult D) (fx amount : D) (side : string) : bool :=
  convert_overflows usd fx ||
  (if String.eqb side "BUY" then negb (in_int32 (dec_exp amount + 32 + 16))
   else if String.eqb side "SELL" then negb (in_int32 (dec_exp amount - 32))
   else false).

(** A cross quote with no hedge cost.  Only the rate and the spot are
    converted; fee, total and crypto amount are those of a quote for the same
    number of US dollars, so whatever the exchange rate is, the amounts are
    the same, and a zero exchange rate panics. *)
Theorem cross_unhedged fetch p st sv t1 t2 from to amount tier side rate hedge fx sv' usd :
  from <> "USD" -> fetch from = Ok (rate, hedge) -> (hedge <= 0)%Z -> NewFromFloat rate = Ret fx ->
  Compute p st sv t1 t2 "USD" to amount tier side = Ret (sv', Ok usd) ->
  (val fx == 0 -> exists why,
     CrossPairQuote NewFromFloat (Some fetch) p st sv t1 t2 from to amount tier side = Panic why) /\
  (~ val fx == 0 -> convert_overflows usd fx = false -> exists res,
     CrossPairQuote NewFromFloat (Some fetch) p st sv t1 t2 from to amount tier side = Ret (sv', Ok res) /\
     val (cr_Rate res) == qround division_precision (val (cr_Rate usd) / val fx) /\
     val (cr_Spot res) == qround division_precision (val (cr_Spot usd) / val fx) /\
     cr_Fee res = cr_Fee usd /\ cr_Total res = cr_Total usd /\ cr_CryptoAmount res = cr_CryptoAmount usd /\
     cr_SpreadBPS res = cr_SpreadBPS usd /\ cr_SourceVenue res = cr_SourceVenue usd).
Proof.
  intros Hne Hf Hh Hfx Hc. unfold CrossPairQuote. rewrite (proj2 (String.eqb_neq _ _) Hne), Hf, Hc.
  cbn [mbind outcome_bind]. rewrite Hfx. cbn [mbind outcome_bind]. split; intros Hz.
  - destruct (div_zero (cr_Rate usd) fx Hz) as [w ->]. by eexists.
  - intros [Ho1 Ho2]%orb_false_iff. destruct (div_ret (cr_Rate usd) fx Hz Ho1) as (ra & -> & Hra & _).
    destruct (div_ret (cr_Spot usd) fx Hz Ho2) as (sp & -> & Hsp & _). cbn [mbind outcome_bind].
    destruct (0 <? hedge)%Z eqn:Hb; [zbool; lia |]. eexists. split; [done |]. by split_and!.
Qed.

(** C39: a cross quote with a hedge cost, when the exponents fit.  The spread grows by the cost, the
    rate is the converted spot marked up (BUY) or down (SELL) by it; a BUY's
    crypto amount is the amount over that rate, and a SELL's total is the
    amount at that rate less the fee, so both are in the fiat currency of the
    quote. *)
Theorem cross_hedged fetch p st sv t1 t2 from to amount tier side rate hedge fx sv' usd :
  from <> "USD" -> fetch from = Ok (rate, hedge) -> (0 < hedge)%Z -> NewFromFloat rate = Ret fx ->
  Compute p st sv t1 t2 "USD" to amount tier side = Ret (sv', Ok usd) -> ~ val fx == 0 ->
  hedged_overflows usd fx amount side = false ->
  let n := wrap64 (cr_SpreadBPS usd + hedge) in
  let spot := qround division_precision (val (cr_Spot usd) / val fx) in
  (side = "BUY" -> ~ spot * (1 + bps n) == 0 -> exists res,
     CrossPairQuote NewFromFloat (Some fetch) p st sv t1 t2 from to amount tier side = Ret (sv', Ok res) /\
     cr_SpreadBPS res = n /\ val (cr_Spot res) == spot /\ val (cr_Rate res) == spot * (1 + bps n) /\
     val (cr_CryptoAmount res) == qround 8 (qround division_precision (val amount / (spot * (1 + bps n)))) /\
     val (cr_Total res) == qround 8 (val (cr_Total usd)) /\ cr_Fee res = cr_Fee usd) /\
  (side = "SELL" -> exists res,
     CrossPairQuote NewFromFloat (Some fetch) p st sv t1 t2 from to amount tier side = Ret (sv', Ok res) /\
     cr_SpreadBPS res = n /\ val (cr_Spot res) == spot /\ val (cr_Rate res) == spot * (1 - bps n) /\
     val (cr_Total res) == qround 8 (val amount * (spot * (1 - bps n)) - val (cr_Fee usd)) /\
     val (cr_CryptoAmount res) == qround 8 (val (cr_CryptoAmount usd)) /\ cr_Fee res = cr_Fee usd).
Proof.
  intros Hne Hf Hh Hfx Hc Hz [[Ho1 Ho2]%orb_false_iff Ho]%orb_false_iff n spot. unfold CrossPairQuote.
  rewrite (proj2 (String.eqb_neq _ _) Hne), Hf, Hc. cbn [mbind outcome_bind]. rewrite Hfx. cbn [mbind outcome_bind].
  destruct (div_ret (cr_Rate usd) fx Hz Ho1) as (ra & -> & Hra & _).
  destruct (div_ret (cr_Spot usd) fx Hz Ho2) as (sp & -> & Hsp & Hse). fold spot in Hsp. cbn [mbind outcome_bind].
  apply Z.ltb_lt in Hh as ->. fold n.
  destruct (spread_val (D := D) n) as (sd & -> & Hsd & Hsde). cbn [mbind outcome_bind]. split; intros ->.
  - intros Hnz. cbn [String.eqb Ascii.eqb Bool.eqb] in *.
    destruct (mul_ret sp (dec_of_int 1 + sd)%pq) as (rt & -> & Hrate & Hre).
    { unfold mul_overflows. rewrite Hse, (one_plus_exp _ Hsde). done. }
    rewrite val_add, val_of_int, Hsp, Hsd in Hrate. rewrite Hse, (one_plus_exp _ Hsde) in Hre. cbn [mbind outcome_bind].
    destruct (div_ret amount rt) as (c & -> & Hcv & _); [by rewrite Hrate | |].
    { unfold div_overflows. rewrite Hre. replace (dec_exp amount - _ + _)%Z with (dec_exp amount + 32 + 16)%Z; [done |].
      unfold division_precision. lia. }
    rewrite Hrate in Hcv. cbn [mbind outcome_bind mret outcome_ret].
    destruct (round_val (cr_Total usd) 8 ltac:(lia)) as (t & -> & Ht).
    destruct (round_val c 8 ltac:(lia)) as (c8 & -> & Hc8). cbn [mbind outcome_bind mret outcome_ret].
    eexists. split; [done |]. rewrite Hcv in Hc8. by split_and!.
  - cbn [String.eqb Ascii.eqb Bool.eqb] in *.
    destruct (mul_ret sp (dec_of_int 1 - sd)%pq) as (rt & -> & Hrate & Hre).
    { unfold mul_overflows. rewrite Hse, (one_minus_exp _ Hsde). done. }
    rewrite val_sub, val_of_int, Hsp, Hsd in Hrate. rewrite Hse, (one_minus_exp _ Hsde) in Hre. cbn [mbind outcome_bind].
    destruct (mul_ret amount rt) as (g & -> & Hg & _).
    { unfold mul_overflows. rewrite Hre. exact Ho. }
    cbn [mbind outcome_bind mret outcome_ret]. rewrite Hrate in Hg.
    destruct (round_val (dec_sub g (cr_Fee usd)) 8 ltac:(lia)) as (t & -> & Ht). cbn [mbind outcome_bind mret outcome_ret].
    destruct (round_val (cr_CryptoAmount usd) 8 ltac:(lia)) as (c8 & -> & Hc8).
    cbn [mbind outcome_bind mret outcome_ret]. rewrite val_sub, Hg in Ht.
    eexists. split; [done |]. by split_and!.
Qed.

End fx_theorems.

(** ** Concrete cross quotes: euros at 1.08 dollars *)

Definition euro_client (hedge : Z) : FXClient refdec :=
  fun fiat => if String.eqb fiat "EUR" then Ok (RD 108 2, hedge) else Err "fx status 404".

Definition sample_usd (side : string) : ComputeResult refdec :=
  match Compute sample_pricer pricing_store sample_spot 0 0 "USD" "BTC" (RD 1 0) "TIER_1" side with
  | Ret (_, Ok res) => res
  | _ => mkResult (RD 0 0) (RD 0 0) 0 (RD 0 0) (RD 0 0) (RD 0 0) ""
  end.

Lemma sample_usd_quote side : side = "BUY" \/ side = "SELL" ->
  Compute sample_pricer pricing_store sample_spot 0 0 "USD" "BTC" (RD 1 0) "TIER_1" side
  = Ret (sample_spot1, Ok (sample_usd side)).
Proof. intros [-> | ->]; vm_compute; reflexivity. Qed.

(** One euro buys as much as one dollar. *)
Lemma cross_unhedged_witness :
  exists res,
    CrossPairQuote Ret (Some (euro_client 0)) sample_pricer pricing_store sample_spot 0 0 "EUR" "BTC" (RD 1 0)
      "TIER_1" "BUY" = Ret (sample_spot1, Ok res) /\
    cr_CryptoAmount res = cr_CryptoAmount (sample_usd "BUY").
Proof.
  destruct (proj2 (cross_unhedged Ret (euro_client 0) sample_pricer pricing_store sample_spot 0 0 "EUR" "BTC"
    (RD 1 0) "TIER_1" "BUY" (RD 108 2) 0 (RD 108 2) sample_spot1 (sample_usd "BUY") ltac:(discriminate) eq_refl
    ltac:(lia) eq_refl (sample_usd_quote "BUY" (or_introl eq_refl))) ltac:(vm_compute; discriminate)
    ltac:(vm_compute; reflexivity))
    as (res & Hres & _ & _ & _ & _ & Hcr & _).
  exists res. by split.
Defined.

Lemma cross_hedged_witness :
  exists res,
    CrossPairQuote Ret (Some (euro_client 25)) sample_pricer pricing_store sample_spot 0 0 "EUR" "BTC" (RD 1 0)
      "TIER_1" "SELL" = Ret (sample_spot1, Ok res) /\ cr_SpreadBPS res = 105%Z.
Proof.
  destruct (proj2 (cross_hedged Ret (euro_client 25) sample_pricer pricing_store sample_spot 0 0 "EUR" "BTC"
    (RD 1 0) "TIER_1" "SELL" (RD 108 2) 25 (RD 108 2) sample_spot1 (sample_usd "SELL") ltac:(discriminate) eq_refl
    ltac:(lia) eq_refl (sample_usd_quote "SELL" (or_intror eq_refl)) ltac:(vm_compute; discriminate)
    ltac:(vm_compute; reflexivity)) eq_refl)
    as (res & Hres & Hn & _).
  exists res. split; [exact Hres |]. rewrite Hn. vm_compute. reflexivity.
Defined.
