(* ===== verification/Feed.v ===== *)
(** * Feed: pub/sub updates and the poll fallback (internal/feed.go)

    The in-process feed is a list of subscriber channels of 64 messages; a
    publication offers the message to each without blocking.  The feed
    consumer turns a message into a spot update, the poll fallback a polled
    rate.  The server owns neither: nothing in the program starts the consumer
    or installs the poll hook. *)

From S2P Require Import Prelude GoStrings Decimal RefDecimal Lru Spot.

Record FeedMessage (D : Type) := mkMsg {
  m_Pair : string;
  m_Bid : D;
  m_Ask : D;
  m_Mid : D;
  m_SourceVenue : string;
  m_TS : time;
}.
Arguments mkMsg {D}.
Arguments m_Pair {D} _.
Arguments m_Bid {D} _.
Arguments m_Ask {D} _.
Arguments m_Mid {D} _.
Arguments m_SourceVenue {D} _.
Arguments m_TS {D} _.

(** [splitPair]: at the first hyphen; two empty strings without one. *)
Definition splitPair (p : string) : string * string :=
  match cut "-"%char p with Some (a, b) => (a, b) | None => ("", "") end.

(** ** The in-process feed *)

Section inproc.
Context {M : Type}.

Record channel := mkChan { ch_buf : list M; ch_closed : bool }.

Record inProcFeed := mkFeed {
  subs : list nat;                (* the subscribed channels, in order *)
  chans : gmap nat channel;       (* every channel made so far *)
  closed : bool;
}.
Implicit Types f : inProcFeed.

Definition newInProcFeed : inProcFeed := mkFeed [] ∅ false.

Definition feed_chan_cap : nat := 64.

(** [select { case ch <- msg: default: }]; sending on a closed channel panics. *)
Definition offer_msg (msg : M) (id : nat) (cs : gmap nat channel) : outcome (gmap nat channel) :=
  match cs !! id with
  | None => Ret cs
  | Some ch =>
      if ch_closed ch then Panic "send on closed channel"
      else if decide (length (ch_buf ch) < feed_chan_cap)%nat
           then Ret (<[id := mkChan (ch_buf ch ++ [msg]) false]> cs) else Ret cs
  end.

Fixpoint publish_to (msg : M) (ids : list nat) (cs : gmap nat channel) : outcome (gmap nat channel) :=
  match ids with
  | [] => Ret cs
  | id :: ids' => cs ← offer_msg msg id cs; publish_to msg ids' cs
  end.

Definition Publish (msg : M) f : outcome inProcFeed :=
  cs ← publish_to msg (subs f) (chans f);
  Ret (mkFeed (subs f) cs (closed f)).

(** The registration of [Subscribe] with a new channel; [None] is the error
    [context.Canceled] of a closed feed. *)
Definition subscribe f : option (inProcFeed * nat) :=
  if closed f then None
  else let id := fresh (dom (chans f)) in
       Some (mkFeed (subs f ++ [id]) (<[id := mkChan [] false]> (chans f)) false, id).

Fixpoint remove_first (id : nat) (l : list nat) : list nat :=
  match l with
  | [] => []
  | i :: l' => if (i =? id)%nat then l' else i :: remove_first id l'
  end.

Definition removeSub (id : nat) f : inProcFeed := mkFeed (remove_first id (subs f)) (chans f) (closed f).

(** What the receive of the subscriber's loop finds. *)
Inductive received := RMsg (m : M) | RClosed | RBlocked.

Definition receive_msg (id : nat) f : inProcFeed * received :=
  match chans f !! id with
  | None => (f, RBlocked)
  | Some ch =>
      match ch_buf ch with
      | m :: b => (mkFeed (subs f) (<[id := mkChan b (ch_closed ch)]> (chans f)) (closed f), RMsg m)
      | [] => (f, if ch_closed ch then RClosed else RBlocked)
      end
  end.

(** [close(ch)]; closing twice panics. *)
Definition close_chan (id : nat) (cs : gmap nat channel) : outcome (gmap nat channel) :=
  match cs !! id with
  | None => Ret cs
  | Some ch => if ch_closed ch then Panic "close of closed channel" else Ret (<[id := mkChan (ch_buf ch) true]> cs)
  end.

Fixpoint close_all (ids : list nat) (cs : gmap nat channel) : outcome (gmap nat channel) :=
  match ids with
  | [] => Ret cs
  | id :: ids' => cs ← close_chan id cs; close_all ids' cs
  end.

Definition Close f : outcome inProcFeed :=
  cs ← close_all (subs f) (chans f);
  Ret (mkFeed [] cs true).

(** ** The feed never panics *)

(** Subscribed channels are distinct and open. *)
Record feed_inv f : Prop := {
  fi_nodup : NoDup (subs f);
  fi_open : forall id, id ∈ subs f -> exists b, chans f !! id = Some (mkChan b false);
}.

Definition delivered (msg : M) (b : list M) : list M :=
  if decide (length b < feed_chan_cap)%nat then b ++ [msg] else b.

Lemma publish_to_correct msg ids : forall cs, NoDup ids ->
  (forall id, id ∈ ids -> exists b, cs !! id = Some (mkChan b false)) ->
  exists cs', publish_to msg ids cs = Ret cs' /\
    (forall id b, id ∈ ids -> cs !! id = Some (mkChan b false) -> cs' !! id = Some (mkChan (delivered msg b) false)) /\
    (forall id, id ∉ ids -> cs' !! id = cs !! id).
Proof.
  induction ids as [| i ids IH]; intros cs Hnd Ho; cbn [publish_to].
  { exists cs. split; [done |]. split; [by intros id b ?%elem_of_nil | done]. }
  apply list.NoDup_cons in Hnd as [Hni Hnd]. destruct (Ho i) as [b Hb]; [left |].
  assert (exists cs1, offer_msg msg i cs = Ret cs1 /\ cs1 !! i = Some (mkChan (delivered msg b) false) /\
    forall id, id <> i -> cs1 !! id = cs !! id) as (cs1 & Hof & Hi & Hne).
  { unfold offer_msg, delivered. rewrite Hb. simpl. case_decide.
    - eexists. split; [done |]. rewrite lookup_insert_eq. split; [done |]. intros id Hid. by rewrite lookup_insert_ne.
    - by exists cs. }
  rewrite Hof. cbn [mbind outcome_bind].
  assert (forall id, id ∈ ids -> id <> i) as Hdiff by (intros id Hid ->; done).
  destruct (IH cs1 Hnd) as (cs' & -> & Hin & Hout).
  { intros id Hid. rewrite Hne by auto. apply Ho. by right. }
  exists cs'. split; [done |]. split.
  - intros id b' [-> | Hid]%elem_of_cons Hid'; [rewrite Hout by done; congruence |].
    apply Hin; [done |]. by rewrite Hne by auto.
  - intros id Hid. rewrite Hout, Hne; [done | |]; intros Hc; apply Hid; [subst; by left | by right].
Qed.

(** A publication reaches every subscriber that has room, once, in order, and
    nobody else. *)
Lemma Publish_correct msg f : feed_inv f ->
  exists f', Publish msg f = Ret f' /\ feed_inv f' /\ subs f' = subs f /\
    (forall id b, id ∈ subs f -> chans f !! id = Some (mkChan b false) ->
       chans f' !! id = Some (mkChan (delivered msg b) false)) /\
    (forall id, id ∉ subs f -> chans f' !! id = chans f !! id).
Proof.
  intros [Hnd Ho]. destruct (publish_to_correct msg (subs f) (chans f) Hnd Ho) as (cs' & Hp & Hin & Hout).
  unfold Publish. rewrite Hp. eexists. split; [done |]. split; [| done]. split; [done |].
  intros id Hid. destruct (Ho id Hid) as [b Hb]. eexists. by apply Hin.
Qed.

Lemma subscribe_inv f f' id : feed_inv f -> subscribe f = Some (f', id) -> feed_inv f'.
Proof.
  intros [Hnd Ho]. unfold subscribe. destruct (closed f); [done |]. intros [= <- <-].
  set (id := fresh (dom (chans f))). assert (chans f !! id = None) as Hf by (apply not_elem_of_dom, is_fresh).
  split; cbn [subs chans].
  - apply list.NoDup_app. split; [done |]. split; [| apply NoDup_singleton].
    intros i Hi ->%list_elem_of_singleton. destruct (Ho _ Hi) as [b Hb]. congruence.
  - intros i [Hi | ->%list_elem_of_singleton]%elem_of_app; [| eexists; apply lookup_insert_eq].
    destruct (Ho i Hi) as [b Hb]. exists b. rewrite lookup_insert_ne; [done |]. intros <-. congruence.
Qed.

Lemma remove_first_sublist id l : sublist (remove_first id l) l.
Proof. induction l as [| i l IH]; simpl; [done |]. destruct (i =? id)%nat; by constructor. Qed.

Lemma removeSub_inv id f : feed_inv f -> feed_inv (removeSub id f).
Proof.
  intros [Hnd Ho]. pose proof (remove_first_sublist id (subs f)) as Hs. split; cbn [subs chans removeSub].
  - by eapply sublist_NoDup.
  - intros i Hi. apply Ho. by eapply elem_of_sublist.
Qed.

Lemma receive_msg_inv id f : feed_inv f -> feed_inv (fst (receive_msg id f)).
Proof.
  intros Hi. unfold receive_msg. destruct (chans f !! id) as [ch |] eqn:Hc; [| done].
  destruct (ch_buf ch) as [| m b]; [done |]. destruct Hi as [Hnd Ho]. split; cbn [fst subs chans]; [done |].
  intros i Hi. destruct (Ho i Hi) as [b' Hb]. rewrite lookup_insert. case_decide; [subst i | eauto].
  rewrite Hc in Hb. injection Hb as ->. simpl. eauto.
Qed.

Lemma close_all_total ids : forall cs, NoDup ids ->
  (forall id, id ∈ ids -> exists b, cs !! id = Some (mkChan b false)) -> exists cs', close_all ids cs = Ret cs'.
Proof.
  induction ids as [| i ids IH]; intros cs Hnd Ho; cbn [close_all]; [eauto |].
  apply list.NoDup_cons in Hnd as [Hni Hnd]. destruct (Ho i) as [b Hb]; [left |].
  unfold close_chan. rewrite Hb. cbn [ch_closed mbind outcome_bind]. apply IH; [done |].
  intros id Hid. rewrite lookup_insert_ne by (intros <-; done). apply Ho. by right.
Qed.

Lemma Close_total f : feed_inv f -> exists f', Close f = Ret f' /\ feed_inv f' /\ subscribe f' = None.
Proof.
  intros [Hnd Ho]. destruct (close_all_total (subs f) (chans f) Hnd Ho) as [cs Hc]. unfold Close. rewrite Hc.
  eexists. split; [done |]. split; [| done]. split; [constructor | by intros id ?%elem_of_nil].
Qed.

End inproc.

(** ** The consumer and the poll fallback *)

Section consumer.
Context {D W : Type} {ops : DecimalOps D}.
Implicit Types (s : SpotService D) (m : FeedMessage D) (r : Rate D) (h : Hooks (D := D) (W := W)).

(** The handler of [startFeedConsumer]: the service, the client world, and
    the lag the gauge is set to (none when the message is ignored).  The rate
    carries the time of its arrival, not the message's. *)
Definition feed_handler h (now t_update t_lag : time) m s (w : W) : outcome (SpotService D * W * option Z) :=
  mid ← (if dec_le (m_Mid m) dec_zero && dec_gt (m_Bid m) dec_zero && dec_gt (m_Ask m) dec_zero
         then dec_div (m_Bid m + m_Ask m)%pq (dec_of_int 2) else mret (m_Mid m));
  let '(from, to) := splitPair (m_Pair m) in
  if String.eqb from "" || String.eqb to "" then mret (s, w, None)
  else
    let r := mkRate from to (m_Bid m) (m_Ask m) mid now (m_SourceVenue m) false in
    let '(s, w) := Update h t_update r s w in
    mret (s, w, Some (Z.quot (time_Since t_lag (m_TS m)) Millisecond)).

(** The counter of polls, by result. *)
Record pollMetrics := mkPoll { poll_ok : Z; poll_error : Z }.

(** [pollFallback]: [poll] is [None] when no client is wired. *)
Definition pollFallback h (poll : option (string -> string -> result (Rate D) string)) (now : time)
    (from to : string) s (w : W) (pm : pollMetrics) : SpotService D * W * pollMetrics * option (Rate D) :=
  match poll with
  | None => (s, w, pm, None)
  | Some f =>
      match f from to with
      | Err _ => (s, w, mkPoll (poll_ok pm) (poll_error pm + 1), None)
      | Ok r =>
          let '(s, w) := Update h now r s w in (s, w, mkPoll (poll_ok pm + 1) (poll_error pm), Some r)
      end
  end.

Definition noopPollClient (_ _ : string) : result (Rate D) string := Err "no poll client configured".

Lemma splitPair_pairKey from to : has_byte "-"%char from = false -> splitPair (pairKey from to) = (from, to).
Proof.
  intros Hf. unfold splitPair, pairKey. change ("-" +:+ to) with (String "-"%char to).
  by rewrite (proj2 (cut_Some "-"%char _ from to) (conj eq_refl Hf)).
Qed.

Lemma splitPair_key p : fst (splitPair p) <> "" -> pairKey (fst (splitPair p)) (snd (splitPair p)) = p.
Proof.
  unfold splitPair. destruct (cut "-"%char p) as [[a b] |] eqn:Hc; [| done]. intros _.
  apply cut_Some in Hc as [-> _]. reflexivity.
Qed.

Lemma cached_store_rate r s : spot_wf s -> cached (store_rate r s) (pairKey (r_From r) (r_To r)) = Some r.
Proof.
  intros Hwf. destruct (put_refines (cache s) (pairKey (r_From r) (r_To r)) r (wf_lru s Hwf)) as (_ & _ & Hc).
  unfold cached. cbn [cache store_rate set_lastGood set_cache]. rewrite Hc. unfold spec_put.
  by rewrite assoc_cons, String.eqb_refl.
Qed.

(** An update is visible.  A message with a positive mid and two non-empty
    sides around a hyphen is stored under its own pair name, with its prices,
    its venue and its time of arrival, and until it is older than the maximal age a lookup
    returns exactly that rate; the subscribers' hook is told once.  A message
    with an empty side changes nothing. *)
Theorem feed_update_is_visible h now t_update t_lag t_get t_reseed m s w :
  spot_wf s -> (dec_le (m_Mid m) dec_zero = false) -> in_int64 (t_get - t_update) ->
  let from := fst (splitPair (m_Pair m)) in
  let to := snd (splitPair (m_Pair m)) in
  let r := mkRate from to (m_Bid m) (m_Ask m) (m_Mid m) t_update (m_SourceVenue m) false in
  if String.eqb from "" || String.eqb to "" then feed_handler h now t_update t_lag m s w = Ret (s, w, None)
  else exists s' w', feed_handler h now t_update t_lag m s w = Ret (s', w', Some (Z.quot (time_Since t_lag (m_TS m)) Millisecond)) /\
    w' = match onUpdate h with Some f => f (m_Pair m) r w | None => w end /\
    ((t_get - t_update <= maxStaleAge s)%Z -> snd (Get0 t_get t_reseed from to s') = Ok r).
Proof.
  intros Hwf Hmid Hint from to r. unfold feed_handler. rewrite Hmid. cbn [andb mbind outcome_bind mret outcome_ret].
  pose proof (splitPair_key (m_Pair m)) as Hkey. subst from to. destruct (splitPair (m_Pair m)) as [from to].
  cbn [fst snd] in *. destruct (String.eqb_spec from "") as [-> | Hf]; [done |]. specialize (Hkey Hf).
  destruct (String.eqb_spec to "") as [-> | Ht]; [done |]. cbn [orb]. unfold Update. cbn [set_TS r_From r_To].
  fold r. rewrite Hkey.
  assert ((t_get - t_update <= maxStaleAge s)%Z -> snd (Get0 t_get t_reseed from to (store_rate r s)) = Ok r) as Hget.
  { intros Hage. destruct (Get0_cases t_get t_reseed from to (store_rate r s) (store_rate_wf r s Hwf)) as [_ ->].
    rewrite (cached_store_rate r s Hwf : cached (store_rate r s) (pairKey from to) = Some r).
    assert ((time_Since t_get (r_TS r) <=? maxStaleAge (store_rate r s))%Z = true) as ->; [| done].
    apply Z.leb_le. unfold time_Since. rewrite time_Sub_exact by exact Hint. exact Hage. }
  destruct (onUpdate h); do 2 eexists; (split; [done |]); by split.
Qed.

End consumer.

Definition sample_msg : FeedMessage refdec :=
  mkMsg "USD-BTC" (dec_of_int 69900) (dec_of_int 70100) (dec_of_int 70000) "coinbase" 0.

Lemma feed_update_is_visible_witness :
  exists s' w', feed_handler (W := list string) (mkHooks (Some (fun p _ w => p :: w)) None) 1 2 3 sample_msg sample_spot []
      = Ret (s', w', Some (Z.quot (time_Since 3 0) Millisecond)) /\
    w' = ["USD-BTC"] /\
    ((100 - 2 <= maxStaleAge sample_spot)%Z -> snd (Get0 100 100 "USD" "BTC" s') =
       Ok (mkRate "USD" "BTC" (dec_of_int 69900) (dec_of_int 70100) (dec_of_int 70000) 2 "coinbase" false)).
Proof.
  apply (feed_update_is_visible (mkHooks (Some (fun p _ w => p :: w)) None) 1 2 3 100 100 sample_msg sample_spot []).
  - apply spot_reachable_wf. constructor.
  - reflexivity.
  - apply (bool_decide_unpack _). vm_compute. exact I.
Defined.
