(* ===== verification/Ws.v ===== *)
(** * Ws: the WebSocket rate stream (internal/ws.go)

    Frames are lists of bytes.  A connection is what it will deliver to the
    reader and whether its next writes succeed; subscribers are identified by
    numbers, as the hub's map is keyed by pointers.  The handshake is in
    Handshake.v. *)

From S2P Require Import Prelude GoStrings Utf8 Decimal RefDecimal Json Lru Spot.

(** ** Bytes *)

Definition is_byte (b : Z) : bool := ((0 <=? b) && (b <? 256))%Z.

(** [binary.BigEndian.PutUint16/PutUint64] of [n] bytes, and back. *)
Fixpoint put_be (n : nat) (v : Z) : list Z :=
  match n with O => [] | S n' => (v / 256 ^ Z.of_nat n' mod 256)%Z :: put_be n' v end.

Definition get_be (bs : list Z) : Z := fold_left (fun acc b => acc * 256 + b)%Z bs 0%Z.

(** [byte ^= mask[i%4]] over a payload, from position [i]. *)
Fixpoint unmask (mask : list Z) (i : nat) (bs : list Z) : list Z :=
  match bs with
  | [] => []
  | b :: bs' => Z.lxor b (nth (i mod 4) mask 0%Z) :: unmask mask (S i) bs'
  end.

(** ** Writing: text frames, not masked *)

Definition frame_header (plen : Z) : list Z :=
  (if plen <=? 125 then [129; plen]
   else if plen <=? 65535 then [129; 126] ++ put_be 2 plen
   else [129; 127] ++ put_be 8 plen)%Z.

Definition frame (payload : list Z) : list Z := frame_header (Z.of_nat (length payload)) ++ payload.

Record wsMetrics := mkWsMetrics {
  wsActiveConnections : Z;
  wsMessagesSent : Z;
  wsMessagesDropped : Z;
}.

Definition inc_sent m := mkWsMetrics (wsActiveConnections m) (wsMessagesSent m + 1) (wsMessagesDropped m).
Definition inc_dropped m := mkWsMetrics (wsActiveConnections m) (wsMessagesSent m) (wsMessagesDropped m + 1).
Definition inc_active m := mkWsMetrics (wsActiveConnections m + 1) (wsMessagesSent m) (wsMessagesDropped m).
Definition dec_active m := mkWsMetrics (wsActiveConnections m - 1) (wsMessagesSent m) (wsMessagesDropped m).

Record wsSubscriber := mkSub {
  written : list Z;            (* what reached the connection *)
  writes : list bool;          (* the outcome of the next writes; then success *)
  sub_pairs : gset string;
  done_ : bool;                (* the channel is closed and so is the connection *)
}.

Definition close_sub (sub : wsSubscriber) : wsSubscriber :=
  if done_ sub then sub else mkSub (written sub) (writes sub) (sub_pairs sub) true.

Definition write_ok (sub : wsSubscriber) : bool :=
  negb (done_ sub) && match writes sub with [] => true | b :: _ => b end.

(** One [conn.Write]. *)
Definition conn_write (bs : list Z) (sub : wsSubscriber) : wsSubscriber * bool :=
  let ok := write_ok sub in
  (mkSub (if ok then written sub ++ bs else written sub) (tail (writes sub)) (sub_pairs sub) (done_ sub), ok).

Definition sendFrame (payload : list Z) (sub : wsSubscriber) (m : wsMetrics) : wsSubscriber * wsMetrics * bool :=
  let '(sub, ok) := conn_write (frame_header (Z.of_nat (length payload))) sub in
  if negb ok then (sub, inc_dropped m, false)
  else
    let '(sub, ok) := conn_write payload sub in
    if negb ok then (sub, inc_dropped m, false) else (sub, inc_sent m, true).

(** ** Reading *)

(** [io.ReadFull] of [n] bytes: the bytes and the rest, or an error. *)
Definition ReadFull (n : Z) (input : list Z) : option (list Z * list Z) :=
  if (Z.of_nat (length input) <? n)%Z then None
  else Some (take (Z.to_nat n) input, drop (Z.to_nat n) input).

(** [make([]byte, n)]. *)
Definition make_bytes (n : Z) : outcome unit := if (n <? 0)%Z then Panic "makeslice: len out of range" else Ret tt.

(** The payload and the rest of the input, or an error; a close frame is the
    error [io.EOF].  A 64-bit length is converted to a signed integer. *)
Definition readWSFrame (input : list Z) : outcome (option (list Z * list Z)) :=
  match ReadFull 2 input with
  | Some ([h0; h1], input) =>
      let opcode := Z.land h0 15 in
      let masked := negb (Z.land h1 128 =? 0)%Z in
      let plen := Z.land h1 127 in
      let ext := (if plen =? 126 then ReadFull 2 input
                  else if plen =? 127 then ReadFull 8 input
                  else Some ([], input))%Z in
      match ext with
      | None => Ret None
      | Some (bs, input) =>
          let plen := (if plen =? 126 then get_be bs else if plen =? 127 then wrap64 (get_be bs) else plen)%Z in
          match (if masked then ReadFull 4 input else Some ([0; 0; 0; 0]%Z, input)) with
          | None => Ret None
          | Some (mask, input) =>
              _ ← make_bytes plen;
              match (if (0 <? plen)%Z then ReadFull plen input else Some ([], input)) with
              | None => Ret None
              | Some (payload, input) =>
                  let payload := if masked then unmask mask 0 payload else payload in
                  Ret (if (opcode =? 8)%Z then None
                       else if ((opcode =? 9) || (opcode =? 10))%Z then Some ([], input)
                       else Some (payload, input))
              end
          end
      end
  | _ => Ret None
  end.

(** ** The hub *)

Abbreviation wsHub := (gmap nat wsSubscriber).

Definition newWSHub : wsHub := ∅.

Definition hub_add (id : nat) (sub : wsSubscriber) (h : wsHub) (m : wsMetrics) : wsHub * wsMetrics :=
  (<[id := sub]> h, inc_active m).

(** [remove]: the hub, the gauge, and the subscriber, closed; [sub] is its
    state when the hub no longer has it. *)
Definition hub_remove (id : nat) (sub : wsSubscriber) (h : wsHub) (m : wsMetrics)
  : wsHub * wsMetrics * wsSubscriber :=
  match h !! id with
  | Some sub => (delete id h, dec_active m, close_sub sub)
  | None => (h, m, close_sub sub)
  end.

(** [fanout]: the subscribers in the order [ord] in which the map is visited;
    those whose pairs contain the pair are sent the frame. *)
Definition fan_one (pair : string) (fr : list Z) (hm : wsHub * wsMetrics) (id : nat) : wsHub * wsMetrics :=
  match fst hm !! id with
  | None => hm
  | Some sub =>
      if bool_decide (pair ∈ sub_pairs sub) then
        let '(sub', m', _) := sendFrame fr sub (snd hm) in (<[id := sub']> (fst hm), m')
      else hm
  end.

Section rates.
Context {D : Type} {ops : DecimalOps D}.
Variable json_text : json -> list Z.
Variable fmt_time : time -> string.

Definition rate_frame (pair : string) (r : Rate D) : list Z :=
  json_text (JObj [("pair", JStr pair); ("rate", JStr (dec_to_string (r_Mid r))); ("source", JStr (r_SourceVenue r));
                   ("ts", JStr (fmt_time (r_TS r)))]).

Definition fanout (ord : list nat) (pair : string) (r : Rate D) (hm : wsHub * wsMetrics) : wsHub * wsMetrics :=
  fold_left (fan_one pair (rate_frame pair r)) ord hm.

End rates.

(** ** Commands *)

(** [normalizePair]: trimmed, in upper case, and with a hyphen after the third
    byte of a long name without one. *)
Definition normalizePair (p : string) : string :=
  let p := encode_runes (to_upper <$> TrimSpace (runes p)) in
  if has_byte "-"%char p then p
  else if (6 <=? String.length p)%nat then String.substring 0 3 p +:+ "-" +:+ String.substring 3 (String.length p - 3) p
  else p.

Inductive ws_reply := NoReply | Pong.

(** The switch of the read loop on a decoded command. *)
Definition handle_command (action : string) (pairs : list string) (sub : wsSubscriber) : wsSubscriber * ws_reply :=
  let a := to_lower <$> runes action in
  let set_pairs f := mkSub (written sub) (writes sub) f (done_ sub) in
  if bool_decide (a = runes "subscribe") then
    (set_pairs (fold_left (fun s p => {[normalizePair p]} ∪ s) pairs (sub_pairs sub)), NoReply)
  else if bool_decide (a = runes "unsubscribe") then
    (set_pairs (fold_left (fun s p => s ∖ {[normalizePair p]}) pairs (sub_pairs sub)), NoReply)
  else if bool_decide (a = runes "ping") then (sub, Pong)
  else (sub, NoReply).

(** ** A connection *)

Section connection.
Variable json_parse : list Z -> option json.

(** [{"pong":true}]. *)
Definition pong_text : list Z := [123; 34; 112; 111; 110; 103; 34; 58; 116; 114; 117; 101; 125]%Z.

(** One turn of the read loop on a payload; an empty one, or one that does not
    decode, is skipped. *)
Definition ws_command (payload : list Z) (sub : wsSubscriber) (m : wsMetrics) : wsSubscriber * wsMetrics :=
  if bool_decide (payload = []) then (sub, m)
  else
    match json_parse payload ≫= unmarshal_command with
    | None => (sub, m)
    | Some (action, pairs) =>
        match handle_command action pairs sub with
        | (sub, Pong) => fst (sendFrame pong_text sub m)
        | (sub, NoReply) => (sub, m)
        end
    end.

(** The read loop on what the connection delivers before it ends; a turn takes
    at least two bytes, so the length of the input bounds the turns. *)
Fixpoint read_loop (fuel : nat) (input : list Z) (sub : wsSubscriber) (m : wsMetrics)
  : outcome (wsSubscriber * wsMetrics) :=
  match fuel with
  | O => Ret (sub, m)
  | S fuel' =>
      if done_ sub then Ret (sub, m)
      else
        fr ← readWSFrame input;
        match fr with
        | None => Ret (sub, m)
        | Some (payload, rest) => let '(sub, m) := ws_command payload sub m in read_loop fuel' rest sub m
        end
  end.

(** [ratesSubscribeHandler] after the handshake: register, read, unregister. *)
Definition serve_subscriber (id : nat) (writes : list bool) (input : list Z) (h : wsHub) (m : wsMetrics)
  : outcome (wsHub * wsMetrics * wsSubscriber) :=
  let sub := mkSub [] writes ∅ false in
  let '(h, m) := hub_add id sub h m in
  '(sub, m) ← read_loop (S (length input)) input sub m;
  Ret (hub_remove id sub (<[id := sub]> h) m).

End connection.

(** ** Reading back what was written *)

Lemma get_be_app a b : get_be (a ++ b) = fold_left (fun acc x => acc * 256 + x)%Z b (get_be a).
Proof. unfold get_be. by rewrite fold_left_app. Qed.

Lemma put_be_length n v : length (put_be n v) = n.
Proof. induction n as [| n IH]; simpl; [done | by rewrite IH]. Qed.

Lemma get_be_put n v acc : (0 <= v)%Z ->
  fold_left (fun a x => a * 256 + x)%Z (put_be n v) acc = (acc * 256 ^ Z.of_nat n + v mod 256 ^ Z.of_nat n)%Z.
Proof.
  intros Hv. revert acc. induction n as [| n IH]; intros acc; cbn [put_be fold_left].
  { simpl. rewrite Z.mod_1_r. lia. }
  rewrite IH, Nat2Z.inj_succ, Z.pow_succ_r by lia.
  set (P := (256 ^ Z.of_nat n)%Z). assert (0 < P)%Z as HP by (subst P; apply Z.pow_pos_nonneg; lia).
  rewrite (Z.mul_comm 256 P), Z.rem_mul_r by lia. ring.
Qed.

Lemma get_put_be n v : (0 <= v < 256 ^ Z.of_nat n)%Z -> get_be (put_be n v) = v.
Proof. intros Hv. unfold get_be. rewrite get_be_put by lia. rewrite Z.mod_small by lia. lia. Qed.

Lemma ReadFull_app a b : ReadFull (Z.of_nat (length a)) (a ++ b) = Some (a, b).
Proof.
  unfold ReadFull. rewrite length_app, Nat2Z.inj_add.
  destruct (Z.of_nat (length a) + Z.of_nat (length b) <? Z.of_nat (length a))%Z eqn:Hl; [zbool; lia |].
  by rewrite Nat2Z.id, take_app_length, drop_app_length.
Qed.

Lemma ReadFull_n n a b : Z.of_nat (length a) = n -> ReadFull n (a ++ b) = Some (a, b).
Proof. intros <-. apply ReadFull_app. Qed.

Lemma unmask_involutive mask i bs : unmask mask i (unmask mask i bs) = bs.
Proof.
  revert i. induction bs as [| b bs IH]; intros i; simpl; [done |].
  by rewrite Z.lxor_assoc, Z.lxor_nilpotent, Z.lxor_0_r, IH.
Qed.

Lemma unmask_length mask i bs : length (unmask mask i bs) = length bs.
Proof. revert i. induction bs as [| b bs IH]; intros i; simpl; [done | by rewrite IH]. Qed.

(** A frame as a peer may build it: first byte, mask if any, payload. *)
Definition peer_frame (h0 : Z) (mask : option (list Z)) (payload : list Z) : list Z :=
  let n := Z.of_nat (length payload) in
  let bit := match mask with Some _ => 128%Z | None => 0%Z end in
  [h0] ++ (if n <=? 125 then [bit + n]
           else if n <=? 65535 then [bit + 126] ++ put_be 2 n
           else [bit + 127] ++ put_be 8 n)%Z
       ++ default [] mask
       ++ match mask with Some k => unmask k 0 payload | None => payload end.

Lemma frame_peer payload : frame payload = peer_frame 129 None payload.
Proof. unfold frame, frame_header, peer_frame. by repeat case_match. Qed.

(** The second byte, as its mask bit and its seven low bits. *)
Lemma second_byte (m : bool) n : (0 <= n < 128)%Z ->
  negb (Z.land ((if m then 128 else 0) + n) 128 =? 0)%Z = m /\ Z.land ((if m then 128 else 0) + n) 127 = n.
Proof.
  intros Hn. assert (n ∈ seqZ 0 128) as Hin by (apply elem_of_seqZ; lia). clear Hn.
  revert n Hin. apply (proj1 (list.Forall_forall _ _)). destruct m; apply (bool_decide_unpack _); vm_compute; exact I.
Qed.

(** What the reader makes of a frame: the end of the stream for a close,
    nothing for a ping or a pong, the payload otherwise. *)
Definition frame_content (h0 : Z) (payload rest : list Z) : option (list Z * list Z) :=
  if (Z.land h0 15 =? 8)%Z then None
  else if ((Z.land h0 15 =? 9) || (Z.land h0 15 =? 10))%Z then Some ([], rest) else Some (payload, rest).

Lemma read_body (m : bool) (mask payload : list Z) h0 rest :
  length mask = 4%nat ->
  match (if m then ReadFull 4 ((if m then mask else []) ++ (if m then unmask mask 0 payload else payload) ++ rest)
         else Some ([0; 0; 0; 0]%Z, (if m then mask else []) ++ (if m then unmask mask 0 payload else payload) ++ rest)) with
  | None => Ret None
  | Some (mask', input) =>
      _ ← make_bytes (Z.of_nat (length payload));
      match (if (0 <? Z.of_nat (length payload))%Z then ReadFull (Z.of_nat (length payload)) input else Some ([], input)) with
      | None => Ret None
      | Some (payload, input) =>
          let payload := if m then unmask mask' 0 payload else payload in
          Ret (if (Z.land h0 15 =? 8)%Z then None
               else if ((Z.land h0 15 =? 9) || (Z.land h0 15 =? 10))%Z then Some ([], input)
               else Some (payload, input))
      end
  end = Ret (frame_content h0 payload rest).
Proof.
  intros Hm. unfold make_bytes. destruct (Z.of_nat (length payload) <? 0)%Z eqn:Hneg; [zbool; lia |].
  unfold frame_content. destruct m.
  - rewrite ReadFull_n by (by rewrite Hm). cbn [mbind outcome_bind].
    destruct (0 <? Z.of_nat (length payload))%Z eqn:Hpos; zbool.
    + rewrite ReadFull_n by (by rewrite unmask_length). cbv zeta. by rewrite unmask_involutive.
    + assert (payload = []) as -> by (destruct payload; simpl in *; [done | lia]). done.
  - cbn [app mbind outcome_bind]. destruct (0 <? Z.of_nat (length payload))%Z eqn:Hpos; zbool.
    + by rewrite ReadFull_app.
    + assert (payload = []) as -> by (destruct payload; simpl in *; [done | lia]). done.
Qed.

(** A frame whose length is written in either of the three ways is read. *)
Lemma read_length (m : bool) (mask payload ext : list Z) h0 b2 rest :
  let n := Z.of_nat (length payload) in
  length mask = 4%nat -> (n <= max_int64)%Z -> (0 <= b2 < 128)%Z ->
  (if (b2 =? 126)%Z then length ext = 2%nat /\ get_be ext = n
   else if (b2 =? 127)%Z then length ext = 8%nat /\ get_be ext = n else ext = [] /\ b2 = n) ->
  readWSFrame (([h0; (if m then 128 else 0) + b2]%Z ++ ext ++ (if m then mask else []) ++
    (if m then unmask mask 0 payload else payload)) ++ rest) = Ret (frame_content h0 payload rest).
Proof.
  intros n Hk Hlen Hb2 Hext. unfold readWSFrame. rewrite <- app_assoc, ReadFull_n by done.
  destruct (second_byte m b2 Hb2) as [H1 H2]. rewrite H1, H2. rewrite <- !app_assoc. cbv zeta.
  destruct (b2 =? 126)%Z; [| destruct (b2 =? 127)%Z].
  - destruct Hext as [He Hn]. rewrite ReadFull_n by (by rewrite He). rewrite Hn. by apply read_body.
  - destruct Hext as [He Hn]. rewrite ReadFull_n by (by rewrite He). rewrite Hn.
    rewrite wrap64_id by (unfold in_int64, min_int64; lia). by apply read_body.
  - destruct Hext as [-> Hn]. rewrite Hn. by apply read_body.
Qed.

Lemma read_peer h0 mask payload rest :
  (match mask with Some k => length k = 4%nat | None => True end) ->
  (Z.of_nat (length payload) <= max_int64)%Z ->
  readWSFrame (peer_frame h0 mask payload ++ rest) = Ret (frame_content h0 payload rest).
Proof.
  intros Hmask Hlen. set (n := Z.of_nat (length payload)) in *.
  set (m := match mask with Some _ => true | None => false end). set (k := default [0; 0; 0; 0]%Z mask).
  assert (length k = 4%nat) as Hk by (by subst k; destruct mask).
  assert (forall b2 ext, peer_frame h0 mask payload =
    [h0; (if m then 128 else 0) + b2]%Z ++ ext ++ (if m then k else []) ++
      (if m then unmask k 0 payload else payload) -> (0 <= b2 < 128)%Z ->
    (if (b2 =? 126)%Z then length ext = 2%nat /\ get_be ext = n
     else if (b2 =? 127)%Z then length ext = 8%nat /\ get_be ext = n else ext = [] /\ b2 = n) ->
    readWSFrame (peer_frame h0 mask payload ++ rest) = Ret (frame_content h0 payload rest)) as Hgen
    by (intros b2 ext -> Hb2 Hext; by apply read_length).
  unfold peer_frame in Hgen at 1. fold n in Hgen.
  destruct (n <=? 125)%Z eqn:Hs; [| destruct (n <=? 65535)%Z eqn:Hs2]; zbool.
  - apply (Hgen n []); [subst m k; by destruct mask | lia |].
    destruct (n =? 126)%Z eqn:E; [zbool; lia |]. by destruct (n =? 127)%Z eqn:E2; [zbool; lia |].
  - apply (Hgen 126%Z (put_be 2 n)); [subst m k; by destruct mask | lia |].
    split; [done |]. apply (get_put_be 2). simpl. lia.
  - apply (Hgen 127%Z (put_be 8 n)); [subst m k; by destruct mask | lia |].
    split; [apply put_be_length |]. apply (get_put_be 8). unfold max_int64 in Hlen. simpl. lia.
Qed.

(** Frames are read back.  The reader accepts every frame a peer can
    build from an opcode, an optional four-byte mask and a payload of fewer
    than 2^63 bytes, whatever follows it, and yields exactly the payload (or
    its absence, for the control opcodes) and what follows; in particular what
    [sendFrame] writes. *)
Theorem readWSFrame_peer h0 mask payload rest :
  (match mask with Some k => length k = 4%nat | None => True end) ->
  (Z.of_nat (length payload) <= max_int64)%Z ->
  readWSFrame (peer_frame h0 mask payload ++ rest) = Ret (frame_content h0 payload rest) /\
  readWSFrame (frame payload ++ rest) = Ret (Some (payload, rest)).
Proof. intros Hmask Hlen. split; [by apply read_peer |]. rewrite frame_peer. by rewrite read_peer. Qed.

Lemma readWSFrame_peer_witness :
  readWSFrame (peer_frame 129 (Some [1; 2; 3; 4]%Z) [112; 105; 110; 103]%Z ++ [7%Z]) =
    Ret (frame_content 129 [112; 105; 110; 103]%Z [7%Z]) /\
  readWSFrame (frame [112; 105; 110; 103]%Z ++ [7%Z]) = Ret (Some ([112; 105; 110; 103]%Z, [7%Z])).
Proof.
  apply (readWSFrame_peer 129 (Some [1; 2; 3; 4]%Z) [112; 105; 110; 103]%Z [7%Z]); [reflexivity |].
  apply Z.leb_le. reflexivity.
Defined.

(** A peer that announces a 64-bit length with the top bit set makes the
    reader panic before any payload arrives: the length becomes negative. *)
Theorem readWSFrame_hostile n rest : (2 ^ 63 <= n < 2 ^ 64)%Z ->
  readWSFrame ([129; 127]%Z ++ put_be 8 n ++ rest) = Panic "makeslice: len out of range".
Proof.
  intros Hn. unfold readWSFrame. rewrite ReadFull_n by done. cbv zeta.
  change (Z.land 127 127) with 127%Z. change (negb (Z.land 127 128 =? 0)%Z) with false.
  change (127 =? 126)%Z with false. change (127 =? 127)%Z with true. cbv iota.
  rewrite ReadFull_n by (by rewrite put_be_length). rewrite (get_put_be 8) by (simpl; lia).
  assert (wrap64 n = n - 2 ^ 64)%Z as ->.
  { unfold wrap64. rewrite <- (Z.mod_unique (n + 2 ^ 63) (2 ^ 64) 1 (n - 2 ^ 63)); lia. }
  unfold make_bytes. assert ((n - 2 ^ 64 <? 0)%Z = true) as -> by lia. done.
Qed.

(** ** Who receives an update *)

Lemma fan_one_other pair fr hm id id' : id' <> id -> fst (fan_one pair fr hm id) !! id' = fst hm !! id'.
Proof.
  intros Hne. unfold fan_one. destruct (fst hm !! id) as [sub |]; [| done]. case_bool_decide; [| done].
  destruct (sendFrame fr sub (snd hm)) as [[sub' m'] b]. by apply lookup_insert_ne.
Qed.

Definition sent_to (pair : string) (fr : list Z) (sub sub' : wsSubscriber) : Prop :=
  if bool_decide (pair ∈ sub_pairs sub) then exists m, sub' = fst (fst (sendFrame fr sub m)) else sub' = sub.

(** Every subscriber whose set contains the pair is sent the frame once, the
    others nothing; sets and connections of nobody else change. *)
Lemma fanout_correct pair fr ord : forall hm, NoDup ord ->
  forall id, match fst hm !! id with
             | None => fst (fold_left (fan_one pair fr) ord hm) !! id = None
             | Some sub => exists sub', fst (fold_left (fan_one pair fr) ord hm) !! id = Some sub' /\
                 if bool_decide (id ∈ ord) then sent_to pair fr sub sub' else sub' = sub
             end.
Proof.
  induction ord as [| i ord IH]; intros hm Hnd id; cbn [fold_left].
  { destruct (fst hm !! id) as [sub |]; [| done]. exists sub. split; [done |].
    by rewrite bool_decide_false by apply not_elem_of_nil. }
  apply list.NoDup_cons in Hnd as [Hni Hnd]. specialize (IH (fan_one pair fr hm i) Hnd id).
  destruct (decide (id = i)) as [-> | Hne].
  - destruct (fst hm !! i) as [sub |] eqn:Hsub.
    + assert (exists s1, fst (fan_one pair fr hm i) !! i = Some s1 /\ sent_to pair fr sub s1) as (s1 & H1 & Hsent).
      { unfold fan_one, sent_to. rewrite Hsub. destruct (bool_decide (pair ∈ sub_pairs sub)) eqn:Hp; [| by exists sub].
        destruct (sendFrame fr sub (snd hm)) as [[sub' m'] b] eqn:Hs. exists sub'.
        split; [apply lookup_insert_eq |]. exists (snd hm). by rewrite Hs. }
      rewrite H1 in IH. destruct IH as (s2 & Hs2 & Heq). rewrite bool_decide_false in Heq by done. subst s2.
      exists s1. split; [done |]. by rewrite bool_decide_true by left.
    + assert (fst (fan_one pair fr hm i) !! i = None) as H1 by (unfold fan_one; by rewrite Hsub).
      by rewrite H1 in IH.
  - rewrite fan_one_other in IH by done. destruct (fst hm !! id) as [sub |]; [| done].
    destruct IH as (s2 & Hs2 & Heq). exists s2. split; [done |].
    destruct (decide (id ∈ ord)) as [Hin | Hin].
    + rewrite bool_decide_true in Heq by done. by rewrite bool_decide_true by (by right).
    + rewrite bool_decide_false in Heq by done. rewrite bool_decide_false; [done |].
      intros [? | ?]%elem_of_cons; done.
Qed.

(** A hub entry leaves the gauge where it found it. *)
Lemma hub_add_remove id sub h m : h !! id = None ->
  hub_remove id sub (fst (hub_add id sub h m)) (snd (hub_add id sub h m)) = (h, m, close_sub sub).
Proof.
  intros Hid. unfold hub_remove, hub_add. cbn [fst snd]. rewrite lookup_insert_eq.
  rewrite delete_insert_id by done.
  unfold dec_active, inc_active. destruct m as [a b c]. cbn. repeat f_equal. lia.
Qed.

(** ** A whole connection *)

Section session.
Variable json_parse : list Z -> option json.

(** Every turn of the loop takes at least the two bytes of a header. *)
Lemma readWSFrame_consumes input payload rest :
  readWSFrame input = Ret (Some (payload, rest)) -> (length rest + 2 <= length input)%nat.
Proof.
  assert (forall n l a b, ReadFull n l = Some (a, b) -> (length b <= length l)%nat) as Hlen.
  { intros n l a b. unfold ReadFull. case_match; [done |]. intros [= <- <-]. rewrite length_drop. lia. }
  unfold readWSFrame. destruct (ReadFull 2 input) as [[[| h0 [| h1 [| ? ?]]] i1] |] eqn:H2; try done.
  unfold ReadFull in H2. case_match; [done |]. injection H2 as Ht <-.
  assert (length (drop (Z.to_nat 2) input) + 2 <= length input)%nat as Hd by (rewrite length_drop; lia).
  set (i1 := drop (Z.to_nat 2) input) in *. clearbody i1. cbv zeta.
  destruct (if (Z.land h1 127 =? 126)%Z then ReadFull 2 i1
    else if (Z.land h1 127 =? 127)%Z then ReadFull 8 i1 else Some ([], i1)) as [[bs i2] |] eqn:He; [| done].
  assert (length i2 <= length i1)%nat as H3.
  { destruct (_ =? 126)%Z; [by eapply Hlen |]. destruct (_ =? 127)%Z; [by eapply Hlen |].
    injection He as <- <-. lia. }
  set (n := if (_ =? 126)%Z then get_be bs else _). clearbody n.
  destruct (if negb (Z.land h1 128 =? 0)%Z then ReadFull 4 i2 else Some ([0; 0; 0; 0]%Z, i2)) as [[mask i3] |] eqn:Hm; [| done].
  assert (length i3 <= length i2)%nat as H4
    by (destruct (negb _); [by eapply Hlen | injection Hm as <- <-; lia]).
  intros Hr. apply outcome_bind_ret in Hr as (? & _ & Hr).
  destruct (if (0 <? n)%Z then ReadFull n i3 else Some ([], i3)) as [[pl i4] |] eqn:Hp; [| done].
  assert (length i4 <= length i3)%nat as H5
    by (destruct (0 <? _)%Z; [by eapply Hlen | injection Hp as <- <-; lia]).
  injection Hr as Hr. destruct (_ =? 8)%Z; [done |]. destruct (_ || _)%Z; injection Hr as <- <-; lia.
Qed.

(** The bound on the turns is never what ends the loop. *)
Lemma read_loop_fuel f1 : forall f2 input sub m,
  (length input < f1)%nat -> (length input < f2)%nat ->
  read_loop json_parse f1 input sub m = read_loop json_parse f2 input sub m.
Proof.
  induction f1 as [| f1 IH]; intros [| f2] input sub m H1 H2; try lia. cbn [read_loop].
  destruct (done_ sub); [done |]. destruct (readWSFrame input) as [[[payload rest] |] | w] eqn:Hr; try done.
  cbn [mbind outcome_bind]. destruct (ws_command json_parse payload sub m) as [sub' m'].
  apply readWSFrame_consumes in Hr. apply IH; lia.
Qed.

Lemma ws_command_done payload sub m :
  done_ (fst (ws_command json_parse payload sub m)) = done_ sub.
Proof.
  unfold ws_command. case_bool_decide; [done |].
  destruct (json_parse payload ≫= unmarshal_command) as [[a ps] |]; [| done].
  unfold handle_command, sendFrame, conn_write. by repeat case_match; simplify_eq/=.
Qed.

(** A message as the client sends it: first byte, mask, payload; and the
    payload the loop sees. *)
Definition message : Type := Z * option (list Z) * list Z.

Definition sendable (x : message) : Prop :=
  let '(h0, mask, payload) := x in
  Z.land h0 15 <> 8%Z /\ (match mask with Some k => length k = 4%nat | None => True end) /\
  (Z.of_nat (length payload) <= max_int64)%Z.

Definition message_frame (x : message) : list Z := let '(h0, mask, payload) := x in peer_frame h0 mask payload.

Definition obey (sm : wsSubscriber * wsMetrics) (x : message) : wsSubscriber * wsMetrics :=
  let '(h0, _, payload) := x in
  ws_command json_parse (if ((Z.land h0 15 =? 9) || (Z.land h0 15 =? 10))%Z then [] else payload) (fst sm) (snd sm).

Lemma read_messages msgs : forall sub m rest, Forall sendable msgs -> done_ sub = false ->
  forall f, (length (concat (message_frame <$> msgs) ++ rest) < f)%nat ->
  exists f', (length rest < f')%nat /\
    read_loop json_parse f (concat (message_frame <$> msgs) ++ rest) sub m =
    read_loop json_parse f' rest (fst (fold_left obey msgs (sub, m))) (snd (fold_left obey msgs (sub, m))) /\
    done_ (fst (fold_left obey msgs (sub, m))) = false.
Proof.
  induction msgs as [| [[h0 mask] payload] msgs IH]; intros sub m rest Hs Hd f Hf.
  { exists f. split; [exact Hf |]. by split. }
  apply list.Forall_cons_1 in Hs as [(Hop & Hmask & Hlen) Hs]. destruct f as [| f]; [lia |].
  cbn [fmap list_fmap concat message_frame] in *. rewrite <- app_assoc in *.
  pose proof (read_peer h0 mask payload (concat (message_frame <$> msgs) ++ rest) Hmask Hlen) as Hr.
  unfold frame_content in Hr. apply Z.eqb_neq in Hop. rewrite Hop in Hr.
  set (seen := if ((Z.land h0 15 =? 9) || (Z.land h0 15 =? 10))%Z then [] else payload).
  assert (readWSFrame (peer_frame h0 mask payload ++ concat (message_frame <$> msgs) ++ rest) =
    Ret (Some (seen, concat (message_frame <$> msgs) ++ rest))) as Hr' by (rewrite Hr; subst seen; by case_match).
  pose proof (readWSFrame_consumes _ _ _ Hr') as Hc.
  cbn [fold_left]. change (obey (sub, m) (h0, mask, payload)) with (ws_command json_parse seen sub m).
  pose proof (ws_command_done seen sub m) as Hdone.
  destruct (ws_command json_parse seen sub m) as [sub1 m1] eqn:Hcmd. cbn [fst] in Hdone.
  destruct (IH sub1 m1 rest Hs ltac:(congruence) f ltac:(lia)) as (f' & Hf' & Heq & Hd').
  exists f'. split; [exact Hf' |]. split; [| exact Hd']. rewrite <- Heq.
  cbn [read_loop]. rewrite Hd, Hr'. cbn [mbind outcome_bind]. by rewrite Hcmd.
Qed.

Lemma obey_active msgs : forall sm,
  wsActiveConnections (snd (fold_left obey msgs sm)) = wsActiveConnections (snd sm).
Proof.
  induction msgs as [| [[h0 mask] payload] msgs IH]; intros [sub m]; [done |]. cbn [fold_left]. rewrite IH.
  unfold obey, ws_command. case_bool_decide; [done |].
  destruct (json_parse _ ≫= unmarshal_command) as [[a ps] |]; [| done].
  cbn [fst snd]. unfold handle_command, sendFrame. by repeat case_match; simplify_eq/=.
Qed.

(** C32: a connection obeys its client.  Whatever frames the client sends
    (any opcode but a close, masked or not, of any length) before a close
    frame or the end of the stream, the handler reads all of them and carries
    out the commands they decode to, in order and each once; then the
    subscriber is closed, out of the hub, and the gauge is back where it
    was. *)
Theorem subscription_session id ws h m msgs rest :
  h !! id = None -> Forall sendable msgs -> readWSFrame rest = Ret None ->
  let served := fold_left obey msgs (mkSub [] ws ∅ false, inc_active m) in
  serve_subscriber json_parse id ws (concat (message_frame <$> msgs) ++ rest) h m =
    Ret (h, dec_active (snd served), close_sub (fst served)) /\
  wsActiveConnections (dec_active (snd served)) = wsActiveConnections m.
Proof.
  intros Hid Hs Hend served. split.
  2:{ cbn [dec_active wsActiveConnections]. subst served. rewrite obey_active. cbn. lia. }
  unfold serve_subscriber, hub_add.
  destruct (read_messages msgs (mkSub [] ws ∅ false) (inc_active m) rest Hs eq_refl
    (S (length (concat (message_frame <$> msgs) ++ rest))) ltac:(lia)) as (f & Hf & -> & Hd).
  fold served in Hd |- *. destruct served as [sub m']. cbn [fst snd] in *.
  destruct f as [| f]; [lia |]. cbn [read_loop]. rewrite Hd, Hend. cbn [mbind outcome_bind].
  unfold hub_remove. rewrite lookup_insert_eq, !delete_insert_eq, delete_id by done. done.
Qed.

End session.

(** A client that subscribes, pings and leaves, on a parser that knows its
    three messages. *)
Definition sample_commands (bs : list Z) : option json :=
  if bool_decide (bs = [1]%Z) then
    Some (JObj [("action", JStr "Subscribe"); ("pairs", JArr [JStr "usdbtc"; JStr " usd-eth "])])
  else if bool_decide (bs = [2]%Z) then Some (JObj [("action", JStr "ping")])
  else if bool_decide (bs = [3]%Z) then Some (JObj [("action", JStr "unsubscribe"); ("pairs", JArr [JStr "USD-BTC"])])
  else None.

Definition sample_messages : list message :=
  [(129, Some [1; 2; 3; 4], [1]); (137, None, [9]); (129, None, [2]); (129, None, [4]);
   (129, Some [0; 0; 0; 7], [3])]%Z.

Lemma subscription_session_witness :
  exists sub, serve_subscriber sample_commands 7 [] (concat (message_frame <$> sample_messages) ++ [136; 0]%Z) ∅
      (mkWsMetrics 4 0 0) = Ret (∅, mkWsMetrics 4 1 0, sub) /\
    sub_pairs sub = {["USD-ETH"]} /\ written sub = frame pong_text /\ done_ sub = true.
Proof.
  destruct (subscription_session sample_commands 7 [] ∅ (mkWsMetrics 4 0 0) sample_messages [136; 0]%Z) as [Hs _].
  - reflexivity.
  - repeat constructor; try done.
  - reflexivity.
  - eexists. split; [etransitivity; [exact Hs |] |].
    + vm_compute. reflexivity.
    + split_and!; [apply (bool_decide_unpack _); vm_compute; exact I | reflexivity | reflexivity].
Defined.

(** A subscription takes the action the code asks for; the message the README
    shows, which has none, is ignored. *)
Example readme_subscription_is_ignored :
  let sub := mkSub [] [] ∅ false in
  fst (handle_command "" ["USD-BTC"; "USD-ETH"] sub) = sub /\
  sub_pairs (fst (handle_command "Subscribe" [" usdbtc "] sub)) = {["USD-BTC"]}.
Proof. vm_compute. done. Qed.
