(* ===== verification/Handshake.v ===== *)
(** * Handshake: the WebSocket handshake (internal/ws.go, hijackAndUpgrade)

    SHA-1 and base64, the two pieces of the standard library the handshake
    computes with, are executable here, on bytes and 32-bit words; the
    connection it takes over from the HTTP server is a record of what the
    server would give.  The hijack itself and the read-buffer it hands over are
    the environment's. *)

From S2P Require Import Prelude GoStrings Utf8 Ws.

(** ** SHA-1 (crypto/sha1) *)

Definition wrap32 (z : Z) : Z := z mod 2 ^ 32.

Definition rotl (n x : Z) : Z := Z.lor (wrap32 (Z.shiftl x n)) (Z.shiftr x (32 - n)).

(** The message, a one bit, zeros up to 56 bytes modulo 64, the length in
    bits on eight bytes. *)
Definition sha1_pad (msg : list Z) : list Z :=
  let n := Z.of_nat (length msg) in
  msg ++ [128%Z] ++ replicate (Z.to_nat ((55 - n) mod 64)) 0%Z ++ put_be 8 (n * 8).

(** A block of 64 bytes as sixteen words. *)
Fixpoint be_words (bs : list Z) : list Z :=
  match bs with
  | a :: b :: c :: d :: rest => get_be [a; b; c; d] :: be_words rest
  | _ => []
  end.

(** The schedule: [win] is the window of the last sixteen words, oldest
    first. *)
Fixpoint schedule (rounds : nat) (win : list Z) : list Z :=
  match rounds with
  | O => []
  | S n =>
      let w i := nth i win 0%Z in
      w 0%nat :: schedule n (tail win ++ [rotl 1 (Z.lxor (Z.lxor (w 13%nat) (w 8%nat)) (Z.lxor (w 2%nat) (w 0%nat)))])
  end.

Record digest := mkDigest { dh0 : Z; dh1 : Z; dh2 : Z; dh3 : Z; dh4 : Z }.

Definition sha1_init : digest := mkDigest 1732584193 4023233417 2562383102 271733878 3285377520.

Definition sha1_round (t : nat) (w : Z) (h : digest) : digest :=
  let '(mkDigest a b c d e) := h in
  let fk := (if (t <? 20)%nat then (Z.lxor d (Z.land b (Z.lxor c d)), 1518500249)
             else if (t <? 40)%nat then (Z.lxor b (Z.lxor c d), 1859775393)
             else if (t <? 60)%nat then (Z.lor (Z.land b c) (Z.land d (Z.lor b c)), 2400959708)
             else (Z.lxor b (Z.lxor c d), 3395469782))%Z in
  mkDigest (wrap32 (rotl 5 a + fst fk + e + snd fk + w)) a (rotl 30 b) c d.

Fixpoint sha1_rounds (t : nat) (ws : list Z) (h : digest) : digest :=
  match ws with [] => h | w :: ws' => sha1_rounds (S t) ws' (sha1_round t w h) end.

Definition sha1_block (h : digest) (block : list Z) : digest :=
  let r := sha1_rounds 0 (schedule 80 (be_words block)) h in
  mkDigest (wrap32 (dh0 h + dh0 r)) (wrap32 (dh1 h + dh1 r)) (wrap32 (dh2 h + dh2 r))
    (wrap32 (dh3 h + dh3 r)) (wrap32 (dh4 h + dh4 r)).

(** [n] blocks of 64 bytes. *)
Fixpoint sha1_blocks (n : nat) (bs : list Z) (h : digest) : digest :=
  match n with O => h | S n' => sha1_blocks n' (drop 64 bs) (sha1_block h (take 64 bs)) end.

Definition sha1 (msg : list Z) : list Z :=
  let p := sha1_pad msg in
  let h := sha1_blocks (length p / 64) p sha1_init in
  put_be 4 (dh0 h) ++ put_be 4 (dh1 h) ++ put_be 4 (dh2 h) ++ put_be 4 (dh3 h) ++ put_be 4 (dh4 h).

(** ** base64.StdEncoding *)

Definition b64_char (x : Z) : ascii :=
  of_byte (if x <? 26 then 65 + x else if x <? 52 then 71 + x else if x <? 62 then x - 4
           else if x =? 62 then 43 else 47)%Z.

Definition b64_pad : ascii := of_byte 61.

Fixpoint EncodeToString (bs : list Z) : string :=
  match bs with
  | [] => ""
  | [a] => String (b64_char (a / 4)) (String (b64_char (a mod 4 * 16)) (String b64_pad (String b64_pad "")))
  | [a; b] =>
      String (b64_char (a / 4)) (String (b64_char (a mod 4 * 16 + b / 16))
        (String (b64_char (b mod 16 * 4)) (String b64_pad "")))
  | a :: b :: c :: rest =>
      String (b64_char (a / 4)) (String (b64_char (a mod 4 * 16 + b / 16))
        (String (b64_char (b mod 16 * 4 + c / 64)) (String (b64_char (c mod 64)) (EncodeToString rest))))
  end%Z.

(** A reader of the same alphabet. *)
Definition b64_val (c : ascii) : option Z :=
  let b := byte_val c in
  (if (65 <=? b) && (b <=? 90) then Some (b - 65)
   else if (97 <=? b) && (b <=? 122) then Some (b - 71)
   else if (48 <=? b) && (b <=? 57) then Some (b + 4)
   else if b =? 43 then Some 62 else if b =? 47 then Some 63 else None)%Z.

Fixpoint DecodeString (s : string) : option (list Z) :=
  match s with
  | EmptyString => Some []
  | String c0 (String c1 (String c2 (String c3 rest))) =>
      x0 ← b64_val c0; x1 ← b64_val c1;
      if Ascii.eqb c2 b64_pad then
        if Ascii.eqb c3 b64_pad && bool_decide (rest = "") && (x1 mod 16 =? 0)%Z
        then Some [x0 * 4 + x1 / 16]%Z else None
      else
        x2 ← b64_val c2;
        if Ascii.eqb c3 b64_pad then
          if bool_decide (rest = "") && (x2 mod 4 =? 0)%Z
          then Some [x0 * 4 + x1 / 16; x1 mod 16 * 16 + x2 / 4]%Z else None
        else
          x3 ← b64_val c3; l ← DecodeString rest;
          Some (x0 * 4 + x1 / 16 :: x1 mod 16 * 16 + x2 / 4 :: x2 mod 4 * 64 + x3 :: l)%Z
  | _ => None
  end.

(** ** The handshake *)

Definition wsHandshakeGUID : string := "258EAFA5-E914-47DA-95CA-C5AB0DC85B11".

Definition accept_key (key : string) : string := EncodeToString (sha1 (bytes (key +:+ wsHandshakeGUID))).

Definition crlf : string := String (of_byte 13) (String (of_byte 10) "").

Definition switching_protocols (key : string) : string :=
  "HTTP/1.1 101 Switching Protocols" +:+ crlf +:+
  "Upgrade: websocket" +:+ crlf +:+
  "Connection: Upgrade" +:+ crlf +:+
  "Sec-WebSocket-Accept: " +:+ accept_key key +:+ crlf +:+ crlf.

(** What the response writer gives: whether it is an [http.Hijacker], the error
    of [Hijack] if any, whether the write on the connection succeeds, and the
    number of bytes the server had already read from it. *)
Record hijack_env := mkHijack {
  hj_hijacker : bool;
  hj_error : option string;
  hj_write_ok : bool;
  hj_buffered : Z;
}.

(** The taken-over connection: the bytes written to it and whether it is
    closed. *)
Record taken := mkTaken { tk_written : list Z; tk_closed : bool }.

Definition ErrUnexpectedEOF : string := "unexpected EOF".

(** The connection, when it was taken over, and the result. *)
Definition hijackAndUpgrade (e : hijack_env) (write_err key : string) : option taken * result unit string :=
  if negb (hj_hijacker e) then (None, Err ErrUnexpectedEOF)
  else if String.eqb key "" then (None, Err ErrUnexpectedEOF)
  else
    match hj_error e with
    | Some err => (None, Err err)
    | None =>
        if negb (hj_write_ok e) then (Some (mkTaken [] true), Err write_err)
        else
          let w := bytes (switching_protocols key) in
          if (0 <? hj_buffered e)%Z then (Some (mkTaken w true), Err ErrUnexpectedEOF)
          else (Some (mkTaken w false), Ok tt)
    end.

(** The sample handshake of RFC 6455. *)
Example rfc6455_accept : accept_key "dGhlIHNhbXBsZSBub25jZQ==" = "s3pPLMBiTxaQ9kYGzzhZRbK+xOo=".
Proof. vm_compute. reflexivity. Qed.

Example sha1_abc :
  sha1 (bytes "abc") = [169; 153; 62; 54; 71; 6; 129; 106; 186; 62; 37; 113; 120; 80; 194; 108; 156; 208; 216; 157]%Z.
Proof. vm_compute. reflexivity. Qed.

(** A message longer than a block. *)
Example sha1_two_blocks :
  sha1 (bytes "abcdbcdecdefdefgefghfghighijhijkijkljklmklmnlmnomnopnopq")
  = [132; 152; 62; 68; 28; 59; 210; 110; 186; 174; 74; 161; 249; 81; 41; 229; 229; 70; 112; 241]%Z.
Proof. vm_compute. reflexivity. Qed.

(** ** Base64 reads back *)

Lemma b64_val_char x : (0 <= x < 64)%Z -> b64_val (b64_char x) = Some x /\ Ascii.eqb (b64_char x) b64_pad = false.
Proof.
  intros Hx.
  assert (forallb (fun n => let x := Z.of_nat n in
            bool_decide (b64_val (b64_char x) = Some x) && negb (Ascii.eqb (b64_char x) b64_pad)) (seq 0 64) = true) as Hall
    by (vm_compute; reflexivity).
  rewrite forallb_forall in Hall. specialize (Hall (Z.to_nat x)).
  rewrite Z2Nat.id in Hall by lia.
  assert (In (Z.to_nat x) (seq 0 64)) as Hin by (apply in_seq; lia).
  apply Hall, andb_true_iff in Hin as [H1 H2]. split; [by apply bool_decide_eq_true in H1 | by apply negb_true_iff].
Qed.

Lemma b64_val_of x : (0 <= x < 64)%Z -> b64_val (b64_char x) = Some x.
Proof. apply b64_val_char. Qed.

Lemma b64_not_pad x : (0 <= x < 64)%Z -> Ascii.eqb (b64_char x) b64_pad = false.
Proof. apply b64_val_char. Qed.

Lemma is_byte_range b : is_byte b = true -> (0 <= b < 256)%Z.
Proof. unfold is_byte. intros H. zbool. lia. Qed.

Ltac div_lia := Z.to_euclidean_division_equations; lia.

(** Three bytes from four digits. *)
Lemma b64_group a b c : (0 <= a < 256)%Z -> (0 <= b < 256)%Z -> (0 <= c < 256)%Z ->
  (a / 4 * 4 + (a mod 4 * 16 + b / 16) / 16 = a /\
   (a mod 4 * 16 + b / 16) mod 16 * 16 + (b mod 16 * 4 + c / 64) / 4 = b /\
   (b mod 16 * 4 + c / 64) mod 4 * 64 + c mod 64 = c)%Z.
Proof. intros. repeat split; div_lia. Qed.

Lemma b64_digits a b c : (0 <= a < 256)%Z -> (0 <= b < 256)%Z -> (0 <= c < 256)%Z ->
  (0 <= a / 4 < 64 /\ 0 <= a mod 4 * 16 + b / 16 < 64 /\ 0 <= b mod 16 * 4 + c / 64 < 64 /\ 0 <= c mod 64 < 64)%Z.
Proof. intros. div_lia. Qed.

Ltac b64_step := rewrite b64_val_of by lia; cbn [mbind option_bind].

Lemma Encode_Decode n : forall bs, (length bs <= n)%nat -> forallb is_byte bs = true ->
  DecodeString (EncodeToString bs) = Some bs.
Proof.
  induction n as [| n IH]; intros [| a [| b [| c rest]]] Hn; try done; try (cbn in Hn; lia); cbn [forallb];
    intros Hb; repeat (apply andb_true_iff in Hb as [?%is_byte_range Hb]); cbn [EncodeToString DecodeString].
  - destruct (b64_digits a 0 0) as (Z1 & Z2 & _); [lia.. |].
    rewrite Z.div_0_l, Z.add_0_r in Z2 by lia. do 2 b64_step. rewrite !Ascii.eqb_refl. cbn [andb].
    rewrite bool_decide_true by done. cbn [andb]. rewrite (proj2 (Z.eqb_eq _ _)) by div_lia. do 2 f_equal. div_lia.
  - destruct (b64_digits a b 0) as (Z1 & Z2 & Z3 & _); [lia.. |].
    rewrite Z.div_0_l, Z.add_0_r in Z3 by lia. do 2 b64_step. rewrite b64_not_pad by lia. b64_step.
    rewrite Ascii.eqb_refl, bool_decide_true by done. cbn [andb].
    rewrite (proj2 (Z.eqb_eq _ _)) by div_lia. f_equal. f_equal; [div_lia |]. f_equal. div_lia.
  - destruct (b64_digits a b c) as (Z1 & Z2 & Z3 & Z4); [lia.. |].
    destruct (b64_group a b c) as (G1 & G2 & G3); [lia.. |].
    do 2 b64_step. rewrite b64_not_pad by lia. b64_step. rewrite b64_not_pad by lia. b64_step.
    rewrite (IH rest) by (cbn in Hn; first [lia | done]). cbn [mbind option_bind]. by rewrite G1, G2, G3.
Qed.

Lemma base64_roundtrip bs : forallb is_byte bs = true -> DecodeString (EncodeToString bs) = Some bs.
Proof. by apply (Encode_Decode (length bs)). Qed.

(** ** The digest is twenty bytes, its text twenty-eight characters *)

Lemma put_be_bytes n v : forallb is_byte (put_be n v) = true.
Proof.
  revert v. induction n as [| n IH]; intros v; [done |]. cbn [put_be forallb]. rewrite IH, andb_true_r.
  unfold is_byte. pose proof (Z.mod_pos_bound (v / 256 ^ Z.of_nat n) 256). apply andb_true_iff. lia.
Qed.

Lemma put_be_len n v : length (put_be n v) = n.
Proof. revert v. induction n as [| n IH]; intros v; [done |]. cbn. by rewrite IH. Qed.

Lemma sha1_digest msg : length (sha1 msg) = 20%nat /\ forallb is_byte (sha1 msg) = true.
Proof.
  unfold sha1. generalize (sha1_blocks (length (sha1_pad msg) / 64) (sha1_pad msg) sha1_init). intros h. split.
  - by rewrite !length_app, !put_be_len.
  - by rewrite !forallb_app, !put_be_bytes.
Qed.

(** The padded message is made of whole blocks: the loop over them misses
    nothing. *)
Lemma sha1_pad_blocks msg : (length (sha1_pad msg) mod 64 = 0)%nat.
Proof.
  unfold sha1_pad. rewrite !length_app, length_replicate, put_be_len. cbn [length].
  apply Nat2Z.inj. rewrite Nat2Z.inj_mod, !Nat2Z.inj_add. pose proof (Z.mod_pos_bound (55 - Z.of_nat (length msg)) 64).
  rewrite Z2Nat.id by lia. div_lia.
Qed.

Lemma EncodeToString_length n : forall bs, (length bs <= n)%nat ->
  String.length (EncodeToString bs) = ((length bs + 2) / 3 * 4)%nat.
Proof.
  induction n as [| n IH]; intros [| a [| b [| c rest]]] Hn; try done; try (cbn in Hn; lia).
  cbn [EncodeToString String.length length] in *. rewrite IH by lia.
  replace (S (S (S (length rest))) + 2)%nat with (length rest + 2 + 1 * 3)%nat by lia.
  rewrite Nat.div_add by lia. lia.
Qed.

Lemma accept_key_length key : String.length (accept_key key) = 28%nat.
Proof.
  unfold accept_key. destruct (sha1_digest (bytes (key +:+ wsHandshakeGUID))) as [Hl _].
  by rewrite (EncodeToString_length 20), Hl by lia.
Qed.

(** C20: the handshake.  The upgrade succeeds exactly when the writer can be
    hijacked, a key was sent, the hijack and the write succeed and nothing had
    been read ahead; the client has then received the switching-protocols
    response, whose accept value is twenty-eight characters that decode to the
    SHA-1 of the key and the GUID.  After a failure no connection that was
    taken over stays open. *)
Theorem handshake_correct e write_err key tk res :
  hijackAndUpgrade e write_err key = (tk, res) ->
  (res = Ok tt <-> hj_hijacker e = true /\ key <> "" /\ hj_error e = None /\ hj_write_ok e = true /\
     (hj_buffered e <= 0)%Z) /\
  (res = Ok tt ->
     tk = Some (mkTaken (bytes (switching_protocols key)) false) /\
     String.length (accept_key key) = 28%nat /\
     DecodeString (accept_key key) = Some (sha1 (bytes (key +:+ wsHandshakeGUID)))) /\
  (res <> Ok tt -> tk = None \/ exists w, tk = Some (mkTaken w true)).
Proof.
  unfold hijackAndUpgrade. intros Hh.
  assert (DecodeString (accept_key key) = Some (sha1 (bytes (key +:+ wsHandshakeGUID)))) as Hdec.
  { apply base64_roundtrip, sha1_digest. }
  pose proof (accept_key_length key) as Hlen. revert Hh Hlen Hdec.
  generalize (switching_protocols key) (accept_key key) (sha1 (bytes (key +:+ wsHandshakeGUID))).
  intros resp acc dg Hh Hlen Hdec.
  destruct (hj_hijacker e); cbn [negb] in Hh; [| injection Hh as <- <-; naive_solver].
  destruct (String.eqb_spec key "") as [-> | Hk]; [injection Hh as <- <-; naive_solver |].
  destruct (hj_error e) eqn:He; [injection Hh as <- <-; naive_solver |].
  destruct (hj_write_ok e) eqn:Hw; cbn [negb] in Hh; [| injection Hh as <- <-; naive_solver].
  destruct (0 <? hj_buffered e)%Z eqn:Hb; injection Hh as <- <-; zbool.
  - split; [split; [done | lia] |]. split; [done |]. eauto.
  - split; [split; [done |]; done |]. split; [done |]. done.
Qed.

Lemma handshake_succeeds write_err key : key <> "" ->
  hijackAndUpgrade (mkHijack true None true 0) write_err key
  = (Some (mkTaken (bytes (switching_protocols key)) false), Ok tt).
Proof. intros Hk. unfold hijackAndUpgrade. cbn. by destruct (String.eqb_spec key ""). Qed.

Lemma handshake_correct_witness :
  DecodeString "s3pPLMBiTxaQ9kYGzzhZRbK+xOo=" = Some (sha1 (bytes ("dGhlIHNhbXBsZSBub25jZQ==" +:+ wsHandshakeGUID))).
Proof.
  assert ("dGhlIHNhbXBsZSBub25jZQ==" <> "") as Hk by (intros Hk; discriminate Hk).
  destruct (handshake_correct _ _ _ _ _ (handshake_succeeds "" _ Hk)) as (_ & Hok & _).
  destruct (Hok eq_refl) as (_ & _ & Hd). rewrite rfc6455_accept in Hd. exact Hd.
Defined.
