(* ===== verification/Stream.v ===== *)
(** * Stream: from a feed message to the WebSocket subscribers

    The wiring of [NewServer] and [startFeedConsumer]: the spot service calls
    [wsHub.fanout] after every update, and the consumer updates the spot
    service with every message of its subscription.  The parts are those of
    Feed.v, Spot.v and Ws.v; here they are run together, from [Publish] to the
    bytes on the connections, with publications and the consumer's turns in
    any order.  A turn is a receive and the handler at once: what is published
    meanwhile touches only the channels, which the handler does not. *)

From S2P Require Import Prelude GoStrings Decimal RefDecimal Json Lru Spot Feed Ws.

Section stream.
Context {D : Type} {ops : DecimalOps D} {laws : DecimalLaws D}.
Variable json_text : json -> list Z.
Variable fmt_time : time -> string.
Implicit Types (m : FeedMessage D) (s : SpotService D) (f : inProcFeed (M := FeedMessage D)) (h : wsHub) (w : wsMetrics).

Abbreviation feed := (inProcFeed (M := FeedMessage D)).
Abbreviation hooks := (Hooks (D := D) (W := wsHub * wsMetrics)).

(** [SetOnUpdate] and [SetPollHook] replace one hook. *)
Definition SetOnUpdate (fn : string -> Rate D -> wsHub * wsMetrics -> wsHub * wsMetrics) (hk : hooks) : hooks :=
  mkHooks (Some fn) (pollHook hk).
Definition SetPollHook fn (hk : hooks) : hooks := mkHooks (onUpdate hk) (Some fn).

(** The hook of [NewServer]; [ord] is the order in which this call visits the
    hub. *)
Definition server_hooks (ord : list nat) : hooks := SetOnUpdate (fanout json_text fmt_time ord) (mkHooks None None).

(** What one message consumes: the clock, three times, and the hub's order. *)
Record turn := mkTurn { tn_now : time; tn_update : time; tn_lag : time; tn_order : list nat }.

(** One turn of the loop of [Subscribe] with the handler of
    [startFeedConsumer]: nothing happens while the channel is empty. *)
Definition consume (tn : turn) (id : nat) f s (hm : wsHub * wsMetrics)
  : outcome (feed * SpotService D * (wsHub * wsMetrics)) :=
  match receive_msg id f with
  | (f, RMsg m) =>
      '(s, hm, _) ← feed_handler (server_hooks (tn_order tn)) (tn_now tn) (tn_update tn) (tn_lag tn) m s hm;
      mret (f, s, hm)
  | (f, _) => mret (f, s, hm)
  end.

(** What publishers and the consumer do, in the order it happens. *)
Inductive event := EPublish m | EConsume (tn : turn).

Fixpoint run_events (evs : list event) (id : nat) f s (hm : wsHub * wsMetrics)
  : outcome (feed * SpotService D * (wsHub * wsMetrics)) :=
  match evs with
  | [] => mret (f, s, hm)
  | EPublish m :: evs' => f ← Publish m f; run_events evs' id f s hm
  | EConsume tn :: evs' => '(f, s, hm) ← consume tn id f s hm; run_events evs' id f s hm
  end.

(** ** What is to be delivered *)

(** The mid price of a message, computed from bid and ask when it has none. *)
Definition message_mid m : D :=
  if dec_le (m_Mid m) dec_zero && dec_gt (m_Bid m) dec_zero && dec_gt (m_Ask m) dec_zero
  then match dec_div (m_Bid m + m_Ask m)%pq (dec_of_int 2) with Ret x => x | Panic _ => dec_zero end
  else m_Mid m.

(** The exponents of that division do not fit. *)
Definition message_overflows m : bool :=
  dec_le (m_Mid m) dec_zero && dec_gt (m_Bid m) dec_zero && dec_gt (m_Ask m) dec_zero &&
  negb (in_int32 (Z.min (dec_exp (m_Bid m)) (dec_exp (m_Ask m)) + 16)).

Definition message_rate (tn : turn) m : Rate D :=
  mkRate (fst (splitPair (m_Pair m))) (snd (splitPair (m_Pair m))) (m_Bid m) (m_Ask m) (message_mid m)
    (tn_update tn) (m_SourceVenue m) false.

(** A pair with two sides. *)
Definition two_sided m : bool :=
  negb (String.eqb (fst (splitPair (m_Pair m))) "" || String.eqb (snd (splitPair (m_Pair m))) "").

(** The bytes a subscriber of [pairs] is sent. *)
Definition wanted (pairs : gset string) (tm : turn * FeedMessage D) : bool :=
  two_sided (snd tm) && bool_decide (m_Pair (snd tm) ∈ pairs).
Definition frame_of (tm : turn * FeedMessage D) : list Z :=
  frame (rate_frame json_text fmt_time (m_Pair (snd tm)) (message_rate (fst tm) (snd tm))).
Definition stream_of (pairs : gset string) (l : list (turn * FeedMessage D)) : list Z :=
  concat (frame_of <$> List.filter (wanted pairs) l).

(** The last message of a pair. *)
Definition last_rate (pair : string) (l : list (turn * FeedMessage D)) : option (Rate D) :=
  fold_left (fun acc tm => if two_sided (snd tm) && String.eqb (m_Pair (snd tm)) pair
                           then Some (message_rate (fst tm) (snd tm)) else acc) l None.

(** The messages published. *)
Fixpoint published (evs : list event) : list (FeedMessage D) :=
  match evs with
  | [] => []
  | EPublish m :: evs' => m :: published evs'
  | EConsume _ :: evs' => published evs'
  end.

(** The messages taken, each with its turn, and those still waiting, when
    [buf] is waiting: a queue of sixty-four, which a publication that finds it
    full leaves as it is. *)
Fixpoint taken (evs : list event) (buf : list (FeedMessage D)) : list (turn * FeedMessage D) * list (FeedMessage D) :=
  match evs with
  | [] => ([], buf)
  | EPublish m :: evs' => taken evs' (delivered m buf)
  | EConsume tn :: evs' =>
      match buf with
      | [] => taken evs' []
      | m :: buf' => ((tn, m) :: fst (taken evs' buf'), snd (taken evs' buf'))
      end
  end.

(** No publication finds sixty-four messages waiting. *)
Fixpoint has_room (evs : list event) (waiting : nat) : bool :=
  match evs with
  | [] => true
  | EPublish _ :: evs' => bool_decide (waiting < feed_chan_cap)%nat && has_room evs' (S waiting)
  | EConsume _ :: evs' => has_room evs' (pred waiting)
  end.

(** Nothing is invented, reordered or repeated; and when there is room,
    nothing is lost. *)
Lemma taken_sublist evs : forall buf,
  sublist ((snd <$> fst (taken evs buf)) ++ snd (taken evs buf)) (buf ++ published evs).
Proof.
  induction evs as [| [m | tn] evs IH]; intros buf; cbn [taken published fst snd].
  - by rewrite app_nil_r.
  - etransitivity; [apply IH |]. unfold delivered. case_decide; [by rewrite <- app_assoc |].
    apply sublist_app; [reflexivity |]. by constructor.
  - destruct buf as [| m buf]; cbn [fst snd fmap list_fmap]; [apply IH |]. cbn [app]. apply sublist_skip, IH.
Qed.

Lemma taken_all evs : forall buf, has_room evs (length buf) = true ->
  (snd <$> fst (taken evs buf)) ++ snd (taken evs buf) = buf ++ published evs.
Proof.
  induction evs as [| [m | tn] evs IH]; intros buf; cbn [taken published fst snd has_room].
  - by rewrite app_nil_r.
  - intros [Hlt Hr]%andb_true_iff. apply bool_decide_eq_true in Hlt. unfold delivered. rewrite decide_True by done.
    rewrite IH; [by rewrite <- app_assoc |]. rewrite length_app. cbn. by rewrite Nat.add_1_r.
  - destruct buf as [| m buf]; cbn [length pred fst snd fmap list_fmap app]; intros Hr; [by apply IH |].
    f_equal. by apply IH.
Qed.

(** ** One message *)

Lemma mid_returns m : message_overflows m = false -> exists x,
  (if dec_le (m_Mid m) dec_zero && dec_gt (m_Bid m) dec_zero && dec_gt (m_Ask m) dec_zero
   then dec_div (m_Bid m + m_Ask m)%pq (dec_of_int 2) else mret (m_Mid m)) = Ret x /\ message_mid m = x.
Proof.
  unfold message_mid, message_overflows.
  destruct (dec_le (m_Mid m) dec_zero && dec_gt (m_Bid m) dec_zero && dec_gt (m_Ask m) dec_zero); [| by eexists].
  intros Ho. cbn [andb] in Ho.
  destruct (div_ret (m_Bid m + m_Ask m)%pq (dec_of_int 2)) as (x & -> & _); [| | by exists x].
  - rewrite val_of_int. done.
  - unfold div_overflows. by rewrite exp_add, exp_of_int, Z.sub_0_r.
Qed.

Lemma handler_two_sided tn m s hm : message_overflows m = false -> two_sided m = true -> exists lag,
  feed_handler (server_hooks (tn_order tn)) (tn_now tn) (tn_update tn) (tn_lag tn) m s hm =
    Ret (store_rate (message_rate tn m) s,
         fanout json_text fmt_time (tn_order tn) (m_Pair m) (message_rate tn m) hm, Some lag).
Proof.
  unfold two_sided. intros Ho Ht. unfold feed_handler. destruct (mid_returns m Ho) as (x & -> & Hx). cbn [mbind outcome_bind].
  pose proof (splitPair_key (m_Pair m)) as Hkey. unfold message_rate. rewrite Hx.
  destruct (splitPair (m_Pair m)) as [from to]. cbn [fst snd] in *.
  apply negb_true_iff in Ht. rewrite Ht. apply orb_false_iff in Ht as [Hf _].
  eexists. unfold Update. cbn [onUpdate server_hooks SetOnUpdate set_TS r_From r_To].
  rewrite Hkey; [done |]. intros ->. by rewrite String.eqb_refl in Hf.
Qed.

Lemma handler_one_sided tn m s hm : message_overflows m = false -> two_sided m = false ->
  feed_handler (server_hooks (tn_order tn)) (tn_now tn) (tn_update tn) (tn_lag tn) m s hm = Ret (s, hm, None).
Proof.
  unfold two_sided. intros Ho Ht%negb_false_iff. unfold feed_handler. destruct (mid_returns m Ho) as (x & -> & _).
  cbn [mbind outcome_bind]. destruct (splitPair (m_Pair m)) as [from to]. cbn [fst snd] in *. by rewrite Ht.
Qed.

(** A connection whose writes succeed takes the whole frame. *)
Lemma sendFrame_good fr sub w : writes sub = [] -> done_ sub = false ->
  fst (fst (sendFrame fr sub w)) = mkSub (written sub ++ frame fr) [] (sub_pairs sub) false.
Proof.
  destruct sub as [wr ws ps dn]. cbn. intros -> ->. unfold sendFrame, conn_write, write_ok. cbn.
  unfold frame. by rewrite app_assoc.
Qed.

Lemma fanout_good ord pair r hm id sub : NoDup ord -> id ∈ ord -> fst hm !! id = Some sub -> writes sub = [] -> done_ sub = false ->
  fst (fanout json_text fmt_time ord pair r hm) !! id =
    Some (if bool_decide (pair ∈ sub_pairs sub)
          then mkSub (written sub ++ frame (rate_frame json_text fmt_time pair r)) [] (sub_pairs sub) false else sub).
Proof.
  intros Hnd Hin Hsub Hw Hd. pose proof (fanout_correct pair (rate_frame json_text fmt_time pair r) ord hm Hnd id) as Hf.
  unfold fanout. rewrite Hsub in Hf. destruct Hf as (sub' & -> & Hs). rewrite bool_decide_true in Hs by done.
  f_equal. unfold sent_to in Hs. destruct (bool_decide (pair ∈ sub_pairs sub)); [| done].
  destruct Hs as [w ->]. by apply sendFrame_good.
Qed.

(** ** A run *)

(** What a turn on the message [m] does to the rates and to one subscriber. *)
Lemma handler_correct tn m s hm id sub :
  message_overflows m = false -> NoDup (tn_order tn) -> id ∈ tn_order tn ->
  fst hm !! id = Some sub -> writes sub = [] -> done_ sub = false ->
  exists hm' lag,
    feed_handler (server_hooks (tn_order tn)) (tn_now tn) (tn_update tn) (tn_lag tn) m s hm =
      Ret (if two_sided m then store_rate (message_rate tn m) s else s, hm', lag) /\
    fst hm' !! id = Some (mkSub (written sub ++ stream_of (sub_pairs sub) [(tn, m)]) [] (sub_pairs sub) false).
Proof.
  intros Ho Hnd Hin Hsub Hw Hd. unfold stream_of. cbn [List.filter]. unfold wanted. cbn [fst snd].
  assert (Some sub = Some (mkSub (written sub ++ []) [] (sub_pairs sub) false)) as Hsame.
  { rewrite app_nil_r. destruct sub as [wr ws ps dn]. cbn in *. by subst. }
  destruct (two_sided m) eqn:Ht; cbn [andb].
  - destruct (handler_two_sided tn m s hm Ho Ht) as [lag ->]. do 2 eexists. split; [done |].
    rewrite (fanout_good (tn_order tn) (m_Pair m) (message_rate tn m) hm id sub Hnd Hin Hsub Hw Hd).
    case_bool_decide; cbn [fmap list_fmap concat]; [| done].
    unfold frame_of. cbn [fst snd]. by rewrite app_nil_r.
  - rewrite (handler_one_sided tn m s hm Ho Ht). do 2 eexists. split; [done |]. by rewrite Hsub.
Qed.

Lemma stream_of_cons pairs tm l : stream_of pairs (tm :: l) = stream_of pairs [tm] ++ stream_of pairs l.
Proof.
  unfold stream_of. cbn [List.filter]. destruct (wanted pairs tm); [| done].
  cbn [fmap list_fmap concat]. by rewrite app_nil_r.
Qed.

(** The rates after the messages of [l]. *)
Definition stored (l : list (turn * FeedMessage D)) s : SpotService D :=
  fold_left (fun s tm => if two_sided (snd tm) then store_rate (message_rate (fst tm) (snd tm)) s else s) l s.

(** Every turn's visit of the hub reaches the subscriber. *)
Definition visits (id : nat) (ev : event) : Prop :=
  match ev with EPublish _ => True | EConsume tn => NoDup (tn_order tn) /\ id ∈ tn_order tn end.

(** A receive from the consumer's channel. *)
Lemma receive_waiting cid f m buf : feed_inv f -> chans f !! cid = Some (mkChan (m :: buf) false) ->
  exists f', receive_msg cid f = (f', RMsg m) /\ feed_inv f' /\ subs f' = subs f /\
    chans f' !! cid = Some (mkChan buf false).
Proof.
  intros Hi Hch. pose proof (receive_msg_inv cid f Hi) as Hi'. unfold receive_msg in *. rewrite Hch in *.
  eexists. split; [done |]. split; [done |]. split; [done |]. apply lookup_insert_eq.
Qed.

Lemma run_events_correct cid id evs : forall buf f s hm sub,
  feed_inv f -> cid ∈ subs f -> chans f !! cid = Some (mkChan buf false) ->
  Forall (fun m => message_overflows m = false) (buf ++ published evs) -> Forall (visits id) evs ->
  fst hm !! id = Some sub -> writes sub = [] -> done_ sub = false ->
  exists f' hm', run_events evs cid f s hm = Ret (f', stored (fst (taken evs buf)) s, hm') /\
    chans f' !! cid = Some (mkChan (snd (taken evs buf)) false) /\
    fst hm' !! id = Some (mkSub (written sub ++ stream_of (sub_pairs sub) (fst (taken evs buf))) [] (sub_pairs sub) false).
Proof.
  induction evs as [| [m | tn] evs IH]; intros buf f s hm sub Hi Hc Hch Hsane Hv Hsub Hw Hd;
    cbn [run_events taken published fst snd] in *.
  - exists f, hm. split; [done |]. split; [done |]. rewrite Hsub. cbn. rewrite app_nil_r.
    destruct sub as [wr ws ps dn]. cbn in *. by subst.
  - apply list.Forall_cons in Hv as [_ Hv].
    destruct (Publish_correct m f Hi) as (f1 & -> & Hi1 & Hsubs & Hin & _). cbn [mbind outcome_bind].
    apply (IH (delivered m buf) f1 s hm sub Hi1); [by rewrite Hsubs | by apply Hin | | done..].
    unfold delivered. case_decide; [by rewrite <- app_assoc |].
    apply list.Forall_app in Hsane as [Hs1 Hs2]. apply list.Forall_app. split; [done |].
    by apply list.Forall_cons in Hs2 as [_ Hs2].
  - apply list.Forall_cons in Hv as [[Hnd Hin] Hv]. unfold consume. destruct buf as [| m buf].
    { unfold receive_msg. rewrite Hch. cbn [ch_buf ch_closed mbind outcome_bind mret outcome_ret]. by apply IH. }
    apply list.Forall_cons in Hsane as [Hm Hsane].
    destruct (receive_waiting cid f m buf Hi Hch) as (f1 & -> & Hi1 & Hs1 & Hch1).
    destruct (handler_correct tn m s hm id sub Hm Hnd Hin Hsub Hw Hd) as (hm1 & lag & -> & Hsub1).
    cbn [mbind outcome_bind mret outcome_ret fst snd]. rewrite <- Hs1 in Hc.
    destruct (IH buf f1 (if two_sided m then store_rate (message_rate tn m) s else s) hm1 _ Hi1 Hc Hch1 Hsane Hv Hsub1 eq_refl eq_refl)
      as (f' & hm' & Hr & Hch' & Hs').
    exists f', hm'. split; [exact Hr |]. split; [done |]. rewrite Hs'. cbn [written sub_pairs].
    by rewrite (stream_of_cons _ (tn, m) (fst (taken evs buf))), app_assoc.
Qed.

Lemma last_rate_cons_acc pair l : forall acc,
  fold_left (fun acc tm => if two_sided (snd tm) && String.eqb (m_Pair (snd tm)) pair
                           then Some (message_rate (fst tm) (snd tm)) else acc) l acc =
  match last_rate pair l with Some r => Some r | None => acc end.
Proof.
  unfold last_rate. induction l as [| tm l IH]; intros acc; cbn [fold_left]; [done |].
  destruct (two_sided (snd tm) && _); [| apply IH]. rewrite (IH (Some _)). by case_match.
Qed.

(** The rate the service remembers for a pair is its last message's. *)
Lemma remembered pair l : forall s,
  lastGood (stored l s) !! pair =
  match last_rate pair l with Some r => Some r | None => lastGood s !! pair end.
Proof.
  unfold stored. induction l as [| [tn m] l IH]; intros s; cbn [fold_left fst snd]; [done |].
  rewrite IH. unfold last_rate at 2. cbn [fold_left fst snd]. rewrite last_rate_cons_acc.
  destruct (last_rate pair l) as [r |]; [done |]. destruct (two_sided m) eqn:Ht; [| done]. cbn [andb].
  assert (pairKey (fst (splitPair (m_Pair m))) (snd (splitPair (m_Pair m))) = m_Pair m) as Hk.
  { apply splitPair_key. unfold two_sided in Ht. intros He. rewrite He in Ht. done. }
  unfold store_rate. cbn [lastGood set_lastGood message_rate r_From r_To]. rewrite Hk, lookup_insert.
  destruct (String.eqb_spec (m_Pair m) pair) as [He | He]; case_decide; congruence.
Qed.

(** C31: rates are streamed.  Let messages be published to a feed, to which
    the consumer is subscribed, and let the consumer take its turns, in any
    order, with messages whose exponents fit: nothing panics.  The messages
    taken and those still waiting are published ones, in the order of
    publication, none twice; all of them, when no publication found
    sixty-four waiting.  A subscriber of the hub, on whose connection no write
    fails, receives one whole frame for each message taken whose pair has two
    sides and is among the pairs it asked for, in order, and nothing else; and
    the rate the spot service remembers for a pair is that of the last such
    message taken, or the one it had. *)
Theorem rates_are_streamed f cid evs s h w id sub :
  feed_inv f -> cid ∈ subs f -> chans f !! cid = Some (mkChan [] false) ->
  Forall (fun m => message_overflows m = false) (published evs) -> Forall (visits id) evs ->
  h !! id = Some sub -> writes sub = [] -> done_ sub = false ->
  exists f' s' h' w' l waiting,
    run_events evs cid f s (h, w) = Ret (f', s', (h', w')) /\
    (l, waiting) = taken evs [] /\ chans f' !! cid = Some (mkChan waiting false) /\
    sublist ((snd <$> l) ++ waiting) (published evs) /\
    (has_room evs 0 = true -> (snd <$> l) ++ waiting = published evs) /\
    h' !! id = Some (mkSub (written sub ++ stream_of (sub_pairs sub) l) [] (sub_pairs sub) false) /\
    (forall pair, lastGood s' !! pair = match last_rate pair l with Some r => Some r | None => lastGood s !! pair end).
Proof.
  intros Hi Hc Hch Hsane Hv Hsub Hw Hd.
  destruct (run_events_correct cid id evs [] f s (h, w) sub Hi Hc Hch Hsane Hv Hsub Hw Hd)
    as (f' & [h' w'] & Hr & Hch' & Hs').
  exists f', (stored (fst (taken evs [])) s), h', w', (fst (taken evs [])), (snd (taken evs [])).
  split; [done |]. split; [by destruct (taken evs []) |]. split; [done |].
  split; [apply (taken_sublist evs []) |]. split; [apply (taken_all evs []) |]. split; [done |].
  intros pair. apply remembered.
Qed.

End stream.

(** Three messages for a subscriber of one pair: the last has no hyphen. *)
Definition sample_feed : inProcFeed (M := FeedMessage refdec) := mkFeed [0%nat] {[0%nat := mkChan [] false]} false.
Definition sample_rates : list (FeedMessage refdec) :=
  [sample_msg; mkMsg "USD-ETH" (dec_of_int 1) (dec_of_int 3) dec_zero "kraken" 0;
   mkMsg "BTC" (dec_of_int 1) (dec_of_int 3) dec_zero "kraken" 0].
Definition sample_turn (t : time) : turn := mkTurn t t t [5%nat].

(** Two messages are published before the first turn and one after it; the
    consumer has one turn more than there are messages. *)
Definition sample_events : list event :=
  (EPublish <$> take 2 sample_rates) ++ [EConsume (sample_turn 1)] ++ (EPublish <$> drop 2 sample_rates) ++
  (EConsume ∘ sample_turn <$> [2; 3; 4]%Z).
Definition sample_sub : wsSubscriber := mkSub [] [] {["USD-BTC"]} false.

Lemma rates_are_streamed_witness :
  has_room sample_events 0 = true /\
  exists f' s' h' w' (l : list (turn * FeedMessage refdec)) waiting,
    run_events (fun _ => [7; 8]%Z) (fun _ => "") sample_events 0 sample_feed sample_spot
      ({[5%nat := sample_sub]}, mkWsMetrics 1 0 0) = Ret (f', s', (h', w')) /\
    (snd <$> l) ++ waiting = sample_rates /\
    h' !! 5%nat = Some (mkSub [129; 2; 7; 8]%Z [] {["USD-BTC"]} false) /\
    (rstring ∘ r_Mid <$> lastGood s' !! "USD-ETH") = Some "2".
Proof.
  split; [vm_compute; reflexivity |].
  destruct (rates_are_streamed (fun _ => [7; 8]%Z) (fun _ => "") sample_feed 0 sample_events sample_spot
    {[5%nat := sample_sub]} (mkWsMetrics 1 0 0) 5 sample_sub)
    as (f' & s' & h' & w' & l & waiting & Hr & Hl & _ & _ & Hall & Hh & Hg).
  - split; [apply NoDup_singleton |]. intros id ->%list_elem_of_singleton. exists []. apply lookup_insert_eq.
  - apply list_elem_of_singleton. reflexivity.
  - apply lookup_insert_eq.
  - apply (bool_decide_unpack _). vm_compute. exact I.
  - repeat constructor; apply (bool_decide_unpack _); vm_compute; exact I.
  - apply lookup_insert_eq.
  - reflexivity.
  - reflexivity.
  - exists f', s', h', w', l, waiting. split; [exact Hr |]. split; [exact (Hall eq_refl) |].
    assert (taken sample_events [] = (zip (sample_turn <$> [1; 2; 3]%Z) sample_rates, [])) as Ht by reflexivity.
    rewrite Ht in Hl. injection Hl as -> ->. split.
    + rewrite Hh. vm_compute. reflexivity.
    + rewrite Hg. vm_compute. reflexivity.
Defined.
