(* ===== verification/Locks.v ===== *)
(** * Locks: the locked-quote store (internal/store.go, LockBackend, LockStore)

    The interface the claim flow is verified against ([LockBackend] with its
    laws [LockLaws]), and the in-memory implementation [LockStore] with its
    expiry timers.  A [*lockEntry] pointer is an identity; a pending
    [time.AfterFunc] timer and a callback that has fired but still waits for
    the mutex are separate parts of the state, since [Timer.Stop] only stops
    the first kind.  Readings of the clock are arguments. *)

From S2P Require Import Prelude GoStrings.

(** ** The interface *)

Class LockBackend (L : Type) := {
  (* the clock when presence is checked and when the expiry is computed *)
  lb_SetNX : time -> time -> string -> string -> duration -> L -> L * bool;
  lb_Get : time -> string -> L -> L * option string;
  lb_Del : time -> string -> L -> L * bool;
  lb_Claim : time -> string -> L -> L * option string;
  lb_Ready : L -> bool;
}.

(** What a backend promises to the claim flow: [held l k] is the value stored
    under a key, expired or not.  A key appears only through a successful
    [SetNX] of that key; a [Claim] that returns a value returns the one stored
    and leaves the key absent; a [Get] that returns a value returns the one
    stored; nothing else adds or changes a key. *)
Class LockLaws (L : Type) {lb : LockBackend L} := {
  held : L -> string -> option string;
  SetNX_held t1 t2 k v ttl l l' b : lb_SetNX t1 t2 k v ttl l = (l', b) ->
    (forall k', k' <> k -> held l' k' = None \/ held l' k' = held l k') /\
    (held l' k = None \/ held l' k = held l k \/ held l' k = Some v);
  Get_held t k l l' r : lb_Get t k l = (l', r) ->
    (forall k', held l' k' = None \/ held l' k' = held l k') /\
    (forall v, r = Some v -> held l k = Some v);
  Del_held t k l l' b : lb_Del t k l = (l', b) ->
    (forall k', held l' k' = None \/ held l' k' = held l k') /\ (b = true -> held l' k = None);
  Claim_held t k l l' r : lb_Claim t k l = (l', r) ->
    (forall k', held l' k' = None \/ held l' k' = held l k') /\
    (forall v, r = Some v -> held l k = Some v /\ held l' k = None);
}.

(** ** The in-memory store *)

Record lockEntry := mkEntry {
  le_value : string;
  le_expiresAt : time;
  le_id : nat;        (* the identity of the pointer, and of its timer *)
}.

Record LockStore := mkLocks {
  locks : gmap string lockEntry;
  timers : gmap nat (string * time);   (* pending: key and earliest firing time *)
  firing : gmap nat string;            (* fired, waiting for the mutex *)
  next_entry : nat;
}.

Definition NewLockStore : LockStore := mkLocks ∅ ∅ ∅ 0.

Definition LockStore_Ready (l : LockStore) : bool := true.

(** [e.timer.Stop()]. *)
Definition stop_timer (id : nat) (l : LockStore) : LockStore :=
  mkLocks (locks l) (delete id (timers l)) (firing l) (next_entry l).

Definition remove_entry (k : string) (l : LockStore) : LockStore :=
  mkLocks (delete k (locks l)) (timers l) (firing l) (next_entry l).

(** The new entry with its [AfterFunc] timer. *)
Definition add_entry (k v : string) (t_set : time) (ttl : duration) (l : LockStore) : LockStore :=
  let id := next_entry l in
  let expires := time_Add t_set ttl in
  mkLocks (<[k := mkEntry v expires id]> (locks l)) (<[id := (k, expires)]> (timers l))
    (firing l) (S id).

Definition LockStore_SetNX (t_check t_set : time) (k v : string) (ttl : duration) (l : LockStore)
  : LockStore * bool :=
  match locks l !! k with
  | Some e =>
      if time_Before t_check (le_expiresAt e) then (l, false)
      else (add_entry k v t_set ttl (stop_timer (le_id e) l), true)
  | None => (add_entry k v t_set ttl l, true)
  end.

Definition LockStore_Get (now : time) (k : string) (l : LockStore) : LockStore * option string :=
  match locks l !! k with
  | None => (l, None)
  | Some e =>
      if negb (time_Before now (le_expiresAt e))
      then (remove_entry k (stop_timer (le_id e) l), None)
      else (l, Some (le_value e))
  end.

Definition LockStore_Del (k : string) (l : LockStore) : LockStore * bool :=
  match locks l !! k with
  | None => (l, false)
  | Some e => (remove_entry k (stop_timer (le_id e) l), true)
  end.

Definition LockStore_Claim (now : time) (k : string) (l : LockStore) : LockStore * option string :=
  match locks l !! k with
  | None => (l, None)
  | Some e =>
      let l' := remove_entry k (stop_timer (le_id e) l) in
      if negb (time_Before now (le_expiresAt e)) then (l', None) else (l', Some (le_value e))
  end.

(** A pending timer whose time has come starts its callback. *)
Definition timer_fire (now : time) (id : nat) (l : LockStore) : LockStore :=
  match timers l !! id with
  | Some (k, fire_at) =>
      if (fire_at <=? now)%Z
      then mkLocks (locks l) (delete id (timers l)) (<[id := k]> (firing l)) (next_entry l)
      else l
  | None => l
  end.

(** The callback, once it has the mutex:
    [if cur, ok := l.locks[key]; ok && cur == entry { delete(l.locks, key) }]. *)
Definition timer_callback (id : nat) (l : LockStore) : LockStore :=
  match firing l !! id with
  | None => l
  | Some k =>
      let l' := mkLocks (locks l) (timers l) (delete id (firing l)) (next_entry l) in
      match locks l !! k with
      | Some cur => if (le_id cur =? id)%nat then remove_entry k l' else l'
      | None => l'
      end
  end.

(** ** Invariant at an instant *)

Record locks_inv (now : time) (l : LockStore) : Prop := {
  inv_fresh : forall k e, locks l !! k = Some e -> (le_id e < next_entry l)%nat;
  inv_timer_fresh : forall id x, timers l !! id = Some x -> (id < next_entry l)%nat;
  inv_firing_fresh : forall id k, firing l !! id = Some k -> (id < next_entry l)%nat;
  inv_ids : forall k1 k2 e1 e2, locks l !! k1 = Some e1 -> locks l !! k2 = Some e2 ->
    le_id e1 = le_id e2 -> k1 = k2;
  (* a callback in flight only concerns an entry that has expired *)
  inv_firing : forall id k e, firing l !! id = Some k -> locks l !! k = Some e -> le_id e = id ->
    (le_expiresAt e <= now)%Z;
  (* a pending timer fires no earlier than its entry expires *)
  inv_timer : forall id k f e, timers l !! id = Some (k, f) -> locks l !! k = Some e -> le_id e = id ->
    f = le_expiresAt e;
  (* a timer is pending or has fired, not both *)
  inv_disjoint : forall id x, timers l !! id = Some x -> firing l !! id = None;
  (* every entry will be evicted *)
  inv_evict : forall k e, locks l !! k = Some e ->
    timers l !! le_id e = Some (k, le_expiresAt e) \/ firing l !! le_id e = Some k;
}.

(** ** The abstract store: values with expiry instants *)

Abbreviation ttl_map := (gmap string (string * time)).

Definition live (a : ttl_map) (t : time) (k : string) : option string :=
  match a !! k with Some (v, e) => if time_Before t e then Some v else None | None => None end.

Definition LockStore_held (l : LockStore) (k : string) : option string := le_value <$> locks l !! k.

(** What a reader at [t] sees in the concrete store. *)
Definition view (l : LockStore) (t : time) (k : string) : option string :=
  match locks l !! k with
  | Some e => if time_Before t (le_expiresAt e) then Some (le_value e) else None
  | None => None
  end.

Inductive lock_event :=
  | EvSetNX (t_check t_set : time) (k v : string) (ttl : duration)
  | EvGet (t : time) (k : string)
  | EvDel (t : time) (k : string)
  | EvClaim (t : time) (k : string)
  | EvFire (t : time) (id : nat)
  | EvCallback (t : time) (id : nat).

Inductive lock_reply := RBool (b : bool) | RVal (v : option string) | RNone.

Definition event_start (ev : lock_event) : time :=
  match ev with
  | EvSetNX t _ _ _ _ | EvGet t _ | EvDel t _ | EvClaim t _ | EvFire t _ | EvCallback t _ => t
  end.

Definition event_end (ev : lock_event) : time :=
  match ev with EvSetNX _ t _ _ _ => t | ev => event_start ev end.

Definition exec (ev : lock_event) (l : LockStore) : LockStore * lock_reply :=
  match ev with
  | EvSetNX t1 t2 k v ttl => let '(l', b) := LockStore_SetNX t1 t2 k v ttl l in (l', RBool b)
  | EvGet t k => let '(l', r) := LockStore_Get t k l in (l', RVal r)
  | EvDel t k => let '(l', b) := LockStore_Del k l in (l', RBool b)
  | EvClaim t k => let '(l', r) := LockStore_Claim t k l in (l', RVal r)
  | EvFire t id => (timer_fire t id l, RNone)
  | EvCallback t id => (timer_callback id l, RNone)
  end.

(** The contract of the interface, event by event: timers are invisible. *)
Inductive spec_step (a : ttl_map) : lock_event -> lock_reply -> ttl_map -> Prop :=
  | spec_set t1 t2 k v ttl :
      live a t1 k = None ->
      spec_step a (EvSetNX t1 t2 k v ttl) (RBool true) (<[k := (v, t2 + ttl)%Z]> a)
  | spec_set_taken t1 t2 k v ttl v0 :
      live a t1 k = Some v0 -> spec_step a (EvSetNX t1 t2 k v ttl) (RBool false) a
  | spec_get t k : spec_step a (EvGet t k) (RVal (live a t k)) a
  | spec_del t k b :
      (is_Some (live a t k) -> b = true) -> spec_step a (EvDel t k) (RBool b) (delete k a)
  | spec_claim t k : spec_step a (EvClaim t k) (RVal (live a t k)) (delete k a)
  | spec_fire t id : spec_step a (EvFire t id) RNone a
  | spec_callback t id : spec_step a (EvCallback t id) RNone a.

(** From an instant on, the store shows what the abstract store shows. *)
Definition refines (now : time) (l : LockStore) (a : ttl_map) : Prop :=
  forall t k, (now <= t)%Z -> view l t k = live a t k.

(** ** Views of the updated stores *)

Lemma view_add_entry k v ts ttl l t k' :
  view (add_entry k v ts ttl l) t k' =
  if decide (k = k') then (if time_Before t (ts + ttl) then Some v else None) else view l t k'.
Proof. unfold view, add_entry. cbn [locks]. rewrite lookup_insert. by case_decide. Qed.

Lemma view_remove_entry k l t k' :
  view (remove_entry k l) t k' = if decide (k = k') then None else view l t k'.
Proof. unfold view, remove_entry. cbn [locks]. rewrite lookup_delete. by case_decide. Qed.

Lemma live_insert (a : ttl_map) k v e t k' :
  live (<[k := (v, e)]> a) t k' =
  if decide (k = k') then (if time_Before t e then Some v else None) else live a t k'.
Proof. unfold live. rewrite lookup_insert. by case_decide. Qed.

Lemma live_delete (a : ttl_map) k t k' :
  live (delete k a) t k' = if decide (k = k') then None else live a t k'.
Proof. unfold live. rewrite lookup_delete. by case_decide. Qed.

Lemma live_expired (a : ttl_map) k t t' :
  live a t k = None -> (t <= t')%Z -> live a t' k = None.
Proof.
  unfold live. intros Hl Hle. destruct (a !! k) as [[v e] |]; [| done].
  destruct (time_Before t e) eqn:H1; [done |].
  assert (time_Before t' e = false) as ->; [| done]. time_lia.
Qed.

Lemma refines_mono now now' l a : (now <= now')%Z -> refines now l a -> refines now' l a.
Proof. intros Hle Hr t k Ht. apply Hr. lia. Qed.

Lemma locks_inv_mono now now' l : (now <= now')%Z -> locks_inv now l -> locks_inv now' l.
Proof.
  intros Hle [? ? ? ? Hf ? ? ?]. split; try done.
  intros id k e H1 H2 H3. specialize (Hf id k e H1 H2 H3). lia.
Qed.

(** ** The invariant is preserved *)

Lemma NewLockStore_inv now : locks_inv now NewLockStore.
Proof. split; intros *; rewrite ?lookup_empty; done. Qed.

Lemma add_entry_inv now k v ts ttl l :
  locks_inv now l -> locks l !! k = None -> locks_inv now (add_entry k v ts ttl l).
Proof.
  intros [Hf Htf Hff Hids Hfir Htim Hdis Hev] Hk. split; unfold add_entry; cbn [locks timers firing next_entry].
  - intros k' e [[<- <-] | [_ He]]%lookup_insert_Some; simpl; [lia |]. specialize (Hf k' e He). lia.
  - intros id x [[<- <-] | [_ Hx]]%lookup_insert_Some; [lia |]. specialize (Htf id x Hx). lia.
  - intros id k' Hx. specialize (Hff id k' Hx). lia.
  - intros k1 k2 e1 e2 [[<- <-] | [_ H1]]%lookup_insert_Some [[<- <-] | [_ H2]]%lookup_insert_Some;
      simpl; intros Heq; [done | | | by eapply Hids].
    + specialize (Hf _ _ H2). lia.
    + specialize (Hf _ _ H1). lia.
  - intros id k' e Hid [[<- <-] | [_ He]]%lookup_insert_Some Heq; [| by eapply Hfir].
    simpl in Heq. specialize (Hff _ _ Hid). lia.
  - intros id k' f e Hid He Heq.
    apply lookup_insert_Some in Hid as [[<- [= <- <-]] | [Hne Hid]].
    + rewrite lookup_insert_eq in He. by injection He as <-.
    + apply lookup_insert_Some in He as [[<- <-] | [_ He]]; [done | by eapply Htim].
  - intros id x [[<- <-] | [_ Hx]]%lookup_insert_Some; [| by eapply Hdis].
    destruct (firing l !! next_entry l) eqn:Hx; [| done]. specialize (Hff _ _ Hx). lia.
  - intros k' e [[<- <-] | [Hne He]]%lookup_insert_Some; cbn [le_id le_expiresAt].
    + left. by rewrite lookup_insert_eq.
    + specialize (Hf _ _ He). rewrite lookup_insert_ne by lia. by apply Hev.
Qed.

Lemma remove_stop_inv now k e l :
  locks_inv now l -> locks l !! k = Some e -> locks_inv now (remove_entry k (stop_timer (le_id e) l)).
Proof.
  intros [Hf Htf Hff Hids Hfir Htim Hdis Hev] Hk.
  split; unfold remove_entry, stop_timer; cbn [locks timers firing next_entry].
  - intros k' e' [_ He]%lookup_delete_Some. by eapply Hf.
  - intros id x [_ Hx]%lookup_delete_Some. by eapply Htf.
  - done.
  - intros k1 k2 e1 e2 [_ H1]%lookup_delete_Some [_ H2]%lookup_delete_Some. by apply Hids.
  - intros id k' e' Hid [_ He]%lookup_delete_Some. by apply Hfir with (id := id) (k := k').
  - intros id k' f e' [_ Hid]%lookup_delete_Some [_ He]%lookup_delete_Some. by apply Htim with (id := id) (k := k').
  - intros id x [_ Hx]%lookup_delete_Some. by eapply Hdis.
  - intros k' e' [Hne He]%lookup_delete_Some. rewrite lookup_delete_ne; [by apply Hev |].
    intros Heq. apply Hne. by eapply Hids.
Qed.

Lemma timer_fire_inv now id l : locks_inv now l -> locks_inv now (timer_fire now id l).
Proof.
  intros Hinv. unfold timer_fire. destruct (timers l !! id) as [[k f] |] eqn:Hid; [| done].
  destruct (f <=? now)%Z eqn:Hnow; [| done]. zbool.
  destruct Hinv as [Hf Htf Hff Hids Hfir Htim Hdis Hev].
  split; cbn [locks timers firing next_entry]; try done.
  - intros id' x [_ Hx]%lookup_delete_Some. by eapply Htf.
  - intros id' k' [[<- <-] | [_ Hx]]%lookup_insert_Some; [by eapply Htf | by eapply Hff].
  - intros id' k' e [[<- <-] | [_ Hx]]%lookup_insert_Some He Heq; [| by eapply Hfir].
    rewrite <- (Htim _ _ _ _ Hid He Heq). done.
  - intros id' k' f' e [_ Hx]%lookup_delete_Some. by apply Htim with (id := id').
  - intros id' x [Hne Hx]%lookup_delete_Some. rewrite lookup_insert_ne by congruence. by eapply Hdis.
  - intros k' e He. destruct (decide (id = le_id e)) as [-> | Hne].
    + right. rewrite lookup_insert_eq. f_equal.
      destruct (Hev k' e He) as [Ht | Ht]; [congruence |].
      rewrite (Hdis _ _ Hid) in Ht. done.
    + rewrite lookup_delete_ne, lookup_insert_ne by congruence. by apply Hev.
Qed.

(** A callback in flight only removes an entry nobody can see any more. *)
Lemma timer_callback_inv now id l :
  locks_inv now l ->
  locks_inv now (timer_callback id l) /\
  (forall t k, (now <= t)%Z -> view (timer_callback id l) t k = view l t k).
Proof.
  intros Hinv. unfold timer_callback. destruct (firing l !! id) as [k |] eqn:Hid; [| done].
  destruct Hinv as [Hf Htf Hff Hids Hfir Htim Hdis Hev].
  assert (forall k' e, locks l !! k' = Some e -> le_id e = id -> k' = k /\ (le_expiresAt e <= now)%Z) as Hown.
  { intros k' e He <-. assert (k' = k) as ->.
    { destruct (Hev k' e He) as [Ht | Ht]; [| congruence]. rewrite (Hdis _ _ Ht) in Hid. done. }
    split; [done |]. by eapply Hfir. }
  destruct (locks l !! k) as [cur |] eqn:Hk; [destruct (Nat.eqb_spec (le_id cur) id) as [Hcur | Hcur] |].
  - destruct (Hown k cur Hk Hcur) as [_ Hexp]. split.
    + split; cbn [locks timers firing next_entry remove_entry].
      * intros k' e [_ He]%lookup_delete_Some. by eapply Hf.
      * done.
      * intros id' k' [_ Hx]%lookup_delete_Some. by eapply Hff.
      * intros k1 k2 e1 e2 [_ H1]%lookup_delete_Some [_ H2]%lookup_delete_Some. by apply Hids.
      * intros id' k' e [_ Hx]%lookup_delete_Some [_ He]%lookup_delete_Some. by eapply Hfir.
      * intros id' k' f e Hx [_ He]%lookup_delete_Some. by eapply Htim.
      * intros id' x Hx. apply lookup_delete_None. right. by eapply Hdis.
      * intros k' e [Hne He]%lookup_delete_Some. rewrite lookup_delete_ne; [by apply Hev |].
        intros Heq. destruct (Hown k' e He (eq_sym Heq)). congruence.
    + intros t k' Ht. rewrite view_remove_entry. case_decide; [subst k' | done].
      unfold view. rewrite Hk. assert (time_Before t (le_expiresAt cur) = false) as -> by time_lia. done.
  - split; [| done]. split; cbn [locks timers firing next_entry]; try done.
    + intros id' k' [_ Hx]%lookup_delete_Some. by eapply Hff.
    + intros id' k' e [_ Hx]%lookup_delete_Some. by eapply Hfir.
    + intros id' x Hx. apply lookup_delete_None. right. by eapply Hdis.
    + intros k' e He. rewrite lookup_delete_ne; [by apply Hev |].
      intros Heq. destruct (Hown k' e He (eq_sym Heq)) as [-> _]. congruence.
  - split; [| done]. split; cbn [locks timers firing next_entry]; try done.
    + intros id' k' [_ Hx]%lookup_delete_Some. by eapply Hff.
    + intros id' k' e [_ Hx]%lookup_delete_Some. by eapply Hfir.
    + intros id' x Hx. apply lookup_delete_None. right. by eapply Hdis.
    + intros k' e He. rewrite lookup_delete_ne; [by apply Hev |].
      intros Heq. destruct (Hown k' e He (eq_sym Heq)) as [-> _]. congruence.
Qed.

Lemma timer_fire_view now id l t k : view (timer_fire now id l) t k = view l t k.
Proof. unfold timer_fire. by repeat case_match. Qed.

(** ** Simulation of the abstract store, one event at a time *)

Lemma add_over_stopped k v ts ttl id l :
  add_entry k v ts ttl (stop_timer id l) = add_entry k v ts ttl (remove_entry k (stop_timer id l)).
Proof. unfold add_entry, remove_entry. cbn [locks timers firing next_entry]. by rewrite insert_delete_eq. Qed.

Lemma view_Some l t k v :
  view l t k = Some v <->
  exists e, locks l !! k = Some e /\ time_Before t (le_expiresAt e) = true /\ le_value e = v.
Proof.
  unfold view. split.
  - destruct (locks l !! k) as [e |]; [| done].
    destruct (time_Before t (le_expiresAt e)) eqn:Hb; [| done]. intros [= <-]. eauto.
  - intros (e & -> & -> & <-). done.
Qed.

Lemma set_refines now t1 t2 k v ttl l l' a :
  locks_inv now l -> refines now l a -> (now <= t1 <= t2)%Z ->
  locks l !! k = None \/ (exists e, locks l !! k = Some e /\ time_Before t1 (le_expiresAt e) = false) ->
  l' = add_entry k v t2 ttl
         match locks l !! k with Some e => stop_timer (le_id e) l | None => l end ->
  refines t2 l' (<[k := (v, t2 + ttl)%Z]> a) /\ locks_inv t2 l'.
Proof.
  intros Hinv Hr Ht Hfree ->. assert (Hinv2 := locks_inv_mono now t2 l ltac:(lia) Hinv). split.
  - intros t k' Ht'. rewrite view_add_entry, live_insert. case_decide; [done |].
    rewrite <- Hr by lia. by destruct (locks l !! k).
  - destruct (locks l !! k) as [e |] eqn:Hk; [| by apply add_entry_inv].
    rewrite add_over_stopped. apply add_entry_inv; [by apply remove_stop_inv |].
    cbn [locks remove_entry]. apply lookup_delete_eq.
Qed.

Lemma remove_refines now t k e l a :
  locks_inv now l -> refines now l a -> (now <= t)%Z -> locks l !! k = Some e ->
  refines t (remove_entry k (stop_timer (le_id e) l)) (delete k a) /\
  locks_inv t (remove_entry k (stop_timer (le_id e) l)).
Proof.
  intros Hinv Hr Ht Hk. split; [| apply remove_stop_inv; [by eapply locks_inv_mono | done]].
  intros t' k' Ht'. rewrite view_remove_entry, live_delete. case_decide; [done |].
  rewrite <- Hr by lia. done.
Qed.

(** Deleting from the abstract store a key the concrete one does not show. *)
Lemma absent_refines now t k l a :
  refines now l a -> (now <= t)%Z -> view l t k = None -> refines t l (delete k a).
Proof.
  intros Hr Ht Hv t' k' Ht'. rewrite live_delete. case_decide; [subst k' | by apply Hr; lia].
  rewrite Hr by lia. rewrite Hr in Hv by lia. by eapply live_expired.
Qed.

(** One event, from instant [now], is matched by the abstract store. *)
Definition simulated (now : time) (ev : lock_event) (l : LockStore) (a : ttl_map) : Prop :=
  exists a', spec_step a ev (snd (exec ev l)) a' /\
    refines (event_end ev) (fst (exec ev l)) a' /\ locks_inv (event_end ev) (fst (exec ev l)).

Lemma unchanged_simulated now t l a :
  locks_inv now l -> refines now l a -> (now <= t)%Z -> refines t l a /\ locks_inv t l.
Proof. intros Hi Hr Ht. split; [by eapply refines_mono | by eapply locks_inv_mono]. Qed.

Lemma SetNX_simulated now t1 t2 k v ttl l a :
  locks_inv now l -> refines now l a -> (now <= t1 <= t2)%Z ->
  simulated now (EvSetNX t1 t2 k v ttl) l a.
Proof.
  intros Hi Hr Ht. unfold simulated. cbn [exec event_end]. unfold LockStore_SetNX.
  assert (live a t1 k = view l t1 k) as Hlive by (symmetry; apply Hr; lia). unfold view in Hlive.
  destruct (locks l !! k) as [e |] eqn:Hk; [destruct (time_Before t1 (le_expiresAt e)) eqn:Hb |];
    cbn [fst snd].
  - exists a. split; [by eapply spec_set_taken | apply (unchanged_simulated now); [done | done | lia]].
  - eexists. split; [by apply spec_set |]. apply (set_refines now t1 t2 k v ttl l); eauto. by rewrite Hk.
  - eexists. split; [by apply spec_set |]. apply (set_refines now t1 t2 k v ttl l); eauto. by rewrite Hk.
Qed.

Lemma Get_simulated now t k l a :
  locks_inv now l -> refines now l a -> (now <= t)%Z -> simulated now (EvGet t k) l a.
Proof.
  intros Hi Hr Ht. unfold simulated. cbn [exec event_end event_start]. unfold LockStore_Get.
  pose proof (spec_get a t k) as Hstep.
  assert (live a t k = view l t k) as Hlive by (symmetry; apply Hr; lia). unfold view in Hlive.
  exists a. rewrite Hlive in Hstep.
  destruct (locks l !! k) as [e |] eqn:Hk; [destruct (time_Before t (le_expiresAt e)) eqn:Hb |];
    cbn [fst snd negb]; (split; [exact Hstep |]).
  - by apply (unchanged_simulated now).
  - destruct (remove_refines now t k e l a Hi Hr Ht Hk) as [Hr' Hi']. split; [| done].
    intros t' k' Ht'. rewrite Hr' by done. rewrite live_delete. case_decide; [subst k' | done].
    symmetry. by eapply (live_expired a k t).
  - by apply (unchanged_simulated now).
Qed.

Lemma Del_simulated now t k l a :
  locks_inv now l -> refines now l a -> (now <= t)%Z -> simulated now (EvDel t k) l a.
Proof.
  intros Hi Hr Ht. unfold simulated. cbn [exec event_end event_start]. unfold LockStore_Del.
  assert (live a t k = view l t k) as Hlive by (symmetry; apply Hr; lia). unfold view in Hlive.
  exists (delete k a). destruct (locks l !! k) as [e |] eqn:Hk; cbn [fst snd].
  - split; [by apply spec_del | by apply (remove_refines now)].
  - split; [apply spec_del; rewrite Hlive; by intros [? ?] |].
    split; [| by eapply locks_inv_mono]. apply (absent_refines now); [done | done |].
    unfold view. by rewrite Hk.
Qed.

Lemma Claim_simulated now t k l a :
  locks_inv now l -> refines now l a -> (now <= t)%Z -> simulated now (EvClaim t k) l a.
Proof.
  intros Hi Hr Ht. unfold simulated. cbn [exec event_end event_start]. unfold LockStore_Claim.
  pose proof (spec_claim a t k) as Hstep.
  assert (live a t k = view l t k) as Hlive by (symmetry; apply Hr; lia). unfold view in Hlive.
  exists (delete k a). rewrite Hlive in Hstep. destruct (locks l !! k) as [e |] eqn:Hk.
  - destruct (time_Before t (le_expiresAt e)); cbn [fst snd negb];
      (split; [exact Hstep | by apply (remove_refines now)]).
  - cbn [fst snd]. split; [exact Hstep |]. split; [| by eapply locks_inv_mono].
    apply (absent_refines now); [done | done |]. unfold view. by rewrite Hk.
Qed.

Lemma timer_simulated now t id l a :
  locks_inv now l -> refines now l a -> (now <= t)%Z ->
  simulated now (EvFire t id) l a /\ simulated now (EvCallback t id) l a.
Proof.
  intros Hi Hr Ht. destruct (unchanged_simulated now t l a Hi Hr Ht) as [Hr' Hi'].
  split; exists a; cbn [exec fst snd event_end event_start]; (split; [constructor |]).
  - split; [| by apply timer_fire_inv]. intros t' k' Ht'. rewrite timer_fire_view. by apply Hr'.
  - destruct (timer_callback_inv t id l Hi') as [Hi2 Hv]. split; [| done].
    intros t' k' Ht'. rewrite Hv by done. by apply Hr'.
Qed.

Lemma exec_simulated now ev l a :
  locks_inv now l -> refines now l a -> (now <= event_start ev <= event_end ev)%Z ->
  simulated now ev l a.
Proof.
  intros Hi Hr Ht. destruct ev; cbn [event_start event_end] in Ht.
  - by apply SetNX_simulated.
  - apply Get_simulated; [done | done | lia].
  - apply Del_simulated; [done | done | lia].
  - apply Claim_simulated; [done | done | lia].
  - apply timer_simulated; [done | done | lia].
  - apply timer_simulated; [done | done | lia].
Qed.

(** ** Executions *)

Fixpoint run_events (evs : list lock_event) (l : LockStore) : LockStore * list lock_reply :=
  match evs with
  | [] => (l, [])
  | ev :: evs' =>
      let '(l1, r) := exec ev l in let '(l2, rs) := run_events evs' l1 in (l2, r :: rs)
  end.

(** The clock never goes back. *)
Fixpoint well_timed (now : time) (evs : list lock_event) : Prop :=
  match evs with
  | [] => True
  | ev :: evs' => (now <= event_start ev <= event_end ev)%Z /\ well_timed (event_end ev) evs'
  end.

Definition end_time (now : time) (evs : list lock_event) : time :=
  fold_left (fun _ ev => event_end ev) evs now.

Inductive spec_run (a : ttl_map) : list lock_event -> list lock_reply -> ttl_map -> Prop :=
  | spec_run_nil : spec_run a [] [] a
  | spec_run_cons ev evs r rs a1 a2 :
      spec_step a ev r a1 -> spec_run a1 evs rs a2 -> spec_run a (ev :: evs) (r :: rs) a2.

Lemma run_simulated now evs l a :
  locks_inv now l -> refines now l a -> well_timed now evs ->
  exists a', spec_run a evs (snd (run_events evs l)) a' /\
    refines (end_time now evs) (fst (run_events evs l)) a' /\
    locks_inv (end_time now evs) (fst (run_events evs l)).
Proof.
  revert now l a. induction evs as [| ev evs IH]; intros now l a Hi Hr Ht; simpl.
  { exists a. split; [constructor | done]. }
  destruct Ht as [Ht Hts]. destruct (exec_simulated now ev l a Hi Hr Ht) as (a1 & Hs & Hr1 & Hi1).
  destruct (exec ev l) as [l1 r]. cbn [fst snd] in *.
  destruct (IH (event_end ev) l1 a1 Hi1 Hr1 Hts) as (a2 & Hs2 & Hr2 & Hi2).
  destruct (run_events evs l1) as [l2 rs]. cbn [fst snd] in *. exists a2.
  split; [by eapply spec_run_cons | done].
Qed.

(** C13: the in-memory store implements the contract of the interface.  For
    any sequence of calls, timer firings and late callbacks under a clock that
    never goes back, the replies are those of a map with expiry instants in
    which timers do not exist, and afterwards both show the same values. *)
Theorem LockStore_refines_ttl_map t0 evs :
  well_timed t0 evs ->
  exists a, spec_run ∅ evs (snd (run_events evs NewLockStore)) a /\
    refines (end_time t0 evs) (fst (run_events evs NewLockStore)) a.
Proof.
  intros Ht. destruct (run_simulated t0 evs NewLockStore ∅) as (a & Hs & Hr & _).
  - apply NewLockStore_inv.
  - intros t k _. reflexivity.
  - done.
  - eauto.
Qed.

(** C37: eviction is guaranteed.  In any reachable store, once every timer
    that is due has fired and no callback is in flight, no expired entry is
    left. *)
Theorem LockStore_evicts t0 evs now :
  well_timed t0 evs -> (end_time t0 evs <= now)%Z ->
  let l := fst (run_events evs NewLockStore) in
  firing l = ∅ -> (forall id k f, timers l !! id = Some (k, f) -> (now < f)%Z) ->
  forall k e, locks l !! k = Some e -> (now < le_expiresAt e)%Z.
Proof.
  intros Ht Hnow l Hfir Htim k e Hk.
  destruct (run_simulated t0 evs NewLockStore ∅) as (a & _ & _ & Hi).
  - apply NewLockStore_inv.
  - intros t k' _. reflexivity.
  - done.
  - fold l in Hi. destruct (inv_evict _ _ Hi k e Hk) as [Hx | Hx]; [by eapply Htim |].
    by rewrite Hfir, lookup_empty in Hx.
Qed.

Lemma LockStore_evicts_witness :
  let evs := [EvSetNX 0 0 "lock:quote:a" "1" 100; EvSetNX 1 1 "lock:quote:b" "2" 10; EvFire 20 1;
              EvCallback 20 1] in
  let l := fst (run_events evs NewLockStore) in
  locks l !! "lock:quote:b" = None /\
  forall k e, locks l !! k = Some e -> (30 < le_expiresAt e)%Z.
Proof.
  intros evs l. split; [vm_compute; reflexivity |].
  apply (LockStore_evicts 0 evs 30); [cbn; lia | cbn; lia | vm_compute; reflexivity |].
  intros id k f. fold l.
  assert (timers l = {[0%nat := ("lock:quote:a", 100%Z)]}) as -> by (vm_compute; reflexivity).
  intros [<- [= <- <-]]%lookup_singleton_Some. lia.
Defined.

(** Set, claim, and a timer that fires late, on the way to an empty store. *)
Definition sample_events : list lock_event :=
  [EvSetNX 0 0 "lock:quote:a" "1" 100; EvSetNX 1 1 "lock:quote:b" "2" 10; EvGet 5 "lock:quote:a";
   EvClaim 6 "lock:quote:a"; EvClaim 7 "lock:quote:a"; EvFire 20 1; EvSetNX 21 21 "lock:quote:b" "3" 10;
   EvCallback 22 1; EvGet 23 "lock:quote:b"].

Lemma LockStore_refines_ttl_map_witness :
  well_timed 0 sample_events /\
  snd (run_events sample_events NewLockStore) =
    [RBool true; RBool true; RVal (Some "1"); RVal (Some "1"); RVal None; RNone; RBool true; RNone;
     RVal (Some "3")] /\
  exists a, spec_run ∅ sample_events (snd (run_events sample_events NewLockStore)) a /\
    refines (end_time 0 sample_events) (fst (run_events sample_events NewLockStore)) a.
Proof.
  split; [cbn; lia |]. split; [vm_compute; reflexivity |].
  apply (LockStore_refines_ttl_map 0 sample_events). cbn; lia.
Defined.

(** ** The interface, implemented *)

#[export] Instance LockStore_backend : LockBackend LockStore := {
  lb_SetNX := LockStore_SetNX;
  lb_Get := LockStore_Get;
  lb_Del := fun _ => LockStore_Del;
  lb_Claim := LockStore_Claim;
  lb_Ready := LockStore_Ready;
}.

Lemma held_remove k e l k' :
  LockStore_held (remove_entry k (stop_timer (le_id e) l)) k' =
  if decide (k = k') then None else LockStore_held l k'.
Proof. unfold LockStore_held. cbn [locks remove_entry stop_timer]. rewrite lookup_delete. by case_decide. Qed.

Lemma held_add k v ts ttl l k' :
  LockStore_held (add_entry k v ts ttl l) k' = if decide (k = k') then Some v else LockStore_held l k'.
Proof. unfold LockStore_held, add_entry. cbn [locks]. rewrite lookup_insert. by case_decide. Qed.

Ltac held_cases := repeat first [rewrite held_remove | rewrite held_add]; repeat case_decide; subst; auto.

#[export] Program Instance LockStore_laws : LockLaws LockStore := {
  held := LockStore_held;
}.
Next Obligation.
  intros t1 t2 k v ttl l l' b. cbn [lb_SetNX LockStore_backend]. unfold LockStore_SetNX.
  destruct (locks l !! k) as [e |] eqn:Hk; [destruct (time_Before t1 (le_expiresAt e)) |];
    intros [= <- <-]; (split; [intros k' Hne |]); held_cases; done.
Qed.
Next Obligation.
  intros t k l l' r. cbn [lb_Get LockStore_backend]. unfold LockStore_Get.
  destruct (locks l !! k) as [e |] eqn:Hk; [destruct (time_Before t (le_expiresAt e)) |];
    intros [= <- <-]; (split; [intros k' | intros v Hv]); held_cases; try done.
  unfold LockStore_held. by rewrite Hk.
Qed.
Next Obligation.
  intros t k l l' b. cbn [lb_Del LockStore_backend]. unfold LockStore_Del.
  destruct (locks l !! k) as [e |] eqn:Hk;
    intros [= <- <-]; (split; [intros k' | intros Hb]); held_cases; done.
Qed.
Next Obligation.
  intros t k l l' r. cbn [lb_Claim LockStore_backend]. unfold LockStore_Claim.
  destruct (locks l !! k) as [e |] eqn:Hk; [destruct (time_Before t (le_expiresAt e)) |];
    intros [= <- <-]; (split; [intros k' | intros v Hv; try split]); held_cases; try done.
  unfold LockStore_held. rewrite Hk. by rewrite <- Hv.
Qed.
