(* ===== verification/RedisLock.v ===== *)
(** * RedisLock: the Redis lock backend (internal/redis_lock.go, claimLuaScript)

    The Redis server and its client library are parameters: [RedisServer] has
    the commands the code sends, [RedisLaws] their documented behaviour.  A
    command can fail on the way in or on the way out; the outcomes of the next
    commands are part of the state ([net], empty when the network is healthy),
    since the code turns every client error into "not set" or "not there". *)

From S2P Require Import Prelude GoStrings Config Locks.

(** ** Redis *)

(** Commands at the server's clock.  [redis_PTTL] is in milliseconds, -2 for a
    missing key and -1 for a key without expiry.  [redis_SETNX] is
    [SET key value PX ttl NX] as the client sends it; [None] is an error reply
    (an expiry that is not positive). *)
Class RedisServer (R : Type) := {
  redis_GET : time -> string -> R -> option string;
  redis_PTTL : time -> string -> R -> Z;
  redis_DEL : time -> string -> R -> R * Z;
  redis_SETNX : time -> string -> string -> duration -> R -> R * option bool;
}.

Class RedisLaws (R : Type) {rs : RedisServer R} := {
  (* the value under a key and its expiry, [None] when it has none *)
  entry : R -> string -> option (string * option time);
  alive t r k := match entry r k with
                 | Some (v, Some e) => if (t <? e)%Z then Some v else None
                 | Some (v, None) => Some v
                 | None => None
                 end;
  GET_law t k r : redis_GET t k r = alive t r k;
  PTTL_missing t k r : alive t r k = None -> redis_PTTL t k r = (-2)%Z;
  PTTL_persistent t k r v : entry r k = Some (v, None) -> redis_PTTL t k r = (-1)%Z;
  PTTL_live t k r v e : entry r k = Some (v, Some e) -> (t < e)%Z -> (0 <= redis_PTTL t k r)%Z;
  DEL_law t k r r' n : redis_DEL t k r = (r', n) ->
    entry r' k = None /\ (forall k', k' <> k -> entry r' k' = entry r k') /\
    n = (if bool_decide (is_Some (alive t r k)) then 1 else 0)%Z;
  SETNX_law t k v ttl r r' b : redis_SETNX t k v ttl r = (r', b) ->
    (forall k', k' <> k -> entry r' k' = entry r k') /\
    match b with
    | Some true => alive t r k = None /\ exists e, entry r' k = Some (v, e)
    | _ => entry r' k = entry r k
    end;
}.

(** What becomes of one command: answered, lost before the server ran it, or
    run but its reply lost. *)
Inductive fault := NetOk | NetLost | ReplyLost.

Record redisLockBackend (R : Type) := mkRedis { server : R; net : list fault; pings : list bool }.
Arguments mkRedis {R} server net pings.
Arguments server {R} r.
Arguments net {R} r.
Arguments pings {R} r.

(** The values go-redis gives for a script's reply; a nil reply is the error
    [redis.Nil]. *)
Inductive script_reply := RString (s : string) | RBytes (s : string) | RNil | ROther.

Section Redis.
Context {R : Type} `{RedisServer R}.

Definition head_fault (l : list fault) : fault := match l with [] => NetOk | f :: _ => f end.

(** One command through the client: [Err tt] is any client error. *)
Definition send {A} (cmd : R -> R * A) (r : redisLockBackend R) : redisLockBackend R * result A unit :=
  let rest := tail (net r) in
  match head_fault (net r) with
  | NetOk => let '(s, a) := cmd (server r) in (mkRedis s rest (pings r), Ok a)
  | NetLost => (mkRedis (server r) rest (pings r), Err tt)
  | ReplyLost => (mkRedis (fst (cmd (server r))) rest (pings r), Err tt)
  end.

(** The claim script, run atomically by the server at one instant. *)
Definition claimLuaScript (t : time) (k : string) (r : R) : R * script_reply :=
  match redis_GET t k r with
  | None => (r, RNil)                                   (* if v == false then return nil end *)
  | Some v =>
      let ttl := redis_PTTL t k r in
      if (ttl <? 0)%Z then (r, RNil)                    (* if ... ttl < 0 then return nil end *)
      else (fst (redis_DEL t k r), RString v)
  end.

Definition redis_SetNX (t : time) (k v : string) (ttl : duration) (r : redisLockBackend R)
  : redisLockBackend R * bool :=
  let '(r', res) := send (redis_SETNX t k v ttl) r in
  (r', match res with Ok (Some ok) => ok | _ => false end).

Definition redis_Get (t : time) (k : string) (r : redisLockBackend R)
  : redisLockBackend R * option string :=
  let '(r', res) := send (fun s => (s, redis_GET t k s)) r in
  (r', match res with Ok (Some v) => Some v | _ => None end).

Definition redis_Del (t : time) (k : string) (r : redisLockBackend R) : redisLockBackend R * bool :=
  let '(r', res) := send (redis_DEL t k) r in
  (r', match res with Ok n => (0 <? n)%Z | Err _ => false end).

Definition redis_Claim (t : time) (k : string) (r : redisLockBackend R)
  : redisLockBackend R * option string :=
  let '(r', res) := send (claimLuaScript t k) r in
  (r', match res with
       | Ok (RString v) | Ok (RBytes v) => Some v
       | Ok RNil | Ok ROther | Err _ => None
       end).

(** [Ready] pings the server. *)
Definition redis_Ready (r : redisLockBackend R) : bool :=
  match pings r with [] => true | b :: _ => b end.

#[export] Instance redis_backend : LockBackend (redisLockBackend R) := {
  lb_SetNX := fun _ t k v ttl r => redis_SetNX t k v ttl r;
  lb_Get := redis_Get;
  lb_Del := redis_Del;
  lb_Claim := redis_Claim;
  lb_Ready := redis_Ready;
}.

(** ** The backend keeps the interface's promises, whatever the network does *)

Context `{!RedisLaws R}.

Definition redis_held (r : redisLockBackend R) (k : string) : option string := fst <$> entry (server r) k.

(** A relation between server states that every command respects lifts to
    the client, answered or not. *)
Lemma send_lift {A} (P : R -> R -> Prop) (Q : R -> R -> A -> Prop) (cmd : R -> R * A) r r' res :
  (forall s, P s s) ->
  (forall s, P s (fst (cmd s))) ->
  (forall s, Q s (fst (cmd s)) (snd (cmd s))) ->
  send cmd r = (r', res) ->
  P (server r) (server r') /\ (forall a, res = Ok a -> Q (server r) (server r') a).
Proof.
  intros Hrefl Hcmd HQ. unfold send. specialize (Hcmd (server r)). specialize (HQ (server r)).
  destruct (head_fault (net r)), (cmd (server r)) as [s a]; cbn [fst snd] in *;
    intros [= <- <-]; (split; [done | intros a' [= <-]; done]).
Qed.

(** No key appears: every key is kept or gone. *)
Definition shrinks (s s' : R) : Prop :=
  forall k, fst <$> entry s' k = None \/ fst <$> entry s' k = fst <$> entry s k.

Lemma shrinks_refl s : shrinks s s.
Proof. intros k. by right. Qed.

Lemma DEL_shrinks t k s : shrinks s (fst (redis_DEL t k s)).
Proof.
  destruct (redis_DEL t k s) as [s' n] eqn:Hd. destruct (DEL_law _ _ _ _ _ Hd) as (H1 & H2 & _).
  intros k'. cbn [fst]. destruct (decide (k' = k)) as [-> | Hne]; [left; by rewrite H1 | right].
  by rewrite H2.
Qed.

Lemma script_shrinks t k s : shrinks s (fst (claimLuaScript t k s)).
Proof.
  unfold claimLuaScript. case_match; [| apply shrinks_refl].
  case_match; [apply shrinks_refl | apply DEL_shrinks].
Qed.

(** What the script returns, by the state it finds: the value of a key that
    is live and has an expiry, with the key gone afterwards; nothing, and no
    change, otherwise. *)
Lemma claimLuaScript_correct t k s :
  match entry s k with
  | Some (v, Some e) =>
      if (t <? e)%Z then snd (claimLuaScript t k s) = RString v /\ entry (fst (claimLuaScript t k s)) k = None
      else claimLuaScript t k s = (s, RNil)
  | _ => claimLuaScript t k s = (s, RNil)
  end.
Proof.
  unfold claimLuaScript. rewrite GET_law. unfold alive. destruct (entry s k) as [[v [e |]] |] eqn:He.
  - destruct (t <? e)%Z eqn:Ht; [| done]. zbool.
    pose proof (PTTL_live _ _ _ _ _ He Ht). destruct (redis_PTTL t k s <? 0)%Z eqn:Hp; [zbool; lia |].
    destruct (redis_DEL t k s) as [s' n] eqn:Hd. destruct (DEL_law _ _ _ _ _ Hd) as (H1 & _). done.
  - by rewrite (PTTL_persistent _ _ _ _ He).
  - done.
Qed.

Lemma script_reply_held t k s v :
  snd (claimLuaScript t k s) = RString v ->
  fst <$> entry s k = Some v /\ fst <$> entry (fst (claimLuaScript t k s)) k = None.
Proof.
  pose proof (claimLuaScript_correct t k s) as Hc. intros Hr.
  destruct (entry s k) as [[v' [e |]] |] eqn:He; [| by rewrite Hc in Hr | by rewrite Hc in Hr].
  destruct (t <? e)%Z; [| by rewrite Hc in Hr]. destruct Hc as [Hs He']. rewrite Hs in Hr.
  injection Hr as <-. by rewrite He'.
Qed.

Lemma script_reply_string t k s :
  (exists v, snd (claimLuaScript t k s) = RString v) \/ snd (claimLuaScript t k s) = RNil.
Proof. unfold claimLuaScript. repeat case_match; eauto. Qed.

#[export] Program Instance redis_laws : LockLaws (redisLockBackend R) := {
  held := redis_held;
}.
Next Obligation.
  intros t1 t k v ttl r r' b. cbn [lb_SetNX redis_backend]. unfold redis_SetNX.
  destruct (send _ r) as [r1 res] eqn:Hs. intros [= <- _].
  apply (send_lift (fun s s' => (forall k', k' <> k -> entry s' k' = entry s k') /\
            (entry s' k = entry s k \/ fst <$> entry s' k = Some v)) (fun _ _ _ => True)) in Hs as [[H1 H2] _];
    [| by auto | | done].
  - unfold redis_held. split; [intros k' Hk; right; by rewrite H1 |].
    destruct H2 as [-> | ->]; auto.
  - intros s. destruct (redis_SETNX t k v ttl s) as [s' b'] eqn:Hc. cbn [fst].
    destruct (SETNX_law _ _ _ _ _ _ _ Hc) as [H1 H2]. split; [done |].
    destruct b' as [[|] |]; [| by left | by left]. destruct H2 as [_ [e ->]]. by right.
Qed.
Next Obligation.
  intros t k r r' x. cbn [lb_Get redis_backend]. unfold redis_Get.
  destruct (send _ r) as [r1 res] eqn:Hs. intros [= <- <-].
  apply (send_lift eq (fun s s' a => a = redis_GET t k s)) in Hs as [Heq HQ]; [| done | done | done].
  unfold redis_held. rewrite <- Heq. split; [by right |].
  intros v. destruct res as [[a |] |]; intros [= <-]. specialize (HQ _ eq_refl).
  rewrite GET_law in HQ. unfold alive in HQ. by repeat case_match; simplify_eq/=.
Qed.
Next Obligation.
  intros t k r r' b. cbn [lb_Del redis_backend]. unfold redis_Del.
  destruct (send _ r) as [r1 res] eqn:Hs. intros [= <- <-].
  apply (send_lift shrinks (fun s s' (n : Z) => entry s' k = None)) in Hs as [Hsh HQ];
    [| apply shrinks_refl | apply DEL_shrinks |].
  - split; [exact Hsh |]. destruct res as [n |]; [| done]. intros _.
    unfold redis_held. by rewrite (HQ n eq_refl).
  - intros s. destruct (redis_DEL t k s) as [s' n] eqn:Hd. by destruct (DEL_law _ _ _ _ _ Hd).
Qed.
Next Obligation.
  intros t k r r' x. cbn [lb_Claim redis_backend]. unfold redis_Claim.
  destruct (send _ r) as [r1 res] eqn:Hs. intros [= <- <-].
  apply (send_lift shrinks (fun s s' a => (a = RNil \/ exists v, a = RString v) /\
     forall v, a = RString v -> fst <$> entry s k = Some v /\ fst <$> entry s' k = None)) in Hs as [Hsh HQ];
    [| apply shrinks_refl | apply script_shrinks |].
  - split; [exact Hsh |]. intros v. destruct res as [a |]; [| done].
    destruct (HQ a eq_refl) as [[-> | [v' ->]] Hv]; [done |]. intros [= ->]. by apply Hv.
  - intros s. split; [| intros v; by apply script_reply_held].
    destruct (script_reply_string t k s); auto.
Qed.

(** The script touches no other key. *)
Lemma script_frame t k s k' : k' <> k -> entry (fst (claimLuaScript t k s)) k' = entry s k'.
Proof.
  intros Hk. unfold claimLuaScript. case_match; [| done]. case_match; [done |].
  destruct (redis_DEL t k s) as [s' n] eqn:Hd. destruct (DEL_law _ _ _ _ _ Hd) as (_ & H2 & _). by apply H2.
Qed.

(** C7: claiming a lock on Redis.  A key that is live and has an expiry is
    claimed: when the reply arrives the caller gets its value and the key is
    gone; when the command is lost the caller gets nothing and the key stays;
    when only the reply is lost the key is gone although the caller is told
    it was not there, so that no later claim can have it either.  A key that is
    missing, expired or without an expiry cannot be claimed, whatever the
    network does, and stays as it is.  No other key is touched. *)
Theorem redis_Claim_correct t k r :
  let '(r', res) := redis_Claim t k r in
  (forall k', k' <> k -> entry (server r') k' = entry (server r) k') /\
  match entry (server r) k with
  | Some (v, Some e) =>
      if (t <? e)%Z then
        match head_fault (net r) with
        | NetOk => res = Some v /\ redis_held r' k = None
        | NetLost => res = None /\ server r' = server r
        | ReplyLost => res = None /\ redis_held r' k = None
        end
      else res = None /\ server r' = server r
  | _ => res = None /\ server r' = server r
  end.
Proof.
  pose proof (claimLuaScript_correct t k (server r)) as Hc.
  assert (forall k', k' <> k -> entry (fst (claimLuaScript t k (server r))) k' = entry (server r) k') as Hf
    by (intros k'; apply script_frame).
  unfold redis_Claim, send, redis_held.
  destruct (claimLuaScript t k (server r)) as [s a].
  destruct (entry (server r) k) as [[v [e |]] |]; [destruct (t <? e)%Z; [destruct Hc as [Ha Hg] |] | |];
    destruct (head_fault (net r)); cbn [fst snd server] in *; simplify_eq; rewrite ?Hg; done.
Qed.

End Redis.

(** ** A server that satisfies the documented behaviour *)

Abbreviation toy_redis := (gmap string (string * option time)).

Definition toy_alive (t : time) (k : string) (r : toy_redis) : option string :=
  match r !! k with
  | Some (v, Some e) => if (t <? e)%Z then Some v else None
  | Some (v, None) => Some v
  | None => None
  end.

#[export] Instance toy_server : RedisServer toy_redis := {
  redis_GET := toy_alive;
  redis_PTTL := fun t k r =>
    match r !! k with
    | Some (_, None) => -1
    | Some (_, Some e) => if (t <? e)%Z then (e - t) / Millisecond else -2
    | None => -2
    end%Z;
  redis_DEL := fun t k r => (delete k r, if bool_decide (is_Some (toy_alive t k r)) then 1 else 0)%Z;
  redis_SETNX := fun t k v ttl r =>
    if (ttl <=? 0)%Z then (r, None)
    else match toy_alive t k r with
         | Some _ => (r, Some false)
         | None => (<[k := (v, Some (t + ttl)%Z)]> r, Some true)
         end;
}.

#[export] Program Instance toy_laws : RedisLaws toy_redis := { entry := fun r k => r !! k }.
Next Obligation. done. Qed.
Next Obligation.
  intros t k r. simpl. destruct (r !! k) as [[v [e |]] |]; [| done | done]. by destruct (t <? e)%Z.
Qed.
Next Obligation. intros t k r v Hk. simpl. by rewrite Hk. Qed.
Next Obligation.
  intros t k r v e Hk Ht. simpl. rewrite Hk. apply Z.ltb_lt in Ht as Hb. rewrite Hb.
  apply Z.div_pos; [lia | done].
Qed.
Next Obligation.
  intros t k r r' n [= <- <-]. rewrite lookup_delete_eq. split; [done |]. split; [| done].
  intros k' Hk. by rewrite lookup_delete_ne.
Qed.
Next Obligation.
  intros t k v ttl r r' b. simpl. destruct (ttl <=? 0)%Z; [by intros [= <- <-] |].
  destruct (toy_alive t k r) eqn:Ha; intros [= <- <-]; [done |].
  split; [intros k' Hk; by rewrite lookup_insert_ne |]. split; [done |].
  rewrite lookup_insert_eq. eauto.
Qed.

(** A lock is set and claimed; the reply of the claim of a second one is lost,
    and the lock with it. *)
Example lost_reply_loses_the_lock :
  let r0 := mkRedis (R := toy_redis) ∅ [NetOk; NetOk; NetOk; ReplyLost; NetOk] [] in
  let '(r1, b1) := lb_SetNX 0 0 "lock:quote:a" "1" Second r0 in
  let '(r2, b2) := lb_SetNX 0 0 "lock:quote:b" "2" Second r1 in
  let '(r3, v3) := lb_Claim Millisecond "lock:quote:a" r2 in
  let '(r4, v4) := lb_Claim Millisecond "lock:quote:b" r3 in
  let '(_, v5) := lb_Get Millisecond "lock:quote:b" r4 in
  (b1, b2, v3, v4, v5) = (true, true, Some "1", None, None).
Proof. vm_compute. reflexivity. Qed.

(** The reply of a claim is lost: the lock is gone, another one stays. *)
Lemma redis_Claim_correct_witness :
  let r := mkRedis (R := toy_redis)
             {["lock:quote:a" := ("1", Some Second); "lock:quote:b" := ("2", None)]} [ReplyLost] [] in
  let '(r', res) := redis_Claim Millisecond "lock:quote:a" r in
  (forall k', k' <> "lock:quote:a" -> entry (server r') k' = entry (server r) k') /\
  res = None /\ redis_held r' "lock:quote:a" = None.
Proof. intros r. exact (redis_Claim_correct Millisecond "lock:quote:a" r). Defined.

(** ** Choosing the backend at start-up *)

Section Init.
Context {R : Type}.
(* [redis.ParseURL], [redis.NewClient] and the first ping *)
Variable dial : string -> result R string.

Definition newRedisLockBackend (url : string) : result (redisLockBackend R) string :=
  match dial url with Ok s => Ok (mkRedis s [] []) | Err e => Err e end.

(** The backend, and the line given to the logger (level and message). *)
Definition initLockBackend (cfg : Config) (log : bool)
  : (LockStore + redisLockBackend R) * option (string * string) :=
  let logged (l : string * string) := if log then Some l else None in
  if bool_decide (RedisURL cfg = "") then
    (inl NewLockStore, logged ("warn", "REDIS_URL unset; using in-memory lock store"))
  else
    match newRedisLockBackend (RedisURL cfg) with
    | Err e => (inl NewLockStore, logged ("warn", "redis unavailable, falling back to in-memory lock store: " +:+ e))
    | Ok b => (inr b, logged ("info", "connected to Redis at " +:+ maskURL (RedisURL cfg)))
    end.

(** [envOr] never gives the empty URL, so the first branch is not reached from
    a loaded configuration: an unset or empty REDIS_URL dials the local
    server. *)
Lemma initLockBackend_dials env log :
  initLockBackend (LoadConfig env) log <>
  (inl NewLockStore, if log then Some ("warn", "REDIS_URL unset; using in-memory lock store") else None) \/
  log = false.
Proof.
  unfold initLockBackend. destruct log; [left | by right].
  assert (RedisURL (LoadConfig env) <> "") as Hne.
  { cbn [LoadConfig RedisURL]. unfold envOr. destruct (env "REDIS_URL"); [| done]. by case_bool_decide. }
  rewrite bool_decide_false by done. by destruct (newRedisLockBackend _).
Qed.

End Init.
