(* ===== verification/Claim.v ===== *)
(** * Claim: claim and refresh of a quote (internal/claim.go, ClaimService)

    The service works on state it shares with the server: the store, the lock
    backend (any [LockBackend]), the spot service and the audit log
    ([shared]).  [Claim] is translated once for an undisturbed call; the
    pieces between two accesses to shared state ([claim_entry],
    [slippage_exceeded]) are named, so that the interleaved version of
    Concurrent.v runs the same code.  The lock's JSON payload is decoded into
    a variable that is never read, which has no effect and is left out. *)

From S2P Require Import Prelude GoStrings Decimal RefDecimal Errors Store Lru Spot AuditTrail Config Locks.

Definition lockKey `{UuidOps U} (id : U) : string := "lock:quote:" +:+ uuid_String id.

Lemma string_app_inj (p a b : string) : p +:+ a = p +:+ b -> a = b.
Proof. induction p as [| c p IH]; [done |]. rewrite !string_app_cons. intros [= Hab]. by apply IH. Qed.

#[export] Instance lockKey_inj `{UuidLaws U} : Inj (=) (=) (lockKey (U := U)).
Proof. intros a b Hab. apply string_app_inj in Hab. by apply (inj uuid_String). Qed.

(** ** The state the services share *)

Record shared (U D L : Type) `{Countable U} := mkShared {
  sh_store : Store U D;
  sh_locks : L;
  sh_spot : SpotService D;
  sh_audit : AuditLog U;
}.
Arguments mkShared {U D L _ _}.
Arguments sh_store {U D L _ _} _.
Arguments sh_locks {U D L _ _} _.
Arguments sh_spot {U D L _ _} _.
Arguments sh_audit {U D L _ _} _.

Record ClaimRequest := mkClaimRequest { cq_ClaimedBy : string }.

(** The [Stale] field is never set. *)
Record ClaimResult (U D : Type) := mkClaimResult {
  res_Quote : option (Quote U D);
  res_Reason : string;
  res_Stale : bool;
}.
Arguments mkClaimResult {U D}.
Arguments res_Quote {U D} _.
Arguments res_Reason {U D} _.
Arguments res_Stale {U D} _.

(** The readings of the clock in one claim, in program order. *)
Record claim_clock := mkClaimClock {
  ct_expiry : time;      (* time.Now() against ExpiresAt *)
  ct_lock : time;        (* inside locks.Claim *)
  ct_since : time;       (* inside spot.Get *)
  ct_reseed : time;
  ct_claimed : time;     (* ClaimedAt *)
  ct_audit : time;       (* inside audit.Append *)
}.

Section claim.
Context {U D L : Type} `{Countable U} {uu : UuidOps U} {ops : DecimalOps D} {lb : LockBackend L}.
Implicit Types (q : Quote U D) (id : U) (s : shared U D L).

Definition set_store x s : shared U D L := mkShared x (sh_locks s) (sh_spot s) (sh_audit s).
Definition set_locks x s : shared U D L := mkShared (sh_store s) x (sh_spot s) (sh_audit s).
Definition set_spot x s : shared U D L := mkShared (sh_store s) (sh_locks s) x (sh_audit s).
Definition set_audit x s : shared U D L := mkShared (sh_store s) (sh_locks s) (sh_spot s) x.

(** An event about a quote. *)
Definition quote_event (ty : string) (id : U) q (reason : string) : AuditEvent U :=
  mkEvent ty id (UserTier q) (SourceVenue q) reason zero_time.

Definition append (now : time) (e : AuditEvent U) s : shared U D L := set_audit (Append now e (sh_audit s)) s.

Definition update (id : U) (f : Quote U D -> Quote U D) s : shared U D L * option (Quote U D) :=
  let '(st, r) := UpdateQuote (sh_store s) id f in (set_store st s, r).

(** ** Claim *)

(** What the copy of the row decides before the lock is asked. *)
Inductive entry_decision := EnterReject (reason : string) | EnterExpire | EnterLock.

Definition claim_entry (now : time) q : entry_decision :=
  if bool_decide (Status q = StatusCanceled) || bool_decide (Status q = StatusExpired) then EnterReject "EXPIRED"
  else if bool_decide (Status q = StatusClaimed) then EnterReject "already_claimed"
  else if time_After now (ExpiresAt q) then EnterExpire
  else EnterLock.

(** The slippage guard, given what the spot service returned. *)
Definition slippage_exceeded (tol : Z) q (cur : result (Rate D) string) : outcome bool :=
  match cur with
  | Err _ => mret false
  | Ok r =>
      base ← (if dec_gt (r_Mid r) dec_zero then mret (r_Mid r)
              else dec_div (r_Bid r + r_Ask r)%pq (dec_of_int 2));
      if dec_gt base dec_zero && dec_gt (LockedRate q) dec_zero then
        let diff := (base - LockedRate q)%pq in
        ratio ← dec_div diff (LockedRate q);
        bps ← (ratio * dec_of_int 10000)%pq;
        let bps := if dec_lt bps dec_zero then dec_neg bps else bps in
        mret (tol <? dec_int_part bps)%Z
      else mret false
  end.

Definition ClaimService_Claim (tol : Z) (ct : claim_clock) (id : U) (claimedBy : string) s
  : outcome (shared U D L * ClaimResult U D) :=
  match GetQuote (sh_store s) id with
  | None => mret (s, mkClaimResult None "missing" false)
  | Some q =>
      match claim_entry (ct_expiry ct) q with
      | EnterReject reason => mret (s, mkClaimResult (Some q) reason false)
      | EnterExpire =>
          let '(s, _) := update id (set_status StatusExpired) s in
          let s := append (ct_audit ct) (quote_event "quote.expired" id q "") s in
          mret (s, mkClaimResult (Some (set_status StatusExpired q)) "EXPIRED" false)
      | EnterLock =>
          let '(l, lockVal) := lb_Claim (ct_lock ct) (lockKey id) (sh_locks s) in
          let s := set_locks l s in
          match lockVal with
          | None => mret (s, mkClaimResult (Some q) "already_claimed" false)
          | Some _ =>
              let '(sp, cur) := Get0 (ct_since ct) (ct_reseed ct) (From q) (To q) (sh_spot s) in
              let s := set_spot sp s in
              slipped ← slippage_exceeded tol q cur;
              if (slipped : bool) then
                let s := append (ct_audit ct) (quote_event "quote.slippage_rejected" id q "slippage_exceeded") s in
                mret (s, mkClaimResult (Some q) "slippage_exceeded" false)
              else
                let '(s, updated) := update id (set_claimed (ct_claimed ct) claimedBy) s in
                match updated with
                | None => mret (s, mkClaimResult (Some q) "missing" false)
                | Some row =>
                    let s := append (ct_audit ct) (quote_event "quote.claimed" id q "") s in
                    mret (s, mkClaimResult (Some row) "" false)
                end
          end
      end
  end.

(** What a claim leaves when the guard panics: its lock is taken and the rate
    has been looked up. *)
Definition claim_left (ct : claim_clock) (id : U) s : shared U D L :=
  match GetQuote (sh_store s) id with
  | None => s
  | Some q =>
      let s := set_locks (fst (lb_Claim (ct_lock ct) (lockKey id) (sh_locks s))) s in
      set_spot (fst (Get0 (ct_since ct) (ct_reseed ct) (From q) (To q) (sh_spot s))) s
  end.

(** ** Refresh: cancel the old quote, then compute a new one *)

Definition ClaimService_Refresh (t_lock t_audit : time) (id : U)
    (compute : Quote U D -> shared U D L -> shared U D L * result (Quote U D) AppError) s
  : shared U D L * result (Quote U D) AppError :=
  match GetQuote (sh_store s) id with
  | None => (s, Err errNotFound)
  | Some old =>
      let '(s, _) := update id (set_status StatusCanceled) s in
      let s := set_locks (fst (lb_Del t_lock (lockKey id) (sh_locks s))) s in
      let s := append t_audit (quote_event "quote.refreshed" id old "") s in
      compute old s
  end.

End claim.

(** ** The slippage guard, by value *)

Section slippage_theorems.
Context {U D : Type} `{Countable U} {ops : DecimalOps D} {laws : DecimalLaws D}.
Implicit Types (q : Quote U D) (r : Rate D).
Local Open Scope Q_scope.

(** The price the guard compares with. *)
Definition guard_price r : Q :=
  if Qle_bool (val (r_Mid r)) 0
  then qround division_precision ((val (r_Bid r) + val (r_Ask r)) / 2)
  else val (r_Mid r).

(** The measured move, in basis points of the locked rate, with the rounding
    of the division. *)
Definition slippage_bps q r : Q :=
  Qabs (qround division_precision ((guard_price r - val (LockedRate q)) / val (LockedRate q)) * 10000).

(** The exponents the guard divides with: halving a quote without a mid, and
    dividing the move by the locked rate. *)
Definition guard_exp r : Z := if dec_gt (r_Mid r) dec_zero then dec_exp (r_Mid r) else (-16)%Z.

Definition half_overflows r : bool :=
  negb (dec_gt (r_Mid r) dec_zero) && negb (in_int32 (Z.min (dec_exp (r_Bid r)) (dec_exp (r_Ask r)) + 16)).

Definition guard_overflows q r : bool :=
  half_overflows r ||
  negb (in_int32 (Z.min (guard_exp r) (dec_exp (LockedRate q)) - dec_exp (LockedRate q) + 16)).

Lemma half_overflows_div r : dec_gt (r_Mid r) dec_zero = false ->
  div_overflows (r_Bid r + r_Ask r)%pq (dec_of_int 2) = half_overflows r.
Proof.
  intros Hm. unfold div_overflows, half_overflows. rewrite Hm, exp_add, exp_of_int, Z.sub_0_r. done.
Qed.

Lemma guard_base r : half_overflows r = false -> exists base : D,
  (if dec_gt (r_Mid r) dec_zero then mret (r_Mid r)
   else dec_div (r_Bid r + r_Ask r)%pq (dec_of_int 2)) = Ret base /\ val base == guard_price r /\
  dec_exp base = guard_exp r.
Proof.
  intros Ho. unfold guard_price, guard_exp. destruct (dec_gt (r_Mid r) dec_zero) eqn:Hm.
  - apply val_gt_zero in Hm. assert (Qle_bool (val (r_Mid r)) 0 = false) as ->.
    { apply not_true_iff_false. rewrite Qle_bool_iff. lra. }
    eexists. split; [done |]. split; reflexivity.
  - rewrite <- (half_overflows_div r Hm) in Ho.
    apply gt_val_false in Hm. rewrite val_zero in Hm. apply Qle_bool_iff in Hm. rewrite Hm.
    destruct (div_ret (dec_add (r_Bid r) (r_Ask r)) (dec_of_int 2)) as (b & Hb & Hv & He); [| done |].
    { rewrite val_of_int. discriminate. }
    exists b. split; [done |]. rewrite Hv, val_add, val_of_int. by split.
Qed.

(** The measured move, before its sign is dropped. *)
Lemma guard_ratio q (base : D) : 0 < val (LockedRate q) ->
  in_int32 (Z.min (dec_exp base) (dec_exp (LockedRate q)) - dec_exp (LockedRate q) + 16) = true ->
  exists ratio m, dec_div (base - LockedRate q)%pq (LockedRate q) = Ret ratio /\
    dec_mul ratio (dec_of_int 10000) = Ret m /\
    val m == qround division_precision ((val base - val (LockedRate q)) / val (LockedRate q)) * 10000.
Proof.
  intros Hl Ho. destruct (div_ret (dec_sub base (LockedRate q)) (LockedRate q)) as (ratio & Hr & Hv & _); [lra | |].
  { unfold div_overflows. rewrite exp_sub. by apply negb_false_iff. }
  destruct (mul_int ratio 10000) as (m & Hm & Hmv & _). exists ratio, m. split; [done |]. split; [done |].
  rewrite Hmv, Hv, val_sub. reflexivity.
Qed.

#[export] Instance Qtrunc_proper : Proper (Qeq ==> eq) Qtrunc.
Proof.
  intros a b Hab. unfold Qtrunc. rewrite (Qleb_comp 0 0 ltac:(reflexivity) a b Hab).
  destruct (Qle_bool 0 b); [| f_equal]; apply Qfloor_comp; rewrite Hab; reflexivity.
Qed.

(** When the exponents fit, the guard answers whether the truncated move
    exceeds the tolerance, and lets the claim through when no rate, or no
    positive price or locked rate, is there to compare. *)
Lemma slippage_exceeded_spec tol q cur :
  (forall r, cur = Ok r -> in_int64 (Qtrunc (slippage_bps q r)) /\ guard_overflows q r = false) ->
  exists b, slippage_exceeded tol q cur = Ret b /\
    (b = true <-> exists r, cur = Ok r /\ 0 < guard_price r /\ 0 < val (LockedRate q) /\
                            (tol < Qtrunc (slippage_bps q r))%Z).
Proof.
  intros Hint. unfold slippage_exceeded. destruct cur as [r | e].
  2:{ eexists. split; [done |]. split; [done |]. by intros (r & [=] & _). }
  destruct (Hint r eq_refl) as [Hi [Hh Hd]%orb_false_iff]. clear Hint.
  destruct (guard_base r Hh) as (base & -> & Hbase & Hexp). cbn [mbind outcome_bind].
  apply negb_false_iff in Hd. rewrite <- Hexp in Hd.
  destruct (dec_gt base dec_zero && dec_gt (LockedRate q) dec_zero) eqn:Hpos.
  - apply andb_true_iff in Hpos as [Hb Hl]. apply val_gt_zero in Hb, Hl. rewrite Hbase in Hb.
    destruct (guard_ratio q base Hl Hd) as (ratio & m & -> & Hm & Hmv). cbn [mbind outcome_bind]. rewrite Hm.
    cbn [mbind outcome_bind]. rewrite Hbase in Hmv. eexists. split; [done |].
    assert (val (if dec_lt m dec_zero then dec_neg m else m) == slippage_bps q r) as Hv.
    { unfold slippage_bps. rewrite <- Hmv. destruct (dec_lt _ _) eqn:Hneg.
      - apply lt_val in Hneg. rewrite val_zero in Hneg. rewrite val_neg, Qabs_neg by lra. reflexivity.
      - apply lt_val_false in Hneg. rewrite val_zero in Hneg. rewrite Qabs_pos by lra. reflexivity. }
    rewrite int_part_val by (by rewrite Hv). rewrite Hv. rewrite Z.ltb_lt. split; [eauto |].
    by intros (r' & [= <-] & _ & _ & Hlt).
  - eexists. split; [done |]. split; [done |]. intros (r' & [= <-] & Hg & Hl & _).
    rewrite <- Hbase in Hg. apply val_gt_zero in Hg, Hl. by rewrite Hg, Hl in Hpos.
Qed.

(** It panics only on exponents that do not fit. *)
Lemma slippage_exceeded_total tol q cur :
  (forall r, cur = Ok r -> guard_overflows q r = false) -> exists b, slippage_exceeded tol q cur = Ret b.
Proof.
  intros Hr. unfold slippage_exceeded. destruct cur as [r | e]; [| by eexists].
  destruct (orb_false_elim _ _ (Hr r eq_refl)) as [Hh Hd].
  destruct (guard_base r Hh) as (base & -> & _ & Hexp). cbn [mbind outcome_bind].
  destruct (dec_gt base dec_zero && dec_gt (LockedRate q) dec_zero) eqn:Hpos; [| by eexists].
  apply andb_true_iff in Hpos as [_ Hl]. apply val_gt_zero in Hl.
  apply negb_false_iff in Hd. rewrite <- Hexp in Hd.
  destruct (guard_ratio q base Hl Hd) as (ratio & m & -> & Hm & _). cbn [mbind outcome_bind]. rewrite Hm. by eexists.
Qed.

Lemma slippage_exceeded_panic tol q cur why :
  slippage_exceeded tol q cur = Panic why -> exists r, cur = Ok r /\ guard_overflows q r = true.
Proof.
  intros Hp. destruct cur as [r | e]; [| done]. exists r. split; [done |].
  apply not_false_iff_true. intros Ho. destruct (slippage_exceeded_total tol q (Ok r)) as [b Hb]; [| congruence].
  by intros r' [= <-].
Qed.

Lemma Qtrunc_nonneg_bounds x : 0 <= x -> inject_Z (Qtrunc x) <= x /\ x < inject_Z (Qtrunc x) + 1.
Proof.
  intros Hx. unfold Qtrunc. apply Qle_bool_iff in Hx as ->. split; [apply Qfloor_le |].
  pose proof (Qlt_floor x) as Hl. by rewrite inject_Z_plus in Hl.
Qed.

(** The rounding of the division, in basis points. *)
Definition slip_eps : Q := 10000 * half_ulp division_precision.

Lemma slippage_bps_close q r : 0 < val (LockedRate q) ->
  Qabs (slippage_bps q r - 10000 * Qabs (guard_price r - val (LockedRate q)) / val (LockedRate q)) <= slip_eps.
Proof.
  intros Hl. unfold slippage_bps, slip_eps.
  set (x := (guard_price r - val (LockedRate q)) / val (LockedRate q)).
  assert (Qabs (guard_price r - val (LockedRate q)) / val (LockedRate q) == Qabs x) as Hx.
  { subst x. unfold Qdiv. rewrite Qabs_Qmult. rewrite (Qabs_pos (/ val (LockedRate q))); [reflexivity |].
    apply Qlt_le_weak, Qinv_lt_0_compat. done. }
  assert (10000 * Qabs (guard_price r - val (LockedRate q)) / val (LockedRate q) == 10000 * Qabs x) as ->.
  { rewrite <- Hx. field. lra. }
  assert (Qabs (qround division_precision x - x) <= half_ulp division_precision) as He by apply qround_error.
  rewrite Qabs_Qmult.
  change (Qabs 10000) with 10000. apply Qabs_Qle_condition in He. apply Qabs_Qle_condition.
  generalize dependent (qround division_precision x). generalize (half_ulp division_precision).
  clear. intros h y [H1 H2].
  destruct (Qlt_le_dec x 0) as [Hx | Hx]; [rewrite (Qabs_neg x) by lra | rewrite (Qabs_pos x) by lra];
    (destruct (Qlt_le_dec y 0) as [Hy | Hy]; [rewrite (Qabs_neg y) by lra | rewrite (Qabs_pos y) by lra]);
    split; lra.
Qed.

(** C22: the slippage guard, in money.  With a positive market price, a
    positive locked rate and exponents that fit, a claim that passes the guard
    has a price within [tolerance + 1] basis points of the locked rate, and one
    that it stops is at least [tolerance + 1] basis points away, up to the
    rounding of one division: the guard truncates the move before it compares
    it, so a move beyond the tolerance by less than one basis point passes. *)
Theorem slippage_guard_bounds (tol : Z) q r :
  0 < guard_price r -> 0 < val (LockedRate q) -> (0 <= tol)%Z -> in_int64 (Qtrunc (slippage_bps q r)) ->
  guard_overflows q r = false ->
  exists b, slippage_exceeded tol q (Ok r) = Ret b /\
    let moved := 10000 * Qabs (guard_price r - val (LockedRate q)) / val (LockedRate q) in
    if b then inject_Z (tol + 1) - slip_eps <= moved else moved < inject_Z (tol + 1) + slip_eps.
Proof.
  intros Hg Hl Ht Hint Hov.
  destruct (slippage_exceeded_spec tol q (Ok r)) as (b & Hb & Hiff); [by intros r' [= <-] |].
  exists b. split; [done |]. intros moved.
  pose proof (slippage_bps_close q r Hl) as Hc. fold moved in Hc. apply Qabs_Qle_condition in Hc.
  destruct (Qtrunc_nonneg_bounds (slippage_bps q r) (Qabs_nonneg _)) as [Hlo Hhi].
  destruct b.
  - destruct (proj1 Hiff eq_refl) as (r' & [= <-] & _ & _ & Hlt).
    assert (inject_Z (tol + 1) <= inject_Z (Qtrunc (slippage_bps q r))) as Hz by (rewrite <- Zle_Qle; lia).
    lra.
  - assert (Qtrunc (slippage_bps q r) <= tol)%Z as Hle.
    { apply Z.nlt_ge. intros Hlt. assert (false = true) as [=]. apply Hiff. eauto. }
    rewrite inject_Z_plus. rewrite Zle_Qle in Hle. change (inject_Z 1) with 1. lra.
Qed.

(** The spread counts as slippage.  The guard compares the market's mid
    price with the locked rate, which is the mid marked up by the spread: when
    the market has not moved at all since a BUY was quoted with a spread of
    [n] basis points, the guard measures [10000 n / (10000 + n)] basis points,
    and a large enough spread makes every claim fail. *)
Theorem unmoved_market_rejected (tol n : Z) q r :
  0 < guard_price r -> (0 < n)%Z -> (0 <= tol)%Z ->
  val (LockedRate q) == guard_price r * (1 + inject_Z n / 10000) ->
  inject_Z (tol + 1) + slip_eps <= 10000 * inject_Z n / (10000 + inject_Z n) ->
  guard_overflows q r = false ->
  slippage_exceeded tol q (Ok r) = Ret true.
Proof.
  intros Hg Hn Ht Hlock Hbig Hov. rewrite Zlt_Qlt in Hn. change (inject_Z 0) with 0 in Hn.
  assert (0 < val (LockedRate q)) as Hl.
  { rewrite Hlock. apply Qmult_lt_0_compat; [done |]. assert (0 < inject_Z n / 10000); [| lra].
    apply Qlt_shift_div_l; lra. }
  pose proof (slippage_bps_close q r Hl) as Hc.
  assert (10000 * Qabs (guard_price r - val (LockedRate q)) / val (LockedRate q) ==
          10000 * inject_Z n / (10000 + inject_Z n)) as Hm.
  { rewrite Hlock. rewrite Qabs_neg.
    - field. split; lra.
    - assert (0 <= guard_price r * (inject_Z n / 10000)); [| lra].
      apply Qmult_le_0_compat; [lra |]. apply Qle_shift_div_l; lra. }
  rewrite Hm in Hc. apply Qabs_Qle_condition in Hc as [Hlo Hhi].
  assert (10000 * inject_Z n / (10000 + inject_Z n) <= 10000) as Hmax.
  { apply Qle_shift_div_r; lra. }
  destruct (Qtrunc_nonneg_bounds (slippage_bps q r) (Qabs_nonneg _)) as [H1 H2].
  assert (slip_eps <= 1) as Heps by (vm_compute; discriminate).
  assert (Qtrunc (slippage_bps q r) <= 10001)%Z as Hub.
  { rewrite Zle_Qle. change (inject_Z 10001) with 10001. lra. }
  assert (tol < Qtrunc (slippage_bps q r))%Z as Hlt.
  { rewrite Zlt_Qlt. rewrite inject_Z_plus in Hbig. change (inject_Z 1) with 1 in Hbig. lra. }
  destruct (slippage_exceeded_spec tol q (Ok r)) as (b & -> & Hb).
  { intros r' [= <-]. split; [| done]. unfold in_int64, min_int64, max_int64. lia. }
  f_equal. apply Hb. eauto.
Qed.

End slippage_theorems.

(** ** The claim flow *)

Section claim_theorems.
Context {U D L : Type} `{Countable U} {uu : UuidOps U} {ul : UuidLaws U} {ops : DecimalOps D}
  {laws : DecimalLaws D} {lb : LockBackend L} {ll : LockLaws L}.
Implicit Types (q : Quote U D) (id : U) (s : shared U D L) (ct : claim_clock).

Lemma append_fields now e s :
  sh_store (append now e s) = sh_store s /\ sh_locks (append now e s) = sh_locks s /\
  sh_spot (append now e s) = sh_spot s /\
  Events (sh_audit (append now e s)) = Events (sh_audit s) ++ [stamp now e].
Proof. unfold append, Append, offer. cbn [sh_audit set_audit]. by case_decide. Qed.

Lemma update_known id f s q : GetQuote (sh_store s) id = Some q ->
  update id f s = (set_store (mkStore (<[id := f q]> (quotes (sh_store s))) (schedules (sh_store s))
                                (sources (sh_store s))) s, Some (f q)).
Proof. unfold update, UpdateQuote, GetQuote. by intros ->. Qed.

(** The branches of a claim, with what each one leaves behind. *)
Inductive claim_effect (tol : Z) ct id (by_ : string) s : shared U D L -> ClaimResult U D -> Prop :=
  | ce_missing :
      GetQuote (sh_store s) id = None ->
      claim_effect tol ct id by_ s s (mkClaimResult None "missing" false)
  | ce_closed q reason :
      GetQuote (sh_store s) id = Some q -> claim_entry (ct_expiry ct) q = EnterReject reason ->
      claim_effect tol ct id by_ s s (mkClaimResult (Some q) reason false)
  | ce_expired q s' :
      GetQuote (sh_store s) id = Some q -> claim_entry (ct_expiry ct) q = EnterExpire ->
      quotes (sh_store s') = <[id := set_status StatusExpired q]> (quotes (sh_store s)) ->
      sh_locks s' = sh_locks s ->
      Events (sh_audit s') = Events (sh_audit s) ++ [stamp (ct_audit ct) (quote_event "quote.expired" id q "")] ->
      claim_effect tol ct id by_ s s' (mkClaimResult (Some (set_status StatusExpired q)) "EXPIRED" false)
  | ce_no_lock q s' l :
      GetQuote (sh_store s) id = Some q -> claim_entry (ct_expiry ct) q = EnterLock ->
      lb_Claim (ct_lock ct) (lockKey id) (sh_locks s) = (l, None) -> s' = set_locks l s ->
      claim_effect tol ct id by_ s s' (mkClaimResult (Some q) "already_claimed" false)
  | ce_slipped q s' l v cur :
      GetQuote (sh_store s) id = Some q -> claim_entry (ct_expiry ct) q = EnterLock ->
      lb_Claim (ct_lock ct) (lockKey id) (sh_locks s) = (l, Some v) ->
      cur = snd (Get0 (ct_since ct) (ct_reseed ct) (From q) (To q) (sh_spot s)) ->
      slippage_exceeded tol q cur = Ret true ->
      sh_store s' = sh_store s -> sh_locks s' = l ->
      Events (sh_audit s') = Events (sh_audit s) ++
        [stamp (ct_audit ct) (quote_event "quote.slippage_rejected" id q "slippage_exceeded")] ->
      claim_effect tol ct id by_ s s' (mkClaimResult (Some q) "slippage_exceeded" false)
  | ce_claimed q s' l v cur :
      GetQuote (sh_store s) id = Some q -> claim_entry (ct_expiry ct) q = EnterLock ->
      lb_Claim (ct_lock ct) (lockKey id) (sh_locks s) = (l, Some v) ->
      cur = snd (Get0 (ct_since ct) (ct_reseed ct) (From q) (To q) (sh_spot s)) ->
      slippage_exceeded tol q cur = Ret false ->
      quotes (sh_store s') = <[id := set_claimed (ct_claimed ct) by_ q]> (quotes (sh_store s)) ->
      sh_locks s' = l ->
      Events (sh_audit s') = Events (sh_audit s) ++ [stamp (ct_audit ct) (quote_event "quote.claimed" id q "")] ->
      claim_effect tol ct id by_ s s' (mkClaimResult (Some (set_claimed (ct_claimed ct) by_ q)) "" false).

(** A claim that returns does so by one of the branches. *)
Lemma Claim_effect tol ct id by_ s s' res :
  ClaimService_Claim tol ct id by_ s = Ret (s', res) -> claim_effect tol ct id by_ s s' res.
Proof.
  unfold ClaimService_Claim. destruct (GetQuote (sh_store s) id) as [q |] eqn:Hq.
  2:{ intros [= <- <-]. by apply ce_missing. }
  destruct (claim_entry (ct_expiry ct) q) as [reason | |] eqn:He.
  - intros [= <- <-]. by eapply ce_closed.
  - rewrite (update_known id _ s q Hq). intros [= <- <-].
    set (e := quote_event "quote.expired" id q ""). set (s1 := set_store _ s).
    destruct (append_fields (ct_audit ct) e s1) as (H1 & H2 & _ & H4).
    apply ce_expired; [done | done | by rewrite H1 | by rewrite H2 | by rewrite H4].
  - destruct (lb_Claim _ _ _) as [l [v |]] eqn:Hl.
    2:{ intros [= <- <-]. by eapply ce_no_lock. }
    cbn [sh_spot set_locks]. destruct (Get0 _ _ _ _ (sh_spot s)) as [sp cur] eqn:Hg.
    assert (cur = snd (Get0 (ct_since ct) (ct_reseed ct) (From q) (To q) (sh_spot s))) as Hcur by (by rewrite Hg).
    intros (b & Hb & Heq)%outcome_bind_ret. destruct b.
    + injection Heq as <- <-. set (e := quote_event "quote.slippage_rejected" id q _).
      set (s1 := set_spot sp _). destruct (append_fields (ct_audit ct) e s1) as (H1 & H2 & _ & H4).
      by eapply ce_slipped; rewrite ?H1, ?H2, ?H4.
    + rewrite (update_known id _ (set_spot sp (set_locks l s)) q Hq) in Heq. injection Heq as <- <-.
      set (e := quote_event "quote.claimed" id q ""). set (s1 := set_store _ (set_spot sp _)).
      destruct (append_fields (ct_audit ct) e s1) as (H1 & H2 & _ & H4).
      by eapply ce_claimed; rewrite ?H1, ?H2, ?H4.
Qed.

(** A claim that does not return panics in the guard, on exponents that do not
    fit, after it took the lock. *)
Lemma Claim_panic tol ct id by_ s why :
  ClaimService_Claim tol ct id by_ s = Panic why ->
  exists q l v r, GetQuote (sh_store s) id = Some q /\ claim_entry (ct_expiry ct) q = EnterLock /\
    lb_Claim (ct_lock ct) (lockKey id) (sh_locks s) = (l, Some v) /\
    snd (Get0 (ct_since ct) (ct_reseed ct) (From q) (To q) (sh_spot s)) = Ok r /\ guard_overflows q r = true.
Proof.
  unfold ClaimService_Claim. destruct (GetQuote (sh_store s) id) as [q |] eqn:Hq; [| done].
  destruct (claim_entry (ct_expiry ct) q) as [reason | |] eqn:He; [done | |].
  { by rewrite (update_known id _ s q Hq). }
  destruct (lb_Claim _ _ _) as [l [v |]] eqn:Hl; [| done].
  cbn [sh_spot set_locks]. destruct (Get0 _ _ _ _ (sh_spot s)) as [sp cur] eqn:Hg. intros Hp.
  destruct (slippage_exceeded tol q cur) as [b | w] eqn:Hs; cbn [mbind outcome_bind] in Hp.
  - destruct b; [done |]. by rewrite (update_known id _ (set_spot sp (set_locks l s)) q Hq) in Hp.
  - destruct (slippage_exceeded_panic _ _ _ _ Hs) as (r & -> & Ho). exists q, l, v, r. by rewrite Hg.
Qed.

(** What a panicking claim leaves of the rows, the log and the locks. *)
Lemma claim_left_frame ct id s :
  sh_store (claim_left ct id s) = sh_store s /\ sh_audit (claim_left ct id s) = sh_audit s /\
  (forall k, held (sh_locks (claim_left ct id s)) k = None \/
             held (sh_locks (claim_left ct id s)) k = held (sh_locks s) k).
Proof.
  unfold claim_left. destruct (GetQuote (sh_store s) id); [| split_and!; auto].
  split_and!; [done | done |]. cbn [sh_locks set_spot set_locks].
  destruct (lb_Claim _ _ _) as [l v] eqn:Hl. apply (Claim_held _ _ _ _ _ Hl).
Qed.

Lemma claim_entry_lock now q : claim_entry now q = EnterLock ->
  Status q = StatusOpen /\ (now <= ExpiresAt q)%Z.
Proof.
  unfold claim_entry. destruct (Status q) eqn:Hs; simpl; [| done..].
  unfold time_After. destruct (ExpiresAt q <? now)%Z eqn:Ht; [done |]. zbool. split; [done | lia].
Qed.

(** A row that has been claimed is refused to everyone, with no effect. *)
Lemma claim_claimed tol ct id by_ s q :
  GetQuote (sh_store s) id = Some q -> Status q = StatusClaimed ->
  ClaimService_Claim tol ct id by_ s = Ret (s, mkClaimResult (Some q) "already_claimed" false).
Proof. intros Hq Hs. unfold ClaimService_Claim. rewrite Hq. unfold claim_entry. by rewrite Hs. Qed.

(** A claim succeeds only on a held lock. *)
Lemma claim_needs_lock tol ct id by_ s s' res :
  ClaimService_Claim tol ct id by_ s = Ret (s', res) -> res_Reason res = "" ->
  exists v, held (sh_locks s) (lockKey id) = Some v.
Proof.
  intros He%Claim_effect Hr.
  destruct He as [ | q reason Hq Hent | | | | q s' l v cur _ _ Hl _ _ _ _ _]; try done.
  { simpl in Hr. subst reason. unfold claim_entry in Hent. by repeat case_match. }
  exists v. destruct (Claim_held _ _ _ _ _ Hl) as [_ Hh]. by destruct (Hh v eq_refl).
Qed.

(** C4: what a successful claim means.  The quote was open and not past its
    expiry, its lock was held and is gone, the guard did not object to the
    current rate; exactly this row changed, to claimed by the caller; exactly
    one event was recorded; and from then on every claim of this quote, by
    anyone and at any time, is refused and changes nothing. *)
Theorem Claim_success tol ct id by_ s s' res :
  ClaimService_Claim tol ct id by_ s = Ret (s', res) -> res_Reason res = "" ->
  exists q, GetQuote (sh_store s) id = Some q /\
    Status q = StatusOpen /\ (ct_expiry ct <= ExpiresAt q)%Z /\
    (exists v, held (sh_locks s) (lockKey id) = Some v) /\ held (sh_locks s') (lockKey id) = None /\
    slippage_exceeded tol q (snd (Get0 (ct_since ct) (ct_reseed ct) (From q) (To q) (sh_spot s))) = Ret false /\
    (forall id', GetQuote (sh_store s') id' =
       if decide (id' = id) then Some (set_claimed (ct_claimed ct) by_ q) else GetQuote (sh_store s) id') /\
    res_Quote res = GetQuote (sh_store s') id /\
    Events (sh_audit s') = Events (sh_audit s) ++ [stamp (ct_audit ct) (quote_event "quote.claimed" id q "")] /\
    forall tol2 ct2 by2, exists row,
      ClaimService_Claim tol2 ct2 id by2 s' = Ret (s', mkClaimResult (Some row) "already_claimed" false).
Proof.
  intros He%Claim_effect Hr.
  destruct He as [ | q reason Hq Hent | | | | q s' l v cur Hq Hent Hl Hcur Hslip Hst Hlk Haud]; try done.
  { simpl in Hr. subst reason. unfold claim_entry in Hent. by repeat case_match. }
  exists q. destruct (claim_entry_lock _ _ Hent) as [Hopen Hexp].
  destruct (Claim_held _ _ _ _ _ Hl) as [_ Hh]. destruct (Hh v eq_refl) as [Hheld Hgone].
  assert (forall id', GetQuote (sh_store s') id' =
    if decide (id' = id) then Some (set_claimed (ct_claimed ct) by_ q) else GetQuote (sh_store s) id') as Hrows.
  { intros id'. unfold GetQuote. rewrite Hst. case_decide as Hid; [subst; apply lookup_insert_eq |].
    by rewrite lookup_insert_ne. }
  split_and!; try done; [eauto | by rewrite Hlk | by rewrite <- Hcur | |].
  - rewrite Hrows. by rewrite decide_True.
  - intros tol2 ct2 by2. eexists. apply claim_claimed with (q := set_claimed (ct_claimed ct) by_ q); [| done].
    by rewrite Hrows, decide_True.
Qed.

(** What a refused claim leaves of the locks, the rows and the audit log. *)
Lemma refused_effect tol ct id by_ s s' res :
  ClaimService_Claim tol ct id by_ s = Ret (s', res) -> res_Reason res <> "" ->
  (forall k, held (sh_locks s') k = None \/ held (sh_locks s') k = held (sh_locks s) k) /\
  (quotes (sh_store s') = quotes (sh_store s) \/
   exists q, GetQuote (sh_store s) id = Some q /\ Status q = StatusOpen /\ (ExpiresAt q < ct_expiry ct)%Z /\
     quotes (sh_store s') = <[id := set_status StatusExpired q]> (quotes (sh_store s)) /\
     res_Reason res = "EXPIRED" /\
     Events (sh_audit s') = Events (sh_audit s) ++ [stamp (ct_audit ct) (quote_event "quote.expired" id q "")]).
Proof.
  intros He%Claim_effect Hr.
  destruct He as [ | q reason Hq Hent | q s' Hq Hent Hst Hlk Haud | q s' l Hq Hent Hl Hs'
    | q s' l v cur Hq Hent Hl Hcur Hslip Hst Hlk Haud | ]; try done.
  - split; [by right | by left].
  - split; [by right | by left].
  - split; [rewrite Hlk; by right | right]. exists q. split_and!; try done.
    + unfold claim_entry in Hent. destruct (Status q); [done | by repeat case_match..].
    + unfold claim_entry in Hent. repeat case_match; try done. by unfold time_After in *; zbool.
  - subst s'. split; [| by left]. apply (Claim_held _ _ _ _ _ Hl).
  - split; [| left; by rewrite Hst]. rewrite Hlk. apply (Claim_held _ _ _ _ _ Hl).
Qed.

(** C23: what a refused claim changes.  No row changes, except that an open
    row past its expiry becomes expired, with one event; no lock appears. *)
Theorem Claim_refused tol ct id by_ s s' res :
  ClaimService_Claim tol ct id by_ s = Ret (s', res) -> res_Reason res <> "" ->
  (forall k, held (sh_locks s') k = None \/ held (sh_locks s') k = held (sh_locks s) k) /\
  (quotes (sh_store s') = quotes (sh_store s) \/
   exists q, GetQuote (sh_store s) id = Some q /\ Status q = StatusOpen /\ (ExpiresAt q < ct_expiry ct)%Z /\
     quotes (sh_store s') = <[id := set_status StatusExpired q]> (quotes (sh_store s)) /\
     res_Reason res = "EXPIRED" /\
     Events (sh_audit s') = Events (sh_audit s) ++ [stamp (ct_audit ct) (quote_event "quote.expired" id q "")]).
Proof. apply refused_effect. Qed.

(** Repeated claims, each with its clock, caller and tolerance. *)
Fixpoint claims (cs : list (Z * claim_clock * string)) id s : outcome (shared U D L * list (ClaimResult U D)) :=
  match cs with
  | [] => mret (s, [])
  | (tol, ct, by_) :: cs' =>
      '(s, r) ← ClaimService_Claim tol ct id by_ s;
      '(s, rs) ← claims cs' id s;
      mret (s, r :: rs)
  end.

Lemma Claim_without_lock tol ct id by_ s s' res :
  held (sh_locks s) (lockKey id) = None ->
  ClaimService_Claim tol ct id by_ s = Ret (s', res) ->
  res_Reason res <> "" /\ held (sh_locks s') (lockKey id) = None.
Proof.
  intros Hh Hc. destruct (decide (res_Reason res = "")) as [Hr | Hr].
  - destruct (claim_needs_lock _ _ _ _ _ _ _ Hc Hr) as (v & Hv). congruence.
  - split; [done |]. destruct (refused_effect _ _ _ _ _ _ _ Hc Hr) as [Hk _].
    destruct (Hk (lockKey id)) as [? | ->]; done.
Qed.

(** Without the lock a claim returns: the guard is not reached. *)
Lemma Claim_without_lock_returns tol ct id by_ s : held (sh_locks s) (lockKey id) = None ->
  exists s' res, ClaimService_Claim tol ct id by_ s = Ret (s', res).
Proof.
  intros Hh. destruct (ClaimService_Claim tol ct id by_ s) as [[s' res] | why] eqn:Hc; [eauto |].
  destruct (Claim_panic _ _ _ _ _ _ Hc) as (q & l & v & r & _ & _ & Hl & _).
  destruct (Claim_held _ _ _ _ _ Hl) as [_ Hv]. destruct (Hv v eq_refl). congruence.
Qed.

(** A slippage rejection is final.  The row stays open, as the client
    sees it, but its lock is gone: however the market moves back, no later
    claim of this quote succeeds. *)
Theorem slippage_rejection_is_final tol ct id by_ s s' res :
  ClaimService_Claim tol ct id by_ s = Ret (s', res) -> res_Reason res = "slippage_exceeded" ->
  quotes (sh_store s') = quotes (sh_store s) /\
  (exists q, GetQuote (sh_store s') id = Some q /\ Status q = StatusOpen) /\
  forall cs, exists s'' rs, claims cs id s' = Ret (s'', rs) /\ Forall (fun r => res_Reason r <> "") rs.
Proof.
  intros He%Claim_effect Hr.
  destruct He as [ | q reason Hq Hent | | | q s' l v cur Hq Hent Hl Hcur Hslip Hst Hlk Haud | ]; try done.
  { simpl in Hr. subst reason. unfold claim_entry in Hent. by repeat case_match. }
  split; [by rewrite Hst |]. split.
  { exists q. rewrite Hst. split; [done |]. by destruct (claim_entry_lock _ _ Hent). }
  destruct (Claim_held _ _ _ _ _ Hl) as [_ Hh]. destruct (Hh v eq_refl) as [_ Hgone]. rewrite <- Hlk in Hgone.
  clear - Hgone laws. intros cs. revert s' Hgone. induction cs as [| [[tol ct] by_] cs IH]; intros s' Hgone.
  { by exists s', []. }
  cbn [claims]. destruct (Claim_without_lock_returns tol ct id by_ s' Hgone) as (s1 & r & Hc). rewrite Hc. cbn [mbind outcome_bind].
  destruct (Claim_without_lock _ _ _ _ _ _ _ Hgone Hc) as [Hr Hg].
  destruct (IH s1 Hg) as (s2 & rs & -> & Hrs). cbn [mbind outcome_bind]. do 2 eexists. split; [done |].
  by constructor.
Qed.

(** [Refresh] cancels the row whatever its status was, releases the lock and
    records one event before anything is computed. *)
Lemma Refresh_cancels tl ta id compute s q :
  GetQuote (sh_store s) id = Some q ->
  exists s1, ClaimService_Refresh tl ta id compute s = compute q s1 /\
    quotes (sh_store s1) = <[id := set_status StatusCanceled q]> (quotes (sh_store s)) /\
    sh_locks s1 = fst (lb_Del tl (lockKey id) (sh_locks s)) /\
    Events (sh_audit s1) = Events (sh_audit s) ++ [stamp ta (quote_event "quote.refreshed" id q "")].
Proof.
  intros Hq. unfold ClaimService_Refresh. rewrite Hq, (update_known id _ s q Hq).
  set (e := quote_event "quote.refreshed" id q ""). set (s1 := set_locks _ _).
  destruct (append_fields ta e s1) as (H1 & H2 & _ & H4). eexists. split; [done |].
  rewrite H1, H2, H4. by split_and!.
Qed.

End claim_theorems.

(** ** Concrete claims *)

Definition open_quote (id : string) : Quote string refdec :=
  mkQuote id "USD" "BTC" "1000" "65650" 100 "0" "USD" "1000" "0.01523229" "TIER_1" "BUY" StatusOpen "kraken"
    0 (30 * Second) None "" (dec_of_int 65650) (dec_of_int 65000).

(** One open quote, its lock set, a fresh spot service. *)
Definition sample_shared : shared string refdec LockStore :=
  mkShared (SaveQuote NewStore (open_quote "q1"))
    (fst (LockStore_SetNX 0 0 (lockKey "q1") "{}" (30 * Second) NewLockStore))
    sample_spot NewAuditLog.

Definition clock_at (t : time) : claim_clock := mkClaimClock t t t t t t.

Lemma slippage_guard_bounds_witness :
  exists b, slippage_exceeded 150 (open_quote "q1") (Ok (sample_rate 65000)) = Ret b /\
    let moved := (10000 * Qabs (guard_price (sample_rate 65000) - val (LockedRate (open_quote "q1")))
                  / val (LockedRate (open_quote "q1")))%Q in
    if b then (inject_Z (150 + 1) - slip_eps <= moved)%Q else (moved < inject_Z (150 + 1) + slip_eps)%Q.
Proof.
  apply (slippage_guard_bounds 150 (open_quote "q1") (sample_rate 65000)).
  - vm_compute. reflexivity.
  - vm_compute. reflexivity.
  - lia.
  - apply (bool_decide_unpack _). vm_compute. exact I.
  - vm_compute. reflexivity.
Defined.

Definition sample_claim (tol : Z) (t : time) : outcome (shared string refdec LockStore * ClaimResult string refdec) :=
  ClaimService_Claim tol (clock_at t) "q1" "tx-1" sample_shared.

Lemma reason_returns (r : outcome (shared string refdec LockStore * ClaimResult string refdec)) reason :
  match r with Ret (_, res) => bool_decide (res_Reason res = reason) | Panic _ => false end = true ->
  exists s' res, r = Ret (s', res) /\ res_Reason res = reason.
Proof. destruct r as [[s' res] | w]; [| done]. intros Hr%bool_decide_eq_true. eauto. Qed.

(** At the tolerance of the default configuration the claim goes through. *)
Lemma Claim_success_witness :
  exists s' res, ClaimService_Claim 150 (clock_at Millisecond) "q1" "tx-1" sample_shared = Ret (s', res) /\
    res_Reason res = "" /\ res_Quote res = GetQuote (sh_store s') "q1" /\
    forall tol2 ct2 by2, exists row,
      ClaimService_Claim tol2 ct2 "q1" by2 s' = Ret (s', mkClaimResult (Some row) "already_claimed" false).
Proof.
  destruct (reason_returns (sample_claim 150 Millisecond) ""
    ltac:(vm_compute; reflexivity)) as (s' & res & Hc & Hr).
  destruct (Claim_success _ _ _ _ _ _ _ Hc Hr) as (q & _ & _ & _ & _ & _ & _ & _ & Hres & _ & Hagain).
  exists s', res. by split_and!.
Defined.

(** The same claim after the quote's expiry. *)
Lemma Claim_refused_witness :
  exists s' res, ClaimService_Claim 150 (clock_at (31 * Second)) "q1" "tx-1" sample_shared = Ret (s', res) /\
    res_Reason res = "EXPIRED" /\
    forall k, held (sh_locks s') k = None \/ held (sh_locks s') k = held (sh_locks sample_shared) k.
Proof.
  destruct (reason_returns (sample_claim 150 (31 * Second)) "EXPIRED"
    ltac:(vm_compute; reflexivity)) as (s' & res & Hc & Hr).
  exists s', res. split; [done |]. split; [done |].
  refine (proj1 (Claim_refused _ _ _ _ _ _ _ Hc _)). by rewrite Hr.
Defined.

(** With a tolerance of 50 basis points the market is 99 away. *)
Lemma slippage_rejection_is_final_witness :
  exists s' res, ClaimService_Claim 50 (clock_at Millisecond) "q1" "tx-1" sample_shared = Ret (s', res) /\
    res_Reason res = "slippage_exceeded" /\
    forall cs, exists s'' rs, claims cs "q1" s' = Ret (s'', rs) /\ Forall (fun r => res_Reason r <> "") rs.
Proof.
  destruct (reason_returns (sample_claim 50 Millisecond) "slippage_exceeded"
    ltac:(vm_compute; reflexivity)) as (s' & res & Hc & Hr).
  exists s', res. split; [done |]. split; [done |].
  exact (proj2 (proj2 (slippage_rejection_is_final _ _ _ _ _ _ _ Hc Hr))).
Defined.

(** A spread of 160 basis points at the default tolerance of 150: the market
    is where it was, at 65000. *)
Lemma unmoved_market_rejected_witness :
  let q := mkQuote "q2" "USD" "BTC" "1000" "66040" 160 "0" "USD" "1000" "0.0151" "TIER_3" "BUY" StatusOpen "kraken"
             0 (30 * Second) None "" (dec_of_int (D := refdec) 66040) (dec_of_int 65000) in
  slippage_exceeded (U := string) 150 q (Ok (sample_rate 65000)) = Ret true.
Proof.
  intros q. apply (unmoved_market_rejected 150 160 q (sample_rate 65000)).
  - vm_compute. reflexivity.
  - lia.
  - lia.
  - vm_compute. reflexivity.
  - vm_compute. discriminate.
  - vm_compute. reflexivity.
Defined.

(** A move of 100.5 basis points at a tolerance of 100: the guard compares the
    truncated 100 and lets the claim through. *)
Lemma truncated_move_passes :
  let q := mkQuote "q3" "USD" "BTC" "1000" "100000" 0 "0" "USD" "1000" "0.01" "TIER_1" "BUY" StatusOpen "kraken"
             0 (30 * Second) None "" (dec_of_int (D := refdec) 100000) (dec_of_int 100000) in
  (100 < 10000 * Qabs (guard_price (sample_rate 101005) - val (LockedRate q)) / val (LockedRate q))%Q /\
  slippage_exceeded (U := string) 100 q (Ok (sample_rate 101005)) = Ret false.
Proof. split; vm_compute; reflexivity. Qed.
