(* ===== verification/Server.v ===== *)
(** * Server: the HTTP handlers and background jobs (internal/server.go)

    A handler takes the server state, the request, and the fresh ids and
    clock readings it consumes, and gives the new state and the response.  A
    decimal operation may panic inside a handler ([outcome]); net/http recovers
    the panic, and the state it leaves is given by the functions [*_left] of
    the last part.  The pieces a
    handler runs between two accesses to shared state are definitions of their
    own, so that Concurrent.v interleaves the same code.  Parameters: the text
    level of JSON ([json_parse], [json_first], [json_text]), the RFC 3339
    rendering of a time ([fmt_time]), which is also how [encoding/json] writes
    one.  Members of an object are listed in the order of the source; sorting
    those of a Go map is part of [json_text].  Tracing spans are
    added in Tracing.v, response headers and redirects in Http.v. *)

From S2P Require Import Prelude GoStrings Utf8 Decimal RefDecimal Errors Json Store FeeIndex Lru Spot Pricer Config AuditTrail Locks Claim.

(** ** Requests and responses *)

(** One [Read] of a body: the bytes it delivers and its error, if any. *)
Definition read_result : Type := string * option string.

Record request := mkHttp {
  hr_Method : string;
  hr_Path : string;
  hr_RequestID : string;          (* the X-Request-ID header, set by the middleware *)
  hr_QueryRequestID : string;     (* the request_id query parameter *)
  hr_Body : list read_result;
}.

Record response := mkResponse { rsp_status : Z; rsp_body : json }.

Definition StatusOK : Z := 200.
Definition StatusCreated : Z := 201.
Definition StatusBadRequest : Z := 400.
Definition StatusNotFound : Z := 404.
Definition StatusMethodNotAllowed : Z := 405.
Definition StatusConflict : Z := 409.
Definition StatusGone : Z := 410.
Definition StatusServiceUnavailable : Z := 503.

(** [readBody]: the chunks up to the end of file, or an error. *)
Fixpoint readBody (buf : string) (body : list read_result) : result string string :=
  match body with
  | [] => Ok buf
  | (chunk, None) :: rest => readBody (buf +:+ chunk) rest
  | (chunk, Some err) :: _ => if String.eqb err "EOF" then Ok (buf +:+ chunk) else Err err
  end.

(** [requestIDMiddleware]: a missing request id is generated. *)
Definition requestIDMiddleware (newRequestID : string) (r : request) : request :=
  let rid := if String.eqb (hr_RequestID r) "" then newRequestID else hr_RequestID r in
  mkHttp (hr_Method r) (hr_Path r) rid (hr_QueryRequestID r) (hr_Body r).

Definition requestIDFromContext (r : request) : string :=
  if negb (String.eqb (hr_RequestID r) "") then hr_RequestID r
  else encode_runes (TrimSpace (runes (hr_QueryRequestID r))).

Definition writeError (r : request) (status : Z) (code message : string) : response :=
  mkResponse status
    (JObj [("error", JObj [("code", JStr code); ("message", JStr message);
                           ("request_id", JStr (requestIDFromContext r))])]).

Definition writeErrorApp (r : request) (e : AppError) : response :=
  writeError r (Errors.Status e) (Errors.Code e) (Errors.Message e).

Definition not_allowed (r : request) : response :=
  writeError r StatusMethodNotAllowed "method_not_allowed" "method not allowed".

Definition healthz : response := mkResponse StatusOK (JObj [("status", JStr "ok")]).

(** ** Routes *)

Inductive route :=
  | RHealthz | RReadyz | RMetrics | RQuotes | RQuoteByID | RRatesSubscribe | RInternalQuote
  | RReload | RFeeSchedules | RRateSources | RAuditEvents | RNotFound.

(** The patterns of [register]: exact paths, and two subtrees; the redirects
    of the mux are in Http.v. *)
Definition exact_routes : list (string * route) :=
  [("/healthz", RHealthz); ("/readyz", RReadyz); ("/metrics", RMetrics); ("/v1/quotes", RQuotes);
   ("/v1/rates/subscribe", RRatesSubscribe); ("/internal/v1/fee-schedules/reload", RReload);
   ("/v1/fee-schedules", RFeeSchedules); ("/v1/rate-sources", RRateSources);
   ("/v1/audit-events", RAuditEvents)].

Definition register (path : string) : route :=
  match find_first (fun p => String.eqb (fst p) path) exact_routes with
  | Some (_, r) => r
  | None =>
      if HasPrefix path "/v1/quotes/" then RQuoteByID
      else if HasPrefix path "/internal/v1/quotes/" then RInternalQuote
      else RNotFound
  end.

(** ** The server *)

Record Server (U D L : Type) `{Countable U} := mkServer {
  cfg : Config;
  sh : shared U D L;
  pricer : Pricer U D;
  claimTotal : gmap string Z;       (* the claim counter, by result *)
  loadedSchedules : Z;              (* the gauge *)
}.
Arguments mkServer {U D L _ _}.
Arguments cfg {U D L _ _} _.
Arguments sh {U D L _ _} _.
Arguments pricer {U D L _ _} _.
Arguments claimTotal {U D L _ _} _.
Arguments loadedSchedules {U D L _ _} _.

(** The ids of a reseeding and its clock. *)
Record seed_env (U : Type) := mkSeedEnv { se_id : nat -> U; se_now : time }.
Arguments mkSeedEnv {U}.
Arguments se_id {U} _.
Arguments se_now {U} _.

(** What one issued quote consumes: its id and the clock, in program order. *)
Record issue_env (U : Type) := mkIssueEnv {
  ie_id : U;
  ie_since : time;
  ie_reseed : time;
  ie_now : time;
  ie_check : time;
  ie_set : time;
  ie_audit : time;
}.
Arguments mkIssueEnv {U}.
Arguments ie_id {U} _.
Arguments ie_since {U} _.
Arguments ie_reseed {U} _.
Arguments ie_now {U} _.
Arguments ie_check {U} _.
Arguments ie_set {U} _.
Arguments ie_audit {U} _.

Section server.
Context {U D L : Type} `{Countable U} {uu : UuidOps U} {ops : DecimalOps D} {lb : LockBackend L}.
Variable json_parse : string -> option json.
Variable json_first : list read_result -> option json.
Variable json_text : json -> string.
Variable fmt_time : time -> string.
Implicit Types (s : Server U D L) (q : Quote U D) (id : U) (r : request).

Definition set_sh x s : Server U D L := mkServer (cfg s) x (pricer s) (claimTotal s) (loadedSchedules s).

Definition count_claim (result : string) s : Server U D L :=
  mkServer (cfg s) (sh s) (pricer s)
    (<[result := (default 0 (claimTotal s !! result) + 1)%Z]> (claimTotal s)) (loadedSchedules s).

(** ** Start-up *)

Definition seed_rows : list (string * string * Z * Z * string * Z * Z) :=
  [("TIER_1", "BTC", 0, 1000, "BUY", 80, 50); ("TIER_1", "BTC", 1000, 10000, "BUY", 60, 30);
   ("TIER_1", "ETH", 0, 100, "BUY", 90, 50); ("TIER_2", "BTC", 0, 1000, "BUY", 70, 40);
   ("TIER_2", "ETH", 0, 100, "BUY", 75, 40); ("TIER_2", "BTC", 0, 1000, "SELL", 70, 40);
   ("TIER_1", "BTC", 0, 1000, "SELL", 80, 50)]%Z.

Definition seedFeeSchedules (e : seed_env U) (st : Store U D) : Store U D :=
  SetFeeSchedules st
    (imap (fun i '(tier, asset, lo, hi, side, spread, fee) =>
             mkFeeSchedule (se_id e i) tier asset (dec_of_int lo) (dec_of_int hi) side spread "BPS"
               dec_zero fee true (se_now e)) seed_rows).

(** [NewServer]: the pricer indexes the empty store, then the seeded one. *)
Definition NewServer (c : Config) (e : seed_env U) (t_spot : time) (locks : L) : Server U D L :=
  let p := NewPricer NewStore (DefaultSpreadBPS c) in
  let st := seedFeeSchedules e NewStore in
  let '(p, gauge) := ReloadIndex p st in
  mkServer c (mkShared st locks (NewSpotService (MaxStaleAge c) t_spot) NewAuditLog) p ∅ gauge.

Definition readyz r s : response :=
  if negb (IsReady (sh_spot (sh s))) then
    writeError r StatusServiceUnavailable "not_ready" "spot cache cold"
  else if negb (lb_Ready (sh_locks (sh s))) then
    writeError r StatusServiceUnavailable "not_ready" "lock store unreachable"
  else mkResponse StatusOK (JObj [("status", JStr "ready")]).

(** ** Issuing a quote *)

(** The literal both [createQuote] and [refreshQuote] build. *)
Definition new_quote id (now : time) (ttl : duration) (from to amount tier side : string)
    (res : ComputeResult D) : Quote U D :=
  mkQuote id from to amount (dec_to_string (cr_Rate res)) (cr_SpreadBPS res) (dec_to_string (cr_Fee res))
    from (dec_to_string (cr_Total res)) (dec_to_string (cr_CryptoAmount res)) tier side StatusOpen
    (cr_SourceVenue res) now (time_Add now ttl) None "" (cr_Rate res) (cr_Spot res).

Definition lockPayload q (res : ComputeResult D) : string :=
  json_text (JObj [("rate", JStr (dec_to_string (cr_Rate res))); ("from", JStr (From q)); ("to", JStr (To q));
                   ("amount", JStr (Amount q)); ("expires_at", JStr (fmt_time (ExpiresAt q)));
                   ("source_venue", JStr (cr_SourceVenue res))]).

(** Price the request; the spot service keeps what the lookup did to it. *)
Definition price (e : issue_env U) (from to amount tier side : string) s
  : outcome (Server U D L * result (ComputeResult D) string) :=
  '(sp, res) ← Compute (pricer s) (sh_store (sh s)) (sh_spot (sh s)) (ie_since e) (ie_reseed e) from to
                 (fst (parseAmount amount)) tier side;
  mret (set_sh (set_spot sp (sh s)) s, res).

(** Save the row, set its lock, record the event.  The result of [SetNX] is
    not looked at. *)
Definition issue (e : issue_env U) q (res : ComputeResult D) s : Server U D L :=
  let x := sh s in
  let x := set_store (SaveQuote (sh_store x) q) x in
  let x := set_locks (fst (lb_SetNX (ie_check e) (ie_set e) (lockKey (QuoteID q)) (lockPayload q res)
                             (RateLockTTL (cfg s)) (sh_locks x))) x in
  let x := append (ie_audit e) (quote_event "quote.issued" (QuoteID q) q "") x in
  set_sh x s.

Definition createQuote (e : issue_env U) (req : quoteRequest) s
  : outcome (Server U D L * result (Quote U D) AppError) :=
  '(s, res) ← price e (req_From req) (req_To req) (req_Amount req) (req_UserTier req) (req_Side req) s;
  match res with
  | Err _ => mret (s, Err errSpotUnavailable)
  | Ok res =>
      let q := new_quote (ie_id e) (ie_now e) (RateLockTTL (cfg s)) (req_From req) (req_To req) (req_Amount req)
                 (req_UserTier req) (req_Side req) res in
      mret (issue e q res s, Ok q)
  end.

(** [toResponse]. *)
Definition toResponse q : json :=
  JObj ([("quote_id", JStr (uuid_String (QuoteID q))); ("from", JStr (From q)); ("to", JStr (To q));
         ("amount", JStr (Amount q)); ("rate", JStr (Rate_ q)); ("spread_bps", JNum (SpreadBPS q));
         ("fee", JStr (Fee q)); ("fee_currency", JStr (FeeCurrency q)); ("total", JStr (Store.Total q));
         ("crypto_amount", JStr (CryptoAmount q)); ("user_tier", JStr (UserTier q)); ("side", JStr (Side q));
         ("status", JStr (status_string (Store.Status q))); ("source_venue", JStr (SourceVenue q));
         ("created_at", JStr (fmt_time (CreatedAt q))); ("expires_at", JStr (fmt_time (ExpiresAt q)))]
        ++ match ClaimedAt q with Some t => [("claimed_at", JStr (fmt_time t))] | None => [] end
        ++ if String.eqb (ClaimedBy q) "" then [] else [("claimed_by", JStr (ClaimedBy q))]).

(** A quote marshaled as a struct, by the tags of its fields: what a bulk item
    carries.  [LockedRate] and [SpotPrice] are not serialized. *)
Definition quote_json q : json :=
  JObj ([("quote_id", JStr (uuid_String (QuoteID q))); ("from", JStr (From q)); ("to", JStr (To q));
         ("amount", JStr (Amount q)); ("rate", JStr (Rate_ q)); ("spread_bps", JNum (SpreadBPS q));
         ("fee", JStr (Fee q)); ("fee_currency", JStr (FeeCurrency q)); ("total", JStr (Store.Total q));
         ("crypto_amount", JStr (CryptoAmount q)); ("user_tier", JStr (UserTier q)); ("side", JStr (Side q));
         ("status", JStr (status_string (Store.Status q))); ("source_venue", JStr (SourceVenue q));
         ("created_at", JStr (fmt_time (CreatedAt q))); ("expires_at", JStr (fmt_time (ExpiresAt q)))]
        ++ match ClaimedAt q with Some t => [("claimed_at", JStr (fmt_time t))] | None => [] end
        ++ if String.eqb (ClaimedBy q) "" then [] else [("claimed_by", JStr (ClaimedBy q))]).

(** ** POST /v1/quotes *)

Definition singleQuote (e : issue_env U) r (body : string) s : outcome (Server U D L * response) :=
  match json_parse body ≫= unmarshal_request with
  | None => mret (s, writeError r StatusBadRequest "bad_request" "invalid JSON body")
  | Some req =>
      match validateRequest (D := D) req with
      | Some err => mret (s, writeErrorApp r err)
      | None =>
          '(s, res) ← createQuote e req s;
          mret (s, match res with
                   | Err err => writeErrorApp r err
                   | Ok q => mkResponse StatusCreated (toResponse q)
                   end)
      end
  end.

Inductive itemResp := ItemOk q | ItemError (code : string).

Definition itemResp_json (i : itemResp) : json :=
  match i with
  | ItemOk q => JObj [("ok", JBool true); ("quote", quote_json q)]
  | ItemError code => JObj [("ok", JBool false); ("error", JStr code)]
  end.

(** The loop over the items; the environment of an item is its own. *)
Fixpoint bulkItems (es : nat -> issue_env U) (items : list quoteRequest) s
  : outcome (Server U D L * list itemResp) :=
  match items with
  | [] => mret (s, [])
  | it :: rest =>
      '(s, i) ← match validateRequest (D := D) it with
                | Some err => mret (s, ItemError (Errors.Code err))
                | None =>
                    '(s, res) ← createQuote (es 0%nat) it s;
                    mret (s, match res with Err err => ItemError (Errors.Code err) | Ok q => ItemOk q end)
                end;
      '(s, its) ← bulkItems (fun n => es (S n)) rest s;
      mret (s, i :: its)
  end.

Definition bulkQuotes (es : nat -> issue_env U) r (body : string) s : outcome (Server U D L * response) :=
  match json_parse body ≫= unmarshal_bulk with
  | None => mret (s, writeError r StatusBadRequest "bad_request" "invalid JSON body")
  | Some items =>
      if (BulkQuoteMaxItems (cfg s) <? Z.of_nat (length items))%Z then
        mret (s, writeError r StatusBadRequest "too_many_items" "bulk quote exceeds max items")
      else
        '(s, its) ← bulkItems es items s;
        mret (s, mkResponse StatusCreated (JObj [("items", JArr (itemResp_json <$> its))]))
  end.

(** [listQuotes]: [ord] is the order in which the map is visited. *)
Definition listQuotes (ord : list U) s : response :=
  mkResponse StatusOK (JObj [("quotes", JArr (toResponse <$> ListQuotes (sh_store (sh s)) ord))]).

Definition quotesHandler (es : nat -> issue_env U) (ord : list U) r s : outcome (Server U D L * response) :=
  if String.eqb (hr_Method r) "GET" then mret (s, listQuotes ord s)
  else if negb (String.eqb (hr_Method r) "POST") then mret (s, not_allowed r)
  else
    match readBody "" (hr_Body r) with
    | Err _ => mret (s, writeError r StatusBadRequest "bad_request" "could not read body")
    | Ok body =>
        match json_parse body ≫= unmarshal_probe with
        | Some (Some _) => bulkQuotes es r body s
        | _ => singleQuote (es 0%nat) r body s
        end
    end.

(** ** GET /v1/quotes/:id and POST /v1/quotes/:id/refresh *)

Definition shows_expired (now : time) q : bool :=
  bool_decide (Store.Status q = StatusExpired)
  || (bool_decide (Store.Status q = StatusOpen) && time_After now (ExpiresAt q)).

Definition getQuote (now : time) r id s : Server U D L * response :=
  match GetQuote (sh_store (sh s)) id with
  | None => (s, writeErrorApp r errNotFound)
  | Some q =>
      if shows_expired now q then
        (set_sh (fst (update id (set_status StatusExpired) (sh s))) s, writeErrorApp r errExpired)
      else (s, mkResponse StatusOK (toResponse q))
  end.

(** What [refreshQuote] does to the old quote. *)
Definition cancel (t_del t_audit : time) id (old : Quote U D) s : Server U D L :=
  let x := fst (update id (set_status StatusCanceled) (sh s)) in
  let x := set_locks (fst (lb_Del t_del (lockKey id) (sh_locks x))) x in
  set_sh (append t_audit (quote_event "quote.refreshed" id old "") x) s.

Definition refreshQuote (t_del t_audit : time) (e : issue_env U) r id s : outcome (Server U D L * response) :=
  match GetQuote (sh_store (sh s)) id with
  | None => mret (s, writeErrorApp r errNotFound)
  | Some old =>
      let s := cancel t_del t_audit id old s in
      '(s, res) ← price e (From old) (To old) (Amount old) (UserTier old) (Side old) s;
      match res with
      | Err _ => mret (s, writeErrorApp r errSpotUnavailable)
      | Ok res =>
          let nq := new_quote (ie_id e) (ie_now e) (RateLockTTL (cfg s)) (From old) (To old) (Amount old)
                      (UserTier old) (Side old) res in
          mret (issue e nq res s, mkResponse StatusCreated (toResponse nq))
      end
  end.

(** The path after a prefix, split at its first slash. *)
Definition path_parts (prefix path : string) : list string := SplitN2 (strings_TrimPrefix path prefix) "/"%char.

Definition parse_id (parts : list string) : string + U :=
  match parts with
  | [] => inl "quote id required"
  | p :: _ =>
      if String.eqb p "" then inl "quote id required"
      else match uuid_Parse p with Some id => inr id | None => inl "invalid quote id" end
  end.

Definition quoteByIDHandler (now t_del t_audit : time) (e : issue_env U) r s
  : outcome (Server U D L * response) :=
  let parts := path_parts "/v1/quotes/" (hr_Path r) in
  match parse_id parts with
  | inl msg => mret (s, writeError r StatusNotFound "not_found" msg)
  | inr id =>
      if bool_decide (tail parts = ["refresh"]) then
        if negb (String.eqb (hr_Method r) "POST") then mret (s, not_allowed r)
        else refreshQuote t_del t_audit e r id s
      else if negb (String.eqb (hr_Method r) "GET") then mret (s, not_allowed r)
      else mret (getQuote now r id s)
  end.

(** ** POST /internal/v1/quotes/:id/claim *)

Definition claim_response r (res : ClaimResult U D) : response :=
  let reason := res_Reason res in
  if String.eqb reason "missing" then writeError r StatusNotFound "not_found" "quote not found"
  else if String.eqb reason "EXPIRED" then writeError r StatusGone "EXPIRED" "quote expired"
  else writeError r StatusConflict reason ("claim rejected: " +:+ reason).

(** A successful claim always carries a quote; dereferencing a nil one would
    panic. *)
Definition internalQuoteHandler (ct : claim_clock) r s : outcome (Server U D L * response) :=
  let parts := path_parts "/internal/v1/quotes/" (hr_Path r) in
  match parse_id parts with
  | inl msg => mret (s, writeError r StatusNotFound "not_found" msg)
  | inr id =>
      if negb (bool_decide (tail parts = ["claim"])) then
        mret (s, writeError r StatusNotFound "not_found" "unknown route")
      else if negb (String.eqb (hr_Method r) "POST") then mret (s, not_allowed r)
      else
        match json_first (hr_Body r) ≫= unmarshal_claim with
        | None => mret (s, writeError r StatusBadRequest "bad_request" "invalid JSON body")
        | Some claimedBy =>
            if bool_decide (TrimSpace (runes claimedBy) = []) then
              mret (s, writeError r StatusBadRequest "bad_request" "claimed_by required")
            else
              '(x, res) ← ClaimService_Claim (SlippageToleranceBPS (cfg s)) ct id claimedBy (sh s);
              let s := set_sh x s in
              if negb (String.eqb (res_Reason res) "") then
                mret (count_claim (res_Reason res) s, claim_response r res)
              else
                match res_Quote res with
                | Some q => mret (count_claim "ok" s, mkResponse StatusOK (toResponse q))
                | None => Panic "invalid memory address or nil pointer dereference"
                end
        end
  end.

(** ** Fee schedules, rate sources, audit events *)

Definition feeSchedulesReload (e : seed_env U) r s : Server U D L * response :=
  if negb (String.eqb (hr_Method r) "POST") then (s, not_allowed r)
  else
    let st := seedFeeSchedules e (sh_store (sh s)) in
    let '(p, gauge) := ReloadIndex (pricer s) st in
    (mkServer (cfg s) (set_store st (sh s)) p (claimTotal s) gauge,
     mkResponse StatusOK (JObj [("status", JStr "reloaded")])).

Definition schedule_json (f : FeeSchedule U D) : json :=
  JObj [("id", JStr (uuid_String (fs_ID f))); ("user_tier", JStr (fs_UserTier f)); ("asset", JStr (fs_Asset f));
        ("size_band_min", JStr (dec_to_string (fs_SizeBandMin f)));
        ("size_band_max", JStr (dec_to_string (fs_SizeBandMax f))); ("side", JStr (fs_Side f));
        ("spread_bps", JNum (fs_SpreadBPS f)); ("fee_type", JStr (fs_FeeType f));
        ("fee_amount", JStr (dec_to_string (fs_FeeAmount f))); ("fee_bps", JNum (fs_FeeBPS f));
        ("enabled", JBool (fs_Enabled f)); ("updated_at", JStr (fmt_time (fs_UpdatedAt f)))].

Definition feeSchedulesHandler r s : response :=
  if negb (String.eqb (hr_Method r) "GET") then not_allowed r
  else mkResponse StatusOK (JObj [("fee_schedules", JArr (schedule_json <$> FeeSchedules (sh_store (sh s))))]).

Definition source_json (x : RateSource U) : json :=
  JObj [("name", JStr (rs_Name x)); ("priority", JNum (rs_Priority x)); ("enabled", JBool (rs_Enabled x));
        ("endpoint_ref", JStr (rs_EndpointRef x)); ("weight", JNum (rs_Weight x));
        ("created_at", JStr (fmt_time (rs_CreatedAt x))); ("updated_at", JStr (fmt_time (rs_UpdatedAt x)))].

Definition rateSourcesHandler (ord : list string) r s : response :=
  if negb (String.eqb (hr_Method r) "GET") then not_allowed r
  else mkResponse StatusOK (JObj [("rate_sources", JArr (source_json <$> RateSources (sh_store (sh s)) ord))]).

Definition event_json (e : AuditEvent U) : json :=
  JObj ([("type", JStr (ev_Type e)); ("quote_id", JStr (uuid_String (ev_QuoteID e)));
         ("user_tier", JStr (ev_UserTier e)); ("source_venue", JStr (ev_SourceVenue e))]
        ++ (if String.eqb (ev_Reason e) "" then [] else [("reason", JStr (ev_Reason e))])
        ++ [("at", JStr (fmt_time (ev_At e)))]).

Definition auditEventsHandler r s : response :=
  if negb (String.eqb (hr_Method r) "GET") then not_allowed r
  else mkResponse StatusOK (JObj [("events", JArr (event_json <$> Events (sh_audit (sh s))))]).

(** ** Background jobs *)

(** One quote of the sweep's listing. *)
Definition sweep_one (now : time) (t_audit : U -> time) (s : Server U D L) q : Server U D L :=
  if bool_decide (Store.Status q = StatusOpen) && time_After now (ExpiresAt q) then
    let x := fst (update (QuoteID q) (set_status StatusExpired) (sh s)) in
    set_sh (append (t_audit (QuoteID q)) (quote_event "quote.expired" (QuoteID q) q "") x) s
  else s.

Definition sweepExpired (now : time) (t_audit : U -> time) (ord : list U) s : Server U D L :=
  fold_left (sweep_one now t_audit) (ListQuotes (sh_store (sh s)) ord) s.

(** The tick of [startFeeScheduleRefresh]: the store is seeded again, the
    pricer's index is not rebuilt. *)
Definition refreshFeeSchedules (e : seed_env U) s : Server U D L :=
  set_sh (set_store (seedFeeSchedules e (sh_store (sh s))) (sh s)) s.

(** ** What a request whose handler panics leaves behind

    Pricing and the slippage guard may panic, both after the rate has been
    looked up; the server stays up, with what the handler had done by then. *)

Definition lookup_left (t_since t_reseed : time) (from to : string) s : Server U D L :=
  set_sh (set_spot (fst (Get0 t_since t_reseed from to (sh_spot (sh s)))) (sh s)) s.

Definition price_left (e : issue_env U) (from to : string) s : Server U D L :=
  lookup_left (ie_since e) (ie_reseed e) from to s.

(** The items before the one that panics are issued. *)
Fixpoint bulkItems_left (es : nat -> issue_env U) (items : list quoteRequest) s : Server U D L :=
  match items with
  | [] => s
  | it :: rest =>
      match validateRequest (D := D) it with
      | Some _ => bulkItems_left (fun n => es (S n)) rest s
      | None =>
          match createQuote (es 0%nat) it s with
          | Ret (s, _) => bulkItems_left (fun n => es (S n)) rest s
          | Panic _ => price_left (es 0%nat) (req_From it) (req_To it) s
          end
      end
  end.

Definition quotesHandler_left (es : nat -> issue_env U) r s : Server U D L :=
  match readBody "" (hr_Body r) with
  | Err _ => s
  | Ok body =>
      match json_parse body ≫= unmarshal_probe with
      | Some (Some _) =>
          match json_parse body ≫= unmarshal_bulk with Some items => bulkItems_left es items s | None => s end
      | _ =>
          match json_parse body ≫= unmarshal_request with
          | Some req => price_left (es 0%nat) (req_From req) (req_To req) s
          | None => s
          end
      end
  end.

(** The old quote is canceled. *)
Definition refreshQuote_left (t_del t_audit : time) (e : issue_env U) id s : Server U D L :=
  match GetQuote (sh_store (sh s)) id with
  | None => s
  | Some old => price_left e (From old) (To old) (cancel t_del t_audit id old s)
  end.

Definition quoteByIDHandler_left (t_del t_audit : time) (e : issue_env U) r s : Server U D L :=
  match parse_id (path_parts "/v1/quotes/" (hr_Path r)) with
  | inl _ => s
  | inr id => refreshQuote_left t_del t_audit e id s
  end.

(** The lock is taken. *)
Definition internalQuoteHandler_left (ct : claim_clock) r s : Server U D L :=
  match parse_id (path_parts "/internal/v1/quotes/" (hr_Path r)) with
  | inl _ => s
  | inr id => set_sh (claim_left ct id (sh s)) s
  end.

End server.
