(* ===== verification/Tracing.v ===== *)
(** * Tracing: spans and tracers (internal/tracing.go) and where requests open them

    A [*recordingSpan] is shared by the tracer that collected it, by the code
    that runs under it and by every snapshot taken: spans live in a heap and are
    referred to by their address.  The global tracer is a variable that tests
    replace.  The value of an attribute is [any]: its type is a parameter.  The
    mutexes make each operation atomic, which it is here. *)

From S2P Require Import Prelude GoStrings Utf8 Decimal RefDecimal Errors Json Store FeeIndex Lru Spot Pricer Config AuditTrail Locks Claim Server.

Section tracing.
Context {V : Type}.

(** [attrs] is a nil map until the first attribute; [endedAt] is the zero time
    until [End]. *)
Record recordingSpan := mkSpan {
  sp_name : string;
  sp_attrs : option (gmap string V);
  sp_events : list string;
  sp_startedAt : time;
  sp_endedAt : time;
}.

Inductive Span := noopSpan | SpanAt (loc : nat).

(** The recording tracers, each the addresses it collected, by identity. *)
Inductive Tracer := noopTracer | recordingTracer (id : nat).

Record tracing := mkTracing {
  heap : list recordingSpan;             (* by address *)
  collected : gmap nat (list nat);       (* the spans of each recording tracer *)
  globalTracer : Tracer;
}.

Definition newTracing : tracing := mkTracing [] ∅ noopTracer.

Definition setTracer (t : Tracer) (st : tracing) : tracing := mkTracing (heap st) (collected st) t.

(** [Start]: the context is handed back as it is. *)
Definition Start {C} (t : Tracer) (now : time) (ctx : C) (name : string) (st : tracing) : tracing * (C * Span) :=
  match t with
  | noopTracer => (st, (ctx, noopSpan))
  | recordingTracer id =>
      let loc := length (heap st) in
      (mkTracing (heap st ++ [mkSpan name None [] now zero_time])
         (<[id := default [] (collected st !! id) ++ [loc]]> (collected st)) (globalTracer st),
       (ctx, SpanAt loc))
  end.

Definition startSpan {C} (now : time) (ctx : C) (name : string) (st : tracing) : tracing * (C * Span) :=
  Start (globalTracer st) now ctx name st.

Definition on_span (f : recordingSpan -> recordingSpan) (s : Span) (st : tracing) : tracing :=
  match s with
  | noopSpan => st
  | SpanAt loc => mkTracing (alter f loc (heap st)) (collected st) (globalTracer st)
  end.

Definition End (now : time) : Span -> tracing -> tracing :=
  on_span (fun s => mkSpan (sp_name s) (sp_attrs s) (sp_events s) (sp_startedAt s) now).

Definition SetAttribute (k : string) (v : V) : Span -> tracing -> tracing :=
  on_span (fun s => mkSpan (sp_name s) (Some (<[k := v]> (default ∅ (sp_attrs s)))) (sp_events s)
                      (sp_startedAt s) (sp_endedAt s)).

Definition AddEvent (name : string) : Span -> tracing -> tracing :=
  on_span (fun s => mkSpan (sp_name s) (sp_attrs s) (sp_events s ++ [name]) (sp_startedAt s) (sp_endedAt s)).

(** [spansSnapshot]: the slice is copied, the spans are not. *)
Definition spansSnapshot (id : nat) (st : tracing) : list nat := default [] (collected st !! id).

(** ** Code that runs under a span

    A computation takes the tracing state and returns it whatever happens: a
    panic unwinds the stack, deferred calls run, and the state they leave is
    what is left. *)

Definition traced (A : Type) : Type := tracing -> tracing * outcome A.

Definition tret {A} (a : A) : traced A := fun st => (st, Ret a).
Definition tlift {A} (o : outcome A) : traced A := fun st => (st, o).
Definition tbind {A B} (m : traced A) (k : A -> traced B) : traced B := fun st =>
  match m st with
  | (st, Ret a) => k a st
  | (st, Panic w) => (st, Panic w)
  end.
Definition tdo (f : tracing -> tracing) : traced unit := fun st => (f st, Ret tt).

(** [ctx, span := startSpan(ctx, name); defer span.End(); ...] *)
Definition with_span {A} (t0 t1 : time) (name : string) (k : Span -> traced A) : traced A := fun st =>
  let '(st, (_, sp)) := startSpan t0 tt name st in
  let '(st, o) := k sp st in
  (End t1 sp st, o).

End tracing.
Arguments recordingSpan V : clear implicits.
Arguments tracing V : clear implicits.
Arguments traced V A : clear implicits.

Declare Scope traced_scope.
Delimit Scope traced_scope with traced.
Notation "x ⇐ m ; k" := (tbind m (fun x => k)) (at level 20, m at level 100, k at level 200, right associativity) : traced_scope.
Notation "' p ⇐ m ; k" := (tbind m (fun x => match x with p => k end))
  (at level 20, p pattern, m at level 100, k at level 200, right associativity) : traced_scope.

(** ** The spans of the handlers

    The handlers of Server.v with the spans the code opens around them.  An
    attribute is a string: the id of a quote is given as its text, except for
    the [uuid.UUID] of [singleQuote]. *)

Inductive attribute (U : Type) := AttrText (s : string) | AttrUUID (id : U).
Arguments AttrText {U}.
Arguments AttrUUID {U}.

Section handlers.
Context {U D L : Type} `{Countable U} {uu : UuidOps U} {ops : DecimalOps D} {lb : LockBackend L}.
Variable json_parse : string -> option json.
Variable json_first : list read_result -> option json.
Variable json_text : json -> string.
Variable fmt_time : time -> string.
Implicit Types (s : Server U D L) (q : Quote U D) (id : U) (r : request).
(* the readings of the clock by the spans: when the i-th one starts and ends *)
Variable clock : nat -> time * time.
Local Open Scope traced_scope.

Abbreviation traced := (traced (attribute U)).

Definition span_at {A} (i : nat) (name : string) (k : Span -> traced A) : traced A :=
  with_span (fst (clock i)) (snd (clock i)) name k.

Definition attr (k : string) (v : attribute U) (sp : Span) : traced unit := tdo (SetAttribute k v sp).

(** [createQuote]. *)
Definition createQuote_traced (i : nat) (e : issue_env U) (req : quoteRequest) s
  : traced (Server U D L * result (Quote U D) AppError) :=
  span_at i "Pricer.Compute" (fun sp =>
    x ⇐ tlift (createQuote json_text fmt_time e req s);
    match snd x with
    | Ok q => _ ⇐ attr "source_venue" (AttrText (SourceVenue q)) sp; tret x
    | Err _ => tret x
    end).

(** [singleQuote]. *)
Definition singleQuote_traced (e : issue_env U) r (body : string) s : traced (Server U D L * response) :=
  span_at 0 "POST /v1/quotes" (fun sp =>
    match json_parse body ≫= unmarshal_request with
    | None => tret (s, writeError r StatusBadRequest "bad_request" "invalid JSON body")
    | Some req =>
        match validateRequest (D := D) req with
        | Some err => tret (s, writeErrorApp r err)
        | None =>
            x ⇐ createQuote_traced 1 e req s;
            match snd x with
            | Err err => tret (fst x, writeErrorApp r err)
            | Ok q =>
                _ ⇐ attr "quote_id" (AttrUUID (QuoteID q)) sp;
                tret (fst x, mkResponse StatusCreated (toResponse fmt_time q))
            end
        end
    end).

(** The loop of [bulkQuotes]; item [i] has span [S i]. *)
Fixpoint bulkItems_traced (i : nat) (es : nat -> issue_env U) (items : list quoteRequest) s
  : traced (Server U D L * list (itemResp (U := U) (D := D))) :=
  match items with
  | [] => tret (s, [])
  | it :: rest =>
      x ⇐ match validateRequest (D := D) it with
           | Some err => tret (s, ItemError (Errors.Code err))
           | None =>
               y ⇐ createQuote_traced (S i) (es 0%nat) it s;
               tret (fst y, match snd y with Err err => ItemError (Errors.Code err) | Ok q => ItemOk q end)
           end;
      z ⇐ bulkItems_traced (S i) (fun n => es (S n)) rest (fst x);
      tret (fst z, snd x :: snd z)
  end.

Definition bulkQuotes_traced (es : nat -> issue_env U) r (body : string) s : traced (Server U D L * response) :=
  span_at 0 "POST /v1/quotes bulk" (fun sp =>
    match json_parse body ≫= unmarshal_bulk with
    | None => tret (s, writeError r StatusBadRequest "bad_request" "invalid JSON body")
    | Some items =>
        if (BulkQuoteMaxItems (cfg s) <? Z.of_nat (length items))%Z then
          tret (s, writeError r StatusBadRequest "too_many_items" "bulk quote exceeds max items")
        else
          x ⇐ bulkItems_traced 0 es items s;
          tret (fst x, mkResponse StatusCreated (JObj [("items", JArr (itemResp_json fmt_time <$> snd x))]))
    end).

(** [listQuotes], [getQuote] and [refreshQuote]. *)
Definition listQuotes_traced (ord : list U) s : traced response :=
  span_at 0 "GET /v1/quotes" (fun _ => tret (listQuotes fmt_time ord s)).

Definition getQuote_traced (now : time) r id s : traced (Server U D L * response) :=
  span_at 0 "GET /v1/quotes/:id" (fun sp =>
    _ ⇐ attr "quote_id" (AttrText (uuid_String id)) sp;
    tret (getQuote fmt_time now r id s)).

Definition refreshQuote_traced (td ta : time) (e : issue_env U) r id s : traced (Server U D L * response) :=
  span_at 0 "POST /v1/quotes/:id/refresh" (fun sp =>
    _ ⇐ attr "quote_id" (AttrText (uuid_String id)) sp;
    x ⇐ tlift (refreshQuote json_text fmt_time td ta e r id s);
    if (rsp_status (snd x) =? StatusCreated)%Z
    then _ ⇐ attr "new_quote_id" (AttrText (uuid_String (ie_id e))) sp; tret x
    else tret x).

(** [internalQuoteHandler]: the span is opened after the checks on the
    request; the id is parsed by then. *)
Definition claim_traced (ct : claim_clock) r s : traced (Server U D L * response) :=
  match parse_id (U := U) (path_parts "/internal/v1/quotes/" (hr_Path r)) with
  | inr id =>
      if bool_decide (tail (path_parts "/internal/v1/quotes/" (hr_Path r)) = ["claim"]) && String.eqb (hr_Method r) "POST" &&
         match json_first (hr_Body r) ≫= unmarshal_claim with
         | Some by_ => negb (bool_decide (Utf8.TrimSpace (runes by_) = []))
         | None => false
         end
      then
        span_at 0 "POST /internal/v1/quotes/:id/claim" (fun sp =>
          _ ⇐ attr "quote_id" (AttrText (uuid_String id)) sp;
          tlift (internalQuoteHandler json_first fmt_time ct r s))
      else tlift (internalQuoteHandler json_first fmt_time ct r s)
  | inl _ => tlift (internalQuoteHandler json_first fmt_time ct r s)
  end.

(** The dispatchers. *)
Definition quotesHandler_traced (es : nat -> issue_env U) (ord : list U) r s : traced (Server U D L * response) :=
  if String.eqb (hr_Method r) "GET" then x ⇐ listQuotes_traced ord s; tret (s, x)
  else if negb (String.eqb (hr_Method r) "POST") then tret (s, not_allowed r)
  else
    match readBody "" (hr_Body r) with
    | Err _ => tret (s, writeError r StatusBadRequest "bad_request" "could not read body")
    | Ok body =>
        match json_parse body ≫= unmarshal_probe with
        | Some (Some _) => bulkQuotes_traced es r body s
        | _ => singleQuote_traced (es 0%nat) r body s
        end
    end.

Definition quoteByIDHandler_traced (now t_del t_audit : time) (e : issue_env U) r s
  : traced (Server U D L * response) :=
  let parts := path_parts "/v1/quotes/" (hr_Path r) in
  match parse_id parts with
  | inl msg => tret (s, writeError r StatusNotFound "not_found" msg)
  | inr id =>
      if bool_decide (tail parts = ["refresh"]) then
        if negb (String.eqb (hr_Method r) "POST") then tret (s, not_allowed r)
        else refreshQuote_traced t_del t_audit e r id s
      else if negb (String.eqb (hr_Method r) "GET") then tret (s, not_allowed r)
      else getQuote_traced now r id s
  end.

(** ** Tracing changes no answer, and every span is span_closed *)

(** A span whose two readings of the clock are those of one [defer]. *)
Definition span_closed (x : recordingSpan (attribute U)) : Prop :=
  exists i, sp_startedAt x = fst (clock i) /\ sp_endedAt x = snd (clock i).

(** The spans in [live] are being worked on. *)
Definition valid (live : list nat) (st : tracing (attribute U)) : Prop := Forall (fun l => l < length (heap st))%nat live.

Record tidy (live : list nat) (st st' : tracing (attribute U)) : Prop := {
  td_tracer : globalTracer st' = globalTracer st;
  td_length : (length (heap st) <= length (heap st'))%nat;
  td_old l x : heap st !! l = Some x -> l ∉ live -> heap st' !! l = Some x;
  td_live l x : heap st !! l = Some x -> l ∈ live ->
    exists x', heap st' !! l = Some x' /\ sp_startedAt x' = sp_startedAt x /\ sp_endedAt x' = sp_endedAt x;
  td_new l x : heap st' !! l = Some x -> (length (heap st) <= l)%nat -> span_closed x;
  td_noop : globalTracer st = noopTracer -> live = [] -> heap st' = heap st /\ collected st' = collected st;
}.

(** The computation answers [o] and is tidy. *)
Definition runs {A} (live : list nat) (m : traced A) (o : outcome A) : Prop :=
  forall st, valid live st -> snd (m st) = o /\ tidy live st (fst (m st)).

Lemma tidy_refl live st : tidy live st st.
Proof.
  split; try done.
  - intros l x Hx _. by exists x.
  - intros l x Hx%lookup_lt_Some Hl. lia.
Qed.

Lemma tidy_trans live st1 st2 st3 : tidy live st1 st2 -> tidy live st2 st3 -> tidy live st1 st3.
Proof.
  intros [t1 l1 o1 v1 n1 z1] [t2 l2 o2 v2 n2 z2]. split; [congruence | lia | | | |].
  - intros l x Hx Hl. apply o2; [by apply o1 | done].
  - intros l x Hx Hl. destruct (v1 l x Hx Hl) as (x2 & Hx2 & E1 & E2).
    destruct (v2 l x2 Hx2 Hl) as (x3 & Hx3 & E3 & E4). exists x3. split; [done |]. split; congruence.
  - intros l x Hx Hl. destruct (decide (length (heap st2) <= l)%nat) as [Hge | Hlt]; [by apply (n2 l x) |].
    destruct (lookup_lt_is_Some_2 (heap st2) l) as [y Hy]; [lia |].
    assert (span_closed y) as [i [E1 E2]] by by apply (n1 l y).
    destruct (decide (l ∈ live)) as [Hin | Hin].
    + destruct (v2 l y Hy Hin) as (x' & Hx' & E3 & E4). rewrite Hx in Hx'. injection Hx' as <-. exists i. split; congruence.
    + pose proof (o2 l y Hy Hin) as Hx'. rewrite Hx in Hx'. injection Hx' as ->. by exists i.
  - intros Hn Hl. destruct (z1 Hn Hl) as [E1 E2]. destruct z2 as [E3 E4]; [congruence | done |]. split; congruence.
Qed.

Lemma runs_lift {A} live (o : outcome A) : runs live (tlift o) o.
Proof. intros st _. split; [done | apply tidy_refl]. Qed.

Lemma runs_ret {A} live (a : A) : runs live (tret a) (Ret a).
Proof. intros st _. split; [done | apply tidy_refl]. Qed.

Lemma runs_bind {A B} live (m : traced A) (k : A -> traced B) o f :
  runs live m o -> (forall a, o = Ret a -> runs live (k a) (f a)) -> runs live (tbind m k) (o ≫= f).
Proof.
  intros Hm Hk st Hv. unfold tbind. destruct (Hm st Hv) as [Ho Ht]. destruct (m st) as [st1 o1]. cbn in *. subst o1.
  destruct o as [a | w]; [| done]. assert (valid live st1) as Hv1.
  { eapply list.Forall_impl; [exact Hv |]. intros l Hl. cbn in Hl. pose proof (td_length _ _ _ Ht). lia. }
  destruct (Hk a eq_refl st1 Hv1) as [Ho2 Ht2]. split; [done |]. by eapply tidy_trans.
Qed.

(** Working on a live span. *)
Definition span_live (sp : Span) (live : list nat) : Prop := match sp with noopSpan => True | SpanAt l => l ∈ live end.

Lemma runs_attr live k v sp : span_live sp live -> runs live (attr k v sp) (Ret tt).
Proof.
  intros Hs st Hv. split; [done |]. destruct sp as [| loc]; [apply tidy_refl |]. cbn [fst attr tdo SetAttribute on_span].
  split; cbn [heap globalTracer collected]; rewrite ?length_alter; try done.
  - intros l x Hx Hl. rewrite list_lookup_alter_ne; [done |]. intros <-. by apply Hl.
  - intros l x Hx Hl. destruct (decide (loc = l)) as [<- | Hne].
    + rewrite list_lookup_alter_eq, Hx. cbn. by eexists.
    + rewrite list_lookup_alter_ne by done. by exists x.
  - intros l x Hx%lookup_lt_Some Hl. rewrite length_alter in Hx. lia.
  - intros _ ->. by apply elem_of_nil in Hs.
Qed.

(** Entering and leaving a span. *)
Lemma runs_span {A} live i name (k : Span -> traced A) o :
  (forall sp live', span_live sp live' -> (live' = live \/ exists l, live' = l :: live) -> runs live' (k sp) o) ->
  runs live (span_at i name k) o.
Proof.
  intros Hk st Hv. unfold span_at, with_span, startSpan, Start. destruct (globalTracer st) as [| id] eqn:Hg.
  { destruct (Hk noopSpan live I (or_introl eq_refl) st Hv) as [Ho Ht]. by destruct (k noopSpan st). }
  set (loc := length (heap st)). set (st1 := mkTracing _ _ _).
  assert (length (heap st1) = S loc) as Hlen by (subst st1; cbn; rewrite length_app; cbn; lia).
  assert (valid (loc :: live) st1) as Hv1.
  { constructor; [lia |]. eapply list.Forall_impl; [exact Hv |]. intros l Hl. cbn in Hl. lia. }
  destruct (Hk (SpanAt loc) (loc :: live) ltac:(by left) (or_intror (ex_intro _ loc eq_refl)) st1 Hv1) as [Ho Ht].
  destruct (k (SpanAt loc) st1) as [st2 o2]. cbn [fst snd] in *. split; [done |].
  destruct Ht as [t1 l1 o1 v1 n1 _]. cbn [End on_span].
  split; cbn [heap globalTracer collected]; rewrite ?length_alter; [by rewrite t1 | lia | | | | congruence].
  - intros l x Hx Hl. assert (l < loc)%nat as Hlt by by eapply lookup_lt_Some.
    rewrite list_lookup_alter_ne by lia. apply o1; [subst st1; cbn; by rewrite lookup_app_l |].
    intros [-> | Hin]%elem_of_cons; [lia | done].
  - intros l x Hx Hl. assert (l < loc)%nat as Hlt by by eapply lookup_lt_Some.
    rewrite list_lookup_alter_ne by lia. apply v1; [subst st1; cbn; by rewrite lookup_app_l | by right].
  - intros l x Hx Hl. destruct (decide (loc = l)) as [<- | Hne].
    + destruct (v1 loc (mkSpan name None [] (fst (clock i)) zero_time)) as (x' & Hx' & Hst & _).
      * subst st1. cbn. rewrite lookup_app_r by lia. by rewrite Nat.sub_diag.
      * by left.
      * rewrite list_lookup_alter_eq, Hx' in Hx. injection Hx as <-. by exists i.
    + rewrite list_lookup_alter_ne in Hx by done. apply (n1 l x Hx). lia.
Qed.

Lemma runs_then {A B} live (m : traced A) (k : A -> traced B) o f o' :
  runs live m o -> (forall a, o = Ret a -> runs live (k a) (f a)) -> o ≫= f = o' -> runs live (tbind m k) o'.
Proof. intros Hm Hk <-. by apply runs_bind. Qed.

(** An attribute, then the rest. *)
Lemma runs_attr_then {B} live k v sp (m : traced B) o :
  span_live sp live -> runs live m o -> runs live (tbind (attr k v sp) (fun _ => m)) o.
Proof. intros Hs Hm. by eapply (runs_then _ _ _ (Ret tt) (fun _ => o)); [by apply runs_attr | |]. Qed.

(** A pass over what was computed. *)
Lemma runs_after {A} live (m : traced A) (k : A -> traced A) o :
  runs live m o -> (forall a, runs live (k a) (Ret a)) -> runs live (tbind m k) o.
Proof. intros Hm Hk. eapply runs_then; [exact Hm | intros a _; apply Hk |]. by destruct o. Qed.

Lemma createQuote_runs live i e req s :
  runs live (createQuote_traced i e req s) (createQuote json_text fmt_time e req s).
Proof.
  apply runs_span. intros sp live' Hs _. apply runs_after; [apply runs_lift |]. intros [s' [q | err]]; cbn [snd].
  - apply runs_attr_then; [done | apply runs_ret].
  - apply runs_ret.
Qed.

Lemma singleQuote_runs live e r body s :
  runs live (singleQuote_traced e r body s) (singleQuote json_parse json_text fmt_time e r body s).
Proof.
  apply runs_span. intros sp live' Hs _. unfold singleQuote.
  destruct (json_parse body ≫= unmarshal_request) as [req |]; [| apply runs_ret].
  destruct (validateRequest req) as [err |]; [apply runs_ret |].
  eapply runs_bind; [apply createQuote_runs |]. intros [s' [q | err]] _; cbn [fst snd]; [| apply runs_ret].
  apply runs_attr_then; [done | apply runs_ret].
Qed.

Lemma bulkItems_runs live items : forall i es s,
  runs live (bulkItems_traced i es items s) (bulkItems json_text fmt_time es items s).
Proof.
  induction items as [| it items IH]; intros i es s; cbn [bulkItems_traced bulkItems]; [apply runs_ret |].
  eapply runs_bind.
  - destruct (validateRequest it) as [err |]; [apply runs_ret |].
    eapply runs_bind; [apply createQuote_runs |]. intros [s' res] _. apply runs_ret.
  - intros [s1 x] _. eapply runs_bind; [apply IH |]. intros [s2 its] _. apply runs_ret.
Qed.

Lemma bulkQuotes_runs live es r body s :
  runs live (bulkQuotes_traced es r body s) (bulkQuotes json_parse json_text fmt_time es r body s).
Proof.
  apply runs_span. intros sp live' Hs _. unfold bulkQuotes.
  destruct (json_parse body ≫= unmarshal_bulk) as [items |]; [| apply runs_ret].
  destruct (_ <? _)%Z; [apply runs_ret |]. eapply runs_bind; [apply bulkItems_runs |]. intros [s' its] _. apply runs_ret.
Qed.

Lemma quotesHandler_runs live es ord r s :
  runs live (quotesHandler_traced es ord r s) (quotesHandler json_parse json_text fmt_time es ord r s).
Proof.
  unfold quotesHandler_traced, quotesHandler. destruct (String.eqb _ _).
  - eapply (runs_then _ _ _ (Ret (listQuotes fmt_time ord s))); [| intros x _; apply runs_ret | done].
    apply runs_span. intros. apply runs_ret.
  - destruct (negb _); [apply runs_ret |]. destruct (readBody _ _) as [body |]; [| apply runs_ret].
    destruct (json_parse body ≫= unmarshal_probe) as [[items |] |]; auto using bulkQuotes_runs, singleQuote_runs.
Qed.

Lemma quoteByIDHandler_runs live now td ta e r s :
  runs live (quoteByIDHandler_traced now td ta e r s) (quoteByIDHandler json_text fmt_time now td ta e r s).
Proof.
  unfold quoteByIDHandler_traced, quoteByIDHandler. destruct (parse_id _) as [msg | id]; [apply runs_ret |].
  case_bool_decide; (destruct (negb _); [apply runs_ret |]); apply runs_span; intros sp live' Hs _;
    (apply runs_attr_then; [done |]); [| apply runs_ret].
  apply runs_after; [apply runs_lift |]. intros [s' rsp]. destruct (_ =? _)%Z; [| apply runs_ret].
  apply runs_attr_then; [done | apply runs_ret].
Qed.

Lemma claim_runs live ct r s : runs live (claim_traced ct r s) (internalQuoteHandler json_first fmt_time ct r s).
Proof.
  unfold claim_traced. destruct (parse_id _) as [msg | id]; [apply runs_lift |].
  destruct (_ && _); [| apply runs_lift]. apply runs_span. intros sp live' Hs _.
  apply runs_attr_then; [done | apply runs_lift].
Qed.

(** C17: tracing changes nothing and loses nothing.  With any tracer installed,
    the traced handlers give the answers and the states of the handlers
    without tracing, panics included; no span of another request is touched;
    every span a request starts has been ended when it returns or panics, at
    the clock readings of its own defer; and with the no-op tracer nothing is
    recorded at all. *)
Theorem tracing_is_transparent (st : tracing (attribute U)) es ord now td ta e ct r s :
  let spec {A} (m : traced A) (o : outcome A) :=
    snd (m st) = o /\
    (forall l x, heap st !! l = Some x -> heap (fst (m st)) !! l = Some x) /\
    (forall l x, heap (fst (m st)) !! l = Some x -> (length (heap st) <= l)%nat -> span_closed x) /\
    (globalTracer st = noopTracer -> heap (fst (m st)) = heap st /\ collected (fst (m st)) = collected st) in
  spec (quotesHandler_traced es ord r s) (quotesHandler json_parse json_text fmt_time es ord r s) /\
  spec (quoteByIDHandler_traced now td ta e r s) (quoteByIDHandler json_text fmt_time now td ta e r s) /\
  spec (claim_traced ct r s) (internalQuoteHandler json_first fmt_time ct r s).
Proof.
  assert (forall A (m : traced A) o, runs [] m o -> snd (m st) = o /\
    (forall l x, heap st !! l = Some x -> heap (fst (m st)) !! l = Some x) /\
    (forall l x, heap (fst (m st)) !! l = Some x -> (length (heap st) <= l)%nat -> span_closed x) /\
    (globalTracer st = noopTracer -> heap (fst (m st)) = heap st /\ collected (fst (m st)) = collected st)) as Hspec.
  { intros A m o Hm. destruct (Hm st (Forall_nil_2 _)) as [Ho [t1 l1 o1 v1 n1 z1]]. split; [done |].
    split; [| split; [done | auto]]. intros l x Hx. apply o1; [done | apply not_elem_of_nil]. }
  cbv zeta. split; [| split].
  - exact (Hspec _ _ _ (quotesHandler_runs [] es ord r s)).
  - exact (Hspec _ _ _ (quoteByIDHandler_runs [] now td ta e r s)).
  - exact (Hspec _ _ _ (claim_runs [] ct r s)).
Qed.

End handlers.
