(* ===== verification/Http.v ===== *)
(** * Http: the service as it is served (internal/server.go, metrics.go, ws.go)

    [RunWithConfigCtx] serves the mux of [register] behind the request-id
    middleware, behind the metrics middleware; [run] serves it behind the first
    only.  This file composes the handlers of Server.v and the WebSocket
    handler of Ws.v in the same way: routing as [http.ServeMux] does it (path
    cleaning and subtree redirects included), the two middlewares, and what
    each leaves of the response writer.  The outermost wrapper, otelhttp, is
    third-party code and left out; [promhttp_Handler] is a parameter.  A path
    is the decoded one, which is also the escaped one when no byte of it needs
    escaping. *)

From S2P Require Import Prelude GoStrings Utf8 Decimal RefDecimal Logger Metrics Json Store FeeIndex Lru Spot Pricer Config AuditTrail Locks Claim Server Ws Handshake.

(** ** http.ServeMux *)

(** [path.Clean] of a rooted path: the segments kept so far, last first. *)
Definition clean_segment (kept : list string) (seg : string) : list string :=
  if String.eqb seg "" || String.eqb seg "." then kept
  else if String.eqb seg ".." then tail kept
  else seg :: kept.

Definition path_Clean (p : string) : string :=
  "/" +:+ join "/"%char (rev (fold_left clean_segment (splitN p "/"%char 0) [])).

Fixpoint ends_with_slash (p : string) : bool :=
  match p with
  | EmptyString => false
  | String c p' => if String.eqb p' "" then Ascii.eqb c "/"%char else ends_with_slash p'
  end.

(** [cleanPath]: rooted, cleaned, and with its trailing slash. *)
Definition cleanPath (p : string) : string :=
  if String.eqb p "" then "/"
  else
    let p := if HasPrefix p "/" then p else "/" +:+ p in
    let np := path_Clean p in
    if ends_with_slash p && negb (String.eqb np "/") then np +:+ "/" else np.

(** A pattern matches exactly: one of the exact paths, or a subtree's root. *)
Definition exactMatch (p : string) : bool :=
  match register p with
  | RQuoteByID => String.eqb p "/v1/quotes/"
  | RInternalQuote => String.eqb p "/internal/v1/quotes/"
  | RNotFound => false
  | _ => true
  end.

Inductive mux_target := MuxRoute (rt : route) | MuxRedirect (location : string).

(** [findHandler]: the path is cleaned unless the method is CONNECT; a path
    that is not matched exactly and whose subtree is registered is redirected
    to it, and so is a path that was not clean. *)
Definition mux (method path : string) : mux_target :=
  let p := if String.eqb method "CONNECT" then path else cleanPath path in
  if negb (exactMatch p) && negb (ends_with_slash p) && exactMatch (p +:+ "/")
  then MuxRedirect (cleanPath path +:+ "/")
  else if String.eqb p path then MuxRoute (register p)
  else MuxRedirect p.

(** ** Requests, replies, the running service *)

Record http_request := mkHttpRequest {
  hq_request : request;
  hq_RawQuery : string;
  hq_Upgrade : string;           (* the Upgrade header *)
  hq_Key : string;               (* the Sec-WebSocket-Key header *)
}.

Definition with_request (r : request) (q : http_request) : http_request :=
  mkHttpRequest r (hq_RawQuery q) (hq_Upgrade q) (hq_Key q).

Inductive body :=
  | BJson (j : json)
  | BText (s : string)
  | BLink (location : string)   (* the page of a redirect *)
  | BEmpty
  | BHijacked.                  (* the connection left the HTTP server *)

Record reply := mkReply { rp_status : Z; rp_location : option string; rp_RequestID : option string; rp_body : body }.

Definition StatusMovedPermanently : Z := 301.

Definition json_reply (r : response) : reply := mkReply (rsp_status r) None None (BJson (rsp_body r)).
Definition NotFound : reply := mkReply StatusNotFound None None (BText "404 page not found").
Definition Redirect (method rawQuery location : string) : reply :=
  let url := if String.eqb rawQuery "" then location else location +:+ "?" +:+ rawQuery in
  mkReply StatusMovedPermanently (Some url) None (if String.eqb method "GET" then BLink url else BEmpty).

(** A handler that returns without writing: net/http sends 200 and nothing. *)
Definition untouched : reply := mkReply StatusOK None None BEmpty.
Definition hijacked : reply := mkReply StatusOK None None BHijacked.

Fixpoint of_bytes (bs : list Z) : string :=
  match bs with [] => "" | b :: bs' => String (of_byte b) (of_bytes bs') end.

Record App (U D L : Type) `{Countable U} := mkApp {
  ap_srv : Server U D L;
  ap_hub : wsHub;
  ap_ws : wsMetrics;
  ap_http : httpMetrics;
}.
Arguments mkApp {U D L _ _}.
Arguments ap_srv {U D L _ _} _.
Arguments ap_hub {U D L _ _} _.
Arguments ap_ws {U D L _ _} _.
Arguments ap_http {U D L _ _} _.

(** What one request consumes: fresh ids, clocks, the order of the maps, and
    what its connection will do. *)
Record serve_env (U : Type) := mkServeEnv {
  en_rid : string;                       (* newRequestID *)
  en_start : time;
  en_finish : time;
  en_quotes : nat -> issue_env U;
  en_rows : list U;
  en_now : time;
  en_del : time;
  en_refreshed : time;
  en_refresh : issue_env U;
  en_claim : claim_clock;
  en_seed : seed_env U;
  en_sources : list string;
  en_writer : hijack_env;                (* the writer net/http gives *)
  en_write_err : string;
  en_sub : nat;                          (* the subscriber's pointer *)
  en_writes : list bool;
  en_input : list Z;
}.
Arguments mkServeEnv {U}.
Arguments en_rid {U} _.
Arguments en_start {U} _.
Arguments en_finish {U} _.
Arguments en_quotes {U} _ _.
Arguments en_rows {U} _.
Arguments en_now {U} _.
Arguments en_del {U} _.
Arguments en_refreshed {U} _.
Arguments en_refresh {U} _.
Arguments en_claim {U} _.
Arguments en_seed {U} _.
Arguments en_sources {U} _.
Arguments en_writer {U} _.
Arguments en_write_err {U} _.
Arguments en_sub {U} _.
Arguments en_writes {U} _.
Arguments en_input {U} _.

Section http.
Context {U D L : Type} `{Countable U} {uu : UuidOps U} {ops : DecimalOps D} {lb : LockBackend L}.
Variable json_parse : string -> option json.
Variable json_first : list read_result -> option json.
Variable json_text : json -> string.
Variable fmt_time : time -> string.
(* the page of the registry and its status *)
Variable promhttp_Handler : request -> Z * string.
Implicit Types (a : App U D L) (e : serve_env U) (q : http_request) (w : hijack_env).

Definition set_srv s a : App U D L := mkApp s (ap_hub a) (ap_ws a) (ap_http a).
Definition set_hub h m a : App U D L := mkApp (ap_srv a) h m (ap_http a).
Definition set_http m a : App U D L := mkApp (ap_srv a) (ap_hub a) (ap_ws a) m.

(** [ratesSubscribeHandler], on the writer [w]. *)
Definition ratesSubscribeHandler w e q a : outcome (App U D L * reply) :=
  let r := hq_request q in
  if negb (String.eqb (hr_Method r) "GET") then mret (a, json_reply (not_allowed r))
  else if negb (bool_decide (to_lower <$> runes (hq_Upgrade q) = runes "websocket")) then
    mret (a, json_reply (writeError r StatusBadRequest "bad_request" "Upgrade: websocket required"))
  else
    match hijackAndUpgrade w (en_write_err e) (hq_Key q) with
    | (None, Err _) => mret (a, untouched)
    | (Some _, Err _) => mret (a, hijacked)
    | (_, Ok _) =>
        '(h, m, _) ← serve_subscriber (fun bs => json_parse (of_bytes bs)) (en_sub e) (en_writes e) (en_input e)
                       (ap_hub a) (ap_ws a);
        mret (set_hub h m a, hijacked)
    end.

(** The handler registered for a route. *)
Definition handle (rt : route) w e q a : outcome (App U D L * reply) :=
  let r := hq_request q in
  let s := ap_srv a in
  let answer (o : outcome (Server U D L * response)) :=
    '(s, rsp) ← o; mret (set_srv s a, json_reply rsp) in
  match rt with
  | RHealthz => mret (a, json_reply healthz)
  | RReadyz => mret (a, json_reply (readyz r s))
  | RMetrics => let '(status, page) := promhttp_Handler r in mret (a, mkReply status None None (BText page))
  | RQuotes => answer (quotesHandler json_parse json_text fmt_time (en_quotes e) (en_rows e) r s)
  | RQuoteByID =>
      answer (quoteByIDHandler json_text fmt_time (en_now e) (en_del e) (en_refreshed e) (en_refresh e) r s)
  | RRatesSubscribe => ratesSubscribeHandler w e q a
  | RInternalQuote => answer (internalQuoteHandler json_first fmt_time (en_claim e) r s)
  | RReload => answer (mret (feeSchedulesReload (en_seed e) r s))
  | RFeeSchedules => mret (a, json_reply (feeSchedulesHandler fmt_time r s))
  | RRateSources => mret (a, json_reply (rateSourcesHandler fmt_time (en_sources e) r s))
  | RAuditEvents => mret (a, json_reply (auditEventsHandler fmt_time r s))
  | RNotFound => mret (a, NotFound)
  end.

Definition mux_ServeHTTP w e q a : outcome (App U D L * reply) :=
  let r := hq_request q in
  match mux (hr_Method r) (hr_Path r) with
  | MuxRedirect location => mret (a, Redirect (hr_Method r) (hq_RawQuery q) location)
  | MuxRoute rt => handle rt w e q a
  end.

(** [requestIDMiddleware(mux)]: the header of the response is set before the
    handler runs; a hijacked connection does not carry it. *)
Definition with_request_id w e q a : outcome (App U D L * reply) :=
  let r := requestIDMiddleware (en_rid e) (hq_request q) in
  '(a, rp) ← mux_ServeHTTP w e (with_request r q) a;
  mret (a, match rp_body rp with
           | BHijacked => rp
           | _ => mkReply (rp_status rp) (rp_location rp) (Some (hr_RequestID r)) (rp_body rp)
           end).

(** A [*statusRecorder] embeds the interface [http.ResponseWriter]: it has the
    methods of that interface and no others, [Hijack] in particular. *)
Definition statusRecorder_writer w : hijack_env := mkHijack false (hj_error w) (hj_write_ok w) (hj_buffered w).

(** The chain [RunWithConfigCtx] serves; a request whose handler panics is not
    counted. *)
Definition serve e q a : outcome (App U D L * reply) :=
  '(a, rp) ← with_request_id (statusRecorder_writer (en_writer e)) e q a;
  m ← metricsMiddleware (hr_Path (hq_request q)) [rp_status rp] (en_start e) (en_finish e) (ap_http a);
  mret (set_http m a, rp).

(** What a request whose handler panics leaves; the middlewares have nothing
    to undo. *)
Definition serve_left e q a : App U D L :=
  let r := requestIDMiddleware (en_rid e) (hq_request q) in
  let s := ap_srv a in
  match mux (hr_Method r) (hr_Path r) with
  | MuxRedirect _ => a
  | MuxRoute rt =>
      match rt with
      | RQuotes => set_srv (quotesHandler_left json_parse json_text fmt_time (en_quotes e) r s) a
      | RQuoteByID => set_srv (quoteByIDHandler_left (en_del e) (en_refreshed e) (en_refresh e) r s) a
      | RInternalQuote => set_srv (internalQuoteHandler_left (en_claim e) r s) a
      | _ => a
      end
  end.

(** The chain [run] serves. *)
Definition serve_plain e q a : outcome (App U D L * reply) := with_request_id (en_writer e) e q a.

End http.

Definition newHttpMetrics : httpMetrics := mkHttpMetrics ∅ ∅.

(** ** Redirects *)

Definition plain_segment (seg : string) : bool :=
  negb (has_byte "/"%char seg) && negb (String.eqb seg "" || String.eqb seg "." || String.eqb seg "..").

Lemma splitN_loop_all_sound s : forall seg out, has_byte "/"%char seg = false ->
  Forall (fun p => has_byte "/"%char p = false) out ->
  Forall (fun p => has_byte "/"%char p = false) (splitN_loop "/"%char 0 s seg out).
Proof.
  induction s as [| c s IH]; intros seg out Hseg Hout; cbn [splitN_loop].
  - apply list.Forall_app. split; [done |]. by constructor.
  - destruct (Ascii.eqb c "/"%char) eqn:Hc.
    + change ((0 <? 0)%Z) with false. cbn [andb]. apply IH; [done |]. apply list.Forall_app. split; [done |]. by constructor.
    + apply IH; [| done]. rewrite has_byte_app, Hseg. cbn. by rewrite Hc.
Qed.

Lemma clean_segments_plain segs : forall kept,
  Forall (fun p => has_byte "/"%char p = false) segs -> Forall (fun p => plain_segment p = true) kept ->
  Forall (fun p => plain_segment p = true) (fold_left clean_segment segs kept).
Proof.
  induction segs as [| seg segs IH]; intros kept Hs Hk; [done |]. apply list.Forall_cons in Hs as [Hseg Hs].
  cbn [fold_left]. apply IH; [done |]. unfold clean_segment.
  destruct (String.eqb seg "" || String.eqb seg ".") eqn:H1; [done |].
  destruct (String.eqb seg "..") eqn:H2; [by destruct Hk |].
  constructor; [| done]. unfold plain_segment. rewrite Hseg, H1, H2. done.
Qed.

Lemma clean_plain_segments segs : forall kept, Forall (fun p => plain_segment p = true) segs ->
  fold_left clean_segment segs kept = rev segs ++ kept.
Proof.
  induction segs as [| seg segs IH]; intros kept Hs; [done |]. apply list.Forall_cons in Hs as [Hseg Hs].
  cbn [fold_left rev]. rewrite IH by done. unfold clean_segment, plain_segment in *.
  apply andb_true_iff in Hseg as [_ Hseg]. apply negb_true_iff, orb_false_iff in Hseg as [-> ->].
  by rewrite <- app_assoc.
Qed.

Lemma splitN_loop_out s : forall seg out,
  splitN_loop "/"%char 0 s seg out = out ++ splitN_loop "/"%char 0 s seg [].
Proof.
  induction s as [| c s IH]; intros seg out; cbn [splitN_loop]; [done |].
  change ((0 <? 0)%Z) with false. cbn [andb]. destruct (Ascii.eqb c "/"%char).
  - rewrite IH, (IH "" ([] ++ [seg])). by rewrite app_assoc.
  - apply IH.
Qed.

Lemma splitN_slash x : splitN ("/" +:+ x) "/"%char 0 = "" :: splitN x "/"%char 0.
Proof. unfold splitN. change ("/" +:+ x) with (String "/"%char x). cbn [splitN_loop]. apply (splitN_loop_out x "" [""]). Qed.

(** Splitting what was joined gives the segments back. *)
Lemma splitN_loop_segment seg s : forall pre out, has_byte "/"%char seg = false ->
  splitN_loop "/"%char 0 (seg +:+ String "/"%char s) pre out = splitN_loop "/"%char 0 s "" (out ++ [pre +:+ seg]).
Proof.
  induction seg as [| c seg IH]; intros pre out Hseg.
  - change ("" +:+ String "/"%char s) with (String "/"%char s). cbn [splitN_loop].
    by rewrite Ascii.eqb_refl, string_app_nil_r.
  - cbn [has_byte] in Hseg. apply orb_false_iff in Hseg as [Hc Hseg].
    rewrite string_app_cons. cbn [splitN_loop]. rewrite Hc, IH, string_app_assoc by done. done.
Qed.

Lemma splitN_join_segments l : forall out, l <> [] -> Forall (fun p => has_byte "/"%char p = false) l ->
  splitN_loop "/"%char 0 (join "/"%char l) "" out = out ++ l.
Proof.
  induction l as [| seg l IH]; intros out Hne Hl; [done |]. apply list.Forall_cons in Hl as [Hseg Hl].
  destruct l as [| seg' l].
  - cbn [join]. rewrite splitN_loop_none by done. done.
  - change (join "/"%char (seg :: seg' :: l)) with (seg +:+ String "/"%char (join "/"%char (seg' :: l))).
    rewrite splitN_loop_segment, IH by done. by rewrite <- app_assoc.
Qed.

Lemma ends_with_slash_app a b : b <> "" -> ends_with_slash (a +:+ b) = ends_with_slash b.
Proof.
  intros Hb. induction a as [| c a IH]; [done |]. rewrite string_app_cons. cbn [ends_with_slash].
  destruct (String.eqb_spec (a +:+ b) "") as [He |]; [| done]. by destruct a, b.
Qed.

Lemma ends_with_slash_none s : has_byte "/"%char s = false -> ends_with_slash s = false.
Proof.
  induction s as [| c s IH]; [done |]. cbn. intros [Hc Hs]%orb_false_iff. destruct (String.eqb s ""); auto.
Qed.

Lemma plain_segment_spec seg : plain_segment seg = true -> has_byte "/"%char seg = false /\ seg <> "".
Proof.
  unfold plain_segment. intros [H1 H2]%andb_true_iff. apply negb_true_iff in H1, H2. split; [done |].
  by intros ->.
Qed.

Lemma join_plain l : l <> [] -> Forall (fun p => plain_segment p = true) l ->
  join "/"%char l <> "" /\ ends_with_slash (join "/"%char l) = false.
Proof.
  induction l as [| seg l IH]; intros Hne Hl; [done |].
  apply list.Forall_cons in Hl as [[Hseg Hemp]%plain_segment_spec Hl]. destruct l as [| seg' l].
  - cbn [join]. split; [done | by apply ends_with_slash_none].
  - destruct IH as [H1 H2]; [done | done |].
    change (join "/"%char (seg :: seg' :: l)) with (seg +:+ String "/"%char (join "/"%char (seg' :: l))).
    split; [by destruct seg |]. rewrite ends_with_slash_app by done. cbn [ends_with_slash].
    by destruct (String.eqb_spec (join "/"%char (seg' :: l)) "").
Qed.

Lemma join_slash l : l <> [] -> join "/"%char l +:+ "/" = join "/"%char (l ++ [""]).
Proof.
  induction l as [| seg l IH]; intros Hne; [done |]. destruct l as [| seg' l]; [done |].
  change (join "/"%char (seg :: seg' :: l)) with (seg +:+ String "/"%char (join "/"%char (seg' :: l))).
  change (join "/"%char ((seg :: seg' :: l) ++ [""])) with (seg +:+ String "/"%char (join "/"%char ((seg' :: l) ++ [""]))).
  rewrite <- IH by done. by rewrite string_app_assoc.
Qed.

(** What a clean path looks like. *)
Definition clean_text (segs : list string) (slash : bool) : string :=
  "/" +:+ join "/"%char segs +:+ (if slash then "/" else "").

Lemma path_Clean_text p : exists segs, Forall (fun x => plain_segment x = true) segs /\ path_Clean p = clean_text segs false.
Proof.
  exists (rev (fold_left clean_segment (splitN p "/"%char 0) [])). split.
  - apply Forall_rev, clean_segments_plain; [| done]. by apply splitN_loop_all_sound.
  - unfold path_Clean, clean_text. by rewrite string_app_nil_r.
Qed.

Lemma cleanPath_text p : exists segs slash,
  Forall (fun x => plain_segment x = true) segs /\ (segs = [] -> slash = false) /\ cleanPath p = clean_text segs slash.
Proof.
  unfold cleanPath. destruct (String.eqb p ""); [by exists [], false |].
  set (p' := if HasPrefix p "/" then p else "/" +:+ p).
  destruct (path_Clean_text p') as (segs & Hs & ->).
  destruct (ends_with_slash p' && negb (String.eqb (clean_text segs false) "/")) eqn:Hc; [| by exists segs, false].
  exists segs, true. split; [done |]. split.
  - intros ->. apply andb_true_iff in Hc as [_ Hc]. vm_compute in Hc. discriminate Hc.
  - unfold clean_text. rewrite string_app_nil_r. by rewrite string_app_assoc.
Qed.

Lemma path_Clean_clean segs slash : Forall (fun x => plain_segment x = true) segs -> (segs = [] -> slash = false) ->
  path_Clean (clean_text segs slash) = clean_text segs false.
Proof.
  intros Hs Hslash. unfold path_Clean, clean_text. rewrite string_app_nil_r. do 2 f_equal.
  assert (Forall (fun x => has_byte "/"%char x = false) segs) as Hb.
  { eapply list.Forall_impl; [exact Hs |]. intros x Hx. by apply plain_segment_spec. }
  assert (fold_left clean_segment segs [] = rev segs) as Hfold.
  { rewrite clean_plain_segments by done. by rewrite app_nil_r. }
  assert (splitN ("/" +:+ join "/"%char segs +:+ (if slash then "/" else "")) "/"%char 0
          = "" :: splitN (join "/"%char segs +:+ (if slash then "/" else "")) "/"%char 0) as ->.
  { apply splitN_slash. }
  cbn [fold_left]. change (clean_segment [] "") with (@nil string).
  destruct segs as [| seg segs]; [by rewrite (Hslash eq_refl) |].
  assert (fold_left clean_segment (splitN (join "/"%char (seg :: segs) +:+ (if slash then "/" else "")) "/"%char 0) []
          = rev (seg :: segs)) as ->; [| apply rev_involutive].
  destruct slash.
  - rewrite join_slash by done. unfold splitN. rewrite splitN_join_segments.
    + rewrite app_nil_l, fold_left_app, Hfold. done.
    + done.
    + apply list.Forall_app. split; [done | by constructor].
  - rewrite string_app_nil_r. unfold splitN. by rewrite splitN_join_segments, app_nil_l.
Qed.

Lemma cleanPath_idempotent p : cleanPath (cleanPath p) = cleanPath p.
Proof.
  destruct (cleanPath_text p) as (segs & slash & Hs & Hslash & ->). unfold cleanPath at 1.
  change (String.eqb (clean_text segs slash) "") with false. cbn [negb].
  assert (HasPrefix (clean_text segs slash) "/" = true) as ->.
  { apply bool_decide_eq_true. exists (join "/"%char segs +:+ (if slash then "/" else "")). done. }
  rewrite path_Clean_clean by done.
  destruct segs as [| seg segs]; [by rewrite (Hslash eq_refl) |].
  destruct (join_plain (seg :: segs)) as [Hne Hend]; [done | done |]. unfold clean_text. destruct slash.
  - rewrite <- string_app_assoc, ends_with_slash_app by done. cbn [ends_with_slash String.eqb Ascii.eqb andb].
    rewrite string_app_nil_r. destruct (String.eqb_spec ("/" +:+ join "/"%char (seg :: segs)) "/") as [He |]; [| done].
    rewrite string_app_cons in He. injection He as He. by destruct Hne.
  - rewrite string_app_nil_r, ends_with_slash_app, Hend by done. done.
Qed.

(** Only the roots of the two subtrees match exactly with a trailing slash. *)
Lemma exactMatch_slash x : ends_with_slash x = true -> exactMatch x = true ->
  x = "/v1/quotes/" \/ x = "/internal/v1/quotes/".
Proof.
  intros Hx. unfold exactMatch, register.
  destruct (find_first (fun p => String.eqb (fst p) x) exact_routes) as [[k r] |] eqn:Hf.
  - apply find_first_Some in Hf as (l1 & l2 & Hl & Hk & _). apply String.eqb_eq in Hk. cbn [fst] in Hk. subst k.
    assert (forallb (fun p => negb (ends_with_slash (fst p))) exact_routes = true) as Hall by reflexivity.
    rewrite Hl, forallb_app in Hall. cbn [forallb fst] in Hall. rewrite Hx in Hall.
    by rewrite andb_false_r in Hall.
  - destruct (HasPrefix x "/v1/quotes/"); [intros H%String.eqb_eq; auto |].
    destruct (HasPrefix x "/internal/v1/quotes/"); [intros H%String.eqb_eq; auto | done].
Qed.

(** Redirects end.  Whatever the path of a request, the mux either finds
    its handler or redirects to a path that it redirects no further. *)
Theorem redirect_is_final method path location : method <> "CONNECT" ->
  mux method path = MuxRedirect location -> exists rt, mux method location = MuxRoute rt.
Proof.
  intros Hm. unfold mux. destruct (String.eqb_spec method "CONNECT"); [done |].
  set (p := cleanPath path).
  destruct (negb (exactMatch p) && negb (ends_with_slash p) && exactMatch (p +:+ "/")) eqn:Hc.
  - intros [= <-]. apply andb_true_iff in Hc as [_ Hc].
    assert (p +:+ "/" = "/v1/quotes/" \/ p +:+ "/" = "/internal/v1/quotes/") as [-> | ->].
    { apply exactMatch_slash; [by apply ends_with_slash_app | done]. }
    + eexists. vm_compute. reflexivity.
    + eexists. vm_compute. reflexivity.
  - destruct (String.eqb_spec p path); [done |]. intros [= <-].
    assert (cleanPath p = p) as -> by apply cleanPath_idempotent. rewrite Hc, String.eqb_refl. eauto.
Qed.

(** ** Error answers *)

Section answers.
Context {U D L : Type} `{Countable U} {uu : UuidOps U} {ops : DecimalOps D} {lb : LockBackend L}.
Variable json_parse : string -> option json.
Variable json_first : list read_result -> option json.
Variable json_text : json -> string.
Variable fmt_time : time -> string.
Variable promhttp_Handler : request -> Z * string.
Implicit Types (a : App U D L) (e : serve_env U) (q : http_request) (w : hijack_env) (s : Server U D L) (r : request).

(** A response is a success or an error envelope of its request. *)
Definition proper r (rsp : response) : Prop :=
  (rsp_status rsp < 400)%Z \/ exists status code msg, rsp = writeError r status code msg.

Lemma proper_error r status code msg : proper r (writeError r status code msg).
Proof. right. eauto. Qed.

Lemma proper_ok r j : proper r (mkResponse StatusOK j).
Proof. by left. Qed.

Lemma proper_created r j : proper r (mkResponse StatusCreated j).
Proof. by left. Qed.

Lemma proper_not_allowed r : proper r (not_allowed r).
Proof. apply proper_error. Qed.

Lemma claim_response_proper r (res : ClaimResult U D) : proper r (claim_response r res).
Proof. unfold claim_response. repeat case_match; apply proper_error. Qed.

Lemma proper_app r err : proper r (writeErrorApp r err).
Proof. apply proper_error. Qed.

Ltac proper_tac :=
  repeat first
    [ case_match
    | progress cbv beta zeta in *
    | match goal with H : _ ≫= _ = Ret _ |- _ =>
        let y := fresh "y" in apply outcome_bind_ret in H as ([? y] & ? & H) end
    | match goal with H : Ret _ = Ret _ |- _ => injection H as ?; subst end
    | match goal with H : mret _ = Ret _ |- _ => injection H as ?; subst end
    | match goal with H : (_, _) = (_, _) |- _ => injection H as ?; subst end
    | discriminate
    | solve [auto using proper_error, proper_not_allowed, proper_ok, proper_created, claim_response_proper, proper_app]].

Lemma quotesHandler_proper es ord r s s' rsp :
  quotesHandler json_parse json_text fmt_time es ord r s = Ret (s', rsp) -> proper r rsp.
Proof. unfold quotesHandler, bulkQuotes, singleQuote, listQuotes, not_allowed. intros Hh. proper_tac. Qed.

Lemma quoteByIDHandler_proper now td ta ie r s s' rsp :
  quoteByIDHandler json_text fmt_time now td ta ie r s = Ret (s', rsp) -> proper r rsp.
Proof. unfold quoteByIDHandler, refreshQuote, getQuote, not_allowed. intros Hh. proper_tac. Qed.

Lemma internalQuoteHandler_proper ct r s s' rsp :
  internalQuoteHandler json_first fmt_time ct r s = Ret (s', rsp) -> proper r rsp.
Proof. unfold internalQuoteHandler, not_allowed. intros Hh. proper_tac. Qed.

(** An error answer in JSON names the request. *)
Definition error_body (code msg rid : string) : json :=
  JObj [("error", JObj [("code", JStr code); ("message", JStr msg); ("request_id", JStr rid)])].

Definition enveloped (rid : string) (rp : reply) : Prop :=
  forall j, rp_body rp = BJson j -> (400 <= rp_status rp)%Z -> exists code msg, j = error_body code msg rid.

Lemma proper_enveloped r rsp : hr_RequestID r <> "" -> proper r rsp -> enveloped (hr_RequestID r) (json_reply rsp).
Proof.
  intros Hr [Hlt | (status & code & msg & ->)] j Hj Hst; cbn in *; [lia |]. injection Hj as <-.
  exists code, msg. unfold error_body, requestIDFromContext.
  by destruct (String.eqb_spec (hr_RequestID r) "").
Qed.

Definition request_id e q : string :=
  if String.eqb (hr_RequestID (hq_request q)) "" then en_rid e else hr_RequestID (hq_request q).

Abbreviation handle' := (handle json_parse json_first json_text fmt_time promhttp_Handler).
Abbreviation serve' := (serve json_parse json_first json_text fmt_time promhttp_Handler).
Abbreviation serve_plain' := (serve_plain json_parse json_first json_text fmt_time promhttp_Handler).

Lemma handle_enveloped rt w e q a a' rp : hr_RequestID (hq_request q) <> "" ->
  handle' rt w e q a = Ret (a', rp) -> enveloped (hr_RequestID (hq_request q)) rp.
Proof.
  intros Hr. unfold handle. intros Hh.
  assert (forall rsp, rp = json_reply rsp -> proper (hq_request q) rsp -> enveloped (hr_RequestID (hq_request q)) rp) as Hp.
  { intros rsp ->. by apply proper_enveloped. }
  destruct rt; cbn [mret outcome_ret] in Hh;
    try (apply outcome_bind_ret in Hh as ([s1 rsp] & Hh1 & Hh); injection Hh as <- <-).
  - injection Hh as <- <-. eapply Hp; [done | apply proper_ok].
  - injection Hh as <- <-. eapply Hp; [done |]. unfold readyz. repeat case_match; auto using proper_error, proper_not_allowed, proper_ok.
  - destruct (promhttp_Handler (hq_request q)). injection Hh as <- <-. intros j [=].
  - eapply Hp; [done | by eapply quotesHandler_proper].
  - eapply Hp; [done | by eapply quoteByIDHandler_proper].
  - unfold ratesSubscribeHandler in Hh. repeat case_match; cbn [mret outcome_ret] in Hh;
      try (apply outcome_bind_ret in Hh as ([[] ] & Hh1 & Hh)); injection Hh as <- <-;
      try (eapply Hp; [done | apply proper_error]); intros j [=].
  - eapply Hp; [done | by eapply internalQuoteHandler_proper].
  - injection Hh1 as Hs. unfold feeSchedulesReload in Hs. eapply Hp; [done |].
    destruct (negb _); [injection Hs as <- <-; apply proper_error |].
    destruct (ReloadIndex _ _). injection Hs as <- <-. apply proper_ok.
  - injection Hh as <- <-. eapply Hp; [done |]. unfold feeSchedulesHandler. case_match; auto using proper_error, proper_not_allowed, proper_ok.
  - injection Hh as <- <-. eapply Hp; [done |]. unfold rateSourcesHandler. case_match; auto using proper_error, proper_not_allowed, proper_ok.
  - injection Hh as <- <-. eapply Hp; [done |]. unfold auditEventsHandler. case_match; auto using proper_error, proper_not_allowed, proper_ok.
  - injection Hh as <- <-. intros j [=].
Qed.

(** Nothing is hijacked from a [statusRecorder]. *)
Lemma handle_no_hijack rt w e q a a' rp : hj_hijacker w = false ->
  handle' rt w e q a = Ret (a', rp) -> rp_body rp <> BHijacked /\ ap_hub a' = ap_hub a /\ ap_ws a' = ap_ws a.
Proof.
  intros Hw. unfold handle. intros Hh.
  destruct rt; cbn [mret outcome_ret] in Hh;
    try (apply outcome_bind_ret in Hh as ([s1 rsp] & Hh1 & Hh)); try (injection Hh as <- <-; done).
  - destruct (promhttp_Handler (hq_request q)). by injection Hh as <- <-.
  - unfold ratesSubscribeHandler, hijackAndUpgrade in Hh. rewrite Hw in Hh. cbn [negb] in Hh.
    repeat case_match; by injection Hh as <- <-.
Qed.

End answers.
