(* ===== verification/Lifecycle.v ===== *)
(** * Lifecycle: what the handlers do to quotes, locks and events

    The server seen as a state machine whose steps are whole requests and
    background jobs.  A quote's terms never change, its status only moves
    forward, every lock belongs to a row that is not claimed; and what each
    handler answers is characterised. *)

From stdpp Require Import pretty.
From S2P Require Import Prelude GoStrings Utf8 Decimal RefDecimal Errors Json Store FeeIndex Lru Spot Pricer Config AuditTrail Locks Claim Server.

(** ** How a row may change *)

Section rows.
Context {U D : Type}.
Implicit Types q : Quote U D.

(** Everything that was agreed when the quote was issued. *)
Definition terms q : Quote U D :=
  mkQuote (QuoteID q) (From q) (To q) (Amount q) (Rate_ q) (SpreadBPS q) (Fee q) (FeeCurrency q)
    (Store.Total q) (CryptoAmount q) (UserTier q) (Side q) StatusOpen (SourceVenue q) (CreatedAt q)
    (ExpiresAt q) None "" (LockedRate q) (SpotPrice q).

(** Open may become anything, anything may be canceled. *)
Definition status_le (a b : QuoteStatus) : Prop := a = b \/ a = StatusOpen \/ b = StatusCanceled.

Record evolves q q' : Prop := {
  ev_terms : terms q' = terms q;
  ev_status : status_le (Store.Status q) (Store.Status q');
  ev_claim : Store.Status q <> StatusOpen -> ClaimedAt q' = ClaimedAt q /\ ClaimedBy q' = ClaimedBy q;
}.

#[export] Instance evolves_preorder : PreOrder evolves.
Proof.
  split.
  - intros q. split; [done | by left | done].
  - intros q1 q2 q3 [t1 s1 c1] [t2 s2 c2]. split; [congruence | |].
    + unfold status_le in *. intuition congruence.
    + intros Hne. destruct (c1 Hne) as [-> ->] || destruct (c1 Hne) as [H1 H2].
      assert (Store.Status q2 <> StatusOpen) as Hne2.
      { unfold status_le in *. intuition congruence. }
      destruct (c2 Hne2). split; congruence.
Qed.

Lemma evolves_status st q :
  status_le (Store.Status q) st -> evolves q (set_status st q).
Proof. intros Hs. by split. Qed.

Lemma evolves_claimed t by_ q : Store.Status q = StatusOpen -> evolves q (set_claimed t by_ q).
Proof. intros Hs. split; [done | by right; left | congruence]. Qed.

End rows.

(** ** How the table may change *)

Section lifecycle.
Context {U D L : Type} `{Countable U} {uu : UuidOps U} {ul : UuidLaws U} {ops : DecimalOps D}
  {laws : DecimalLaws D} {lb : LockBackend L} {ll : LockLaws L}.
Variable json_parse : string -> option json.
Variable json_first : list read_result -> option json.
Variable json_text : json -> string.
Variable fmt_time : time -> string.
Implicit Types (s : Server U D L) (q : Quote U D) (id : U) (r : request).

Definition rows s : gmap U (Quote U D) := quotes (sh_store (sh s)).
Definition lock_of s id : option string := held (sh_locks (sh s)) (lockKey id).
Definition events s : list (AuditEvent U) := Events (sh_audit (sh s)).

(** Every row is kept and evolves. *)
Definition advances (m m' : gmap U (Quote U D)) : Prop :=
  forall id q, m !! id = Some q -> exists q', m' !! id = Some q' /\ evolves q q'.

#[export] Instance advances_preorder : PreOrder advances.
Proof.
  split.
  - intros m id q Hq. exists q. split; [done | reflexivity].
  - intros m1 m2 m3 H12 H23 id q Hq. destruct (H12 id q Hq) as (q2 & Hq2 & He).
    destruct (H23 id q2 Hq2) as (q3 & Hq3 & He'). exists q3. split; [done | by etransitivity].
Qed.

Lemma advances_insert m id q q' : m !! id = Some q -> evolves q q' -> advances m (<[id := q']> m).
Proof.
  intros Hid He i x Hx. rewrite lookup_insert. case_decide; [| exists x; split; [done | reflexivity]].
  subst i. rewrite Hid in Hx. injection Hx as <-. eauto.
Qed.

Lemma advances_new m id q : m !! id = None -> advances m (<[id := q]> m).
Proof.
  intros Hid i x Hx. rewrite lookup_insert_ne by congruence. exists x. split; [done | reflexivity].
Qed.

(** The table is keyed by the ids of its rows, and a key of the lock store
    belongs to a row that has not been claimed. *)
Record srv_inv s : Prop := {
  si_ids : forall id q, rows s !! id = Some q -> QuoteID q = id;
  si_locks : forall id v, lock_of s id = Some v ->
    exists q, rows s !! id = Some q /\ Store.Status q <> StatusClaimed;
}.

(** ** The pieces *)

Lemma price_frame e from to amount tier side s s' res :
  price e from to amount tier side s = Ret (s', res) ->
  sh_store (sh s') = sh_store (sh s) /\ sh_locks (sh s') = sh_locks (sh s) /\
  sh_audit (sh s') = sh_audit (sh s) /\ cfg s' = cfg s /\ pricer s' = pricer s.
Proof. unfold price. intros ([sp x] & _ & [= <- <-])%outcome_bind_ret. done. Qed.

Lemma lookup_left_frame t1 t2 from to s :
  let s' := lookup_left t1 t2 from to s in
  rows s' = rows s /\ sh_locks (sh s') = sh_locks (sh s) /\ events s' = events s /\ cfg s' = cfg s.
Proof. done. Qed.

Lemma issue_frame e q res s :
  rows (issue json_text fmt_time e q res s) = <[QuoteID q := q]> (rows s) /\
  sh_locks (sh (issue json_text fmt_time e q res s)) =
    fst (lb_SetNX (ie_check e) (ie_set e) (lockKey (QuoteID q)) (lockPayload json_text fmt_time q res)
           (RateLockTTL (cfg s)) (sh_locks (sh s))) /\
  events (issue json_text fmt_time e q res s) =
    events s ++ [stamp (ie_audit e) (quote_event "quote.issued" (QuoteID q) q "")] /\
  cfg (issue json_text fmt_time e q res s) = cfg s.
Proof.
  unfold issue, rows, events. cbn [sh set_sh cfg].
  set (ev := quote_event "quote.issued" (QuoteID q) q ""). set (x := set_locks _ _).
  destruct (append_fields (ie_audit e) ev x) as (-> & -> & _ & ->). by subst x.
Qed.

(** A new row with a fresh id keeps the invariant. *)
Lemma issue_inv e q res s :
  srv_inv s -> rows s !! QuoteID q = None -> Store.Status q <> StatusClaimed ->
  srv_inv (issue json_text fmt_time e q res s) /\ advances (rows s) (rows (issue json_text fmt_time e q res s)).
Proof.
  intros [Hids Hlocks] Hfresh Hst. destruct (issue_frame e q res s) as (Hr & Hl & _ & _).
  split; [split |]; rewrite ?Hr.
  - intros id q' [[<- <-] | [_ Hq]]%lookup_insert_Some; [done | by apply Hids].
  - intros id v. unfold lock_of. rewrite Hl. destruct (lb_SetNX _ _ _ _ _ _) as [l b] eqn:Hset. cbn [fst].
    destruct (SetNX_held _ _ _ _ _ _ _ _ Hset) as [Hother _]. intros Hv.
    destruct (decide (id = QuoteID q)) as [-> | Hne]; [exists q; by rewrite lookup_insert_eq |].
    rewrite lookup_insert_ne by congruence.
    assert (lockKey id <> lockKey (QuoteID q)) as Hk by (by intros Hk%(inj lockKey)).
    destruct (Hother (lockKey id) Hk) as [Hn | He]; [congruence |].
    apply (Hlocks id v). unfold lock_of. congruence.
  - by apply advances_new.
Qed.

Lemma create_cases e req s s' res :
  createQuote json_text fmt_time e req s = Ret (s', res) ->
  (exists err, res = Err err /\ err = errSpotUnavailable /\ rows s' = rows s /\ events s' = events s /\
     sh_locks (sh s') = sh_locks (sh s) /\ cfg s' = cfg s) \/
  (exists s1 cr, price e (req_From req) (req_To req) (req_Amount req) (req_UserTier req) (req_Side req) s = Ret (s1, Ok cr) /\
     let q := new_quote (ie_id e) (ie_now e) (RateLockTTL (cfg s)) (req_From req) (req_To req) (req_Amount req)
                (req_UserTier req) (req_Side req) cr in
     res = Ok q /\ s' = issue json_text fmt_time e q cr s1).
Proof.
  unfold createQuote. intros ([s1 pr] & Hp & Hres)%outcome_bind_ret.
  destruct (price_frame _ _ _ _ _ _ _ _ _ Hp) as (Hst & Hlk & Hau & Hcfg & _).
  destruct pr as [cr | e']; injection Hres as <- <-.
  - right. exists s1, cr. by rewrite Hcfg.
  - left. eexists. split; [done |]. unfold rows, events. by rewrite Hst, Hau.
Qed.

Lemma srv_inv_same s s' :
  srv_inv s -> rows s' = rows s -> sh_locks (sh s') = sh_locks (sh s) -> srv_inv s'.
Proof.
  intros [Hids Hlocks] Hr Hl. split; unfold lock_of; rewrite Hr, ?Hl; [done | exact Hlocks].
Qed.

Definition fresh s (e : issue_env U) : Prop := rows s !! ie_id e = None.

Lemma create_inv e req s s' res :
  srv_inv s -> fresh s e -> createQuote json_text fmt_time e req s = Ret (s', res) ->
  srv_inv s' /\ advances (rows s) (rows s') /\ (forall id, id <> ie_id e -> rows s' !! id = rows s !! id).
Proof.
  intros Hi Hf Hc. destruct (create_cases _ _ _ _ _ Hc) as [(err & _ & _ & Hr & _ & Hl & _) | (s1 & cr & Hp & Hq)].
  - split; [by eapply srv_inv_same |]. rewrite Hr. split; [reflexivity | done].
  - cbv zeta in Hq. destruct Hq as [_ ->]. set (q := new_quote _ _ _ _ _ _ _ _ _).
    destruct (price_frame _ _ _ _ _ _ _ _ _ Hp) as (Hst & Hlk & _ & _ & _).
    assert (rows s1 = rows s) as Hr1 by (unfold rows; by rewrite Hst).
    destruct (issue_inv e q cr s1) as [Hi' Ha]; [by eapply srv_inv_same | by rewrite Hr1 | done |].
    rewrite Hr1 in Ha. split; [done |]. split; [done |]. intros id Hne.
    destruct (issue_frame e q cr s1) as (-> & _). rewrite Hr1. apply lookup_insert_ne. intros Heq. by apply Hne.
Qed.

(** The items of a bulk request draw distinct fresh ids. *)
Definition fresh_all s (es : nat -> issue_env U) : Prop :=
  (forall i, fresh s (es i)) /\ (forall i j, ie_id (es i) = ie_id (es j) -> i = j).

Lemma bulk_inv items : forall es s s' its,
  srv_inv s -> fresh_all s es -> bulkItems json_text fmt_time es items s = Ret (s', its) ->
  srv_inv s' /\ advances (rows s) (rows s').
Proof.
  induction items as [| it items IH]; intros es s s' its Hi [Hf Hinj]; cbn [bulkItems].
  { intros [= <- <-]. split; [done | reflexivity]. }
  intros ([s1 i] & H1 & ([s2 is2] & H2 & [= <- <-])%outcome_bind_ret)%outcome_bind_ret.
  assert (srv_inv s1 /\ advances (rows s) (rows s1) /\
    (forall id, id <> ie_id (es 0%nat) -> rows s1 !! id = rows s !! id)) as (Hi1 & Ha1 & Hk1).
  { destruct (validateRequest it) as [err |]; [injection H1 as <- <-; split; [done | split; [reflexivity | done]] |].
    apply outcome_bind_ret in H1 as ([s0 res] & Hc & [= <- <-]). by eapply create_inv. }
  destruct (IH (fun n => es (S n)) s1 s2 is2 Hi1) as [Hi2 Ha2]; [| done | split; [done | by etransitivity]].
  split.
  - intros j. unfold fresh. rewrite Hk1; [apply Hf |]. intros Heq. apply Hinj in Heq. done.
  - intros i' j' Heq. apply Hinj in Heq. congruence.
Qed.

(** What is issued before an item panics stays. *)
Lemma bulk_left_inv items : forall es s,
  srv_inv s -> fresh_all s es ->
  srv_inv (bulkItems_left json_text fmt_time es items s) /\
  advances (rows s) (rows (bulkItems_left json_text fmt_time es items s)).
Proof.
  induction items as [| it items IH]; intros es s Hi [Hf Hinj]; cbn [bulkItems_left]; [by split |].
  assert (forall s1, (forall id, id <> ie_id (es 0%nat) -> rows s1 !! id = rows s !! id) ->
    fresh_all s1 (fun n => es (S n))) as Hfresh.
  { intros s1 Hk. split; [| intros i j Heq; by apply Hinj in Heq; injection Heq].
    intros j. unfold fresh. rewrite Hk; [apply Hf |]. intros Heq. by apply Hinj in Heq. }
  destruct (validateRequest it) as [err |]; [by apply IH, Hfresh |].
  destruct (createQuote _ _ _ _ _) as [[s1 res] | why] eqn:Hc.
  - destruct (create_inv _ _ _ _ _ Hi (Hf 0%nat) Hc) as (Hi1 & Ha1 & Hk1).
    destruct (IH (fun n => es (S n)) s1 Hi1 (Hfresh s1 Hk1)) as [Hi2 Ha2]. split; [done | by etransitivity].
  - split; [by apply (srv_inv_same s) | done].
Qed.

(** A row updated in place, the locks only shrinking. *)
Lemma update_inv s s' id q q' :
  srv_inv s -> rows s !! id = Some q -> evolves q q' -> rows s' = <[id := q']> (rows s) ->
  (forall id' v, lock_of s' id' = Some v -> lock_of s id' = Some v) ->
  (Store.Status q' = StatusClaimed -> lock_of s' id = None) ->
  srv_inv s' /\ advances (rows s) (rows s').
Proof.
  intros [Hids Hlocks] Hq He Hr Hl Hc. split; [split |]; rewrite ?Hr.
  - intros i x [[<- <-] | [_ Hx]]%lookup_insert_Some; [| by apply Hids].
    rewrite <- (Hids _ _ Hq). exact (f_equal QuoteID (ev_terms _ _ He)).
  - intros i v Hv. rewrite lookup_insert. case_decide as Hid; [subst i | by apply (Hlocks i v), Hl].
    exists q'. split; [done |]. intros Hst. rewrite (Hc Hst) in Hv. done.
  - by eapply advances_insert.
Qed.

Lemma shrink_lock s s' : (forall k, held (sh_locks (sh s')) k = None \/ held (sh_locks (sh s')) k = held (sh_locks (sh s)) k) ->
  forall id v, lock_of s' id = Some v -> lock_of s id = Some v.
Proof. intros Hk id v. unfold lock_of. destruct (Hk (lockKey id)) as [-> | ->]; done. Qed.

Lemma getQuote_inv now r id s :
  srv_inv s ->
  srv_inv (fst (getQuote fmt_time now r id s)) /\ advances (rows s) (rows (fst (getQuote fmt_time now r id s))).
Proof.
  intros Hi. unfold getQuote. destruct (GetQuote (sh_store (sh s)) id) as [q |] eqn:Hq; [| by split].
  destruct (shows_expired now q) eqn:He; [| by split]. cbn [fst].
  rewrite (update_known id _ (sh s) q Hq). cbn [fst].
  apply (update_inv s _ id q (set_status StatusExpired q)); [done | exact Hq | | done | done | done].
  apply evolves_status. unfold shows_expired in He. unfold status_le.
  apply orb_true_iff in He as [He | [He _]%andb_true_iff]; apply bool_decide_eq_true in He; auto.
Qed.

Lemma cancel_inv td ta id old s :
  srv_inv s -> rows s !! id = Some old ->
  let s' := cancel td ta id old s in
  srv_inv s' /\ advances (rows s) (rows s') /\ (forall i, rows s !! i = None -> rows s' !! i = None) /\
  rows s' = <[id := set_status StatusCanceled old]> (rows s) /\
  sh_locks (sh s') = fst (lb_Del td (lockKey id) (sh_locks (sh s))) /\
  events s' = events s ++ [stamp ta (quote_event "quote.refreshed" id old "")] /\ cfg s' = cfg s.
Proof.
  intros Hi Hq. assert (rows (cancel td ta id old s) = <[id := set_status StatusCanceled old]> (rows s) /\
    sh_locks (sh (cancel td ta id old s)) = fst (lb_Del td (lockKey id) (sh_locks (sh s))) /\
    events (cancel td ta id old s) = events s ++ [stamp ta (quote_event "quote.refreshed" id old "")]) as (Hr & Hl & He).
  { unfold cancel, rows, events. rewrite (update_known id _ (sh s) old Hq). cbn [fst sh set_sh].
    set (ev := quote_event _ _ _ _). set (x := set_locks _ _).
    destruct (append_fields ta ev x) as (-> & -> & _ & ->). by subst x. }
  destruct (lb_Del td (lockKey id) (sh_locks (sh s))) as [l b] eqn:Hd. cbn [fst] in *.
  destruct (Del_held _ _ _ _ _ Hd) as [Hk _].
  destruct (update_inv s (cancel td ta id old s) id old (set_status StatusCanceled old)) as [Hi' Ha]; try done.
  - apply evolves_status. by right; right.
  - apply shrink_lock. by rewrite Hl.
  - split; [done |]. split; [done |]. split; [| done]. intros i Hn. rewrite Hr.
    by rewrite lookup_insert_ne by congruence.
Qed.

Lemma refresh_inv td ta e r id s s' rsp :
  srv_inv s -> fresh s e -> refreshQuote json_text fmt_time td ta e r id s = Ret (s', rsp) ->
  srv_inv s' /\ advances (rows s) (rows s').
Proof.
  intros Hi Hf. unfold refreshQuote. destruct (GetQuote (sh_store (sh s)) id) as [old |] eqn:Hq.
  2:{ intros [= <- <-]. split; [done | reflexivity]. }
  destruct (cancel_inv td ta id old s Hi Hq) as (Hi1 & Ha1 & Hn1 & _). cbv zeta in Hi1, Ha1, Hn1.
  set (s1 := cancel td ta id old s) in *.
  intros ([s2 pr] & Hp & Hres)%outcome_bind_ret.
  destruct (price_frame _ _ _ _ _ _ _ _ _ Hp) as (Hst & Hlk & _ & _ & _).
  assert (rows s2 = rows s1) as Hr2 by (unfold rows; by rewrite Hst).
  destruct pr as [cr | err]; injection Hres as <- <-.
  - set (nq := new_quote _ _ _ _ _ _ _ _ _).
    destruct (issue_inv e nq cr s2) as [Hi2 Ha2]; [by eapply srv_inv_same | rewrite Hr2; by apply Hn1 | done |].
    split; [done |]. etransitivity; [exact Ha1 |]. by rewrite <- Hr2.
  - split; [by eapply srv_inv_same | by rewrite Hr2].
Qed.

(** Rows and log as they were, the locks only shrinking. *)
Lemma shrink_inv s s' : srv_inv s -> rows s' = rows s ->
  (forall k, held (sh_locks (sh s')) k = None \/ held (sh_locks (sh s')) k = held (sh_locks (sh s)) k) ->
  srv_inv s' /\ advances (rows s) (rows s').
Proof.
  intros [Hids Hlocks] Hr Hk. rewrite Hr. split; [| done]. split; rewrite Hr; [done |].
  intros id v Hv. by apply (Hlocks id v), (shrink_lock s s' Hk).
Qed.

Lemma claim_left_inv ct id s : srv_inv s ->
  srv_inv (set_sh (claim_left ct id (sh s)) s) /\
  advances (rows s) (rows (set_sh (claim_left ct id (sh s)) s)).
Proof.
  intros Hi. destruct (claim_left_frame ct id (sh s)) as (Hst & _ & Hk).
  apply shrink_inv; [done | unfold rows; cbn; by rewrite Hst | exact Hk].
Qed.

Lemma refresh_left_inv td ta e id s : srv_inv s ->
  srv_inv (refreshQuote_left td ta e id s) /\ advances (rows s) (rows (refreshQuote_left td ta e id s)).
Proof.
  intros Hi. unfold refreshQuote_left. destruct (GetQuote (sh_store (sh s)) id) as [old |] eqn:Hq; [| by split].
  destruct (cancel_inv td ta id old s Hi Hq) as (Hi1 & Ha1 & _). split; [| exact Ha1].
  by apply (srv_inv_same (cancel td ta id old s)).
Qed.

Lemma claim_inv tol ct id by_ s s' x res :
  srv_inv s -> ClaimService_Claim tol ct id by_ (sh s) = Ret (x, res) ->
  sh s' = x -> srv_inv s' /\ advances (rows s) (rows s').
Proof.
  intros Hi Hc Hx. destruct (decide (res_Reason res = "")) as [Hr | Hr].
  - pose proof (Claim_effect _ _ _ _ _ _ _ Hc) as He. destruct He as [| q reason Hq Hent | | | | q x l v cur Hq Hent Hl _ _ Hst Hlk _]; try done.
    { simpl in Hr. subst reason. unfold claim_entry in Hent. by repeat case_match. }
    destruct (Claim_held _ _ _ _ _ Hl) as [Hk Hg]. destruct (Hg v eq_refl) as [_ Hgone]. subst x.
    apply (update_inv s s' id q (set_claimed (ct_claimed ct) by_ q)); try done.
    + apply evolves_claimed. by destruct (claim_entry_lock _ _ Hent).
    + apply shrink_lock. by rewrite Hlk.
    + intros _. unfold lock_of. by rewrite Hlk.
  - destruct (refused_effect _ _ _ _ _ _ _ Hc Hr) as [Hk Hrows]. subst x.
    destruct Hrows as [Hrows | (q & Hq & Ho & _ & Hrows & _)].
    + by apply shrink_inv.
    + apply (update_inv s s' id q (set_status StatusExpired q)); try done.
      * apply evolves_status. right. by left.
      * by apply shrink_lock.
Qed.

(** ** The sweep *)

Definition overdue (now : time) q : bool :=
  bool_decide (Store.Status q = StatusOpen) && time_After now (ExpiresAt q).

Definition swept (now : time) q : Quote U D := if overdue now q then set_status StatusExpired q else q.

Lemma sweep_one_effect now ta s q : rows s !! QuoteID q = Some q ->
  rows (sweep_one now ta s q) = <[QuoteID q := swept now q]> (rows s) /\
  events (sweep_one now ta s q) = events s ++ (if overdue now q
    then [stamp (ta (QuoteID q)) (quote_event "quote.expired" (QuoteID q) q "")] else []) /\
  sh_locks (sh (sweep_one now ta s q)) = sh_locks (sh s).
Proof.
  intros Hq. unfold sweep_one. fold (overdue now q). unfold swept. destruct (overdue now q) eqn:Ho.
  - rewrite (update_known (QuoteID q) _ (sh s) q Hq). cbn [fst].
    unfold rows, events. cbn [sh set_sh]. set (ev := quote_event _ _ _ _). set (x := set_store _ _).
    by destruct (append_fields (ta (QuoteID q)) ev x) as (-> & -> & _ & ->).
  - by rewrite insert_id, app_nil_r.
Qed.

Lemma sweep_fold now ta qs : forall s,
  (forall q, q ∈ qs -> rows s !! QuoteID q = Some q) -> NoDup (QuoteID <$> qs) ->
  let s' := fold_left (sweep_one now ta) qs s in
  (forall id, rows s' !! id = if decide (id ∈ QuoteID <$> qs) then swept now <$> rows s !! id else rows s !! id) /\
  events s' = events s ++
    ((fun q => stamp (ta (QuoteID q)) (quote_event "quote.expired" (QuoteID q) q "")) <$> List.filter (overdue now) qs) /\
  sh_locks (sh s') = sh_locks (sh s).
Proof.
  induction qs as [| q qs IH]; intros s Hin Hnd; cbn [fold_left fmap list_fmap List.filter].
  { split; [| by rewrite app_nil_r]. intros id. rewrite decide_False; [done | apply not_elem_of_nil]. }
  cbn [fmap list_fmap] in Hnd. apply list.NoDup_cons in Hnd as [Hnotin Hnd].
  assert (rows s !! QuoteID q = Some q) as Hq by (apply Hin; left).
  destruct (sweep_one_effect now ta s q Hq) as (Hrows & He1 & Hl1).
  set (s1 := sweep_one now ta s q) in *.
  assert (forall id, rows s1 !! id = if decide (id = QuoteID q) then Some (swept now q) else rows s !! id) as Hr1.
  { intros id. rewrite Hrows. destruct (decide (id = QuoteID q)) as [-> | Hne];
      [by rewrite lookup_insert_eq | by rewrite lookup_insert_ne]. }
  destruct (IH s1) as (Hr & He & Hl); [| done |].
  { intros q' Hq'. rewrite Hr1. rewrite decide_False; [apply Hin; by right |].
    intros Heq. apply Hnotin. rewrite <- Heq. by apply list_elem_of_fmap_2. }
  split; [| split].
  - intros id. rewrite Hr, Hr1. destruct (decide (id = QuoteID q)) as [-> | Hne].
    + rewrite decide_False by done. rewrite decide_True by left. by rewrite Hq.
    + destruct (decide (id ∈ QuoteID <$> qs)) as [Hi | Hi].
      * rewrite decide_True; [done | by right].
      * rewrite decide_False; [done |]. intros [? | ?]%elem_of_cons; done.
  - rewrite He, He1, <- app_assoc. f_equal. by destruct (overdue now q).
  - by rewrite Hl.
Qed.

(** The listing of a keyed table: its rows, each once. *)
Lemma ListQuotes_rows s ord : srv_inv s -> iteration_of ord (rows s) ->
  (forall q, q ∈ ListQuotes (sh_store (sh s)) ord -> rows s !! QuoteID q = Some q) /\
  NoDup (QuoteID <$> ListQuotes (sh_store (sh s)) ord) /\
  (forall id, id ∈ QuoteID <$> ListQuotes (sh_store (sh s)) ord <-> is_Some (rows s !! id)).
Proof.
  intros [Hids _] Hord. unfold ListQuotes.
  assert (forall l : list (Quote U D), merge_sort created_le l ≡ₚ l) as Hperm by (intros l0; apply merge_sort_Permutation).
  set (l := omap (fun id => quotes (sh_store (sh s)) !! id) ord).
  assert (forall o : list U, (forall id, id ∈ o -> is_Some (rows s !! id)) ->
    QuoteID <$> omap (fun id => quotes (sh_store (sh s)) !! id) o = o) as Hids'.
  { induction o as [| id o IH]; intros Ho; [done |]. simpl. destruct (Ho id) as [q Hq]; [left |].
    change (quotes (sh_store (sh s)) !! id) with (rows s !! id). rewrite Hq. simpl. f_equal.
    - by apply Hids. - apply IH. intros i Hi. apply Ho. by right. }
  assert (forall id, id ∈ ord <-> is_Some (rows s !! id)) as Hdom.
  { intros id. rewrite Hord. rewrite list_elem_of_fmap. split.
    - intros ([i q] & -> & Hi%elem_of_map_to_list). by exists q.
    - intros [q Hq]. exists (id, q). split; [done | by apply elem_of_map_to_list]. }
  assert (QuoteID <$> l = ord) as Hl by (apply Hids'; intros id; by apply Hdom).
  split; [| split].
  - intros q Hq. rewrite Hperm in Hq. apply list_elem_of_omap in Hq as (id & _ & Hid).
    change (rows s !! id = Some q) in Hid. by rewrite (Hids _ _ Hid).
  - rewrite Hperm, Hl, Hord. apply NoDup_fst_map_to_list.
  - intros id. rewrite Hperm, Hl. apply Hdom.
Qed.

Lemma sweep_exact_lemma now ta ord s : srv_inv s -> iteration_of ord (rows s) ->
  let s' := sweepExpired now ta ord s in
  (forall id, rows s' !! id = swept now <$> rows s !! id) /\
  events s' = events s ++
    ((fun q => stamp (ta (QuoteID q)) (quote_event "quote.expired" (QuoteID q) q "")) <$>
       List.filter (overdue now) (ListQuotes (sh_store (sh s)) ord)) /\
  sh_locks (sh s') = sh_locks (sh s).
Proof.
  intros Hi Hord. destruct (ListQuotes_rows s ord Hi Hord) as (Hin & Hnd & Hdom).
  destruct (sweep_fold now ta (ListQuotes (sh_store (sh s)) ord) s Hin Hnd) as (Hr & He & Hl).
  split; [| done]. intros id. unfold sweepExpired. rewrite Hr. case_decide as Hid; [done |].
  destruct (rows s !! id) eqn:Hrow; [| done]. destruct Hid. apply Hdom. by rewrite Hrow.
Qed.

Lemma sweep_inv now ta ord s : srv_inv s -> iteration_of ord (rows s) ->
  srv_inv (sweepExpired now ta ord s) /\ advances (rows s) (rows (sweepExpired now ta ord s)).
Proof.
  intros Hi Hord. destruct (sweep_exact_lemma now ta ord s Hi Hord) as (Hr & _ & Hl).
  assert (forall q, evolves q (swept now q)) as Hev.
  { intros q. unfold swept. destruct (overdue now q) eqn:Ho; [| reflexivity]. apply evolves_status.
    unfold overdue in Ho. apply andb_true_iff in Ho as [Ho _]. apply bool_decide_eq_true in Ho. right. by left. }
  split; [split |].
  - intros id q. rewrite Hr. destruct (rows s !! id) as [q0 |] eqn:Hq; [| done]. intros [= <-].
    rewrite <- (si_ids s Hi id q0 Hq). exact (f_equal QuoteID (ev_terms _ _ (Hev q0))).
  - intros id v. unfold lock_of. rewrite Hl. intros Hv. destruct (si_locks s Hi id v Hv) as (q & Hq & Hst).
    exists (swept now q). rewrite Hr, Hq. split; [done |]. unfold swept. by destruct (overdue now q).
  - intros id q Hq. exists (swept now q). rewrite Hr, Hq. done.
Qed.

(** ** The state machine *)

(** One request, answered or aborted by a panic, or background job, with ids
    that [uuid.NewV7] has not given before; or locks that vanish by themselves,
    as those of a backend do when their time is up. *)
Inductive srv_step s : Server U D L -> Prop :=
  | step_quotes es ord r s' rsp :
      fresh_all s es -> iteration_of ord (rows s) ->
      quotesHandler json_parse json_text fmt_time es ord r s = Ret (s', rsp) -> srv_step s s'
  | step_by_id now td ta e r s' rsp :
      fresh s e -> quoteByIDHandler json_text fmt_time now td ta e r s = Ret (s', rsp) -> srv_step s s'
  | step_claim ct r s' rsp :
      internalQuoteHandler json_first fmt_time ct r s = Ret (s', rsp) -> srv_step s s'
  | step_quotes_aborted es ord r why :
      fresh_all s es -> quotesHandler json_parse json_text fmt_time es ord r s = Panic why ->
      srv_step s (quotesHandler_left json_parse json_text fmt_time es r s)
  | step_by_id_aborted now td ta e r why :
      fresh s e -> quoteByIDHandler json_text fmt_time now td ta e r s = Panic why ->
      srv_step s (quoteByIDHandler_left td ta e r s)
  | step_claim_aborted ct r why :
      internalQuoteHandler json_first fmt_time ct r s = Panic why -> srv_step s (internalQuoteHandler_left ct r s)
  | step_locks l' :
      (forall k, held l' k = None \/ held l' k = held (sh_locks (sh s)) k) ->
      srv_step s (set_sh (set_locks l' (sh s)) s)
  | step_reload e r : srv_step s (fst (feeSchedulesReload e r s))
  | step_sweep now ta ord : iteration_of ord (rows s) -> srv_step s (sweepExpired now ta ord s)
  | step_tick e : srv_step s (refreshFeeSchedules e s).

Lemma srv_step_inv s s' : srv_inv s -> srv_step s s' -> srv_inv s' /\ advances (rows s) (rows s').
Proof.
  intros Hi Hstep. assert (forall s2, srv_inv s2 -> srv_inv s2 /\ advances (rows s2) (rows s2)) as Hsame by (by split).
  destruct Hstep as [es ord r s' rsp Hf _ Hq | now td ta e r s' rsp Hf Hq | ct r s' rsp Hq | es ord r why Hf _
                     | now td ta e r why _ _ | ct r why _ | l' Hl | e r | now ta ord Ho | e].
  - unfold quotesHandler in Hq. repeat case_match; try (injection Hq as <- <-; by apply Hsame).
    + unfold bulkQuotes in Hq. repeat case_match; try (injection Hq as <- <-; by apply Hsame).
      apply outcome_bind_ret in Hq as ([s1 its] & Hb & [= <- <-]). by eapply bulk_inv.
    + unfold singleQuote in Hq. repeat case_match; try (injection Hq as <- <-; by apply Hsame).
      apply outcome_bind_ret in Hq as ([s1 res] & Hb & [= <- <-]).
      destruct (create_inv _ _ _ _ _ Hi (proj1 Hf 0%nat) Hb) as (? & ? & _). done.
    + unfold singleQuote in Hq. repeat case_match; try (injection Hq as <- <-; by apply Hsame).
      apply outcome_bind_ret in Hq as ([s1 res] & Hb & [= <- <-]).
      destruct (create_inv _ _ _ _ _ Hi (proj1 Hf 0%nat) Hb) as (? & ? & _). done.
  - unfold quoteByIDHandler in Hq. destruct (parse_id _) as [msg | id]; [injection Hq as <- <-; by apply Hsame |].
    repeat case_match; try (injection Hq as <- <-; by apply Hsame); [by eapply refresh_inv |].
    pose proof (getQuote_inv now r id s Hi) as Hg. injection Hq as Hq. by rewrite Hq in Hg.
  - unfold internalQuoteHandler in Hq. destruct (parse_id _) as [msg | id]; [injection Hq as <- <-; by apply Hsame |].
    repeat case_match; try (injection Hq as <- <-; by apply Hsame).
    apply outcome_bind_ret in Hq as ([x res] & Hc & Hq).
    pose proof (claim_inv _ _ _ _ s (set_sh x s) x res Hi Hc eq_refl) as Hi'.
    destruct Hi' as [[Ha Hb] Hadv].
    repeat case_match; try done; injection Hq as <- <-; (split; [by split | exact Hadv]).
  - unfold quotesHandler_left. repeat case_match; try (by apply Hsame); first [by apply bulk_left_inv | by split; [apply (srv_inv_same s) |]].
  - unfold quoteByIDHandler_left. destruct (parse_id _); [by apply Hsame | by apply refresh_left_inv].
  - unfold internalQuoteHandler_left. destruct (parse_id _); [by apply Hsame | by apply claim_left_inv].
  - by apply shrink_inv.
  - destruct (Hsame s Hi) as [[Ha Hb] Hr]. unfold feeSchedulesReload.
    repeat case_match; (split; [by split | exact Hr]).
  - by apply sweep_inv.
  - destruct (Hsame s Hi) as [[Ha Hb] Hr]. split; [by split | exact Hr].
Qed.

Lemma srv_steps_inv s s' : srv_inv s -> rtc srv_step s s' -> srv_inv s' /\ advances (rows s) (rows s').
Proof.
  intros Hi Hs. induction Hs as [s | s1 s2 s3 H12 _ IH]; [by split |].
  destruct (srv_step_inv s1 s2 Hi H12) as [Hi2 Ha]. destruct (IH Hi2) as [Hi3 Ha'].
  split; [done | by etransitivity].
Qed.

Lemma NewServer_inv c e t (l : L) : (forall k, held l k = None) -> srv_inv (NewServer (D := D) c e t l).
Proof.
  intros Hl. split.
  - intros id q Hq. unfold rows, NewServer in Hq. destruct (ReloadIndex _ _) as [p g]. cbn in Hq.
    by rewrite lookup_empty in Hq.
  - intros id v Hv. unfold lock_of, NewServer in Hv. destruct (ReloadIndex _ _) as [p g]. cbn in Hv.
    by rewrite Hl in Hv.
Qed.

(** ** What the library states about the server *)

(** C5: the rate lock.  From a server that started with an empty lock store,
    whatever requests and background jobs run, one at a time, requests that
    panic included, and whatever locks vanish by themselves: a quote never
    disappears, none of its terms (amounts, rate, spread, fee, expiry) ever
    changes, its status only goes from open to claimed or expired and from
    anything to canceled, who claimed it and when never changes, and every
    lock belongs to a stored quote that is not claimed. *)
Theorem rate_lock c e t (l : L) s s' :
  (forall k, held l k = None) ->
  rtc srv_step (NewServer c e t l) s -> rtc srv_step s s' ->
  advances (rows s) (rows s') /\
  (forall id v, lock_of s id = Some v -> exists q, rows s !! id = Some q /\ Store.Status q <> StatusClaimed).
Proof.
  intros Hl H1 H2. destruct (srv_steps_inv _ _ (NewServer_inv c e t l Hl) H1) as [Hi _].
  destruct (srv_steps_inv _ _ Hi H2) as [_ Ha]. split; [done | apply (si_locks s Hi)].
Qed.

(** C25: the sweep.  It marks as expired exactly the open quotes past their
    expiry at the instant it read, changes no other row and no lock, and
    records one event for each, in the order of the listing. *)
Theorem sweep_exact now ta ord s : srv_inv s -> iteration_of ord (rows s) ->
  let s' := sweepExpired now ta ord s in
  (forall id, rows s' !! id = swept now <$> rows s !! id) /\
  events s' = events s ++
    ((fun q => stamp (ta (QuoteID q)) (quote_event "quote.expired" (QuoteID q) q "")) <$>
       List.filter (overdue now) (ListQuotes (sh_store (sh s)) ord)) /\
  sh_locks (sh s') = sh_locks (sh s).
Proof. exact (sweep_exact_lemma now ta ord s). Qed.

(** C11: issuing a quote.  When pricing fails the client is told that the rate
    is unavailable and only the spot service has changed; otherwise exactly
    one row appears: open, not claimed, with the terms of the request and the
    computed rate, spread, fee, total, crypto amount and venue, expiring one
    time-to-live after its creation; its lock is requested for the same time to
    live, with a payload that states the rate, the pair, the amount and the
    expiry; and one event is recorded. *)
Theorem createQuote_correct e req s sp out :
  Compute (pricer s) (sh_store (sh s)) (sh_spot (sh s)) (ie_since e) (ie_reseed e) (req_From req) (req_To req)
    (fst (parseAmount (req_Amount req))) (req_UserTier req) (req_Side req) = Ret (sp, out) ->
  match out with
  | Err _ => createQuote json_text fmt_time e req s = Ret (set_sh (set_spot sp (sh s)) s, Err errSpotUnavailable)
  | Ok cr =>
      exists s' q, createQuote json_text fmt_time e req s = Ret (s', Ok q) /\
        QuoteID q = ie_id e /\ From q = req_From req /\ To q = req_To req /\ Amount q = req_Amount req /\
        UserTier q = req_UserTier req /\ Side q = req_Side req /\ Store.Status q = StatusOpen /\
        ClaimedAt q = None /\ ClaimedBy q = "" /\
        LockedRate q = cr_Rate cr /\ Rate_ q = dec_to_string (cr_Rate cr) /\ SpreadBPS q = cr_SpreadBPS cr /\
        Fee q = dec_to_string (cr_Fee cr) /\ FeeCurrency q = req_From req /\
        Store.Total q = dec_to_string (cr_Total cr) /\ CryptoAmount q = dec_to_string (cr_CryptoAmount cr) /\
        SpotPrice q = cr_Spot cr /\ SourceVenue q = cr_SourceVenue cr /\
        CreatedAt q = ie_now e /\ ExpiresAt q = (CreatedAt q + RateLockTTL (cfg s))%Z /\
        (forall id, rows s' !! id = if decide (id = ie_id e) then Some q else rows s !! id) /\
        sh_locks (sh s') = fst (lb_SetNX (ie_check e) (ie_set e) (lockKey (ie_id e))
          (json_text (JObj [("rate", JStr (dec_to_string (cr_Rate cr))); ("from", JStr (req_From req));
             ("to", JStr (req_To req)); ("amount", JStr (req_Amount req));
             ("expires_at", JStr (fmt_time (ie_now e + RateLockTTL (cfg s))%Z));
             ("source_venue", JStr (cr_SourceVenue cr))]))
          (RateLockTTL (cfg s)) (sh_locks (sh s))) /\
        events s' = events s ++ [stamp (ie_audit e) (quote_event "quote.issued" (ie_id e) q "")]
  end.
Proof.
  intros Hc. unfold createQuote, price. rewrite Hc. cbn [mbind outcome_bind mret outcome_ret].
  destruct out as [cr | err]; [| done]. set (s1 := set_sh (set_spot sp (sh s)) s).
  set (q := new_quote _ _ _ _ _ _ _ _ _). destruct (issue_frame e q cr s1) as (Hr & Hl & He & _).
  exists (issue json_text fmt_time e q cr s1), q. split_and!; try done. intros id.
  rewrite Hr, lookup_insert. destruct (decide (QuoteID q = id)) as [<- | Hne]; [by rewrite decide_True |].
  rewrite decide_False; [done |]. intros ->. by apply Hne.
Qed.

(** C26: reading a quote.  Unknown is 404; an expired quote, or an open one
    past its expiry, is 410 and its row becomes expired, without any event;
    anything else is shown as stored with nothing changed, so an open quote
    that is shown has not passed its expiry. *)
Theorem getQuote_correct now r id s :
  let s' := fst (getQuote fmt_time now r id s) in
  let rsp := snd (getQuote fmt_time now r id s) in
  match rows s !! id with
  | None => s' = s /\ rsp_status rsp = StatusNotFound
  | Some q =>
      if shows_expired now q then
        rows s' = <[id := set_status StatusExpired q]> (rows s) /\ rsp_status rsp = StatusGone /\
        events s' = events s
      else s' = s /\ rsp = mkResponse StatusOK (toResponse fmt_time q) /\
           (Store.Status q = StatusOpen -> (now <= ExpiresAt q)%Z)
  end.
Proof.
  unfold getQuote. change (GetQuote (sh_store (sh s)) id) with (rows s !! id).
  destruct (rows s !! id) as [q |] eqn:Hq; [| done]. destruct (shows_expired now q) eqn:He; cbn [fst snd].
  - rewrite (update_known id _ (sh s) q Hq). done.
  - split; [done |]. split; [done |]. intros Ho. apply orb_false_iff in He as [_ He].
    rewrite bool_decide_true in He by done. rewrite andb_true_l in He. unfold time_After in He. zbool. lia.
Qed.

(** What an answer of the claim endpoint says about the rows. *)
Lemma claim_endpoint_effect ct r s s' rsp :
  internalQuoteHandler json_first fmt_time ct r s = Ret (s', rsp) ->
  (rsp_status rsp = StatusOK /\
   exists id by_ q, parse_id (path_parts "/internal/v1/quotes/" (hr_Path r)) = inr id /\
     TrimSpace (runes by_) <> [] /\ rows s !! id = Some q /\ Store.Status q = StatusOpen /\
     (ct_expiry ct <= ExpiresAt q)%Z /\
     rows s' = <[id := set_claimed (ct_claimed ct) by_ q]> (rows s) /\
     rsp = mkResponse StatusOK (toResponse fmt_time (set_claimed (ct_claimed ct) by_ q))) \/
  (rsp_status rsp ∈ [StatusBadRequest; StatusNotFound; StatusMethodNotAllowed; StatusConflict; StatusGone] /\
   (rows s' = rows s \/
    exists id q, rows s !! id = Some q /\ Store.Status q = StatusOpen /\ (ExpiresAt q < ct_expiry ct)%Z /\
      rows s' = <[id := set_status StatusExpired q]> (rows s))).
Proof.
  intros Hq. unfold internalQuoteHandler in Hq.
  destruct (parse_id _) as [msg | id] eqn:Hid.
  { right. injection Hq as <- <-. split; [by apply list_elem_of_In; simpl; auto 10 | by left]. }
  destruct (negb (bool_decide _)) eqn:Hroute.
  { right. injection Hq as <- <-. split; [by apply list_elem_of_In; simpl; auto 10 | by left]. }
  destruct (negb (String.eqb (hr_Method r) "POST")).
  { right. injection Hq as <- <-. split; [by apply list_elem_of_In; simpl; auto 10 | by left]. }
  destruct (json_first (hr_Body r) ≫= unmarshal_claim) as [by_ |].
  2:{ right. injection Hq as <- <-. split; [by apply list_elem_of_In; simpl; auto 10 | by left]. }
  case_bool_decide as Hblank.
  { right. injection Hq as <- <-. split; [by apply list_elem_of_In; simpl; auto 10 | by left]. }
  apply outcome_bind_ret in Hq as ([x res] & Hc & Hq).
  destruct (String.eqb_spec (res_Reason res) "") as [Hr | Hr]; simpl in Hq.
  - left. pose proof (Claim_effect _ _ _ _ _ _ _ Hc) as He.
    destruct He as [| q reason Hq' Hent | | | | q x l v cur Hq' Hent Hl _ _ Hst _ _]; try done.
    { simpl in Hr. subst reason. unfold claim_entry in Hent. by repeat case_match. }
    destruct (claim_entry_lock _ _ Hent) as [Ho Hexp]. simpl in Hq. injection Hq as <- <-.
    split; [done |]. exists id, by_, q. by split_and!.
  - right. destruct (refused_effect _ _ _ _ _ _ _ Hc Hr) as [_ Hrows]. injection Hq as <- <-. split.
    + unfold claim_response. repeat case_match; apply list_elem_of_In; simpl; auto 10.
    + destruct Hrows as [Hrows | (q & Hq' & Ho & Hexp & Hrows & _)]; [by left | right]. by exists id, q.
Qed.

(** The endpoint fails to answer only when the guard panics. *)
Lemma claim_endpoint_panic ct r s why :
  internalQuoteHandler json_first fmt_time ct r s = Panic why ->
  exists id q cur l v, parse_id (path_parts "/internal/v1/quotes/" (hr_Path r)) = inr id /\ rows s !! id = Some q /\
    Store.Status q = StatusOpen /\ lb_Claim (ct_lock ct) (lockKey id) (sh_locks (sh s)) = (l, Some v) /\
    snd (Get0 (ct_since ct) (ct_reseed ct) (From q) (To q) (sh_spot (sh s))) = Ok cur /\ guard_overflows q cur = true.
Proof.
  unfold internalQuoteHandler. destruct (parse_id _) as [msg | id]; [done |].
  destruct (negb (bool_decide _)); [done |]. destruct (negb _); [done |].
  destruct (json_first (hr_Body r) ≫= unmarshal_claim) as [by_ |]; [| done].
  case_bool_decide; [done |].
  destruct (ClaimService_Claim _ _ _ _ _) as [[x res] | w] eqn:Hc; cbn [mbind outcome_bind].
  - apply Claim_effect in Hc. destruct (String.eqb_spec (res_Reason res) "") as [Hr | Hr]; [| done].
    cbn [negb]. destruct (res_Quote res) eqn:Hq; [done |]. by destruct Hc; simplify_eq/=.
  - intros _. destruct (Claim_panic _ _ _ _ _ _ Hc) as (q & l & v & cur & Hq & Hent & Hl & Hcur & Ho).
    exists id, q, cur, l, v. split_and!; try done. by destruct (claim_entry_lock _ _ Hent).
Qed.

(** C12: the claim endpoint.  It answers, unless the slippage guard panics on
    exponents that do not fit: then the quote was open, its lock was held and
    is taken, and no row has changed.  It answers 200 exactly when the claim
    went through: the path named an id, the body a caller that is not blank,
    and that quote's row, open and unexpired before, is now claimed by that
    caller.  Every other answer is 400, 404, 405, 409 or 410, with no row
    newly claimed: rows change at most from open to expired. *)
Theorem claim_endpoint_correct ct r s :
  (exists why, internalQuoteHandler json_first fmt_time ct r s = Panic why /\
     rows (internalQuoteHandler_left ct r s) = rows s /\
     exists id q cur, parse_id (path_parts "/internal/v1/quotes/" (hr_Path r)) = inr id /\ rows s !! id = Some q /\
       Store.Status q = StatusOpen /\ (exists v, lock_of s id = Some v) /\
       lock_of (internalQuoteHandler_left ct r s) id = None /\
       snd (Get0 (ct_since ct) (ct_reseed ct) (From q) (To q) (sh_spot (sh s))) = Ok cur /\
       guard_overflows q cur = true) \/
  exists s' rsp, internalQuoteHandler json_first fmt_time ct r s = Ret (s', rsp) /\
  ((rsp_status rsp = StatusOK /\
   exists id by_ q, parse_id (path_parts "/internal/v1/quotes/" (hr_Path r)) = inr id /\
     TrimSpace (runes by_) <> [] /\ rows s !! id = Some q /\ Store.Status q = StatusOpen /\
     (ct_expiry ct <= ExpiresAt q)%Z /\
     rows s' = <[id := set_claimed (ct_claimed ct) by_ q]> (rows s) /\
     rsp = mkResponse StatusOK (toResponse fmt_time (set_claimed (ct_claimed ct) by_ q))) \/
  (rsp_status rsp ∈ [StatusBadRequest; StatusNotFound; StatusMethodNotAllowed; StatusConflict; StatusGone] /\
   (rows s' = rows s \/
    exists id q, rows s !! id = Some q /\ Store.Status q = StatusOpen /\ (ExpiresAt q < ct_expiry ct)%Z /\
      rows s' = <[id := set_status StatusExpired q]> (rows s)))).
Proof.
  destruct (internalQuoteHandler json_first fmt_time ct r s) as [[s' rsp] | why] eqn:Hq; [right | left].
  - exists s', rsp. split; [done | exact (claim_endpoint_effect ct r s s' rsp Hq)].
  - exists why. split; [done |].
    destruct (claim_endpoint_panic ct r s why Hq) as (id & q & cur & l & v & Hid & Hrow & Ho & Hl & Hcur & Hov).
    unfold internalQuoteHandler_left. rewrite Hid. destruct (claim_left_frame ct id (sh s)) as (Hst & _).
    split; [unfold rows; cbn; by rewrite Hst |]. exists id, q, cur.
    destruct (Claim_held _ _ _ _ _ Hl) as [_ Hv]. destruct (Hv v eq_refl) as [Hheld Hgone].
    split_and!; try done; [by exists v |].
    unfold lock_of. cbn [sh set_sh]. unfold claim_left.
    change (GetQuote (sh_store (sh s)) id) with (rows s !! id). rewrite Hrow. cbn [sh_locks set_spot set_locks].
    by rewrite Hl.
Qed.

(** C24: refreshing a quote.  Whatever its status, claimed included, the old
    row becomes canceled, its lock is deleted and one event is recorded.  When
    no rate is available the answer is 503 and that is all.  Otherwise a new
    open quote appears for the same pair, amount, tier and side, priced at the
    current rate; its lock, on its own key and with its own payload, is
    requested for one time to live, after the old one was deleted; an event is
    recorded for it; and no other row changes. *)
Theorem refresh_correct td ta e r id s old sp out :
  srv_inv s -> fresh s e -> rows s !! id = Some old ->
  Compute (pricer s) (sh_store (sh (cancel td ta id old s))) (sh_spot (sh s)) (ie_since e) (ie_reseed e) (From old)
    (To old) (fst (parseAmount (Amount old))) (UserTier old) (Side old) = Ret (sp, out) ->
  let unlocked := fst (lb_Del td (lockKey id) (sh_locks (sh s))) in
  exists s' rsp, refreshQuote json_text fmt_time td ta e r id s = Ret (s', rsp) /\
    rows s' !! id = Some (set_status StatusCanceled old) /\
    match out with
    | Err _ =>
        rsp_status rsp = StatusServiceUnavailable /\ rows s' = <[id := set_status StatusCanceled old]> (rows s) /\
        sh_locks (sh s') = unlocked /\
        events s' = events s ++ [stamp ta (quote_event "quote.refreshed" id old "")]
    | Ok cr =>
        exists nq, rsp = mkResponse StatusCreated (toResponse fmt_time nq) /\
          rows s' = <[ie_id e := nq]> (<[id := set_status StatusCanceled old]> (rows s)) /\
          nq = new_quote (ie_id e) (ie_now e) (RateLockTTL (cfg s)) (From old) (To old) (Amount old) (UserTier old)
                 (Side old) cr /\
          Store.Status nq = StatusOpen /\ LockedRate nq = cr_Rate cr /\
          ExpiresAt nq = (ie_now e + RateLockTTL (cfg s))%Z /\
          sh_locks (sh s') = fst (lb_SetNX (ie_check e) (ie_set e) (lockKey (ie_id e))
            (lockPayload json_text fmt_time nq cr) (RateLockTTL (cfg s)) unlocked) /\
          events s' = events s ++ [stamp ta (quote_event "quote.refreshed" id old "");
                                   stamp (ie_audit e) (quote_event "quote.issued" (ie_id e) nq "")]
    end.
Proof.
  intros Hi Hf Hold Hc unlocked. destruct (cancel_inv td ta id old s Hi Hold) as (_ & _ & Hn & Hr1 & Hl1 & He1 & Hc1).
  set (s1 := cancel td ta id old s) in *. unfold refreshQuote.
  change (GetQuote (sh_store (sh s)) id) with (rows s !! id). rewrite Hold. fold s1.
  assert (pricer s1 = pricer s /\ sh_spot (sh s1) = sh_spot (sh s)) as [Hpr Hsp].
  { subst s1. unfold cancel. cbn [pricer set_sh sh]. set (x := set_locks _ _).
    destruct (append_fields ta (quote_event "quote.refreshed" id old "") x) as (_ & _ & -> & _). subst x.
    by rewrite (update_known id _ (sh s) old Hold). }
  unfold price. rewrite Hpr, Hsp, Hc. cbn [mbind outcome_bind mret outcome_ret].
  set (s2 := set_sh (set_spot sp (sh s1)) s1). destruct out as [cr | err].
  - cbn [mret outcome_ret]. change (cfg s2) with (cfg s1). rewrite Hc1.
    set (nq := new_quote _ _ _ _ _ _ _ _ _). do 2 eexists. split; [done |].
    destruct (issue_frame e nq cr s2) as (Hr & Hl & He & _).
    change (rows s2) with (rows s1) in Hr. change (events s2) with (events s1) in He.
    change (sh_locks (sh s2)) with (sh_locks (sh s1)) in Hl. change (cfg s2) with (cfg s1) in Hl.
    rewrite Hr1 in Hr. rewrite He1, <- app_assoc in He. rewrite Hl1, Hc1 in Hl. fold unlocked in Hl.
    assert (ie_id e <> id) as Hne by (intros Heq; unfold fresh in Hf; congruence). split.
    + rewrite Hr, lookup_insert_ne by done. apply lookup_insert_eq.
    + exists nq. by split_and!.
  - do 2 eexists. split; [done |]. change (rows s2) with (rows s1). change (events s2) with (events s1).
    change (sh_locks (sh s2)) with (sh_locks (sh s1)). rewrite Hr1, Hl1, He1. split_and!; try done.
    apply lookup_insert_eq.
Qed.

End lifecycle.

(** ** A server at work *)

Definition srv0 : Server string refdec LockStore :=
  NewServer DefaultConfig (mkSeedEnv (fun i => "fs-" +:+ pretty (N.of_nat i)) 0) 0 NewLockStore.

Definition sample_parse (body : string) : option json :=
  if String.eqb body "quote" then
    Some (JObj [("from", JStr "USD"); ("to", JStr "BTC"); ("amount", JStr "500"); ("user_tier", JStr "TIER_1");
                ("side", JStr "BUY")])
  else if String.eqb body "claim" then Some (JObj [("claimed_by", JStr "tx-1")])
  else None.

Definition sample_first (body : list read_result) : option json :=
  match readBody "" body with Ok b => sample_parse b | Err _ => None end.

Definition sample_text (_ : json) : string := "{}".
Definition sample_fmt (t : time) : string := pretty t.

Definition sample_env_at (id : string) (t : time) : issue_env string := mkIssueEnv id t t t t t t.
Definition sample_envs (t : time) (i : nat) : issue_env string := sample_env_at ("q" +:+ pretty (N.of_nat i)) t.

Definition is_ret {A} (o : outcome A) : bool := match o with Ret _ => true | Panic _ => false end.
Definition after (o : outcome (Server string refdec LockStore * response)) : Server string refdec LockStore :=
  match o with Ret (s, _) => s | Panic _ => srv0 end.
Definition answer (o : outcome (Server string refdec LockStore * response)) : response :=
  match o with Ret (_, rsp) => rsp | Panic _ => healthz end.

Lemma is_ret_after o : is_ret o = true -> o = Ret (after o, answer o).
Proof. by destruct o as [[s rsp] | w]. Qed.

Definition post_quote : outcome (Server string refdec LockStore * response) :=
  quotesHandler sample_parse sample_text sample_fmt (sample_envs Millisecond) []
    (mkHttp "POST" "/v1/quotes" "r1" "" [("quote", Some "EOF")]) srv0.

Definition srv1 : Server string refdec LockStore := after post_quote.

Definition claim_request : request :=
  mkHttp "POST" "/internal/v1/quotes/q0/claim" "r2" "" [("cla", None); ("im", Some "EOF")].

Definition post_claim (t : time) : outcome (Server string refdec LockStore * response) :=
  internalQuoteHandler sample_first sample_fmt (clock_at t) claim_request srv1.

Lemma srv0_locks k : held NewLockStore k = None.
Proof. reflexivity. Qed.

Abbreviation sample_step := (srv_step sample_parse sample_first sample_text sample_fmt).

Lemma post_quote_step : sample_step srv0 srv1.
Proof.
  eapply step_quotes; [| | exact (is_ret_after post_quote ltac:(vm_compute; reflexivity))].
  - split; [done |]. intros i j Heq. apply string_app_inj, (inj pretty), (inj N.of_nat) in Heq. done.
  - unfold iteration_of. reflexivity.
Qed.

Lemma post_claim_step : sample_step srv1 (after (post_claim (2 * Millisecond))).
Proof.
  eapply step_claim. exact (is_ret_after (post_claim (2 * Millisecond)) ltac:(vm_compute; reflexivity)).
Qed.

Lemma srv1_inv : srv_inv srv1.
Proof. exact (proj1 (srv_step_inv _ _ _ _ _ _ (NewServer_inv _ _ _ _ srv0_locks) post_quote_step)). Qed.

(** A quote is issued, then claimed: its terms are the same. *)
Lemma rate_lock_witness :
  let s2 := after (post_claim (2 * Millisecond)) in
  Store.Status <$> rows s2 !! "q0" = Some StatusClaimed /\ advances (rows srv1) (rows s2).
Proof.
  intros s2. split; [vm_compute; reflexivity |].
  refine (proj1 (rate_lock sample_parse sample_first sample_text sample_fmt DefaultConfig
    (mkSeedEnv (fun i => "fs-" +:+ pretty (N.of_nat i)) 0) 0 NewLockStore srv1 s2 srv0_locks _ _)).
  - apply rtc_once. exact post_quote_step.
  - apply rtc_once. exact post_claim_step.
Defined.

(** Thirty-one seconds later the sweep finds it. *)
Lemma sweep_exact_witness :
  let s' := sweepExpired (31 * Second) (fun _ => 31 * Second)%Z ["q0"] srv1 in
  Store.Status <$> rows s' !! "q0" = Some StatusExpired /\
  forall id, rows s' !! id = swept (31 * Second) <$> rows srv1 !! id.
Proof.
  intros s'. split; [vm_compute; reflexivity |].
  refine (proj1 (sweep_exact (31 * Second) (fun _ => 31 * Second)%Z ["q0"] srv1 srv1_inv _)).
  assert ((map_to_list (rows srv1)).*1 = ["q0"]) as Hk by (vm_compute; reflexivity).
  unfold iteration_of. by rewrite Hk.
Defined.

Definition sample_request : quoteRequest := mkRequest "USD" "BTC" "500" "TIER_1" "BUY".

Definition priced (s : Server string refdec LockStore) : outcome (SpotService refdec * result (ComputeResult refdec) string) :=
  let e := sample_env_at "q0" 1 in
  Compute (pricer s) (sh_store (sh s)) (sh_spot (sh s)) (ie_since e) (ie_reseed e) (req_From sample_request)
    (req_To sample_request) (fst (parseAmount (req_Amount sample_request))) (req_UserTier sample_request)
    (req_Side sample_request).

Lemma priced_eq s :
  let e := sample_env_at "q0" 1 in
  priced s = Compute (pricer s) (sh_store (sh s)) (sh_spot (sh s)) (ie_since e) (ie_reseed e)
    (req_From sample_request) (req_To sample_request) (fst (parseAmount (req_Amount sample_request)))
    (req_UserTier sample_request) (req_Side sample_request).
Proof. reflexivity. Qed.

Definition priced_spot s : SpotService refdec :=
  match priced s with Ret (sp, _) => sp | Panic _ => sh_spot (sh s) end.
Definition priced_result s : result (ComputeResult refdec) string :=
  match priced s with Ret (_, r) => r | Panic w => Err w end.

Lemma priced_ret s : is_ret (priced s) = true -> priced s = Ret (priced_spot s, priced_result s).
Proof. unfold priced_spot, priced_result. by destruct (priced s) as [[sp r] | w]. Qed.

Definition price_string (r : result (ComputeResult refdec) string) : string :=
  match r with Ok cr => rstring (cr_Rate cr) | Err e => e end.

Lemma createQuote_correct_witness :
  price_string (priced_result srv0) = "65520" /\
  exists s' q, createQuote sample_text sample_fmt (sample_env_at "q0" 1) sample_request srv0 = Ret (s', Ok q) /\
    Store.Status q = StatusOpen /\ ExpiresAt q = (CreatedAt q + RateLockTTL (cfg srv0))%Z.
Proof.
  split; [vm_compute; reflexivity |].
  assert (is_ret (priced srv0) = true) as Hr by (vm_compute; reflexivity).
  apply priced_ret in Hr. rewrite priced_eq in Hr. cbv zeta in Hr.
  pose proof (createQuote_correct sample_text sample_fmt (sample_env_at "q0" 1) sample_request srv0
    (priced_spot srv0) (priced_result srv0)) as Hc. specialize (Hc Hr).
  assert (match priced_result srv0 with Ok _ => true | Err _ => false end = true) as Hok by (vm_compute; reflexivity).
  destruct (priced_result srv0) as [cr | e]; [| done].
  destruct Hc as (s' & q & Hs & _ & _ & _ & _ & _ & _ & Ho & _ & _ & _ & _ & _ & _ & _ & _ & _ & _ & _ & _ & Hexp & _).
  exists s', q. split; [exact Hs |]. split; [exact Ho | exact Hexp].
Defined.

Lemma claim_endpoint_correct_witness :
  rsp_status (answer (post_claim (2 * Millisecond))) = StatusOK /\
  rsp_status (answer (post_claim (31 * Second))) = StatusGone /\
  ((rsp_status (answer (post_claim (31 * Second))) = StatusOK /\ False) \/
   (rsp_status (answer (post_claim (31 * Second))) ∈
      [StatusBadRequest; StatusNotFound; StatusMethodNotAllowed; StatusConflict; StatusGone])).
Proof.
  split; [vm_compute; reflexivity |]. assert (rsp_status (answer (post_claim (31 * Second))) = StatusGone) as Hg
    by (vm_compute; reflexivity). split; [exact Hg |]. right.
  destruct (claim_endpoint_correct sample_first sample_fmt (clock_at (31 * Second)) claim_request srv1)
    as [(why & Hw & _) | (s' & rsp & Hret & Hcases)].
  { apply (f_equal is_ret) in Hw. vm_compute in Hw. discriminate Hw. }
  pose proof (f_equal answer (Hret : post_claim (31 * Second) = Ret (s', rsp))) as Ha. cbn [answer] in Ha.
  rewrite Ha in Hg |- *.
  destruct Hcases as [[Hok _] | [Hin _]]; [| exact Hin].
  exfalso. rewrite Hg in Hok. discriminate Hok.
Defined.

(** A claimed quote is refreshed: it becomes canceled. *)
Definition srv2 : Server string refdec LockStore := after (post_claim (2 * Millisecond)).

Definition claimed_row : Quote string refdec := default (open_quote "none") (rows srv2 !! "q0").

Lemma srv2_inv : srv_inv srv2.
Proof. exact (proj1 (srv_step_inv _ _ _ _ _ _ srv1_inv post_claim_step)). Qed.

Lemma refresh_correct_witness :
  Store.Status claimed_row = StatusClaimed /\
  exists s' rsp, refreshQuote sample_text sample_fmt 1 1 (sample_env_at "q1" 1) (claim_request) "q0" srv2 = Ret (s', rsp) /\
    rows s' !! "q0" = Some (set_status StatusCanceled claimed_row).
Proof.
  split; [vm_compute; reflexivity |].
  assert (rows srv2 !! "q0" = Some claimed_row) as Hrow.
  { unfold claimed_row. destruct (rows srv2 !! "q0") eqn:Hr; [done |].
    assert (is_Some (Store.Status <$> rows srv2 !! "q0")) as [x Hx] by (eexists; vm_compute; reflexivity).
    by rewrite Hr in Hx. }
  destruct (Compute (pricer srv2) (sh_store (sh (cancel 1 1 "q0" claimed_row srv2))) (sh_spot (sh srv2)) 1 1
    (From claimed_row) (To claimed_row) (fst (parseAmount (Amount claimed_row))) (UserTier claimed_row)
    (Side claimed_row)) as [[sp out] | w] eqn:Hc.
  - assert (fresh srv2 (sample_env_at "q1" 1)) as Hf by (unfold fresh; vm_compute; reflexivity).
    destruct (refresh_correct sample_text sample_fmt 1 1 (sample_env_at "q1" 1) claim_request "q0" srv2 claimed_row
      sp out srv2_inv Hf Hrow Hc) as (s' & rsp & Hs & Ho & _).
    exists s', rsp. split; [exact Hs | exact Ho].
  - exfalso. apply (f_equal is_ret) in Hc. revert Hc.
    match goal with |- is_ret ?o = _ -> _ => assert (is_ret o = true) as -> by (vm_compute; reflexivity) end.
    discriminate.
Defined.
