(* ===== verification/Preserve.v ===== *)
(** * Preserve: invariants of the server from invariants of its operations

    A property of the server that the operations behind the handlers keep
    (issuing, reading, refreshing and claiming a quote, expiring one row, a rate
    lookup, a cancellation, and what touches no row) is kept by every request and background job.  The
    handlers are taken apart here once; Seeds.v and Typing.v give the
    operations. *)

From stdpp Require Import relations.
From S2P Require Import Prelude GoStrings Utf8 Decimal RefDecimal Errors Json Store FeeIndex Lru Spot Pricer Config AuditTrail Locks Claim Server Lifecycle.

Section preserve.
Context {U D L : Type} `{Countable U} {uu : UuidOps U} {ul : UuidLaws U} {ops : DecimalOps D}
  {laws : DecimalLaws D} {lb : LockBackend L} {ll : LockLaws L}.
Variable json_parse : string -> option json.
Variable json_first : list read_result -> option json.
Variable json_text : json -> string.
Variable fmt_time : time -> string.
Implicit Types (s : Server U D L) (q : Quote U D) (id : U) (r : request).

(** The server with other fee schedules: a new store and a new pricer, the
    same rows and rates. *)
Definition same_rows s s' : Prop :=
  rows s' = rows s /\ sh_spot (sh s') = sh_spot (sh s) /\ cfg s' = cfg s.

Class Kept (P : Server U D L -> Prop) : Prop := {
  kept_same s s' : P s -> same_rows s s' -> P s';
  kept_create e req s s' res : P s -> validateRequest (D := D) req = None ->
    createQuote json_text fmt_time e req s = Ret (s', res) -> P s';
  kept_get now r id s : P s -> P (fst (getQuote fmt_time now r id s));
  kept_refresh td ta e r id s s' rsp : P s -> srv_inv s ->
    refreshQuote json_text fmt_time td ta e r id s = Ret (s', rsp) -> P s';
  kept_claim tol ct id by_ s x res : P s -> TrimSpace (runes by_) <> [] ->
    ClaimService_Claim tol ct id by_ (sh s) = Ret (x, res) -> P (set_sh x s);
  kept_lookup t1 t2 from to s : P s -> P (lookup_left t1 t2 from to s);
  kept_cancel td ta id old s : P s -> srv_inv s -> rows s !! id = Some old -> P (cancel td ta id old s);
  kept_sweep now ta s q : P s -> rows s !! QuoteID q = Some q -> P (sweep_one now ta s q);
}.

Context (P : Server U D L -> Prop) {kept : Kept P}.

Lemma bulk_kept items : forall es s s' its, P s -> bulkItems json_text fmt_time es items s = Ret (s', its) -> P s'.
Proof.
  induction items as [| it items IH]; intros es s s' its Hp; cbn [bulkItems]; [by intros [= <- <-] |].
  intros ([s1 i] & H1 & ([s2 is2] & H2 & [= <- <-])%outcome_bind_ret)%outcome_bind_ret.
  eapply (IH _ s1); [| exact H2]. destruct (validateRequest it) as [err |] eqn:Hv; [by injection H1 as <- <- |].
  apply outcome_bind_ret in H1 as ([s0 res] & Hc & [= <- <-]). by eapply kept_create.
Qed.

Lemma bulk_left_kept items : forall es s, P s -> P (bulkItems_left json_text fmt_time es items s).
Proof.
  induction items as [| it items IH]; intros es s Hp; cbn [bulkItems_left]; [done |].
  destruct (validateRequest it) eqn:Hv; [by apply IH |].
  destruct (createQuote _ _ _ _ _) as [[s1 res] | why] eqn:Hc; [| by apply kept_lookup].
  apply IH. by eapply kept_create.
Qed.

Lemma claim_left_kept ct id s : P s -> P (set_sh (claim_left ct id (sh s)) s).
Proof.
  intros Hp. unfold claim_left. destruct (GetQuote (sh_store (sh s)) id) as [q |] eqn:Hq.
  - apply (kept_same (lookup_left (ct_since ct) (ct_reseed ct) (From q) (To q) s)); [by apply kept_lookup | done].
  - by apply (kept_same s).
Qed.

Lemma refresh_left_kept td ta e id s : P s -> srv_inv s -> P (refreshQuote_left td ta e id s).
Proof.
  intros Hp Hi. unfold refreshQuote_left. destruct (GetQuote (sh_store (sh s)) id) as [old |] eqn:Hq; [| done].
  by apply kept_lookup, kept_cancel.
Qed.

Lemma sweeps_kept now ta qs : forall s, P s ->
  (forall q, q ∈ qs -> rows s !! QuoteID q = Some q) -> NoDup (QuoteID <$> qs) -> P (fold_left (sweep_one now ta) qs s).
Proof.
  induction qs as [| q qs IH]; intros s Hp Hin Hnd; cbn [fold_left]; [done |].
  cbn [fmap list_fmap] in Hnd. apply list.NoDup_cons in Hnd as [Hnotin Hnd].
  assert (rows s !! QuoteID q = Some q) as Hq by (apply Hin; left).
  apply IH; [by apply kept_sweep | | done]. intros q' Hq'.
  destruct (sweep_one_effect now ta s q Hq) as (-> & _). rewrite lookup_insert_ne; [apply Hin; by right |].
  intros Heq. apply Hnotin. rewrite Heq. by apply list_elem_of_fmap_2.
Qed.

Lemma claim_endpoint_kept ct r s s' rsp : P s -> internalQuoteHandler json_first fmt_time ct r s = Ret (s', rsp) -> P s'.
Proof.
  intros Hp Hh. unfold internalQuoteHandler in Hh. destruct (parse_id _) as [msg | id]; [by injection Hh as <- <- |].
  destruct (negb (bool_decide _)); [by injection Hh as <- <- |].
  destruct (negb (String.eqb _ _)); [by injection Hh as <- <- |].
  destruct (json_first (hr_Body r) ≫= unmarshal_claim) as [by_ |]; [| by injection Hh as <- <-].
  case_bool_decide as Hby; [by injection Hh as <- <- |].
  apply outcome_bind_ret in Hh as ([x res] & Hc & Hh). apply (kept_claim _ _ _ _ _ _ _ Hp Hby) in Hc.
  destruct (negb _); [| destruct (res_Quote res); [| done]]; injection Hh as <- <-; by apply (kept_same (set_sh x s)).
Qed.

Lemma srv_step_kept s s' : srv_inv s -> P s -> srv_step json_parse json_first json_text fmt_time s s' -> P s'.
Proof.
  intros Hi Hp Hs. destruct Hs as [es ord r s' rsp _ _ Hh | now td ta e r s' rsp _ Hh | ct r s' rsp Hh
                               | es ord r why _ _ | now td ta e r why _ _ | ct r why _ | l' _ | e r | now ta ord Hord | e].
  - unfold quotesHandler, bulkQuotes, singleQuote in Hh. repeat case_match; cbn [mret outcome_ret] in Hh;
      try (by injection Hh as <- <-); apply outcome_bind_ret in Hh as ([s1 x] & Hb & [= <- <-]);
      first [by eapply bulk_kept | by eapply kept_create].
  - unfold quoteByIDHandler in Hh. repeat case_match; cbn [mret outcome_ret] in Hh; try (by injection Hh as <- <-).
    + by eapply kept_refresh.
    + injection Hh as Hh. pose proof (kept_get now r u s Hp) as Hg. by rewrite Hh in Hg.
  - by eapply claim_endpoint_kept.
  - unfold quotesHandler_left. repeat case_match; try done; first [by apply bulk_left_kept | by apply kept_lookup].
  - unfold quoteByIDHandler_left. destruct (parse_id _); [done | by apply refresh_left_kept].
  - unfold internalQuoteHandler_left. destruct (parse_id _); [done | by apply claim_left_kept].
  - by apply (kept_same s).
  - unfold feeSchedulesReload. case_match; [done |]. cbn [fst]. destruct (ReloadIndex _ _). by apply (kept_same s).
  - destruct (ListQuotes_rows s ord Hi Hord) as (Hin & Hnd & _). by apply sweeps_kept.
  - by apply (kept_same s).
Qed.

Lemma srv_steps_kept s s' : srv_inv s -> P s -> rtc (srv_step json_parse json_first json_text fmt_time) s s' -> P s'.
Proof.
  intros Hi Hp Hr. induction Hr as [s | s s1 s' Hs Hr IH]; [done |].
  apply IH; [by destruct (srv_step_inv _ _ _ _ _ _ Hi Hs) | by eapply srv_step_kept].
Qed.

End preserve.
