(* ===== verification/QuoteSpec.v ===== *)
(** * QuoteSpec: the abstract quote table and its log

    What the service promises about quotes, without pricing, locks, HTTP or
    clocks: a table of quotes, each with its terms, its status and who claimed
    it, and six ways it may change, each recorded in the log.  The server's
    state machine of Lifecycle.v refines it, and the audit log is the trace of
    the refinement. *)

From stdpp Require Import relations.
From S2P Require Import Prelude GoStrings Utf8 Decimal RefDecimal Errors Json Store FeeIndex Lru Spot Pricer Config AuditTrail Locks Claim Server Lifecycle.

Section spec.
Context {U D : Type} `{Countable U}.
Implicit Types (q : Quote U D) (id : U).

(** A quote of the specification. *)
Record squote := mkSQuote {
  sq_terms : Quote U D;
  sq_status : QuoteStatus;
  sq_claim : option (time * string);
}.

Abbreviation table := (gmap U squote).

(** What may happen: the instants are those the decision was made at. *)
Inductive label :=
  | LIssue id
  | LClaim id (check at_ : time) (by_ : string)
  | LReject id
  | LExpire id (check : time) (logged : bool)
  | LCancel id.

Inductive spec_step : table -> label -> table -> Prop :=
  | spec_issue m id t :
      m !! id = None -> QuoteID t = id -> spec_step m (LIssue id) (<[id := mkSQuote t StatusOpen None]> m)
  | spec_claim m id t c check at_ by_ :
      m !! id = Some (mkSQuote t StatusOpen c) -> (check <= ExpiresAt t)%Z -> TrimSpace (runes by_) <> [] ->
      spec_step m (LClaim id check at_ by_) (<[id := mkSQuote t StatusClaimed (Some (at_, by_))]> m)
  | spec_reject m id t c :
      m !! id = Some (mkSQuote t StatusOpen c) -> spec_step m (LReject id) m
  | spec_expire m id t c check logged :
      m !! id = Some (mkSQuote t StatusOpen c) -> (ExpiresAt t < check)%Z ->
      spec_step m (LExpire id check logged) (<[id := mkSQuote t StatusExpired c]> m)
  | spec_cancel m id t st c :
      m !! id = Some (mkSQuote t st c) -> spec_step m (LCancel id) (<[id := mkSQuote t StatusCanceled c]> m).

Inductive spec_run : table -> list label -> table -> Prop :=
  | run_nil m : spec_run m [] m
  | run_cons m l m' ls m'' : spec_step m l m' -> spec_run m' ls m'' -> spec_run m (l :: ls) m''.

(** The record of a step in the audit log. *)
Definition recorded (l : label) : list (string * U) :=
  match l with
  | LIssue id => [("quote.issued", id)]
  | LClaim id _ _ _ => [("quote.claimed", id)]
  | LReject id => [("quote.slippage_rejected", id)]
  | LExpire id _ logged => if (logged : bool) then [("quote.expired", id)] else []
  | LCancel id => [("quote.refreshed", id)]
  end.

Definition trail (ls : list label) : list (string * U) := concat (recorded <$> ls).

Lemma spec_run_one m l m' : spec_step m l m' -> spec_run m [l] m'.
Proof. intros Hs. eapply run_cons; [exact Hs | constructor]. Qed.

Lemma spec_run_app m ls m' ls' m'' : spec_run m ls m' -> spec_run m' ls' m'' -> spec_run m (ls ++ ls') m''.
Proof. induction 1 as [| m l m1 ls m2 Hs Hr IH]; intros Hr'; [done |]. eapply run_cons; [done | by apply IH]. Qed.

Lemma trail_app ls ls' : trail (ls ++ ls') = trail ls ++ trail ls'.
Proof. unfold trail. by rewrite fmap_app, concat_app. Qed.

(** ** The log tells who claimed what *)

Definition times (k : string * U) (l : list (string * U)) : nat := length (List.filter (fun x => bool_decide (x = k)) l).

Lemma times_app k l l' : times k (l ++ l') = (times k l + times k l')%nat.
Proof. unfold times. by rewrite List.filter_app, length_app. Qed.

Definition claimed_once (m : table) (l : list (string * U)) : Prop :=
  forall id,
    times ("quote.issued", id) l = (if m !! id is Some _ then 1 else 0)%nat /\
    times ("quote.claimed", id) l = (if m !! id ≫= sq_claim is Some _ then 1 else 0)%nat /\
    (forall x, m !! id = Some x -> sq_status x = StatusOpen -> sq_claim x = None) /\
    (forall x, m !! id = Some x -> sq_status x = StatusClaimed -> is_Some (sq_claim x)).

Lemma claimed_once_empty : claimed_once ∅ [].
Proof. intros id. rewrite lookup_empty. done. Qed.

(** Recording one event. *)
Lemma times_one (ty ty' : string) id id' :
  times (ty, id) [(ty', id')] = if bool_decide (ty' = ty /\ id' = id) then 1%nat else 0%nat.
Proof. unfold times. cbn. do 2 case_bool_decide; naive_solver. Qed.

Lemma times_nil (k : string * U) : times k [] = 0%nat.
Proof. done. Qed.

Lemma spec_step_log m l m' tr : claimed_once m tr -> spec_step m l m' -> claimed_once m' (tr ++ recorded l).
Proof.
  intros Hm Hs id. rewrite !times_app. destruct (Hm id) as (Hi & Hc & Ho & Hst). rewrite Hi, Hc.
  destruct Hs as [m id' t Hn Hid | m id' t c ck at_ by_ Hx _ _ | m id' t c Hx | m id' t c ck [|] Hx _ | m id' t st c Hx];
    cbn [recorded]; rewrite ?times_one, ?times_nil;
    repeat (rewrite bool_decide_false by (intros [? _]; done)); rewrite ?Nat.add_0_r;
    try (destruct (decide (id' = id)) as [<- | Hne];
      [rewrite ?lookup_insert_eq | rewrite ?lookup_insert_ne by done]);
    try (rewrite bool_decide_true by done); try (rewrite bool_decide_false by (intros [_ ?]; done));
    rewrite ?Nat.add_0_r; try (by split_and!); rewrite ?Hn, ?Hx in *; cbn [mbind option_bind sq_claim] in *;
    try (pose proof (Ho _ eq_refl eq_refl) as Hnone; cbn in Hnone; subst c);
    (split_and!; [done | done | naive_solver | naive_solver]).
Qed.

End spec.
Arguments mkSQuote {U D}.
Arguments sq_terms {U D} _.
Arguments sq_status {U D} _.
Arguments sq_claim {U D} _.
Arguments label U : clear implicits.

(** ** The server refines the specification *)

Section refinement.
Context {U D L : Type} `{Countable U} {uu : UuidOps U} {ul : UuidLaws U} {ops : DecimalOps D}
  {laws : DecimalLaws D} {lb : LockBackend L} {ll : LockLaws L}.
Variable json_parse : string -> option json.
Variable json_first : list read_result -> option json.
Variable json_text : json -> string.
Variable fmt_time : time -> string.
Implicit Types (s : Server U D L) (q : Quote U D) (id : U) (r : request).

(** What the specification sees of a row, of the table, and of the log. *)
Definition claim_of q : option (time * string) := (fun t => (t, ClaimedBy q)) <$> ClaimedAt q.
Definition view q : squote (U := U) (D := D) := mkSQuote (terms q) (Store.Status q) (claim_of q).
Definition abs s : gmap U (squote (U := U) (D := D)) := view <$> rows s.
Definition logged s : list (string * U) := (fun e => (ev_Type e, ev_QuoteID e)) <$> events s.

(** The server did some steps of the specification and recorded them. *)
Definition refines s s' : Prop :=
  exists ls, spec_run (abs s) ls (abs s') /\ logged s' = logged s ++ trail ls.

Lemma refines_same s s' : rows s' = rows s -> events s' = events s -> refines s s'.
Proof.
  intros Hr He. exists []. unfold abs, logged. rewrite Hr, He. split; [constructor |]. by rewrite app_nil_r.
Qed.

#[export] Instance refines_preorder : PreOrder refines.
Proof.
  split.
  - intros s. by apply refines_same.
  - intros s1 s2 s3 (l1 & H1 & E1) (l2 & H2 & E2). exists (l1 ++ l2).
    split; [by eapply spec_run_app |]. by rewrite E2, E1, trail_app, app_assoc.
Qed.

Lemma refines_one s s' l : spec_step (abs s) l (abs s') -> logged s' = logged s ++ recorded l -> refines s s'.
Proof. intros Hs He. exists [l]. split; [by apply spec_run_one |]. unfold trail. cbn. by rewrite app_nil_r. Qed.

Lemma abs_insert s s' id q : rows s' = <[id := q]> (rows s) -> abs s' = <[id := view q]> (abs s).
Proof. unfold abs. intros ->. apply fmap_insert. Qed.

Lemma abs_lookup s id q : rows s !! id = Some q -> abs s !! id = Some (view q).
Proof. unfold abs. rewrite lookup_fmap. by intros ->. Qed.

Lemma logged_snoc s s' t ev : events s' = events s ++ [stamp t ev] ->
  logged s' = logged s ++ [(ev_Type ev, ev_QuoteID ev)].
Proof. unfold logged. intros ->. rewrite fmap_app. cbn. unfold stamp. by case_match. Qed.

(** A row updated in place. *)
Lemma refines_update s s' id q q' l :
  rows s !! id = Some q -> rows s' = <[id := q']> (rows s) -> logged s' = logged s ++ recorded l ->
  (forall m, m !! id = Some (view q) -> spec_step m l (<[id := view q']> m)) -> refines s s'.
Proof.
  intros Hq Hr He Hs. apply (refines_one s s' l); [| done]. rewrite (abs_insert s s' id q' Hr).
  by apply Hs, abs_lookup.
Qed.

Lemma expire_step q id check lg : Store.Status q = StatusOpen -> (ExpiresAt q < check)%Z ->
  forall m, m !! id = Some (view q) -> spec_step m (LExpire id check lg) (<[id := view (set_status StatusExpired q)]> m).
Proof. intros Ho He m Hm. unfold view in Hm. rewrite Ho in Hm. by apply (spec_expire m id (terms q) (claim_of q)). Qed.

Lemma cancel_step q id :
  forall m, m !! id = Some (view q) -> spec_step m (LCancel id) (<[id := view (set_status StatusCanceled q)]> m).
Proof. intros m Hm. by apply (spec_cancel m id (terms q) (Store.Status q) (claim_of q)). Qed.

(** Issuing. *)
Lemma issue_refines e q res s :
  rows s !! QuoteID q = None -> view q = mkSQuote (terms q) StatusOpen None ->
  refines s (issue json_text fmt_time e q res s).
Proof.
  intros Hn Hv. destruct (issue_frame json_text fmt_time e q res s) as (Hr & _ & He & _).
  apply (refines_one _ _ (LIssue (QuoteID q))); [| by apply logged_snoc in He].
  rewrite (abs_insert _ _ _ _ Hr), Hv. apply spec_issue; [| done].
  unfold abs. by rewrite lookup_fmap, Hn.
Qed.

Lemma price_refines e from to amount tier side s s' res :
  price e from to amount tier side s = Ret (s', res) -> refines s s' /\ rows s' = rows s.
Proof.
  intros (Hst & _ & Ha & _)%price_frame. assert (rows s' = rows s) as Hr by (unfold rows; by rewrite Hst).
  split; [| done]. apply refines_same; [done |]. unfold events. by rewrite Ha.
Qed.

Lemma create_refines e req s s' res : fresh s e -> createQuote json_text fmt_time e req s = Ret (s', res) -> refines s s'.
Proof.
  intros Hf Hc. destruct (create_cases _ _ _ _ _ _ _ Hc) as [(err & _ & _ & Hr & He & _) | (s1 & cr & Hp & Hq)].
  - by apply refines_same.
  - cbv zeta in Hq. destruct Hq as [_ ->]. destruct (price_refines _ _ _ _ _ _ _ _ _ Hp) as [H1 Hr].
    etransitivity; [exact H1 |]. apply issue_refines; [by rewrite Hr | done].
Qed.

Lemma bulk_refines items : forall es s s' its,
  srv_inv s -> fresh_all s es -> bulkItems json_text fmt_time es items s = Ret (s', its) -> refines s s'.
Proof.
  induction items as [| it items IH]; intros es s s' its Hi [Hf Hinj]; cbn [bulkItems].
  { intros [= <- <-]. reflexivity. }
  intros ([s1 i] & H1 & ([s2 is2] & H2 & [= <- <-])%outcome_bind_ret)%outcome_bind_ret.
  assert (srv_inv s1 /\ refines s s1 /\
    (forall id, id <> ie_id (es 0%nat) -> rows s1 !! id = rows s !! id)) as (Hi1 & Ha1 & Hk1).
  { destruct (validateRequest it) as [err |]; [injection H1 as <- <-; split; [done | split; [reflexivity | done]] |].
    apply outcome_bind_ret in H1 as ([s0 res] & Hc & [= <- <-]).
    destruct (create_inv _ _ _ _ _ _ _ Hi (Hf 0%nat) Hc) as (? & _ & ?).
    split; [done |]. split; [by eapply create_refines | done]. }
  etransitivity; [exact Ha1 |]. apply (IH (fun n => es (S n)) s1 s2 is2 Hi1); [| done]. split.
  - intros j. unfold fresh. rewrite Hk1; [apply Hf |]. intros Heq. apply Hinj in Heq. done.
  - intros i' j' Heq. apply Hinj in Heq. congruence.
Qed.

(** The items issued before one panics. *)
Lemma bulk_left_refines items : forall es s, srv_inv s -> fresh_all s es ->
  refines s (bulkItems_left json_text fmt_time es items s).
Proof.
  induction items as [| it items IH]; intros es s Hi [Hf Hinj]; cbn [bulkItems_left]; [reflexivity |].
  assert (forall s1, (forall id, id <> ie_id (es 0%nat) -> rows s1 !! id = rows s !! id) ->
    fresh_all s1 (fun n => es (S n))) as Hfresh.
  { intros s1 Hk. split; [| intros i j Heq; by apply Hinj in Heq; injection Heq].
    intros j. unfold fresh. rewrite Hk; [apply Hf |]. intros Heq. by apply Hinj in Heq. }
  destruct (validateRequest it) as [err |]; [by apply IH, Hfresh |].
  destruct (createQuote _ _ _ _ _) as [[s1 res] | why] eqn:Hc; [| by apply refines_same].
  destruct (create_inv _ _ _ _ _ _ _ Hi (Hf 0%nat) Hc) as (Hi1 & _ & Hk1).
  etransitivity; [by eapply create_refines |]. apply IH; [done | by apply Hfresh].
Qed.

(** Reading: an overdue row expires silently. *)
Lemma getQuote_refines now r id s : refines s (fst (getQuote fmt_time now r id s)).
Proof.
  unfold getQuote. destruct (GetQuote (sh_store (sh s)) id) as [q |] eqn:Hq; [| reflexivity].
  destruct (shows_expired now q) eqn:He; [| reflexivity]. cbn [fst].
  rewrite (update_known id _ (sh s) q Hq). cbn [fst].
  destruct (decide (Store.Status q = StatusExpired)) as [Hx | Hx].
  - apply refines_same; [| done]. unfold rows. cbn. rewrite insert_id; [done |].
    rewrite <- Hx. by destruct q.
  - unfold shows_expired in He. rewrite bool_decide_false in He by done. cbn [orb] in He.
    apply andb_true_iff in He as [Ho Ht]. apply bool_decide_eq_true in Ho. unfold time_After in Ht. zbool.
    apply (refines_update _ _ id q (set_status StatusExpired q) (LExpire id now false)); [done | done | | by apply expire_step].
    by rewrite app_nil_r.
Qed.

Lemma cancel_refines td ta id old s : srv_inv s -> rows s !! id = Some old -> refines s (cancel td ta id old s).
Proof.
  intros Hi Hq. destruct (cancel_inv td ta id old s Hi Hq) as (_ & _ & _ & Hr1 & _ & He1 & _).
  apply (refines_update _ _ id old (set_status StatusCanceled old) (LCancel id)); [done | done | | by apply cancel_step].
  by apply logged_snoc in He1.
Qed.

Lemma refresh_left_refines td ta e id s : srv_inv s -> refines s (refreshQuote_left td ta e id s).
Proof.
  intros Hi. unfold refreshQuote_left. destruct (GetQuote (sh_store (sh s)) id) as [old |] eqn:Hq; [| reflexivity].
  etransitivity; [by apply (cancel_refines td ta id old) | by apply refines_same].
Qed.

Lemma claim_left_refines ct id s : refines s (set_sh (claim_left ct id (sh s)) s).
Proof.
  destruct (claim_left_frame ct id (sh s)) as (Hst & Ha & _).
  apply refines_same; [unfold rows; cbn; by rewrite Hst | unfold events; cbn; by rewrite Ha].
Qed.

Lemma refresh_refines td ta e r id s s' rsp :
  srv_inv s -> fresh s e -> refreshQuote json_text fmt_time td ta e r id s = Ret (s', rsp) -> refines s s'.
Proof.
  intros Hi Hf. unfold refreshQuote. destruct (GetQuote (sh_store (sh s)) id) as [old |] eqn:Hq.
  2:{ intros [= <- <-]. reflexivity. }
  pose proof (cancel_refines td ta id old s Hi Hq) as H1.
  destruct (cancel_inv td ta id old s Hi Hq) as (_ & _ & Hn1 & _). cbv zeta in *.
  set (s1 := cancel td ta id old s) in *. intros ([s2 pr] & Hp & Hres)%outcome_bind_ret.
  destruct (price_refines _ _ _ _ _ _ _ _ _ Hp) as [H2 Hr2].
  destruct pr as [cr | err]; injection Hres as <- <-; (etransitivity; [exact H1 |]); [| done].
  etransitivity; [exact H2 |]. apply issue_refines; [| done]. rewrite Hr2. by apply Hn1.
Qed.

Lemma claim_refines tol ct id by_ s x res : TrimSpace (runes by_) <> [] ->
  ClaimService_Claim tol ct id by_ (sh s) = Ret (x, res) -> refines s (set_sh x s).
Proof.
  intros Hby He%Claim_effect.
  destruct He as [Hq | q reason Hq Hent | q x Hq Hent Hst _ Hev | q x l Hq Hent _ Hx | q x l v cur Hq Hent _ _ _ Hst _ Hev
                 | q x l v cur Hq Hent _ _ _ Hst _ Hev].
  - by apply refines_same.
  - by apply refines_same.
  - assert (Store.Status q = StatusOpen /\ (ExpiresAt q < ct_expiry ct)%Z) as [Ho Hlate].
    { unfold claim_entry in Hent. destruct (Store.Status q) eqn:Hs; cbn in Hent; try done.
      destruct (time_After (ct_expiry ct) (ExpiresAt q)) eqn:Ht; [| done]. unfold time_After in Ht. by zbool. }
    apply (refines_update _ _ id q (set_status StatusExpired q) (LExpire id (ct_expiry ct) true));
      [done | exact Hst | | by apply expire_step].
    by apply (logged_snoc s (set_sh x s)) in Hev.
  - subst x. by apply refines_same.
  - destruct (claim_entry_lock _ _ Hent) as [Ho _].
    apply (refines_one _ _ (LReject id)); [| by apply (logged_snoc s (set_sh x s)) in Hev].
    assert (abs (set_sh x s) = abs s) as -> by (unfold abs, rows; cbn; by rewrite Hst).
    apply (spec_reject _ id (terms q) (claim_of q)). rewrite <- Ho. by apply abs_lookup.
  - destruct (claim_entry_lock _ _ Hent) as [Ho Hexp].
    apply (refines_update _ _ id q (set_claimed (ct_claimed ct) by_ q) (LClaim id (ct_expiry ct) (ct_claimed ct) by_));
      [done | exact Hst | by apply (logged_snoc s (set_sh x s)) in Hev |].
    intros m Hm. unfold view in Hm. rewrite Ho in Hm. by apply (spec_claim m id (terms q) (claim_of q)).
Qed.

Lemma sweep_refines now ta qs : forall s,
  (forall q, q ∈ qs -> rows s !! QuoteID q = Some q) -> NoDup (QuoteID <$> qs) ->
  refines s (fold_left (sweep_one now ta) qs s).
Proof.
  induction qs as [| q qs IH]; intros s Hin Hnd; cbn [fold_left]; [reflexivity |].
  cbn [fmap list_fmap] in Hnd. apply list.NoDup_cons in Hnd as [Hnotin Hnd].
  assert (rows s !! QuoteID q = Some q) as Hq by (apply Hin; left).
  destruct (sweep_one_effect now ta s q Hq) as (Hr & He & _).
  etransitivity; [| apply IH; [| done]].
  - unfold swept in Hr. destruct (overdue now q) eqn:Ho.
    + unfold overdue in Ho. apply andb_true_iff in Ho as [Ho Ht]. apply bool_decide_eq_true in Ho.
      unfold time_After in Ht. zbool.
      apply (refines_update _ _ (QuoteID q) q (set_status StatusExpired q) (LExpire (QuoteID q) now true));
        [done | done | by apply logged_snoc in He | by apply expire_step].
    + apply refines_same; [by rewrite Hr, insert_id | by rewrite He, app_nil_r].
  - intros q' Hq'. rewrite Hr. rewrite lookup_insert_ne; [apply Hin; by right |].
    intros Heq. apply Hnotin. rewrite Heq. by apply list_elem_of_fmap_2.
Qed.

Lemma srv_step_refines s s' : srv_inv s -> srv_step json_parse json_first json_text fmt_time s s' -> refines s s'.
Proof.
  intros Hi Hs. destruct Hs as [es ord r s' rsp Hf Hord Hh | now td ta e r s' rsp Hf Hh | ct r s' rsp Hh
                               | es ord r why Hf _ | now td ta e r why _ _ | ct r why _ | l' _ | e r | now ta ord Hord | e].
  - unfold quotesHandler, bulkQuotes, singleQuote in Hh. repeat case_match; cbn [mret outcome_ret] in Hh;
      try (injection Hh as <- <-; reflexivity).
    + apply outcome_bind_ret in Hh as ([s1 its] & Hb & [= <- <-]). by eapply bulk_refines.
    + apply outcome_bind_ret in Hh as ([s1 res] & Hc & [= <- <-]). eapply create_refines; [apply (proj1 Hf 0%nat) | done].
    + apply outcome_bind_ret in Hh as ([s1 res] & Hc & [= <- <-]). eapply create_refines; [apply (proj1 Hf 0%nat) | done].
  - unfold quoteByIDHandler in Hh. repeat case_match; cbn [mret outcome_ret] in Hh;
      try (injection Hh as <- <-; reflexivity); [by eapply refresh_refines |].
    injection Hh as Hh. pose proof (getQuote_refines now r u s) as Hg. rewrite Hh in Hg. done.
  - unfold internalQuoteHandler in Hh. destruct (parse_id _) as [msg | id]; [injection Hh as <- <-; reflexivity |].
    destruct (negb (bool_decide _)); [injection Hh as <- <-; reflexivity |].
    destruct (negb (String.eqb _ _)); [injection Hh as <- <-; reflexivity |].
    destruct (json_first (hr_Body r) ≫= unmarshal_claim) as [by_ |]; [| injection Hh as <- <-; reflexivity].
    case_bool_decide as Hby; [injection Hh as <- <-; reflexivity |].
    apply outcome_bind_ret in Hh as ([x res] & Hc & Hh). apply (claim_refines _ _ _ _ _ _ _ Hby) in Hc.
    etransitivity; [exact Hc |].
    destruct (negb _); [| destruct (res_Quote res); [| done]]; injection Hh as <- <-; by apply refines_same.
  - unfold quotesHandler_left. repeat case_match; try reflexivity; first [by apply bulk_left_refines | by apply refines_same].
  - unfold quoteByIDHandler_left. destruct (parse_id _); [reflexivity | by apply refresh_left_refines].
  - unfold internalQuoteHandler_left. destruct (parse_id _); [reflexivity | apply claim_left_refines].
  - by apply refines_same.
  - unfold feeSchedulesReload. case_match; [reflexivity |]. cbn [fst]. destruct (ReloadIndex _ _). by apply refines_same.
  - destruct (ListQuotes_rows s ord Hi Hord) as (Hin & Hnd & _). by apply sweep_refines.
  - by apply refines_same.
Qed.

(** From start-up: the table is empty and so is the log. *)
Lemma NewServer_abs c e t (l : L) : abs (NewServer c e t l) = ∅ /\ logged (NewServer (U := U) (D := D) c e t l) = [].
Proof. unfold abs, logged, rows, events, NewServer. destruct (ReloadIndex _ _). cbn. by rewrite fmap_empty. Qed.

Lemma srv_steps_refine s s' : srv_inv s -> rtc (srv_step json_parse json_first json_text fmt_time) s s' ->
  srv_inv s' /\ refines s s'.
Proof.
  intros Hi Hr. induction Hr as [s | s s1 s' Hs Hr IH]; [by split |].
  pose proof (srv_step_refines _ _ Hi Hs) as H1. destruct (srv_step_inv _ _ _ _ _ _ Hi Hs) as [Hi1 _].
  destruct (IH Hi1) as [Hi2 H2]. split; [done |]. by etransitivity.
Qed.

Lemma spec_run_log m ls m' (tr : list (string * U)) :
  claimed_once (D := D) m tr -> spec_run m ls m' -> claimed_once m' (tr ++ trail ls).
Proof.
  intros Hm Hr. revert tr Hm. induction Hr as [m | m l m1 ls m2 Hs Hr IH]; intros tr Hm.
  - unfold trail. by rewrite app_nil_r.
  - apply (spec_step_log _ _ _ _ Hm), IH in Hs. unfold trail in *. cbn. by rewrite app_assoc.
Qed.

End refinement.
