(* ===== verification/Service.v ===== *)
(** * Service: what the composed service guarantees

    Theorems about the chain of Http.v: every answer carries the request id,
    every request is counted once under its label, the metrics middleware keeps
    every WebSocket client out, and the service with its requests (answered or
    panicking) and background jobs refines the quote table. *)

From stdpp Require Import pretty.
From S2P Require Import Prelude GoStrings Utf8 Decimal RefDecimal Logger Metrics Json Store Lru Spot Config Locks Claim Server Ws Handshake Http Lifecycle QuoteSpec.

Section service.
Context {U D L : Type} `{Countable U} {uu : UuidOps U} {ops : DecimalOps D} {lb : LockBackend L}.
Variable json_parse : string -> option json.
Variable json_first : list read_result -> option json.
Variable json_text : json -> string.
Variable fmt_time : time -> string.
Variable promhttp_Handler : request -> Z * string.
Implicit Types (a : App U D L) (e : serve_env U) (q : http_request).

Abbreviation serve' := (serve json_parse json_first json_text fmt_time promhttp_Handler).
Abbreviation serve_plain' := (serve_plain json_parse json_first json_text fmt_time promhttp_Handler).
Abbreviation handle' := (handle json_parse json_first json_text fmt_time promhttp_Handler).

(** The parts of a served request: the handler or a redirect, and then the
    counters. *)
Lemma serve_inv e q a a' rp : serve' e q a = Ret (a', rp) ->
  exists a1 rp1 m,
    mux_ServeHTTP json_parse json_first json_text fmt_time promhttp_Handler (statusRecorder_writer (en_writer e)) e
      (with_request (requestIDMiddleware (en_rid e) (hq_request q)) q) a = Ret (a1, rp1) /\
    metricsMiddleware (hr_Path (hq_request q)) [rp_status rp] (en_start e) (en_finish e) (ap_http a1) = Ret m /\
    a' = set_http m a1 /\
    rp = (match rp_body rp1 with
          | BHijacked => rp1
          | _ => mkReply (rp_status rp1) (rp_location rp1)
                   (Some (hr_RequestID (requestIDMiddleware (en_rid e) (hq_request q)))) (rp_body rp1)
          end).
Proof.
  unfold serve, with_request_id. intros Hs.
  apply outcome_bind_ret in Hs as ([a1 rp1] & Hs1 & Hs). apply outcome_bind_ret in Hs1 as ([a2 rp2] & Hs2 & Hs1).
  injection Hs1 as <- <-. apply outcome_bind_ret in Hs as (m & Hm & Hs). injection Hs as <- <-.
  exists a2, rp2, m. auto.
Qed.

Lemma serve_request_id e q : hr_RequestID (requestIDMiddleware (en_rid e) (hq_request q)) = request_id e q.
Proof. unfold requestIDMiddleware, request_id. cbn. done. Qed.

Lemma request_id_nonempty e q : en_rid e <> "" -> request_id e q <> "".
Proof. intros He. unfold request_id. by destruct (String.eqb_spec (hr_RequestID (hq_request q)) ""). Qed.

Lemma mux_no_hijack w e q a a' rp : hj_hijacker w = false ->
  mux_ServeHTTP json_parse json_first json_text fmt_time promhttp_Handler w e q a = Ret (a', rp) ->
  rp_body rp <> BHijacked /\ ap_hub a' = ap_hub a /\ ap_ws a' = ap_ws a.
Proof.
  intros Hw. unfold mux_ServeHTTP. destruct (mux _ _) as [rt | loc].
  - by apply handle_no_hijack.
  - intros [= <- <-]. unfold Redirect. cbn. by destruct (String.eqb _ _).
Qed.

(** C18: answers carry the request id.  The service answers every request with
    the id the client sent, or a generated one, in its header; an answer in
    JSON with an error status is an error envelope that repeats that id. *)
Theorem answers_carry_request_id e q a a' rp : en_rid e <> "" -> serve' e q a = Ret (a', rp) ->
  rp_RequestID rp = Some (request_id e q) /\ enveloped (request_id e q) rp.
Proof.
  intros Hrid (a1 & rp1 & m & Hmux & _ & _ & ->)%serve_inv. rewrite serve_request_id.
  destruct (mux_no_hijack (statusRecorder_writer (en_writer e)) _ _ _ _ _ eq_refl Hmux) as [Hb _].
  assert (enveloped (request_id e q) rp1) as Henv.
  { unfold mux_ServeHTTP in Hmux. destruct (mux _ _) as [rt | loc].
    - eapply (handle_enveloped _ _ _ _ _ rt) in Hmux.
      + cbn [hq_request with_request] in Hmux. by rewrite serve_request_id in Hmux.
      + cbn [hq_request with_request]. rewrite serve_request_id. by apply request_id_nonempty.
    - injection Hmux as <- <-. intros j1. unfold Redirect. cbn. by destruct (String.eqb _ _). }
  destruct (rp_body rp1) as [j0 | t0 | l0 | |] eqn:Hbody; try done; (split; [done |]); intros j Hj Hst; cbn in Hj, Hst; try done.
  apply (Henv j); congruence.
Qed.

(** ** Counting *)

(** Requests served one after the other. *)
Fixpoint serve_all (reqs : list (serve_env U * http_request)) a : outcome (App U D L * list reply) :=
  match reqs with
  | [] => mret (a, [])
  | (e, q) :: reqs' =>
      '(a, rp) ← serve' e q a;
      '(a, rps) ← serve_all reqs' a;
      mret (a, rp :: rps)
  end.

Definition label_of q : string := labeledPath (hr_Path (hq_request q)).

#[local] Instance outcome_eq_dec {A} `{EqDecision A} : EqDecision (outcome A).
Proof. solve_decision. Defined.

(** The answers counted under a label and a code. *)
Definition counted (label code : string) (l : list ((serve_env U * http_request) * reply)) : Z :=
  Z.of_nat (length (List.filter (fun x => String.eqb (label_of (snd (fst x))) label &&
                                          bool_decide (itoa (rp_status (snd x)) = Ret code)) l)).

Definition observed (label : string) (l : list (serve_env U * http_request)) : nat :=
  length (List.filter (fun x => String.eqb (label_of (snd x)) label) l).

Lemma metricsMiddleware_counts path status t1 t2 m m' :
  metricsMiddleware path [status] t1 t2 m = Ret m' ->
  (forall label, length (default [] (quoteRequestSeconds m' !! label)) =
     (length (default [] (quoteRequestSeconds m !! label)) + if String.eqb (labeledPath path) label then 1 else 0)%nat) /\
  (forall label code, default 0%Z (quoteStatusTotal m' !! (label, code)) =
     (default 0 (quoteStatusTotal m !! (label, code)) +
      if String.eqb (labeledPath path) label && bool_decide (itoa status = Ret code) then 1 else 0)%Z).
Proof.
  unfold metricsMiddleware. intros (code0 & Hcode & Hm)%outcome_bind_ret. injection Hm as <-.
  cbn [statusRecorder List.last] in Hcode. cbn [quoteRequestSeconds quoteStatusTotal]. split.
  - intros label. destruct (String.eqb_spec (labeledPath path) label) as [<- | Hne].
    + rewrite lookup_insert_eq. cbn. by rewrite length_app.
    + rewrite lookup_insert_ne by done. lia.
  - intros label code. destruct (String.eqb_spec (labeledPath path) label) as [<- | Hne]; cbn [andb].
    + destruct (bool_decide_reflect (itoa status = Ret code)) as [He | He].
      * rewrite Hcode in He. injection He as ->. by rewrite lookup_insert_eq.
      * rewrite lookup_insert_ne by (intros [=]; congruence). lia.
    + rewrite lookup_insert_ne by congruence. lia.
Qed.

Lemma handle_keeps_http rt w e q a a' rp : handle' rt w e q a = Ret (a', rp) -> ap_http a' = ap_http a.
Proof.
  unfold handle, ratesSubscribeHandler. intros Hh.
  destruct rt; cbn [mret outcome_ret] in Hh; repeat case_match; cbn [mret outcome_ret] in Hh;
    try (apply outcome_bind_ret in Hh as ([[] ] & Hh1 & Hh)); by injection Hh as <- <-.
Qed.

Lemma serve_counts e q a a' rp : serve' e q a = Ret (a', rp) ->
  (forall label, length (default [] (quoteRequestSeconds (ap_http a') !! label)) =
     (length (default [] (quoteRequestSeconds (ap_http a) !! label)) + if String.eqb (label_of q) label then 1 else 0)%nat) /\
  (forall label code, default 0%Z (quoteStatusTotal (ap_http a') !! (label, code)) =
     (default 0 (quoteStatusTotal (ap_http a) !! (label, code)) +
      if String.eqb (label_of q) label && bool_decide (itoa (rp_status rp) = Ret code) then 1 else 0)%Z).
Proof.
  intros (a1 & rp1 & m & Hmux & Hm & -> & Hrp)%serve_inv.
  assert (ap_http a1 = ap_http a) as Ha.
  { unfold mux_ServeHTTP in Hmux. destruct (mux _ _); [by eapply handle_keeps_http | by injection Hmux as <- <-]. }
  rewrite <- Ha. by apply metricsMiddleware_counts in Hm.
Qed.

(** Every request is counted once.  After any sequence of requests, the
    counter of a path label and a status code has grown by exactly the number
    of requests with that label that were answered with that status, and one
    latency was observed for each request under its label. *)
Theorem requests_are_counted reqs : forall a a' rps, serve_all reqs a = Ret (a', rps) ->
  length rps = length reqs /\
  (forall label, length (default [] (quoteRequestSeconds (ap_http a') !! label)) =
     (length (default [] (quoteRequestSeconds (ap_http a) !! label)) + observed label reqs)%nat) /\
  (forall label code, default 0%Z (quoteStatusTotal (ap_http a') !! (label, code)) =
     (default 0 (quoteStatusTotal (ap_http a) !! (label, code)) + counted label code (zip reqs rps))%Z).
Proof.
  induction reqs as [| [e q] reqs IH]; intros a a' rps; cbn [serve_all].
  - intros [= <- <-]. split; [done |]. unfold counted, observed. cbn. split; intros; lia.
  - intros ([a1 rp] & Hs & ([a2 rps'] & Hall & Heq)%outcome_bind_ret)%outcome_bind_ret. injection Heq as <- <-.
    apply serve_counts in Hs as [Ho Hc]. destruct (IH _ _ _ Hall) as (Hl & Ho' & Hc').
    split; [by cbn; rewrite Hl |]. split.
    + intros label. rewrite Ho', Ho. unfold observed. cbn [List.filter snd]. destruct (String.eqb _ _); cbn; lia.
    + intros label code. rewrite Hc', Hc. unfold counted. cbn [zip zip_with List.filter fst snd].
      destruct (String.eqb (label_of q) label && bool_decide (itoa (rp_status rp) = Ret code)); cbn [length]; lia.
Qed.

(** ** The WebSocket route behind the metrics middleware *)

Definition subscribes q : Prop :=
  hr_Method (hq_request q) = "GET" /\ hr_Path (hq_request q) = "/v1/rates/subscribe" /\ hq_Upgrade q = "websocket" /\
  hq_Key q <> "".

Lemma mux_subscribe : mux "GET" "/v1/rates/subscribe" = MuxRoute RRatesSubscribe.
Proof. vm_compute. reflexivity. Qed.

(** The handler behind the mux, reached by a well-formed subscription. *)
Lemma subscribe_with_request_id w e q a : subscribes q ->
  with_request_id json_parse json_first json_text fmt_time promhttp_Handler w e q a =
  match hijackAndUpgrade w (en_write_err e) (hq_Key q) with
  | (None, Err _) => mret (a, mkReply StatusOK None (Some (request_id e q)) BEmpty)
  | (Some _, Err _) => mret (a, hijacked)
  | (_, Ok _) =>
      '(h, m, _) ← serve_subscriber (fun bs => json_parse (of_bytes bs)) (en_sub e) (en_writes e) (en_input e)
                     (ap_hub a) (ap_ws a);
      mret (set_hub h m a, hijacked)
  end.
Proof.
  intros (Hm & Hp & Hu & _). unfold with_request_id, mux_ServeHTTP.
  cbn [hq_request with_request requestIDMiddleware hr_Method hr_Path]. rewrite Hm, Hp, mux_subscribe.
  cbn [handle]. unfold ratesSubscribeHandler. cbn [hq_request with_request hr_Method hq_Upgrade hq_Key]. rewrite Hu.
  assert (hr_Method (requestIDMiddleware (en_rid e) (hq_request q)) = "GET") as -> by exact Hm.
  change (negb (String.eqb "GET" "GET")) with false. rewrite bool_decide_true by (vm_compute; reflexivity). cbn [negb].
  destruct (hijackAndUpgrade w (en_write_err e) (hq_Key q)) as [[tk |] [[] | err]]; try reflexivity.
  - by destruct (serve_subscriber _ _ _ _ _ _) as [[[h m] sub] | why].
  - by destruct (serve_subscriber _ _ _ _ _ _) as [[[h m] sub] | why].
Qed.

(** C19: no client is ever served over WebSocket.  Behind the metrics
    middleware the response writer cannot be hijacked, so a request to the
    running service leaves the hub and its gauge as they were; a well-formed
    subscription is answered 200 with an empty body.  The same request on the
    chain without that middleware is upgraded whenever the connection allows
    it. *)
Theorem websocket_never_upgrades e q a :
  (forall a' rp, serve' e q a = Ret (a', rp) ->
     ap_hub a' = ap_hub a /\ ap_ws a' = ap_ws a /\ rp_body rp <> BHijacked /\
     (subscribes q -> rp = mkReply StatusOK None (Some (request_id e q)) BEmpty /\ ap_srv a' = ap_srv a)) /\
  (forall a' rp, subscribes q -> en_writer e = mkHijack true None true 0 -> serve_plain' e q a = Ret (a', rp) ->
     rp = hijacked).
Proof.
  split.
  - intros a' rp Hs. destruct (serve_inv _ _ _ _ _ Hs) as (a1 & rp1 & m & Hmux & _ & Ha' & Hrp).
    destruct (mux_no_hijack (statusRecorder_writer (en_writer e)) _ _ _ _ _ eq_refl Hmux) as (Hb & Hh & Hw).
    split; [by rewrite Ha' |]. split; [by rewrite Ha' |].
    split; [rewrite Hrp; destruct (rp_body rp1) eqn:Hb1; cbn; congruence |]. intros Hq.
    unfold serve in Hs. rewrite subscribe_with_request_id in Hs by done.
    unfold hijackAndUpgrade, statusRecorder_writer in Hs. cbn [hj_hijacker negb] in Hs.
    apply outcome_bind_ret in Hs as ([a2 rp2] & Heq & Hs). injection Heq as <- <-.
    apply outcome_bind_ret in Hs as (m2 & _ & Hs). by injection Hs as <- <-.
  - intros a' rp Hq Hw. unfold serve_plain'. rewrite subscribe_with_request_id, Hw by done.
    destruct Hq as (_ & _ & _ & Hk). rewrite handshake_succeeds by done.
    intros (x & _ & Hx)%outcome_bind_ret. destruct x as [[h m] sub]. by injection Hx as _ <-.
Qed.

End service.

(** ** The service implements the quote table *)

Section spec.
Context {U D L : Type} `{Countable U} {uu : UuidOps U} {ul : UuidLaws U} {ops : DecimalOps D}
  {laws : DecimalLaws D} {lb : LockBackend L} {ll : LockLaws L}.
Variable json_parse : string -> option json.
Variable json_first : list read_result -> option json.
Variable json_text : json -> string.
Variable fmt_time : time -> string.
Variable promhttp_Handler : request -> Z * string.
Implicit Types (a : App U D L) (e : serve_env U) (q : http_request).

(** The running service: a request, with ids that [uuid.NewV7] has not given
    before, answered or aborted by a panic, which net/http recovers; one of the
    two background jobs; or locks that vanish from their backend. *)
Inductive app_step a : App U D L -> Prop :=
  | app_request e q a' rp :
      fresh_all (ap_srv a) (en_quotes e) -> fresh (ap_srv a) (en_refresh e) ->
      iteration_of (en_rows e) (rows (ap_srv a)) ->
      serve json_parse json_first json_text fmt_time promhttp_Handler e q a = Ret (a', rp) -> app_step a a'
  | app_aborted e q why :
      fresh_all (ap_srv a) (en_quotes e) -> fresh (ap_srv a) (en_refresh e) ->
      with_request_id json_parse json_first json_text fmt_time promhttp_Handler
        (statusRecorder_writer (en_writer e)) e q a = Panic why ->
      app_step a (serve_left json_parse json_text fmt_time e q a)
  | app_locks l' :
      (forall k, held l' k = None \/ held l' k = held (sh_locks (sh (ap_srv a))) k) ->
      app_step a (set_srv (set_sh (set_locks l' (sh (ap_srv a))) (ap_srv a)) a)
  | app_sweep now ta ord :
      iteration_of ord (rows (ap_srv a)) -> app_step a (set_srv (sweepExpired now ta ord (ap_srv a)) a)
  | app_refresh se : app_step a (set_srv (refreshFeeSchedules se (ap_srv a)) a).

(** An aborted request: its handler panicked. *)
Lemma aborted_srv e q a why :
  fresh_all (ap_srv a) (en_quotes e) -> fresh (ap_srv a) (en_refresh e) ->
  with_request_id json_parse json_first json_text fmt_time promhttp_Handler
    (statusRecorder_writer (en_writer e)) e q a = Panic why ->
  let a' := serve_left json_parse json_text fmt_time e q a in
  ap_srv a' = ap_srv a \/ srv_step json_parse json_first json_text fmt_time (ap_srv a) (ap_srv a').
Proof.
  intros Hf Hf' Hp. unfold with_request_id in Hp. apply outcome_bind_panic in Hp as [Hp | ([] & _ & Hp)]; [| done].
  unfold serve_left. unfold mux_ServeHTTP in Hp. cbn [hq_request with_request] in Hp.
  set (r := requestIDMiddleware (en_rid e) (hq_request q)) in *.
  destruct (mux (hr_Method r) (hr_Path r)) as [rt | loc]; [| done]. unfold handle in Hp.
  destruct rt; try (by left); apply outcome_bind_panic in Hp as [Hp | ([] & _ & Hp)]; try done; right.
  - by eapply (step_quotes_aborted _ _ _ _ _ _ (en_rows e)).
  - by eapply step_by_id_aborted.
  - by eapply step_claim_aborted.
Qed.

Lemma app_step_srv a a' : app_step a a' ->
  ap_srv a' = ap_srv a \/ srv_step json_parse json_first json_text fmt_time (ap_srv a) (ap_srv a').
Proof.
  intros [e q a1 rp Hf Hf' Hord Hs | e q why Hf Hf' Hp | l' Hl | now ta ord Hord | se].
  - destruct (serve_inv _ _ _ _ _ _ _ _ _ _ Hs) as (a2 & rp1 & m & Hmux & _ & -> & _). cbn [ap_srv set_http].
    unfold mux_ServeHTTP in Hmux. destruct (mux _ _) as [rt | loc]; [| injection Hmux as <- _; by left].
    unfold handle, ratesSubscribeHandler in Hmux. destruct rt; cbn [mret outcome_ret] in Hmux; repeat case_match;
      cbn [mret outcome_ret] in Hmux; try (injection Hmux as <- _; by left);
      apply outcome_bind_ret in Hmux as ([s1 rsp] & Hh & Hmux).
    + injection Hmux as <- _. right. by eapply step_quotes.
    + injection Hmux as <- _. right. by eapply step_by_id.
    + destruct s1 as [h1 m1]. injection Hmux as <- _. by left.
    + destruct s1 as [h1 m1]. injection Hmux as <- _. by left.
    + injection Hmux as <- _. right. by eapply step_claim.
    + injection Hmux as <- _. injection Hh as Hh. right. cbn [ap_srv set_srv].
      pose proof (step_reload json_parse json_first json_text fmt_time (ap_srv a) (en_seed e)
        (requestIDMiddleware (en_rid e) (hq_request q))) as Hstep.
      by rewrite Hh in Hstep.
  - by eapply aborted_srv.
  - right. by apply step_locks.
  - right. by eapply step_sweep.
  - right. apply step_tick.
Qed.

Lemma app_steps_srv a a' : rtc app_step a a' ->
  rtc (srv_step json_parse json_first json_text fmt_time) (ap_srv a) (ap_srv a').
Proof.
  induction 1 as [a | a a1 a' Hs Hr IH]; [constructor |].
  apply app_step_srv in Hs as [<- | Hs]; [done | by eapply rtc_l].
Qed.

Lemma app_start_inv a c se t (l : L) : ap_srv a = NewServer c se t l -> (forall k, held l k = None) ->
  srv_inv (ap_srv a) /\ abs (ap_srv a) = ∅ /\ logged (ap_srv a) = [].
Proof. intros -> Hl. split; [by apply NewServer_inv | apply NewServer_abs]. Qed.

(** C3: the service implements the quote table.  From start-up on an empty
    lock store, whatever HTTP requests arrive, those that panic included, and
    whenever the background jobs run: every step of the service is a sequence of steps of the abstract
    table (issue a new quote, claim, reject or expire an open one at an
    instant on the right side of its expiry, cancel one), and what it adds to
    the audit log is exactly the record of those steps. *)
Theorem service_refines_table a c se t (l : L) a1 a2 :
  ap_srv a = NewServer c se t l -> (forall k, held l k = None) ->
  rtc app_step a a1 -> rtc app_step a1 a2 ->
  exists ls, spec_run (abs (ap_srv a1)) ls (abs (ap_srv a2)) /\
    logged (ap_srv a2) = logged (ap_srv a1) ++ trail ls.
Proof.
  intros Ha Hl H1%app_steps_srv H2%app_steps_srv. destruct (app_start_inv _ _ _ _ _ Ha Hl) as [Hi _].
  destruct (srv_steps_refine _ _ _ _ _ _ Hi H1) as [Hi1 _].
  by destruct (srv_steps_refine _ _ _ _ _ _ Hi1 H2) as [_ Href].
Qed.

(** C14: the audit log tells who claimed what.  In any state the service
    reaches, the log has one issue event for each stored quote and none for
    any other id, and one claim event for each quote that records a claimant
    and none for any other: an open quote records none, a claimed one does,
    and whoever a canceled quote was claimed by stays recorded. *)
Theorem audit_log_tells_claims a c se t (l : L) a' id :
  ap_srv a = NewServer c se t l -> (forall k, held l k = None) -> rtc app_step a a' ->
  let log := logged (ap_srv a') in
  match rows (ap_srv a') !! id with
  | None => times ("quote.issued", id) log = 0%nat /\ times ("quote.claimed", id) log = 0%nat
  | Some row =>
      times ("quote.issued", id) log = 1%nat /\
      times ("quote.claimed", id) log = (if ClaimedAt row is Some _ then 1 else 0)%nat /\
      (Store.Status row = StatusOpen -> ClaimedAt row = None) /\
      (Store.Status row = StatusClaimed -> is_Some (ClaimedAt row))
  end.
Proof.
  intros Ha Hl H1%app_steps_srv. destruct (app_start_inv _ _ _ _ _ Ha Hl) as (Hi & Habs & Hlog).
  destruct (srv_steps_refine _ _ _ _ _ _ Hi H1) as [_ (ls & Hrun & Hext)].
  rewrite Habs in Hrun. rewrite Hlog in Hext. cbv zeta. rewrite Hext.
  destruct (spec_run_log _ _ _ [] claimed_once_empty Hrun id) as (Hi' & Hc & Ho & Hst).
  change ([] ++ trail ls) with (trail ls) in *. unfold abs in *. rewrite lookup_fmap in *.
  destruct (rows (ap_srv a') !! id) as [row |]; [| done]. cbn in Hi', Hc, Ho, Hst.
  split; [done |]. split; [rewrite Hc; unfold claim_of; by destruct (ClaimedAt row) |].
  specialize (Ho _ eq_refl). specialize (Hst _ eq_refl). cbn in Ho, Hst. unfold claim_of in *. split.
  - intros Hopen. specialize (Ho Hopen). by destruct (ClaimedAt row).
  - intros Hcl. destruct (Hst Hcl) as [x Hx]. by destruct (ClaimedAt row).
Qed.

End spec.

(** ** A service at work *)

Definition sample_app : App string refdec LockStore := mkApp srv0 newWSHub (mkWsMetrics 0 0 0) newHttpMetrics.

Definition sample_serve_env (t : time) : serve_env string :=
  mkServeEnv "gen-1" t (t + 1)%Z (sample_envs t) [] t t t (sample_env_at "q9" t) (clock_at t)
    (mkSeedEnv (fun _ => "fs") t) [] (mkHijack true None true 0) "" 7 [] [].

Definition sample_http (method path rid body : string) : http_request :=
  mkHttpRequest (mkHttp method path rid "" [(body, Some "EOF")]) "" "websocket" "dGhlIHNhbXBsZSBub25jZQ==".

Abbreviation sample_serve := (serve sample_parse sample_first sample_text sample_fmt (fun _ => (200%Z, ""))).
Abbreviation sample_serve_all := (serve_all sample_parse sample_first sample_text sample_fmt (fun _ => (200%Z, ""))).

Definition app_of {A} (o : outcome (App string refdec LockStore * A)) : App string refdec LockStore :=
  match o with Ret (a, _) => a | Panic _ => sample_app end.
Definition reply_of (o : outcome (App string refdec LockStore * reply)) : reply :=
  match o with Ret (_, rp) => rp | Panic _ => untouched end.
Definition replies_of (o : outcome (App string refdec LockStore * list reply)) : list reply :=
  match o with Ret (_, rps) => rps | Panic _ => [] end.

Lemma ret_parts {A} (o : outcome (App string refdec LockStore * A)) (f : _ -> A) :
  is_ret o = true -> (forall x, f (Ret x) = snd x) -> o = Ret (app_of o, f o).
Proof. intros Ho Hf. destruct o as [[a x] | w]; [by rewrite Hf | done]. Qed.

Definition missing_quote := sample_http "GET" "/v1/quotes/q7" "client-1" "".

Lemma answers_carry_request_id_witness :
  let rp := reply_of (sample_serve (sample_serve_env 1) missing_quote sample_app) in
  rp_status rp = 404%Z /\ rp_RequestID rp = Some "client-1" /\ enveloped "client-1" rp.
Proof.
  set (o := sample_serve (sample_serve_env 1) missing_quote sample_app).
  assert (o = Ret (app_of o, reply_of o)) as Ho.
  { apply (ret_parts o reply_of); [vm_compute; reflexivity | by intros []]. }
  split; [vm_compute; reflexivity |].
  exact (answers_carry_request_id sample_parse sample_first sample_text sample_fmt (fun _ => (200%Z, ""))
           (sample_serve_env 1) missing_quote sample_app (app_of o) (reply_of o) ltac:(discriminate) Ho).
Defined.

(** Three requests: a quote is issued, a path is unknown, and the quote is
    read. *)
Definition sample_reqs : list (serve_env string * http_request) :=
  [(sample_serve_env 1, sample_http "POST" "/v1/quotes" "a" "quote");
   (sample_serve_env 2, sample_http "GET" "/nowhere" "b" "");
   (sample_serve_env 3, sample_http "GET" "/v1/quotes/q0" "c" "")].

Lemma requests_are_counted_witness :
  let o := sample_serve_all sample_reqs sample_app in
  map rp_status (replies_of o) = [201; 404; 200]%Z /\
  default 0%Z (quoteStatusTotal (ap_http (app_of o)) !! ("/nowhere", "404")) = 1%Z.
Proof.
  set (o := sample_serve_all sample_reqs sample_app).
  assert (o = Ret (app_of o, replies_of o)) as Ho.
  { apply (ret_parts o replies_of); [vm_compute; reflexivity | by intros []]. }
  assert (map rp_status (replies_of o) = [201; 404; 200]%Z) as Hst by (vm_compute; reflexivity).
  split; [exact Hst |].
  destruct (requests_are_counted sample_parse sample_first sample_text sample_fmt (fun _ => (200%Z, ""))
              sample_reqs sample_app (app_of o) (replies_of o) Ho) as (_ & _ & Hc).
  rewrite Hc. vm_compute. reflexivity.
Defined.

(** A client that does everything right. *)
Definition sample_subscription := sample_http "GET" "/v1/rates/subscribe" "s" "".

Lemma websocket_never_upgrades_witness :
  reply_of (sample_serve (sample_serve_env 1) sample_subscription sample_app)
  = mkReply 200 None (Some "s") BEmpty.
Proof.
  set (o := sample_serve (sample_serve_env 1) sample_subscription sample_app).
  assert (o = Ret (app_of o, reply_of o)) as Ho.
  { apply (ret_parts o reply_of); [vm_compute; reflexivity | by intros []]. }
  destruct (websocket_never_upgrades sample_parse sample_first sample_text sample_fmt (fun _ => (200%Z, ""))
              (sample_serve_env 1) sample_subscription sample_app) as [Hserve _].
  destruct (Hserve _ _ Ho) as (_ & _ & _ & Hsub).
  apply Hsub. split; [reflexivity |]. split; [reflexivity |]. split; [reflexivity | intros Hk; discriminate Hk].
Defined.

(** A quote is issued and claimed over HTTP, then the sweep runs. *)
Definition sample_env2 (t : time) : serve_env string :=
  mkServeEnv "gen-2" t (t + 1)%Z (fun i => sample_env_at ("r" +:+ pretty (N.of_nat i)) t) ["q0"] t t t
    (sample_env_at "q9" t) (clock_at t) (mkSeedEnv (fun _ => "fs") t) [] (mkHijack true None true 0) "" 7 [] [].

Definition issue_over_http := sample_serve (sample_serve_env Millisecond) (sample_http "POST" "/v1/quotes" "a" "quote") sample_app.
Definition app1 : App string refdec LockStore := app_of issue_over_http.
Definition claim_over_http :=
  sample_serve (sample_env2 (2 * Millisecond)) (sample_http "POST" "/internal/v1/quotes/q0/claim" "b" "claim") app1.
Definition app2 : App string refdec LockStore := app_of claim_over_http.

Abbreviation sample_app_step := (app_step sample_parse sample_first sample_text sample_fmt (fun _ => (200%Z, ""))).

Lemma pretty_prefix_inj (c : string) i j : c +:+ pretty (N.of_nat i) = c +:+ pretty (N.of_nat j) -> i = j.
Proof. intros Heq%string_app_inj. apply (inj pretty) in Heq. lia. Qed.

Lemma app1_step : sample_app_step sample_app app1.
Proof.
  assert (rows (ap_srv sample_app) = ∅) as Hrows by (vm_compute; reflexivity).
  apply (app_request _ _ _ _ _ _ (sample_serve_env Millisecond) (sample_http "POST" "/v1/quotes" "a" "quote") _
           (reply_of issue_over_http)).
  - split; [intros i; unfold fresh; by rewrite Hrows | intros i j; apply (pretty_prefix_inj "q")].
  - unfold fresh. by rewrite Hrows.
  - rewrite Hrows. unfold iteration_of. reflexivity.
  - apply (ret_parts issue_over_http reply_of); [vm_compute; reflexivity | by intros []].
Qed.

Lemma app1_rows : (map_to_list (rows (ap_srv app1))).*1 = ["q0"].
Proof. vm_compute. reflexivity. Qed.

Lemma app2_step : sample_app_step app1 app2.
Proof.
  assert (forall id, id <> "q0" -> rows (ap_srv app1) !! id = None) as Hrows.
  { intros id Hid. apply eq_None_not_Some. intros [q Hq]. apply Hid.
    assert (id ∈ (map_to_list (rows (ap_srv app1))).*1) as Hin.
    { apply list_elem_of_fmap. exists (id, q). split; [done |]. by apply elem_of_map_to_list. }
    rewrite app1_rows in Hin. by apply list_elem_of_singleton in Hin. }
  apply (app_request _ _ _ _ _ _ (sample_env2 (2 * Millisecond))
           (sample_http "POST" "/internal/v1/quotes/q0/claim" "b" "claim") _ (reply_of claim_over_http)).
  - split; [intros i; apply Hrows; cbn; by intros [=] | intros i j; apply (pretty_prefix_inj "r")].
  - by apply Hrows.
  - unfold iteration_of. by rewrite app1_rows.
  - apply (ret_parts claim_over_http reply_of); [vm_compute; reflexivity | by intros []].
Qed.

Definition sample_seed : seed_env string := mkSeedEnv (fun i => "fs-" +:+ pretty (N.of_nat i)) 0.

Lemma service_refines_table_witness :
  logged (ap_srv app2) = [("quote.issued", "q0"); ("quote.claimed", "q0")] /\
  exists ls, spec_run (abs (ap_srv app1)) ls (abs (ap_srv app2)) /\ logged (ap_srv app2) = logged (ap_srv app1) ++ trail ls.
Proof.
  split; [vm_compute; reflexivity |].
  exact (service_refines_table sample_parse sample_first sample_text sample_fmt (fun _ => (200%Z, ""))
    sample_app DefaultConfig sample_seed 0 NewLockStore app1 app2 eq_refl srv0_locks
    (rtc_once _ _ app1_step) (rtc_once _ _ app2_step)).
Defined.

Lemma audit_log_tells_claims_witness :
  times ("quote.claimed", "q0") (logged (ap_srv app2)) = 1%nat.
Proof.
  pose proof (audit_log_tells_claims sample_parse sample_first sample_text sample_fmt (fun _ => (200%Z, ""))
    sample_app DefaultConfig sample_seed 0 NewLockStore app2 "q0" eq_refl srv0_locks
    (rtc_l _ _ _ _ app1_step (rtc_once _ _ app2_step))) as Ht.
  cbv zeta in Ht. destruct (rows (ap_srv app2) !! "q0") as [row |] eqn:Hrow.
  - destruct Ht as (_ & -> & _ & Hst).
    assert (Store.Status <$> rows (ap_srv app2) !! "q0" = Some StatusClaimed) as Hc by (vm_compute; reflexivity).
    rewrite Hrow in Hc. injection Hc as Hc. by destruct (Hst Hc) as [t ->].
  - assert (is_Some (rows (ap_srv app2) !! "q0")) as [row Hs] by (vm_compute; eauto).
    rewrite Hrow in Hs. discriminate Hs.
Defined.
