(* ===== verification/Seeds.v ===== *)
(** * Seeds: where the prices of the running service come from

    [RunWithConfigCtx] starts the sweeper and the schedule refresher, and
    nothing else: the feed consumer of feed.go is not started, no poll hook is
    installed, and no handler updates a rate.  So the only rates the running
    service ever holds are the hard-coded ones of [SpotService.seed]. *)

From stdpp Require Import relations.
From S2P Require Import Prelude GoStrings Utf8 Decimal RefDecimal Errors Json Store FeeIndex Lru Spot Pricer Config AuditTrail Locks Claim Server Metrics Ws Handshake Http Lifecycle Preserve QuoteSpec Service.

Section seeds.
Context {U D L : Type} `{Countable U} {uu : UuidOps U} {ul : UuidLaws U} {ops : DecimalOps D}
  {laws : DecimalLaws D} {lb : LockBackend L} {ll : LockLaws L}.
Variable json_parse : string -> option json.
Variable json_first : list read_result -> option json.
Variable json_text : json -> string.
Variable fmt_time : time -> string.
Variable promhttp_Handler : request -> Z * string.
Implicit Types (s : Server U D L) (q : Quote U D) (id : U) (sv : SpotService D).

(** The hard-coded mid price of a pair. *)
Definition hard_coded (from to : string) (x : D) : Prop :=
  exists now sd, seed_of now (pairKey from to) = Some sd /\ x = r_Mid sd.

(** Every rate a spot service remembers is a seed. *)
Definition seeded sv : Prop :=
  spot_wf sv /\ forall k r, lastGood sv !! k = Some r -> exists now, seed_of now k = Some r.

Lemma seed_seeded now sv : seeded sv -> seeded (seed now sv).
Proof.
  intros [Hwf Hall]. split; [by apply seed_wf |]. intros k r. rewrite seed_lastGood by done.
  destruct (seed_of now k) eqn:Hk; [intros [= <-]; by exists now | apply Hall].
Qed.

Lemma NewSpotService_seeded age now : seeded (NewSpotService age now).
Proof.
  split; [apply NewSpotService_wf |]. intros k r. unfold NewSpotService. rewrite seed_lastGood.
  - destruct (seed_of now k) eqn:Hk; [intros [= <-]; by exists now | done].
  - split; cbn; [apply newLRUCache_wf | done | done | done].
Qed.

Lemma Get0_seeded t1 t2 from to sv : seeded sv ->
  seeded (fst (Get0 t1 t2 from to sv)) /\
  (forall r, snd (Get0 t1 t2 from to sv) = Ok r -> hard_coded from to (r_Mid r)).
Proof.
  intros [Hwf Hall]. destruct (Get0_cases t1 t2 from to sv Hwf) as [Hwf1 Hget].
  assert (forall lg, lastGood sv !! pairKey from to = Some lg -> hard_coded from to (r_Mid (set_Stale lg))) as Hlast.
  { intros lg Hlg. destruct (Hall _ _ Hlg) as [now Hnow]. by exists now, lg. }
  split; [split; [by apply Get0_wf |]; rewrite Hget | rewrite Hget].
  - destruct (cached sv (pairKey from to)) as [r0 |]; [destruct (_ <=? _)%Z |].
    + apply Hall.
    + destruct (get_reseed_ok t2 from to _ Hwf1) as (_ & _ & _ & -> & _).
      by apply (seed_seeded t2 (set_cache (fst (lruCache_get (cache sv) (pairKey from to))) sv)).
    + destruct (get_last_good_ok from to _ Hwf1) as (_ & _ & _ & -> & _). apply Hall.
  - intros r. destruct (cached sv (pairKey from to)) as [r0 |] eqn:Hc; [destruct (_ <=? _)%Z |].
    + intros [= <-]. destruct (Hall _ _ (wf_cached sv Hwf _ _ Hc)) as [now Hnow]. by exists now, r0.
    + destruct (get_reseed_ok t2 from to _ Hwf1) as (_ & -> & _).
      destruct (seed_of t2 (pairKey from to)) as [sd |] eqn:Hsd; [intros [= <-]; by exists t2, sd |].
      cbn [lastGood set_cache]. destruct (lastGood sv !! pairKey from to) eqn:Hlg; [intros [= <-]; by apply Hlast | done].
    + destruct (get_last_good_ok from to _ Hwf1) as (_ & -> & _). cbn [lastGood set_cache].
      destruct (lastGood sv !! pairKey from to) eqn:Hlg; [intros [= <-]; by apply Hlast | done].
Qed.

(** The price the spread is applied to is the seed's mid. *)
Lemma hard_coded_spot from to r : hard_coded from to (r_Mid r) -> spot_of r = Ret (r_Mid r).
Proof.
  intros (now & sd & Hsd & Hmid). apply seed_of_In in Hsd as [Hin _]. unfold spot_of.
  assert (dec_le (r_Mid r) dec_zero = false) as ->; [| done].
  apply not_true_iff_false. rewrite le_val, val_zero, Hmid. unfold seeds in Hin. simpl in Hin.
  destruct Hin as [<- | [<- | [<- | [<- | []]]]]; cbn [r_Mid]; rewrite val_of_int; intros Hle; by apply Hle.
Qed.

Lemma Compute_seeded p st sv t1 t2 from to amount tier side sv' out :
  seeded sv -> Compute (U := U) p st sv t1 t2 from to amount tier side = Ret (sv', out) ->
  seeded sv' /\ (forall cr, out = Ok cr -> hard_coded from to (cr_Spot cr)).
Proof.
  intros Hsv. destruct (Get0_seeded t1 t2 from to sv Hsv) as [H1 H2]. unfold Compute.
  destruct (Get0 t1 t2 from to sv) as [sv1 [r | err]]; cbn [fst snd] in *; [| by intros [= <- <-]].
  specialize (H2 r eq_refl). intros (res & Hw & Hres)%outcome_bind_ret. injection Hres as <- <-. split; [done |].
  intros cr ->. unfold compute_with in Hw. rewrite (hard_coded_spot from to r H2) in Hw. cbn [mbind outcome_bind] in Hw.
  destruct (dec_le (r_Mid r) dec_zero); [done |].
  apply outcome_bind_ret in Hw as (x & _ & Hw). apply outcome_bind_ret in Hw as ([[[x1 x2] x3] x4] & _ & Hw).
  do 3 (apply outcome_bind_ret in Hw as (? & _ & Hw)). by injection Hw as <-.
Qed.

(** ** The server *)

Definition priced s : Prop :=
  seeded (sh_spot (sh s)) /\ forall id q, rows s !! id = Some q -> hard_coded (From q) (To q) (SpotPrice q).

Lemma priced_same s s' : priced s -> rows s' = rows s -> seeded (sh_spot (sh s')) -> priced s'.
Proof. intros [_ Hr] Hrows Hs. split; [done |]. by rewrite Hrows. Qed.

(** A row written: new, or with the terms it had. *)
Lemma priced_insert s s' id q : priced s -> rows s' = <[id := q]> (rows s) -> seeded (sh_spot (sh s')) ->
  hard_coded (From q) (To q) (SpotPrice q) -> priced s'.
Proof.
  intros [_ Hr] Hrows Hs Hq. split; [done |]. rewrite Hrows.
  intros i x [[<- <-] | [_ Hx]]%lookup_insert_Some; [done | by eapply Hr].
Qed.

Lemma priced_terms s id q q' : priced s -> rows s !! id = Some q -> terms q' = terms q ->
  hard_coded (From q') (To q') (SpotPrice q').
Proof.
  intros [_ Hr] Hq Ht. pose proof (f_equal From Ht) as Hf. pose proof (f_equal To Ht) as Hto.
  pose proof (f_equal SpotPrice Ht) as Hsp. cbn in Hf, Hto, Hsp. rewrite Hf, Hto, Hsp. by eapply Hr.
Qed.

Lemma price_priced e from to amount tier side s s' res : priced s ->
  price e from to amount tier side s = Ret (s', res) ->
  priced s' /\ rows s' = rows s /\ (forall cr, res = Ok cr -> hard_coded from to (cr_Spot cr)).
Proof.
  intros [Hs Hr]. unfold price. intros ([sp x] & Hc & [= <- <-])%outcome_bind_ret.
  destruct (Compute_seeded _ _ _ _ _ _ _ _ _ _ _ _ Hs Hc) as [H1 H2].
  split; [| done]. by split.
Qed.

Lemma issue_priced e q cr s : priced s -> hard_coded (From q) (To q) (SpotPrice q) ->
  priced (issue json_text fmt_time e q cr s).
Proof.
  intros Hp Hq. destruct (issue_frame json_text fmt_time e q cr s) as (Hr & _).
  eapply priced_insert; [exact Hp | exact Hr | | done]. destruct Hp as [Hs _]. unfold issue. cbn [sh set_sh].
  set (ev := quote_event _ _ _ _). set (x := set_locks _ _). by destruct (append_fields (ie_audit e) ev x) as (_ & _ & -> & _).
Qed.

Lemma create_priced e req s s' res : priced s -> createQuote json_text fmt_time e req s = Ret (s', res) -> priced s'.
Proof.
  intros Hp. unfold createQuote. intros ([s1 pr] & Hpr & Hres)%outcome_bind_ret.
  destruct (price_priced _ _ _ _ _ _ _ _ _ Hp Hpr) as (H1 & _ & H2).
  destruct pr as [cr | err]; injection Hres as <- <-; [| done]. apply issue_priced; [done |]. by apply H2.
Qed.

Lemma update_priced id f s q : priced s -> rows s !! id = Some q -> terms (f q) = terms q ->
  priced (set_sh (fst (update id f (sh s))) s).
Proof.
  intros Hp Hq Ht. pose proof Hq as Hq'. unfold rows in Hq'. rewrite (update_known id f (sh s) q Hq'). cbn [fst].
  eapply (priced_insert s _ id (f q)); [done | done | apply Hp | by eapply priced_terms].
Qed.

(** A claim leaves the spot service as it was, or as one lookup left it. *)
Lemma claim_spot tol ct id by_ (x x' : shared U D L) res : ClaimService_Claim tol ct id by_ x = Ret (x', res) ->
  sh_spot x' = sh_spot x \/ exists t1 t2 from to, sh_spot x' = fst (Get0 t1 t2 from to (sh_spot x)).
Proof.
  unfold ClaimService_Claim. destruct (GetQuote (sh_store x) id) as [q |] eqn:Hq; [| by intros [= <- <-]; left].
  destruct (claim_entry (ct_expiry ct) q).
  - by intros [= <- <-]; left.
  - rewrite (update_known id _ x q Hq). intros [= <- <-]. left. set (ev := quote_event _ _ _ _).
    set (y := set_store _ _). by destruct (append_fields (ct_audit ct) ev y) as (_ & _ & -> & _).
  - destruct (lb_Claim _ _ _) as [l [v |]]; [| by intros [= <- <-]; left].
    cbn [sh_spot set_locks]. destruct (Get0 _ _ _ _ (sh_spot x)) as [sp cur] eqn:Hg. intros Hc. right.
    exists (ct_since ct), (ct_reseed ct), (From q), (To q). rewrite Hg. cbn [fst].
    apply outcome_bind_ret in Hc as (b & _ & Hc). destruct b.
    + injection Hc as <- <-. set (ev := quote_event _ _ _ _). set (y := set_spot _ _).
      by destruct (append_fields (ct_audit ct) ev y) as (_ & _ & -> & _).
    + rewrite (update_known id _ (set_spot sp (set_locks l x)) q Hq) in Hc. injection Hc as <- <-.
      set (ev := quote_event _ _ _ _). set (y := set_store _ _).
      by destruct (append_fields (ct_audit ct) ev y) as (_ & _ & -> & _).
Qed.

Lemma claim_priced tol ct id by_ s x res : priced s ->
  ClaimService_Claim tol ct id by_ (sh s) = Ret (x, res) -> priced (set_sh x s).
Proof.
  intros Hp Hc. assert (seeded (sh_spot x)) as Hs.
  { destruct (claim_spot _ _ _ _ _ _ _ Hc) as [-> | (t1 & t2 & from & to & ->)]; [apply Hp |].
    by apply Get0_seeded, Hp. }
  apply Claim_effect in Hc as He. clear Hc.
  destruct He as [Hq | q reason Hq Hent | q x Hq Hent Hst _ _ | q x l Hq Hent _ -> | q x l v cur Hq Hent _ _ _ Hst _ _
                 | q x l v cur Hq Hent _ _ _ Hst _ _]; try (by apply (priced_same s)).
  - eapply (priced_insert s _ id (set_status StatusExpired q)); [done | exact Hst | done | by eapply priced_terms].
  - apply (priced_same s); [done | unfold rows; cbn; by rewrite Hst | done].
  - eapply (priced_insert s _ id (set_claimed (ct_claimed ct) by_ q)); [done | exact Hst | done |].
    by eapply (priced_terms s id q).
Qed.

Lemma cancel_priced td ta id old s : priced s -> srv_inv s -> rows s !! id = Some old -> priced (cancel td ta id old s).
Proof.
  intros Hp Hi Hq. destruct (cancel_inv td ta id old s Hi Hq) as (_ & _ & _ & Hr & _).
  eapply (priced_insert s _ id (set_status StatusCanceled old)); [done | exact Hr | | by eapply priced_terms].
  unfold cancel. rewrite (update_known id _ (sh s) old Hq). cbn [fst sh set_sh].
  set (ev := quote_event _ _ _ _). set (x := set_locks _ _). destruct (append_fields ta ev x) as (_ & _ & -> & _). apply Hp.
Qed.

Lemma sweep_one_priced now ta s q : priced s -> priced (sweep_one now ta s q).
Proof.
  intros Hp. unfold sweep_one. destruct (_ && _); [| done].
  destruct (GetQuote (sh_store (sh s)) (QuoteID q)) as [row |] eqn:Hrow.
  - pose proof (update_priced (QuoteID q) (set_status StatusExpired) s row Hp Hrow eq_refl) as Hu.
    apply (priced_same _ _ Hu); unfold rows; cbn [sh set_sh]; set (x := fst _);
      set (ev := quote_event _ _ _ _); destruct (append_fields (ta (QuoteID q)) ev x) as (E1 & _ & E2 & _); cbn [sh set_sh] in *.
    + by rewrite E1.
    + rewrite E2. apply Hu.
  - assert (fst (update (QuoteID q) (set_status StatusExpired) (sh s)) = set_store (sh_store (sh s)) (sh s)) as ->.
    { unfold update, UpdateQuote. unfold GetQuote in Hrow. by rewrite Hrow. }
    set (ev := quote_event _ _ _ _). set (x := set_store _ _).
    destruct (append_fields (ta (QuoteID q)) ev x) as (E1 & _ & E2 & _).
    apply (priced_same _ _ Hp); unfold rows; cbn [sh set_sh]; [by rewrite E1 | rewrite E2; apply Hp].
Qed.

Lemma getQuote_priced now r id s : priced s -> priced (fst (getQuote fmt_time now r id s)).
Proof.
  intros Hp. unfold getQuote. destruct (GetQuote (sh_store (sh s)) id) as [q |] eqn:Hq; [| done].
  destruct (shows_expired now q); [| done]. by apply (update_priced id _ s q).
Qed.

Lemma refresh_priced td ta e r id s s' rsp : priced s -> srv_inv s ->
  refreshQuote json_text fmt_time td ta e r id s = Ret (s', rsp) -> priced s'.
Proof.
  intros Hp Hi. unfold refreshQuote. destruct (GetQuote (sh_store (sh s)) id) as [old |] eqn:Hq; [| by intros [= <- <-]].
  intros ([s2 pr] & Hpr & Hres)%outcome_bind_ret.
  destruct (price_priced _ _ _ _ _ _ _ _ _ (cancel_priced td ta id old s Hp Hi Hq) Hpr) as (P1 & _ & P2).
  destruct pr as [cr | err]; injection Hres as <- <-; [| done]. apply issue_priced; [done |]. by apply P2.
Qed.

#[local] Instance priced_kept : Kept json_text fmt_time priced.
Proof.
  split.
  - intros s s' Hp (Hr & Hs & _). apply (priced_same s); [done | done |]. rewrite Hs. apply Hp.
  - intros e req s s' res Hp _. by apply create_priced.
  - intros now r id s. apply getQuote_priced.
  - apply refresh_priced.
  - intros tol ct id by_ s x res Hp _. by apply claim_priced.
  - intros t1 t2 from to s Hp. apply (priced_same s); [done | done |]. cbn. by apply Get0_seeded, Hp.
  - intros td ta id old s. apply cancel_priced.
  - intros now ta s q Hp _. by apply sweep_one_priced.
Qed.

Lemma NewServer_priced c e t (l : L) : priced (NewServer c e t l).
Proof.
  unfold NewServer. destruct (ReloadIndex _ _). split; [apply NewSpotService_seeded |].
  intros id q Hq. unfold rows in Hq. cbn in Hq. by rewrite lookup_empty in Hq.
Qed.

(** C21: the running service prices with hard-coded rates only.  From start-up,
    whatever requests arrive, however long it runs and whatever feed is
    configured: every stored quote was priced at the seed of its pair, and any
    rate a later quote or the slippage guard of a claim would use is that seed
    again. *)
Theorem service_prices_are_hard_coded a c se t (l : L) a' :
  ap_srv a = NewServer c se t l -> (forall k, held l k = None) ->
  rtc (app_step json_parse json_first json_text fmt_time promhttp_Handler) a a' ->
  (forall id q, rows (ap_srv a') !! id = Some q -> hard_coded (From q) (To q) (SpotPrice q)) /\
  (forall t1 t2 from to r, snd (Get0 t1 t2 from to (sh_spot (sh (ap_srv a')))) = Ok r -> hard_coded from to (r_Mid r)).
Proof.
  intros Ha Hl Hr%app_steps_srv. destruct (app_start_inv _ _ _ _ _ Ha Hl) as [Hi _].
  assert (priced (ap_srv a')) as [Hs Hq].
  { eapply (srv_steps_kept json_parse json_first json_text fmt_time priced); [exact Hi | rewrite Ha; apply NewServer_priced | exact Hr]. }
  split; [exact Hq |]. intros t1 t2 from to r. by apply Get0_seeded.
Qed.

End seeds.

Lemma service_prices_are_hard_coded_witness :
  (rows (ap_srv app2) !! "q0" ≫= fun q => Some (rstring (SpotPrice q))) = Some "65000" /\
  (forall q, rows (ap_srv app2) !! "q0" = Some q -> hard_coded (From q) (To q) (SpotPrice q)).
Proof.
  split; [vm_compute; reflexivity |].
  exact (proj1 (service_prices_are_hard_coded sample_parse sample_first sample_text sample_fmt (fun _ => (200%Z, ""))
    sample_app DefaultConfig sample_seed 0 NewLockStore app2 eq_refl srv0_locks
    (rtc_l _ _ _ _ app1_step (rtc_once _ _ app2_step))) "q0").
Defined.
