(* ===== verification/Typing.v ===== *)
(** * Typing: the rows of the running service are well formed

    The fields of a [Quote] are strings, times and statuses that the code ties
    together without saying so in their types.  [well_typed] says it: what a
    row's fields may be and how they depend on each other, and every request
    and background job keeps it. *)

From stdpp Require Import relations.
From S2P Require Import Prelude GoStrings Utf8 Decimal RefDecimal Errors Json Store FeeIndex Lru Spot Pricer Config AuditTrail Locks Claim Server Metrics Ws Handshake Http Lifecycle Preserve QuoteSpec Service.

Section typing.
Context {U D L : Type} `{Countable U} {uu : UuidOps U} {ul : UuidLaws U} {ops : DecimalOps D}
  {laws : DecimalLaws D} {lb : LockBackend L} {ll : LockLaws L}.
Variable json_parse : string -> option json.
Variable json_first : list read_result -> option json.
Variable json_text : json -> string.
Variable fmt_time : time -> string.
Variable promhttp_Handler : request -> Z * string.
Implicit Types (s : Server U D L) (q : Quote U D) (id : U).

(** Who claimed a row, by its status. *)
Definition claim_fields q : Prop :=
  match Store.Status q with
  | StatusOpen | StatusExpired => ClaimedAt q = None /\ ClaimedBy q = ""
  | StatusClaimed => is_Some (ClaimedAt q) /\ TrimSpace (runes (ClaimedBy q)) <> []
  | _ => ClaimedAt q = None /\ ClaimedBy q = "" \/ is_Some (ClaimedAt q) /\ TrimSpace (runes (ClaimedBy q)) <> []
  end.

Record well_typed (c : Config) q : Prop := {
  wt_currencies : currency_ok (From q) /\ currency_ok (To q);
  wt_amount : amount_ok (D := D) (Amount q);
  wt_tier : tier_ok (UserTier q);
  wt_side : side_ok (Side q);
  wt_rate : Rate_ q = dec_to_string (LockedRate q);
  wt_spot : (0 < val (SpotPrice q))%Q;
  wt_fee_currency : FeeCurrency q = From q;
  wt_expiry : ExpiresAt q = time_Add (CreatedAt q) (RateLockTTL c);
  wt_claim : claim_fields q;
}.

(** A typed row with another status or claimant. *)
Lemma well_typed_terms c q q' : well_typed c q -> terms q' = terms q -> claim_fields q' -> well_typed c q'.
Proof.
  intros [? ? ? ? ? ? ? ? _] Ht Hc. split; [.. | exact Hc].
  all: pose proof (f_equal (From) Ht) as E1; pose proof (f_equal To Ht) as E2; pose proof (f_equal Amount Ht) as E3;
    pose proof (f_equal UserTier Ht) as E4; pose proof (f_equal Side Ht) as E5; pose proof (f_equal Rate_ Ht) as E6;
    pose proof (f_equal LockedRate Ht) as E7; pose proof (f_equal SpotPrice Ht) as E8;
    pose proof (f_equal FeeCurrency Ht) as E9; pose proof (f_equal ExpiresAt Ht) as E10;
    pose proof (f_equal CreatedAt Ht) as E11; cbn in E1, E2, E3, E4, E5, E6, E7, E8, E9, E10, E11; congruence.
Qed.

Lemma expired_typed c q : well_typed c q -> Store.Status q = StatusOpen \/ Store.Status q = StatusExpired ->
  well_typed c (set_status StatusExpired q).
Proof.
  intros Hw Hst. apply (well_typed_terms c q); [done | done |].
  pose proof (wt_claim c q Hw) as Hc. unfold claim_fields in *. by destruct Hst as [Hst | Hst]; rewrite Hst in Hc.
Qed.

Lemma canceled_typed c q : well_typed c q -> well_typed c (set_status StatusCanceled q).
Proof.
  intros Hw. apply (well_typed_terms c q); [done | done |].
  pose proof (wt_claim c q Hw) as Hc. unfold claim_fields in *. destruct (Store.Status q); cbn; tauto.
Qed.

Lemma claimed_typed c t by_ q : well_typed c q -> TrimSpace (runes by_) <> [] -> well_typed c (set_claimed t by_ q).
Proof. intros Hw Hby. apply (well_typed_terms c q); [done | done |]. unfold claim_fields. cbn. by split; [exists t |]. Qed.

(** A priced row: the spot rate it was priced at is positive. *)
Lemma Compute_spot_positive p st sv (t1 t2 : time) from to amount tier side sv' cr :
  Compute (U := U) p st sv t1 t2 from to amount tier side = Ret (sv', Ok cr) -> (0 < val (D := D) (cr_Spot cr))%Q.
Proof.
  unfold Compute. destruct (Get0 t1 t2 from to sv) as [sv1 [r | err]]; [| done].
  intros (res & Hw & [= <- ->])%outcome_bind_ret. unfold compute_with in Hw.
  apply outcome_bind_ret in Hw as (px & _ & Hw). destruct (dec_le px dec_zero) eqn:Hpx; [done |].
  apply outcome_bind_ret in Hw as (x & _ & Hw). apply outcome_bind_ret in Hw as ([[[x1 x2] x3] x4] & _ & Hw).
  do 3 (apply outcome_bind_ret in Hw as (? & _ & Hw)). injection Hw as <-. by apply val_zero_pos.
Qed.

Lemma price_spot_positive e from to amount tier side s s' cr :
  price e from to amount tier side s = Ret (s', Ok cr) -> (0 < val (cr_Spot cr))%Q.
Proof. unfold price. intros ([sp x] & Hc & [= <- ->])%outcome_bind_ret. by eapply Compute_spot_positive. Qed.

(** ** Tables *)

(** Every row is typed and under its own id. *)
Definition typed (c : Config) s : Prop :=
  cfg s = c /\ forall id q, rows s !! id = Some q -> QuoteID q = id /\ well_typed c q.

Lemma typed_insert c s s' id q : typed c s -> cfg s' = cfg s -> rows s' = <[id := q]> (rows s) ->
  QuoteID q = id -> well_typed c q -> typed c s'.
Proof.
  intros [Hc Hr] Hcfg Hrows Hid Hq. split; [by rewrite Hcfg |]. rewrite Hrows.
  intros i x [[<- <-] | [_ Hx]]%lookup_insert_Some; [done | by apply Hr].
Qed.

Lemma typed_rows c s s' : typed c s -> cfg s' = cfg s -> rows s' = rows s -> typed c s'.
Proof. intros [Hc Hr] Hcfg Hrows. split; [by rewrite Hcfg | by rewrite Hrows]. Qed.

Lemma issue_typed c e q cr s : typed c s -> well_typed c q -> typed c (issue json_text fmt_time e q cr s).
Proof.
  intros Ht Hq. destruct (issue_frame json_text fmt_time e q cr s) as (Hr & _ & _ & Hc).
  by eapply (typed_insert c s _ (QuoteID q)).
Qed.

Lemma new_quote_typed c id now from to amount tier side (cr : ComputeResult D) :
  validateRequest (D := D) (mkRequest from to amount tier side) = None -> (0 < val (cr_Spot cr))%Q ->
  well_typed c (new_quote (U := U) id now (RateLockTTL c) from to amount tier side cr).
Proof.
  intros Hv Hs. unfold validateRequest in Hv. cbn [req_From req_To req_Amount req_UserTier req_Side] in Hv.
  repeat case_match; try done. split; cbn; try done.
  - by split; apply validateCurrency_None.
  - by apply parse_ok_iff.
  - by apply validateTier_None.
  - by apply validateSide_None.
Qed.

(** The terms of a typed row are those of an acceptable request. *)
Lemma typed_request c q : well_typed c q ->
  validateRequest (D := D) (mkRequest (From q) (To q) (Amount q) (UserTier q) (Side q)) = None.
Proof.
  intros [[H1%validateCurrency_None H2%validateCurrency_None] H3%parse_ok_iff H4%validateTier_None H5%validateSide_None _ _ _ _ _].
  unfold validateRequest. cbn [req_From req_To req_Amount req_UserTier req_Side]. by rewrite H1, H2, H3, H4, H5.
Qed.

Lemma create_typed c e req s s' res : typed c s -> validateRequest (D := D) req = None ->
  createQuote json_text fmt_time e req s = Ret (s', res) -> typed c s'.
Proof.
  intros Ht Hv Hc. destruct (create_cases _ _ _ _ _ _ _ Hc) as [(err & _ & _ & Hr & _ & _ & Hcf) | (s1 & cr & Hp & Hq)].
  - by apply (typed_rows c s).
  - cbv zeta in Hq. destruct Hq as [_ ->]. destruct (price_frame _ _ _ _ _ _ _ _ _ Hp) as (Hst & _ & _ & Hcfg & _).
    apply issue_typed; [apply (typed_rows c s); [done | done | unfold rows; by rewrite Hst] |].
    destruct Ht as [<- _]. apply new_quote_typed; [by destruct req | by eapply price_spot_positive].
Qed.

Lemma update_typed c id f s q : typed c s -> rows s !! id = Some q -> QuoteID (f q) = QuoteID q -> well_typed c (f q) ->
  typed c (set_sh (fst (update id f (sh s))) s).
Proof.
  intros Ht Hq Hid Hw. pose proof Hq as Hq'. unfold rows in Hq'. rewrite (update_known id f (sh s) q Hq'). cbn [fst].
  eapply (typed_insert c s _ id (f q)); [done | done | done | | done]. rewrite Hid. by apply Ht.
Qed.

Lemma getQuote_typed c now r id s : typed c s -> typed c (fst (getQuote fmt_time now r id s)).
Proof.
  intros Ht. unfold getQuote. destruct (GetQuote (sh_store (sh s)) id) as [q |] eqn:Hq; [| done].
  destruct (shows_expired now q) eqn:He; [| done]. apply (update_typed c id _ s q); [done | done | done |].
  apply expired_typed; [by eapply Ht |]. unfold shows_expired in He.
  apply orb_true_iff in He as [He | [He _]%andb_true_iff]; apply bool_decide_eq_true in He; auto.
Qed.

Lemma cancel_typed c td ta id old s : typed c s -> srv_inv s -> rows s !! id = Some old ->
  typed c (cancel td ta id old s).
Proof.
  intros Ht Hi Hq. destruct (cancel_inv td ta id old s Hi Hq) as (_ & _ & _ & Hr1 & _ & _ & Hc1).
  destruct (proj2 Ht id old Hq) as [Hid Hw].
  eapply (typed_insert c s _ id (set_status StatusCanceled old)); [done | done | done | done | by apply canceled_typed].
Qed.

Lemma refresh_typed c td ta e r id s s' rsp : typed c s -> srv_inv s ->
  refreshQuote json_text fmt_time td ta e r id s = Ret (s', rsp) -> typed c s'.
Proof.
  intros Ht Hi. unfold refreshQuote. destruct (GetQuote (sh_store (sh s)) id) as [old |] eqn:Hq; [| by intros [= <- <-]].
  pose proof (cancel_typed c td ta id old s Ht Hi Hq) as Ht1. destruct (proj2 Ht id old Hq) as [Hid Hw].
  intros ([s2 pr] & Hp & Hres)%outcome_bind_ret.
  destruct (price_frame _ _ _ _ _ _ _ _ _ Hp) as (Hst & _ & _ & Hcfg & _).
  assert (typed c s2) as Ht2 by (apply (typed_rows c _ _ Ht1); [done | unfold rows; by rewrite Hst]).
  destruct pr as [cr | err]; injection Hres as <- <-; [| done]. apply issue_typed; [done |].
  rewrite (proj1 Ht2). apply new_quote_typed; [by eapply typed_request | by eapply price_spot_positive].
Qed.

Lemma claim_typed c tol ct id by_ s x res : typed c s -> TrimSpace (runes by_) <> [] ->
  ClaimService_Claim tol ct id by_ (sh s) = Ret (x, res) -> typed c (set_sh x s).
Proof.
  intros Ht Hby He%Claim_effect.
  destruct He as [Hq | q reason Hq Hent | q x Hq Hent Hst _ _ | q x l Hq Hent _ -> | q x l v cur Hq Hent _ _ _ Hst _ _
                 | q x l v cur Hq Hent _ _ _ Hst _ _]; try (by apply (typed_rows c s)).
  - destruct (proj2 Ht id q Hq) as [Hid Hw].
    eapply (typed_insert c s _ id (set_status StatusExpired q)); [done | done | exact Hst | done |].
    apply expired_typed; [done |]. left. unfold claim_entry in Hent. by destruct (Store.Status q).
  - apply (typed_rows c s); [done | done | unfold rows; cbn; by rewrite Hst].
  - destruct (proj2 Ht id q Hq) as [Hid Hw].
    eapply (typed_insert c s _ id (set_claimed (ct_claimed ct) by_ q)); [done | done | exact Hst | done |].
    by apply claimed_typed.
Qed.

Lemma sweep_one_typed c now ta s q : typed c s -> rows s !! QuoteID q = Some q -> typed c (sweep_one now ta s q).
Proof.
  intros Ht Hq. destruct (sweep_one_effect now ta s q Hq) as (Hr & _ & _). destruct (proj2 Ht _ q Hq) as [Hid Hw].
  eapply (typed_insert c s _ (QuoteID q) (swept now q)); [done | | exact Hr | by unfold swept; case_match |].
  - unfold sweep_one. case_match; [| done]. cbn [cfg set_sh]. done.
  - unfold swept. destruct (overdue now q) eqn:Ho; [| done]. apply expired_typed; [done |]. left.
    unfold overdue in Ho. apply andb_true_iff in Ho as [Ho _]. by apply bool_decide_eq_true in Ho.
Qed.

#[local] Instance typed_kept c : Kept json_text fmt_time (typed c).
Proof.
  split.
  - intros s s' Ht (Hr & _ & Hc). by apply (typed_rows c s).
  - intros e req s s' res. apply create_typed.
  - intros now r id s. apply getQuote_typed.
  - intros td ta e r id s s' rsp. apply refresh_typed.
  - intros tol ct id by_ s x res. apply claim_typed.
  - intros t1 t2 from to s Ht. by apply (typed_rows c s).
  - intros td ta id old s. apply cancel_typed.
  - intros now ta s q. apply sweep_one_typed.
Qed.

Lemma NewServer_typed c e t (l : L) : typed c (NewServer c e t l).
Proof.
  unfold NewServer. destruct (ReloadIndex _ _). split; [done |].
  intros id q Hq. unfold rows in Hq. cbn in Hq. by rewrite lookup_empty in Hq.
Qed.

(** C6: the rows are well typed.  In every state the running service reaches,
    a stored quote is under its own id; its currencies, amount, tier and side
    are those the validators accept; its rate text is the rendering of the
    locked rate, its spot price is positive, its fee is in the currency paid,
    it expires one time to live after its creation; and it names a claimant
    and an instant exactly when it has been claimed, so never while it is open
    or expired. *)
Theorem service_rows_are_typed a c se t (l : L) a' :
  ap_srv a = NewServer c se t l -> (forall k, held l k = None) ->
  rtc (app_step json_parse json_first json_text fmt_time promhttp_Handler) a a' ->
  forall id q, rows (ap_srv a') !! id = Some q -> QuoteID q = id /\ well_typed c q.
Proof.
  intros Ha Hl Hr%app_steps_srv. destruct (app_start_inv _ _ _ _ _ Ha Hl) as [Hi _].
  assert (typed c (ap_srv a')) as [_ Hq]; [| exact Hq].
  eapply (srv_steps_kept json_parse json_first json_text fmt_time (typed c)); [exact Hi | | exact Hr].
  rewrite Ha. apply NewServer_typed.
Qed.

End typing.

Lemma service_rows_are_typed_witness :
  (rows (ap_srv app2) !! "q0" ≫= fun q => Some (Store.Status q, ClaimedBy q)) = Some (StatusClaimed, "tx-1") /\
  (forall q, rows (ap_srv app2) !! "q0" = Some q -> QuoteID q = "q0" /\ well_typed DefaultConfig q).
Proof.
  split; [vm_compute; reflexivity |].
  exact (service_rows_are_typed sample_parse sample_first sample_text sample_fmt (fun _ => (200%Z, ""))
    sample_app DefaultConfig sample_seed 0 NewLockStore app2 eq_refl srv0_locks
    (rtc_l _ _ _ _ app1_step (rtc_once _ _ app2_step)) "q0").
Defined.
