(* ===== verification/Process.v ===== *)
(** * Process: start-up, the serving loop, shutdown (cmd/, healthcheck.go, RunWithConfigCtx)

    [main] and the migrate command as functions from what the environment
    answers, the outcome of [flag.Parse] included, to the list of their actions,
    in order, and an exit code; the function that serves as a transition system
    with its background loops, in which requests in flight may outlive the
    return.  A
    deferred call runs when [main] returns and not when it calls [os.Exit]. *)

From stdpp Require Import relations.
From S2P Require Import Prelude GoStrings Utf8 Decimal RefDecimal Logger Config Otel Metrics Migrations Json Store Lru Spot Locks RedisLock Claim Server Ws Handshake Http Lifecycle QuoteSpec Service.

(** ** The health probe *)

(** [client.Get]: an error (refused, three seconds without an answer), or the
    status. *)
Definition RunHealthcheck (env : string -> option string) (get : string -> result Z string) : Z :=
  let port := if String.eqb (Getenv env "PORT") "" then "8080" else Getenv env "PORT" in
  match get ("http://localhost:" +:+ port +:+ "/healthz") with
  | Err _ => 1
  | Ok status => if (status =? StatusOK)%Z then 0 else 1
  end%Z.

(** ** Databases *)

Definition dbURL (env : string -> option string) : string :=
  if String.eqb (Getenv env "DB_URL") "" then Getenv env "DATABASE_URL" else Getenv env "DB_URL".

(** What [database/sql] and the driver answer, and what is in the database. *)
Record database (S : Type) := mkDatabase {
  db_open : option string;          (* the error of sql.Open *)
  db_ping : option string;          (* the error of PingContext *)
  db_oks : list bool;               (* the outcomes of the next statements *)
  db_state : db (S := S);
}.
Arguments mkDatabase {S}.
Arguments db_open {S} _.
Arguments db_ping {S} _.
Arguments db_oks {S} _.
Arguments db_state {S} _.

Section process.
Context {S : Type}.
Variable apply : string -> S -> option S.
(* the text of a failed migration, the driver's message in it *)
Variable migrate_text : migrate_error -> string.
Variable initUp initDown : string.

Definition applyMigrations (d : database S) : db (S := S) * option string :=
  match db_open d with
  | Some e => (db_state d, Some ("open db: " +:+ e))
  | None =>
      match db_ping d with
      | Some e => (db_state d, Some ("ping db: " +:+ e))
      | None =>
          let '(st, err) := Up apply (upMigrations initUp) (db_oks d) (db_state d) in
          (st, (fun e => "apply migrations: " +:+ migrate_text e) <$> err)
      end
  end.

(** ** cmd/pricing-quote *)

Inductive action :=
  | AUsage                      (* the usage text of package flag *)
  | AProbe                      (* the health probe ran *)
  | AStderr (line : string)
  | ALog (line : string)
  | AMigrate (dsn : string)
  | AServe (c : Config)         (* RunWithConfig was called, and returned *)
  | AShutdown.                  (* the deferred shutdown of otel.Init *)

(** A log call of string fields writes its line or nothing. *)
Definition logs (o : outcome (option string)) : list action :=
  match o with Ret (Some line) => [ALog line] | _ => [] end.

(** What [flag.Parse] finds in the arguments: the one flag, set or not; a
    request for help; or an argument it does not accept. *)
Inductive flags :=
  | FlagOk (healthcheck : bool)
  | FlagHelp
  | FlagBad (message : string).

(** What the process meets: its environment, its flags, the probe's answer, the
    result of [otel.Init], the database, and how serving ended. *)
Record world := mkWorld {
  w_env : string -> option string;
  w_flags : flags;
  w_get : string -> result Z string;
  w_otel : option string;
  w_db : database S;
  w_run : option string;
}.

Definition feed_configured (env : string -> option string) : bool :=
  negb (String.eqb (Getenv env "PRICE_FEED_URL") "" && String.eqb (Getenv env "ORACLE_URL") ""
        && String.eqb (Getenv env "RATE_FEED_URL") "").

Definition dev_mode (env : string -> option string) : bool := String.eqb (Getenv env "DEV_MODE") "1".

Definition em_dash : string := String (of_byte 226) (String (of_byte 128) (String (of_byte 148) "")).

Definition feed_required : string :=
  "PRICE_FEED_URL (or ORACLE_URL) required in production mode; spot rates are otherwise seeded stubs " +:+ em_dash
  +:+ " set DEV_MODE=1 for local dev".

(** The last statement of [main]. *)
Definition run_server (w : world) (c : Config) (l : logger) (d : db (S := S)) : list action * db (S := S) * Z :=
  match w_run w with
  | Some err => ([AServe c] ++ logs (Error l "server exited with error" [FErr err]), d, 1%Z)
  | None => ([AServe c; AShutdown], d, 0%Z)
  end.

(** [main] after the guard: the migrations, then serving. *)
Definition main_serve (w : world) (c : Config) (l : logger) : list action * db (S := S) * Z :=
  let dsn := dbURL (w_env w) in
  if String.eqb dsn "" then run_server w c l (db_state (w_db w))
  else
    match applyMigrations (w_db w) with
    | (d, Some err) => ([AMigrate dsn] ++ logs (Error l "startup migrations failed" [FErr err]), d, 1%Z)
    | (d, None) =>
        let '(acts, d, code) := run_server w c l d in
        ([AMigrate dsn] ++ logs (Info l "database migrations applied" []) ++ acts, d, code)
    end.

(** [main] after its flags, without the probe. *)
Definition main_start (w : world) : list action * db (S := S) * Z :=
  let env := w_env w in
  match w_otel w with
  | Some err => ([AStderr ("otel init: " +:+ err)], db_state (w_db w), 1%Z)
  | None =>
      let c := LoadConfig env in
      let l := NewLogger (LogLevel c) in
      let started := logs (Info l "starting pricing-quote" [FStr "config" (Config_String c)]) in
      if dev_mode env then
        let '(acts, d, code) := main_serve w c l in
        (started ++ logs (Info l ("DEV_MODE=1: using seeded in-memory spot rates " +:+ em_dash +:+ " NOT FOR PRODUCTION") [])
           ++ acts, d, code)
      else if feed_configured env then
        let '(acts, d, code) := main_serve w c l in (started ++ acts, d, code)
      else (started ++ logs (Error l feed_required [FStr "hint" "DEV_MODE=1 for local dev"]), db_state (w_db w), 1%Z)
  end.

(** [flag.Parse] leaves the process itself on help (0) and on a bad flag (2). *)
Definition main (w : world) : list action * db (S := S) * Z :=
  match w_flags w with
  | FlagHelp => ([AUsage], db_state (w_db w), 0%Z)
  | FlagBad message => ([AStderr message; AUsage], db_state (w_db w), 2%Z)
  | FlagOk true => ([AProbe], db_state (w_db w), RunHealthcheck (w_env w) (w_get w))
  | FlagOk false => main_start w
  end.

(** ** cmd/migrate *)

Inductive migrate_failure :=
  | MissingURL
  | OpenError (e : string)
  | UnknownDirection (d : string)
  | MigrationError (e : migrate_error).

(** [run]: the database, the line printed, the error. *)
Definition migrate_run (env : string -> option string) (direction : string) (d : database S)
  : db (S := S) * option string * option migrate_failure :=
  if String.eqb (Getenv env "DB_URL") "" then (db_state d, None, Some MissingURL)
  else
    match db_open d with
    | Some e => (db_state d, None, Some (OpenError e))
    | None =>
        if String.eqb direction "up" then
          match Up apply (upMigrations initUp) (db_oks d) (db_state d) with
          | (st, Some e) => (st, None, Some (MigrationError e))
          | (st, None) => (st, Some "migrations applied", None)
          end
        else if String.eqb direction "down" then
          match Down apply (downMigrations initDown) (db_oks d) (db_state d) with
          | (st, Some e) => (st, None, Some (MigrationError e))
          | (st, None) => (st, Some "migrations rolled back", None)
          end
        else (db_state d, None, Some (UnknownDirection direction))
    end.

(** [main]: [log.Fatalf] exits with 1; the text it writes to standard error is
    left to the failure. *)
Definition migrate_main (env : string -> option string) (direction : string) (d : database S)
  : db (S := S) * option string * option migrate_failure * Z :=
  let '(st, line, err) := migrate_run env direction d in
  (st, line, err, match err with Some _ => 1 | None => 0 end%Z).

(** The command exits with 0 exactly when it ran a migration step to its end
    and said so; after a successful "up" every embedded migration is recorded;
    without a URL, a connection or a known direction nothing is touched. *)
Theorem migrate_correct env direction d st line err code : migrate_main env direction d = (st, line, err, code) ->
  (code = 0%Z <-> err = None) /\ (err = None <-> is_Some line) /\
  (code = 0%Z -> Getenv env "DB_URL" <> "" /\ db_open d = None /\ (direction = "up" \/ direction = "down")) /\
  (code = 0%Z -> direction = "up" -> forall m, m ∈ upMigrations initUp -> mg_version m ∈ versions st) /\
  (Getenv env "DB_URL" = "" \/ is_Some (db_open d) \/ direction <> "up" /\ direction <> "down" -> st = db_state d).
Proof.
  unfold migrate_main, migrate_run, is_Some. destruct (String.eqb_spec (Getenv env "DB_URL") "") as [Hu | Hu];
    [intros [= <- <- <- <-]; naive_solver |].
  destruct (db_open d) as [e |] eqn:Ho; [intros [= <- <- <- <-]; naive_solver |].
  destruct (String.eqb_spec direction "up") as [-> | Hup].
  { destruct (Up apply (upMigrations initUp) (db_oks d) (db_state d)) as [st' [e |]] eqn:Hm; intros [= <- <- <- <-];
      [naive_solver |]. pose proof (Up_versions _ _ _ _ _ Hm). naive_solver. }
  destruct (String.eqb_spec direction "down") as [-> | Hdown]; [| intros [= <- <- <- <-]; naive_solver].
  destruct (Down apply (downMigrations initDown) (db_oks d) (db_state d)) as [st' [e |]]; intros [= <- <- <- <-]; naive_solver.
Qed.

End process.
Arguments world S : clear implicits.

(** ** What [main] guarantees *)

Section start.
Context {S : Type}.
Variable apply : string -> S -> option S.
Variable migrate_text : migrate_error -> string.
Variable initUp : string.
Implicit Types (w : world S) (c : Config).

Definition served (acts : list action) : Prop := exists c, AServe c ∈ acts.

Lemma logs_served o c : AServe c ∉ logs o.
Proof. unfold logs. repeat case_match; set_solver. Qed.

Lemma logs_shutdown o : AShutdown ∉ logs o.
Proof. unfold logs. repeat case_match; set_solver. Qed.

(** The tail of [main]: it serves exactly when the migrations that are due
    succeed. *)
Lemma main_serve_correct w c l acts d code : main_serve apply migrate_text initUp w c l = (acts, d, code) ->
  (forall c', AServe c' ∈ acts -> c' = c /\
     (dbURL (w_env w) <> "" -> forall m, m ∈ upMigrations initUp -> mg_version m ∈ versions d)) /\
  (code = 0%Z \/ code = 1%Z) /\
  (AShutdown ∈ acts <-> code = 0%Z) /\ (code = 0%Z <-> served acts /\ w_run w = None).
Proof.
  unfold main_serve, served. intros Hm.
  assert (forall d0 a d1 k, run_server w c l d0 = (a, d1, k) -> d1 = d0 /\ (forall c', AServe c' ∈ a <-> c' = c) /\
    (k = 0%Z \/ k = 1%Z) /\ (AShutdown ∈ a <-> k = 0%Z) /\ (k = 0%Z <-> w_run w = None)) as Hs.
  { intros d0 a d1 k. unfold run_server. destruct (w_run w) as [err |]; intros [= <- <- <-].
    - pose proof (logs_served (Error l "server exited with error" [FErr err])).
      pose proof (logs_shutdown (Error l "server exited with error" [FErr err])). set_solver.
    - set_solver. }
  destruct (String.eqb_spec (dbURL (w_env w)) "") as [Hd | Hd].
  - destruct (Hs _ _ _ _ Hm) as (-> & Ha & Hk & Hsh & Hk0).
    split; [intros c' Hc'; split; [by apply Ha | done] |]. split; [done |]. split; [done |].
    rewrite Hk0. split; [| tauto]. intros Hr. split; [exists c; by apply Ha | done].
  - destruct (applyMigrations apply migrate_text initUp (w_db w)) as [d1 [err |]] eqn:Happ.
    + injection Hm as <- <- <-. pose proof (logs_served (Error l "startup migrations failed" [FErr err])).
      pose proof (logs_shutdown (Error l "startup migrations failed" [FErr err])). set_solver.
    + destruct (run_server w c l d1) as [[a1 d2] k1] eqn:Hs1. destruct (Hs _ _ _ _ Hs1) as (-> & Ha & Hk & Hsh & Hk0).
      injection Hm as <- <- <-. pose proof (logs_served (Info l "database migrations applied" [])) as N1.
      pose proof (logs_shutdown (Info l "database migrations applied" [])) as N2.
      assert (forall m, m ∈ upMigrations initUp -> mg_version m ∈ versions d1) as Hv.
      { unfold applyMigrations in Happ. destruct (db_open _); [done |]. destruct (db_ping _); [done |].
        destruct (Up _ _ _ _) as [st [e |]] eqn:Hup; [done |]. injection Happ as <-. by eapply Up_versions. }
      set_solver.
Qed.

(** [main] without help and probe. *)
Lemma main_start_correct w acts d code : main_start apply migrate_text initUp w = (acts, d, code) ->
  (forall c, AServe c ∈ acts ->
     w_otel w = None /\ c = LoadConfig (w_env w) /\
     (dev_mode (w_env w) = true \/ feed_configured (w_env w) = true) /\
     (dbURL (w_env w) <> "" -> forall m, m ∈ upMigrations initUp -> mg_version m ∈ versions d)) /\
  (code = 0%Z \/ code = 1%Z) /\
  (code = 0%Z <-> served acts /\ w_run w = None) /\ (AShutdown ∈ acts <-> code = 0%Z).
Proof.
  unfold main_start. destruct (w_otel w) as [err |] eqn:Ho.
  { intros [= <- <- <-]. unfold served. set_solver. }
  set (c := LoadConfig (w_env w)). set (l := NewLogger (LogLevel c)).
  set (dev := "DEV_MODE=1: using seeded in-memory spot rates " +:+ em_dash +:+ " NOT FOR PRODUCTION").
  pose proof (logs_served (Info l "starting pricing-quote" [FStr "config" (Config_String c)])) as S1.
  pose proof (logs_shutdown (Info l "starting pricing-quote" [FStr "config" (Config_String c)])) as S2.
  pose proof (logs_served (Info l dev [])) as D1. pose proof (logs_shutdown (Info l dev [])) as D2.
  pose proof (logs_served (Error l feed_required [FStr "hint" "DEV_MODE=1 for local dev"])) as E1.
  pose proof (logs_shutdown (Error l feed_required [FStr "hint" "DEV_MODE=1 for local dev"])) as E2.
  revert S1 S2 D1 D2 E1 E2. generalize (logs (Info l "starting pricing-quote" [FStr "config" (Config_String c)])).
  generalize (logs (Info l dev [])) (logs (Error l feed_required [FStr "hint" "DEV_MODE=1 for local dev"])).
  intros dl el started S1 S2 D1 D2 E1 E2.
  assert (forall pre k, (forall c', AServe c' ∉ pre) -> AShutdown ∉ pre ->
    (dev_mode (w_env w) = true \/ feed_configured (w_env w) = true) ->
    (let '(a, d, k) := main_serve apply migrate_text initUp w c l in (pre ++ a, d, k)) = (acts, d, k) -> k = code ->
    (forall c', AServe c' ∈ acts -> None = (None : option string) /\ c' = c /\
       (dev_mode (w_env w) = true \/ feed_configured (w_env w) = true) /\
       (dbURL (w_env w) <> "" -> forall m, m ∈ upMigrations initUp -> mg_version m ∈ versions d)) /\
    (code = 0%Z \/ code = 1%Z) /\
    (code = 0%Z <-> served acts /\ w_run w = None) /\ (AShutdown ∈ acts <-> code = 0%Z)) as Hserve.
  { intros pre k N1 N2 Hg Hm ->. destruct (main_serve _ _ _ w c l) as [[a d1] k1] eqn:Hs. injection Hm as <- <- <-.
    destruct (main_serve_correct _ _ _ _ _ _ Hs) as (H1 & H2 & H3 & H4). split_and!.
    - intros c' [Hc' | Hc']%elem_of_app; [by apply N1 in Hc' | destruct (H1 c' Hc'); auto].
    - done.
    - rewrite H4. unfold served. setoid_rewrite elem_of_app.
      split; intros [[c' Hc'] Hr]; (split; [exists c' | done]); [by right | destruct Hc' as [Hc' |]; [by apply N1 in Hc' | done]].
    - rewrite elem_of_app. tauto. }
  destruct (dev_mode (w_env w)) eqn:Hdev.
  - intros Hm. apply (Hserve (started ++ dl) code);
      [intros c' [? | ?]%elem_of_app; first [by eapply S1 | by eapply D1] | intros [? | ?]%elem_of_app; done | auto | | done].
    destruct (main_serve _ _ _ w c l) as [[a d1] k1]. by rewrite <- app_assoc.
  - destruct (feed_configured (w_env w)) eqn:Hf.
    + intros Hm. by apply (Hserve started code); auto.
    + intros [= <- <- <-]. assert (forall c', AServe c' ∉ started ++ el) as Hno.
      { intros c' [? | ?]%elem_of_app; first [by eapply S1 | by eapply E1]. }
      split; [intros c' Hc'; by apply Hno in Hc' |]. split; [auto |].
      split; split; [done | intros [[c' Hc'] _]; by apply Hno in Hc' | intros [? | ?]%elem_of_app; done | done].
Qed.

(** C15: the process starts safely.  Serving begins only when the flags were
    accepted and asked for no probe, telemetry started, the configuration is
    the one loaded from the environment, a feed is configured or development
    mode is on, and every migration is recorded in the database whose URL is
    set, if any.  The exit code is 0 or 1, or the 2 of a bad flag; without help
    and without the probe it is 0 exactly when serving ended without an error,
    which is also exactly when the telemetry shutdown runs: every failure
    leaves by [os.Exit], which skips it. *)
Theorem main_correct w acts d code : main apply migrate_text initUp w = (acts, d, code) ->
  (forall c, AServe c ∈ acts ->
     w_flags w = FlagOk false /\ w_otel w = None /\ c = LoadConfig (w_env w) /\
     (dev_mode (w_env w) = true \/ feed_configured (w_env w) = true) /\
     (dbURL (w_env w) <> "" -> forall m, m ∈ upMigrations initUp -> mg_version m ∈ versions d)) /\
  (code = 0%Z \/ code = 1%Z \/ code = 2%Z) /\
  (code = 2%Z <-> exists message, w_flags w = FlagBad message) /\
  (w_flags w = FlagOk false ->
     (code = 0%Z <-> served acts /\ w_run w = None) /\ (AShutdown ∈ acts <-> code = 0%Z)).
Proof.
  unfold main. destruct (w_flags w) as [[] | | message] eqn:Hh.
  - intros [= <- <- <-]. split; [set_solver |]. unfold RunHealthcheck.
    split; [repeat case_match; auto |]. split; [| done]. split; [repeat case_match; done | by intros [? [=]]].
  - intros Hm. destruct (main_start_correct w acts d code Hm) as (H1 & H2 & H3). split; [| split; [tauto |]].
    + intros c Hc. split; [done | by apply H1].
    + split; [| done]. split; [intros ->; destruct H2; done | by intros [? [=]]].
  - intros [= <- <- <-]. split; [set_solver |]. split; [auto |]. split; [| done]. split; [done | by intros [? [=]]].
  - intros [= <- <- <-]. split; [set_solver |]. split; [auto |]. split; [| done]. split; [by exists message | done].
Qed.

End start.

Definition sample_world (env : string -> option string) : world (list string) :=
  mkWorld env (FlagOk false) (fun _ => Err "refused") None (mkDatabase None None [] (mkDb ∅ [])) (Some "bind: address in use").

Definition deploy_env (k : string) : option string :=
  if String.eqb k "RATE_FEED_URL" then Some "nats://feed" else if String.eqb k "DB_URL" then Some "postgres://db" else None.

Definition sample_apply (script : string) (s : list string) : option (list string) := Some (s ++ [script]).

Lemma main_correct_witness :
  let '(acts, d, code) := main sample_apply (fun _ => "") "CREATE" (sample_world deploy_env) in
  AServe (LoadConfig deploy_env) ∈ acts /\ code = 1%Z /\
  (forall m, m ∈ upMigrations "CREATE" -> mg_version m ∈ versions d) /\ AShutdown ∉ acts.
Proof.
  destruct (main sample_apply (fun _ => "") "CREATE" (sample_world deploy_env)) as [[acts d] code] eqn:Hm.
  destruct (main_correct sample_apply (fun _ => "") "CREATE" (sample_world deploy_env) acts d code Hm) as (H1 & _ & _ & H3).
  assert (AServe (LoadConfig deploy_env) ∈ acts) as Hin.
  { vm_compute in Hm. injection Hm as <- _ _. vm_compute. right. right. right. left. }
  assert (code = 1%Z) as Hc by (vm_compute in Hm; by injection Hm as _ _ <-).
  destruct (H1 _ Hin) as (_ & _ & _ & _ & Hv). destruct (H3 eq_refl) as [_ Hsh].
  split; [exact Hin |]. split; [exact Hc |]. split; [apply Hv; intros Hd; discriminate Hd |].
  rewrite Hsh, Hc. intros Hz. discriminate Hz.
Defined.

(** ** RunWithConfigCtx *)

(** A background goroutine: it selects between its ticker and its stop channel;
    with both ready the choice is arbitrary, so one that was asked to stop may
    still take a tick. *)
Inductive loop := Ticking | StopAsked | LoopEnded.

Definition stop (l : loop) : loop := match l with Ticking => StopAsked | _ => l end.

Inductive run_phase := Serving | Draining | Returned (err : option string).

(** [closeLockBackend]: only the Redis backend has a [Close] method. *)
Definition closeLockBackend {R} (b : LockStore + redisLockBackend R) : bool :=
  match b with inl _ => false | inr _ => true end.

Section running.
Context {U D L : Type} `{Countable U} {uu : UuidOps U} {ul : UuidLaws U} {ops : DecimalOps D}
  {laws : DecimalLaws D} {lb : LockBackend L} {ll : LockLaws L}.
Variable json_parse : string -> option json.
Variable json_first : list read_result -> option json.
Variable json_text : json -> string.
Variable fmt_time : time -> string.
Variable promhttp_Handler : request -> Z * string.

Record running := mkRunning {
  rn_app : App U D L;
  rn_phase : run_phase;
  rn_closes : nat;               (* calls of closeLockBackend *)
  rn_sweeper : loop;
  rn_refresher : loop;
}.

(** Start-up: the locks replace those of [NewServer], the loops are started. *)
Definition RunWithConfigCtx_start (c : Config) (se : seed_env U) (t : time) (locks : L) (m : httpMetrics) (ws : wsMetrics)
  : running :=
  mkRunning (mkApp (NewServer c se t locks) newWSHub ws m) Serving 0 Ticking Ticking.

(** [RunWithConfig]: a context that is never canceled. *)
Definition RunWithConfig_cancellable : bool := false.

(** [newMux]: the default configuration on in-memory locks. *)
Definition newMux (se : seed_env U) (t : time) : Server U D LockStore := NewServer DefaultConfig se t NewLockStore.

(** The lock backend of the application. *)
Definition rn_locks (st : running) : L := sh_locks (sh (ap_srv (rn_app st))).

Definition with_locks (l' : L) (a : App U D L) : App U D L :=
  set_srv (set_sh (set_locks l' (sh (ap_srv a))) (ap_srv a)) a.

(** Locks may vanish, never appear by themselves. *)
Definition shrinks (l l' : L) : Prop := forall k, held l' k = None \/ held l' k = held l k.

(** Leaving the select: the backend is closed, which leaves it in the state
    [l'], and the deferred stops run. *)
Definition return_with (err : option string) (l' : L) (st : running) : running :=
  mkRunning (with_locks l' (rn_app st)) (Returned err) (S (rn_closes st)) (stop (rn_sweeper st)) (stop (rn_refresher st)).

Definition with_app (a : App U D L) (st : running) : running :=
  mkRunning a (rn_phase st) (rn_closes st) (rn_sweeper st) (rn_refresher st).

(** [cancellable] says whether the context can be canceled.  A request in
    flight is still served while the server drains, and after the function has
    returned, on the closed backend, when it outlives the five seconds of
    [Shutdown] or the listener failed. *)
Inductive run_step (cancellable : bool) (st : running) : running -> Prop :=
  | run_request e q a' rp :
      fresh_all (ap_srv (rn_app st)) (en_quotes e) -> fresh (ap_srv (rn_app st)) (en_refresh e) ->
      iteration_of (en_rows e) (rows (ap_srv (rn_app st))) ->
      serve json_parse json_first json_text fmt_time promhttp_Handler e q (rn_app st) = Ret (a', rp) ->
      run_step cancellable st (with_app a' st)
  | run_aborted e q why :
      fresh_all (ap_srv (rn_app st)) (en_quotes e) -> fresh (ap_srv (rn_app st)) (en_refresh e) ->
      with_request_id json_parse json_first json_text fmt_time promhttp_Handler
        (statusRecorder_writer (en_writer e)) e q (rn_app st) = Panic why ->
      run_step cancellable st (with_app (serve_left json_parse json_text fmt_time e q (rn_app st)) st)
  | run_locks l' :
      shrinks (rn_locks st) l' -> run_step cancellable st (with_app (with_locks l' (rn_app st)) st)
  | run_sweep now ta ord :
      rn_sweeper st <> LoopEnded -> iteration_of ord (rows (ap_srv (rn_app st))) ->
      run_step cancellable st (with_app (set_srv (sweepExpired now ta ord (ap_srv (rn_app st))) (rn_app st)) st)
  | run_refresh se :
      rn_refresher st <> LoopEnded ->
      run_step cancellable st (with_app (set_srv (refreshFeeSchedules se (ap_srv (rn_app st))) (rn_app st)) st)
  | run_cancel :
      cancellable = true -> rn_phase st = Serving ->
      run_step cancellable st (mkRunning (rn_app st) Draining (rn_closes st) (rn_sweeper st) (rn_refresher st))
  | run_drained l' :
      rn_phase st = Draining -> shrinks (rn_locks st) l' -> run_step cancellable st (return_with None l' st)
  | run_listener err l' :       (* ListenAndServe always returns an error *)
      rn_phase st = Serving -> shrinks (rn_locks st) l' -> run_step cancellable st (return_with (Some err) l' st)
  | run_sweeper_ends :
      rn_sweeper st = StopAsked ->
      run_step cancellable st (mkRunning (rn_app st) (rn_phase st) (rn_closes st) LoopEnded (rn_refresher st))
  | run_refresher_ends :
      rn_refresher st = StopAsked ->
      run_step cancellable st (mkRunning (rn_app st) (rn_phase st) (rn_closes st) (rn_sweeper st) LoopEnded).

(** While it serves, nothing is stopped; once it has returned, the backend was
    closed once and the loops were told. *)
Definition run_inv (cancellable : bool) (a0 : App U D L) (st : running) : Prop :=
  rtc (app_step json_parse json_first json_text fmt_time promhttp_Handler) a0 (rn_app st) /\
  match rn_phase st with
  | Returned err =>
      rn_closes st = 1%nat /\ rn_sweeper st <> Ticking /\ rn_refresher st <> Ticking /\
      (cancellable = false -> is_Some err)
  | Draining => rn_closes st = 0%nat /\ rn_sweeper st = Ticking /\ rn_refresher st = Ticking /\ cancellable = true
  | Serving => rn_closes st = 0%nat /\ rn_sweeper st = Ticking /\ rn_refresher st = Ticking
  end.

Lemma run_step_inv cancellable a0 st st' :
  run_inv cancellable a0 st -> run_step cancellable st st' -> run_inv cancellable a0 st'.
Proof.
  intros [Ha Hp] Hs. unfold run_inv.
  destruct Hs as [e q a' rp Hf Hf' Hord Hserve | e q why Hf Hf' Hp' | l' Hl' | now ta ord Hl Hord | se Hl | Hc Hph
                  | l' Hph Hl' | err l' Hph Hl' | Hl | Hl];
    cbn [rn_app rn_phase rn_closes rn_sweeper rn_refresher with_app return_with].
  - split; [| done]. eapply rtc_r; [exact Ha | by eapply app_request].
  - split; [| done]. eapply rtc_r; [exact Ha | by eapply app_aborted].
  - split; [| done]. eapply rtc_r; [exact Ha | by apply app_locks].
  - split; [| done]. eapply rtc_r; [exact Ha | by apply app_sweep].
  - split; [| done]. eapply rtc_r; [exact Ha | by apply app_refresh].
  - split; [done |]. rewrite Hph in Hp. tauto.
  - split; [eapply rtc_r; [exact Ha | by apply app_locks] |].
    rewrite Hph in Hp. destruct Hp as (-> & -> & -> & ->). done.
  - split; [eapply rtc_r; [exact Ha | by apply app_locks] |].
    rewrite Hph in Hp. destruct Hp as (-> & -> & ->). done.
  - split; [done |]. destruct (rn_phase st); rewrite Hl in Hp; naive_solver.
  - split; [done |]. destruct (rn_phase st); rewrite Hl in Hp; naive_solver.
Qed.

(** What a returned process still has to do: end its loops. *)
Definition loops_left (st : running) : nat :=
  (match rn_sweeper st with LoopEnded => 0 | _ => 1 end + match rn_refresher st with LoopEnded => 0 | _ => 1 end)%nat.

(** C16: serving and stopping.  From start-up, in every state the process
    reaches: the application went through steps of the service only, also those
    of requests that outlive the function; the lock backend is closed exactly
    once, when the function returns, and never before; the sweeper and the
    refresher run until then, are told to stop then, and can end, after which
    neither is left running.  Called with a
    context that is never canceled, as [RunWithConfig] does, the function
    returns nothing but an error. *)
Theorem run_lifecycle cancellable c se t (l : L) m ws st :
  rtc (run_step cancellable) (RunWithConfigCtx_start c se t l m ws) st ->
  rtc (app_step json_parse json_first json_text fmt_time promhttp_Handler)
    (rn_app (RunWithConfigCtx_start c se t l m ws)) (rn_app st) /\
  match rn_phase st with
  | Returned err =>
      rn_closes st = 1%nat /\ (cancellable = false -> is_Some err) /\
      exists st', rtc (run_step cancellable) st st' /\ loops_left st' = 0%nat /\ rn_app st' = rn_app st
  | _ => rn_closes st = 0%nat /\ rn_sweeper st = Ticking /\ rn_refresher st = Ticking /\
         (cancellable = false -> rn_phase st = Serving)
  end.
Proof.
  set (st0 := RunWithConfigCtx_start c se t l m ws). intros Hr.
  assert (run_inv cancellable (rn_app st0) st) as [Ha Hp].
  { assert (run_inv cancellable (rn_app st0) st0) as H0 by (split; [constructor | done]).
    clear -Hr H0. revert H0. generalize (rn_app st0). intros a0. induction Hr as [| x y z Hs Hr IH]; [done |].
    intros Hx. apply IH. by eapply run_step_inv. }
  split; [done |]. destruct (rn_phase st) as [| | err] eqn:Hph; [tauto | naive_solver |].
  destruct Hp as (Hc & Hs & Hf & He). split; [done |]. split; [done |].
  assert (exists st1, rtc (run_step cancellable) st st1 /\ rn_sweeper st1 = LoopEnded /\
    rn_refresher st1 = rn_refresher st /\ rn_app st1 = rn_app st) as (st1 & R1 & S1 & F1 & A1).
  { destruct (rn_sweeper st) eqn:Hsw; [done | | by exists st].
    eexists. split; [by apply rtc_once, run_sweeper_ends |]. done. }
  destruct (rn_refresher st) eqn:Hrf; [done | |].
  - eexists. split; [eapply rtc_r; [exact R1 | by apply run_refresher_ends] |].
    unfold loops_left. cbn. by rewrite S1.
  - exists st1. unfold loops_left. by rewrite S1, F1.
Qed.

(** A running process is healthy.  Whatever its state (cold cache, lock
    store unreachable, quotes pending), the running service answers the probe
    with 200, and the probe that gets this answer exits with 0; any other
    answer, or none, makes it exit with 1. *)
Theorem probe_succeeds env e (a : App U D L) rid :
  let q := mkHttpRequest (mkHttp "GET" "/healthz" rid "" []) "" "" "" in
  (exists a' rp, serve json_parse json_first json_text fmt_time promhttp_Handler e q a = Ret (a', rp) /\
     ap_srv a' = ap_srv a /\ RunHealthcheck env (fun _ => Ok (rp_status rp)) = 0%Z) /\
  (forall get, RunHealthcheck env get = 0%Z \/ RunHealthcheck env get = 1%Z) /\
  (forall get, RunHealthcheck env get = 0%Z -> exists url, get url = Ok StatusOK).
Proof.
  cbv zeta. split_and!.
  - unfold serve, with_request_id, mux_ServeHTTP. cbn [hq_request with_request requestIDMiddleware hr_Method hr_Path].
    assert (mux "GET" "/healthz" = MuxRoute RHealthz) as -> by (vm_compute; reflexivity).
    cbn [handle mret outcome_ret mbind outcome_bind rp_body json_reply healthz rsp_status rsp_body].
    unfold metricsMiddleware. change (itoa (statusRecorder [200%Z])) with (@Ret string "200").
    cbn [mbind outcome_bind].
    eexists _, _. split; [reflexivity |]. split; [reflexivity |]. cbn [rp_status]. reflexivity.
  - intros get. unfold RunHealthcheck. repeat case_match; auto.
  - intros get. unfold RunHealthcheck.
    destruct (get _) as [status | err] eqn:Hg; [| done]. destruct (Z.eqb_spec status StatusOK) as [-> |]; [eauto | done].
Qed.

End running.

Definition sample_start : running (U := string) (D := refdec) (L := LockStore) :=
  RunWithConfigCtx_start DefaultConfig sample_seed 0 NewLockStore newHttpMetrics (mkWsMetrics 0 0 0).

Abbreviation sample_run_step := (run_step sample_parse sample_first sample_text sample_fmt (fun _ => (200%Z, ""))).

Lemma run_lifecycle_witness :
  let st := return_with (Some "bind: address in use") NewLockStore sample_start in
  rn_closes st = 1%nat /\ exists st', rtc (sample_run_step false) st st' /\ loops_left st' = 0%nat /\ rn_app st' = rn_app st.
Proof.
  intros st.
  assert (rtc (sample_run_step false) sample_start st) as Hr by (by apply rtc_once, run_listener; [| intros k; right]).
  destruct (run_lifecycle sample_parse sample_first sample_text sample_fmt (fun _ => (200%Z, "")) false
    DefaultConfig sample_seed 0 NewLockStore newHttpMetrics (mkWsMetrics 0 0 0) st Hr) as [_ Hp].
  destruct Hp as (Hc & _ & He). split; [exact Hc | exact He].
Defined.
