(* ===== verification/Concurrent.v ===== *)
(** * Concurrent: requests interleaved at their accesses to shared state

    The handlers run on goroutines of their own and share the store, the lock
    backend, the spot service and the audit log, each behind its own mutex.  A
    [thread] is a handler between two such accesses; one step is one access
    (with the local computation that follows it), so that any schedule of the
    program is a sequence of steps of any of the threads.  Reading the clock for
    the creation time is a step of its own ([TCreate]): time passes between
    pricing and saving.  A pricing, which takes the mutexes of the spot service
    and of the fee index in turn but touches neither rows nor locks, is one
    step, and the fee index is not reloaded meanwhile.  The code between
    accesses is that of Claim.v
    and Server.v. *)

From S2P Require Import Prelude GoStrings Decimal RefDecimal Errors Json Store FeeIndex Lru Spot Pricer Config AuditTrail Locks Claim Server.

Section threads.
Context {U D L : Type} `{Countable U} {uu : UuidOps U} {ops : DecimalOps D} {lb : LockBackend L}.
Variable json_text : json -> string.
Variable fmt_time : time -> string.
Variable c : Config.
Variable p : Pricer U D.
Implicit Types (q : Quote U D) (id : U) (x : shared U D L).

Inductive thread :=
  (* createQuote, after validation: the id drawn and the request *)
  | TPrice id (from to amount tier side : string)
  | TCreate id (from to amount tier side : string) (res : ComputeResult D)
  | TSave q (payload : string)
  | TLock q (payload : string)
  | TIssued q
  (* ClaimService.Claim *)
  | TClaim id (by_ : string)
  | TClaimExpire id q
  | TClaimExpired id q
  | TClaimLock id (by_ : string) q
  | TClaimSpot id (by_ : string) q
  | TClaimReject id q
  | TClaimUpdate id (by_ : string) q
  | TClaimAudit id q (row : Quote U D)
  | TClaimDone id (res : ClaimResult U D)
  (* getQuote *)
  | TGet id
  | TGetExpire id
  (* refreshQuote: the old id and the id drawn for the new quote *)
  | TRefresh id (new : U)
  | TRefreshCancel id (new : U) (old : Quote U D)
  | TRefreshDel id (new : U) (old : Quote U D)
  | TRefreshAudit id (new : U) (old : Quote U D)
  (* sweepExpired *)
  | TSweep (ord : list U)
  | TSweepRows (now : time) (qs : list (Quote U D))
  | TSweepAudit (now : time) q (qs : list (Quote U D))
  (* returned *)
  | TDone.

(** The next row of the sweep's listing to update, if any. *)
Fixpoint sweep_next (now : time) (qs : list (Quote U D)) : option (Quote U D * list (Quote U D)) :=
  match qs with
  | [] => None
  | q :: qs' =>
      if bool_decide (Store.Status q = StatusOpen) && time_After now (ExpiresAt q) then Some (q, qs')
      else sweep_next now qs'
  end.

(** One access to shared state; [t1] and [t2] are the readings of the clock it
    makes. *)
Definition tstep (t1 t2 : time) (t : thread) x : outcome (thread * shared U D L) :=
  match t with
  | TPrice id from to amount tier side =>
      '(sp, out) ← Compute p (sh_store x) (sh_spot x) t1 t2 from to (fst (parseAmount amount)) tier side;
      let x := set_spot sp x in
      mret (match out with
            | Err _ => (TDone, x)
            | Ok cr => (TCreate id from to amount tier side cr, x)
            end)
  | TCreate id from to amount tier side cr =>
      let q := new_quote id t1 (RateLockTTL c) from to amount tier side cr in
      mret (TSave q (lockPayload json_text fmt_time q cr), x)
  | TSave q payload => mret (TLock q payload, set_store (SaveQuote (sh_store x) q) x)
  | TLock q payload =>
      mret (TIssued q,
            set_locks (fst (lb_SetNX t1 t2 (lockKey (QuoteID q)) payload (RateLockTTL c) (sh_locks x))) x)
  | TIssued q => mret (TDone, append t1 (quote_event "quote.issued" (QuoteID q) q "") x)
  | TClaim id by_ =>
      mret (match GetQuote (sh_store x) id with
            | None => (TClaimDone id (mkClaimResult None "missing" false), x)
            | Some q =>
                match claim_entry t1 q with
                | EnterReject reason => (TClaimDone id (mkClaimResult (Some q) reason false), x)
                | EnterExpire => (TClaimExpire id q, x)
                | EnterLock => (TClaimLock id by_ q, x)
                end
            end)
  | TClaimExpire id q => mret (TClaimExpired id q, fst (update id (set_status StatusExpired) x))
  | TClaimExpired id q =>
      mret (TClaimDone id (mkClaimResult (Some (set_status StatusExpired q)) "EXPIRED" false),
            append t1 (quote_event "quote.expired" id q "") x)
  | TClaimLock id by_ q =>
      let '(l, v) := lb_Claim t1 (lockKey id) (sh_locks x) in
      mret (match v with
            | None => TClaimDone id (mkClaimResult (Some q) "already_claimed" false)
            | Some _ => TClaimSpot id by_ q
            end, set_locks l x)
  | TClaimSpot id by_ q =>
      let '(sp, cur) := Get0 t1 t2 (From q) (To q) (sh_spot x) in
      slipped ← slippage_exceeded (SlippageToleranceBPS c) q cur;
      mret (if (slipped : bool) then TClaimReject id q else TClaimUpdate id by_ q, set_spot sp x)
  | TClaimReject id q =>
      mret (TClaimDone id (mkClaimResult (Some q) "slippage_exceeded" false),
            append t1 (quote_event "quote.slippage_rejected" id q "slippage_exceeded") x)
  | TClaimUpdate id by_ q =>
      let '(x, updated) := update id (set_claimed t1 by_) x in
      mret (match updated with
            | None => TClaimDone id (mkClaimResult (Some q) "missing" false)
            | Some row => TClaimAudit id q row
            end, x)
  | TClaimAudit id q row =>
      mret (TClaimDone id (mkClaimResult (Some row) "" false), append t1 (quote_event "quote.claimed" id q "") x)
  | TClaimDone id res => mret (TClaimDone id res, x)
  | TGet id =>
      mret (match GetQuote (sh_store x) id with
            | Some q => if shows_expired t1 q then TGetExpire id else TDone
            | None => TDone
            end, x)
  | TGetExpire id => mret (TDone, fst (update id (set_status StatusExpired) x))
  | TRefresh id new =>
      mret (match GetQuote (sh_store x) id with Some old => TRefreshCancel id new old | None => TDone end, x)
  | TRefreshCancel id new old => mret (TRefreshDel id new old, fst (update id (set_status StatusCanceled) x))
  | TRefreshDel id new old =>
      mret (TRefreshAudit id new old, set_locks (fst (lb_Del t1 (lockKey id) (sh_locks x))) x)
  | TRefreshAudit id new old =>
      mret (TPrice new (From old) (To old) (Amount old) (UserTier old) (Side old),
            append t1 (quote_event "quote.refreshed" id old "") x)
  | TSweep ord => mret (TSweepRows t1 (ListQuotes (sh_store x) ord), x)
  | TSweepRows now qs =>
      mret (match sweep_next now qs with
            | None => (TDone, x)
            | Some (q, qs') => (TSweepAudit now q qs', fst (update (QuoteID q) (set_status StatusExpired) x))
            end)
  | TSweepAudit now q qs =>
      mret (TSweepRows now qs, append t1 (quote_event "quote.expired" (QuoteID q) q "") x)
  | TDone => mret (TDone, x)
  end.

Context {ul : UuidLaws U} {ll : LockLaws L}.

(** A configuration; one step of one of its threads, or the lock backend
    dropping keys on its own (expiry timers, eviction). *)
Definition config : Type := list thread * shared U D L.

Inductive cstep : config -> config -> Prop :=
  | cstep_intro ts x i t t' x' t1 t2 :
      ts !! i = Some t -> tstep t1 t2 t x = Ret (t', x') -> cstep (ts, x) (<[i := t']> ts, x')
  | cstep_expiry ts x l' :
      (forall k, held l' k = None \/ held l' k = held (sh_locks x) k) -> cstep (ts, x) (ts, set_locks l' x).

(** The same, executed: a schedule names the thread and the clock. *)
Fixpoint run_schedule (sch : list (nat * time)) (cf : config) : option config :=
  match sch with
  | [] => Some cf
  | (i, t) :: sch' =>
      '(ts, x) ← Some cf;
      th ← ts !! i;
      match tstep t t th x with
      | Ret (th', x') => run_schedule sch' (<[i := th']> ts, x')
      | Panic _ => None
      end
  end.

Lemma run_schedule_steps sch : forall cf cf', run_schedule sch cf = Some cf' -> rtc cstep cf cf'.
Proof.
  induction sch as [| [i t] sch IH]; intros [ts x] cf'; cbn [run_schedule].
  { intros [= <-]. done. }
  cbn. destruct (ts !! i) as [th |] eqn:Hi; [| done]. simpl.
  destruct (tstep t t th x) as [[th' x'] | w] eqn:Ht; [| done]. intros Hr.
  eapply rtc_l; [by eapply cstep_intro | by apply IH].
Qed.

(** A thread that has not begun: the requests and the sweep. *)
Definition starting (t : thread) : bool :=
  match t with TPrice _ _ _ _ _ _ | TClaim _ _ | TGet _ | TRefresh _ _ | TSweep _ => true | _ => false end.

(** The id a starting thread will give to a new quote. *)
Definition drawn (t : thread) : option U :=
  match t with TPrice id _ _ _ _ _ => Some id | TRefresh _ new => Some new | _ => None end.

(** A claim that returned success. *)
Definition won id (t : thread) : bool :=
  match t with
  | TClaimDone id' res => bool_decide (id' = id) && String.eqb (res_Reason res) ""
  | _ => false
  end.

(** ** The right to claim a quote is never duplicated *)

Definition b2n (b : bool) : nat := if b then 1 else 0.

(** Who holds the right to claim [id]: the thread that will set its lock, the
    lock, the claim that took the lock, the claim that succeeded. *)
Definition right_of id (t : thread) : nat :=
  match t with
  | TPrice i _ _ _ _ _ | TCreate i _ _ _ _ _ _ | TRefresh _ i | TRefreshCancel _ i _ | TRefreshDel _ i _
  | TRefreshAudit _ i _
  | TClaimSpot i _ _ | TClaimUpdate i _ _ | TClaimAudit i _ _ => b2n (bool_decide (i = id))
  | TSave q _ | TLock q _ => b2n (bool_decide (QuoteID q = id))
  | TClaimDone i res => b2n (bool_decide (i = id) && String.eqb (res_Reason res) "")
  | _ => 0
  end.

Definition lock_right id x : nat := b2n (bool_decide (is_Some (held (sh_locks x) (lockKey id)))).

Lemma lock_right_mono id x x' :
  held (sh_locks x') (lockKey id) = None \/ held (sh_locks x') (lockKey id) = held (sh_locks x) (lockKey id) ->
  (lock_right id x' <= lock_right id x)%nat.
Proof.
  unfold lock_right. intros [-> | ->]; [| done]. rewrite bool_decide_false; [simpl; lia | by intros [? ?]].
Qed.

Lemma sh_locks_update id f x : sh_locks (fst (update id f x)) = sh_locks x.
Proof. unfold update, UpdateQuote. by destruct (quotes _ !! _). Qed.

Lemma sh_locks_append t (e : AuditEvent U) x : sh_locks (append t e x) = sh_locks x.
Proof. done. Qed.

(** One step of a thread neither creates nor duplicates the right. *)
Lemma tstep_right t1 t2 t x t' x' id :
  tstep t1 t2 t x = Ret (t', x') -> (right_of id t' + lock_right id x' <= right_of id t + lock_right id x)%nat.
Proof.
  assert (forall y, sh_locks y = sh_locks x -> lock_right id y = lock_right id x) as Hsame
    by (intros y Hy; unfold lock_right; by rewrite Hy).
  destruct t; cbn [tstep].
  - intros ([sp out] & _ & [= Heq])%outcome_bind_ret. destruct out; injection Heq as <- <-;
      rewrite Hsame by done; simpl; lia.
  - intros [= <- <-]. simpl. lia.
  - intros [= <- <-]. by rewrite Hsame.
  - intros [= <- <-]. destruct (lb_SetNX _ _ _ _ _ _) as [l b] eqn:Hset.
    destruct (SetNX_held _ _ _ _ _ _ _ _ Hset) as [Ho Hk]. cbn [fst]. unfold right_of at 1.
    destruct (decide (QuoteID q = id)) as [Hid | Hid].
    + simpl. rewrite bool_decide_true by done. unfold lock_right at 1. destruct (bool_decide _); simpl; lia.
    + assert (lock_right id (set_locks l x) <= lock_right id x)%nat; [| lia]. apply lock_right_mono.
      cbn [sh_locks set_locks]. apply Ho. by intros Hkey%(inj lockKey).
  - intros [= <- <-]. rewrite Hsame by done. simpl. lia.
  - intros [= Heq]. destruct (GetQuote _ _) as [q |]; [destruct (claim_entry t1 q) eqn:He |];
      injection Heq as <- <-; simpl; try lia.
    + assert (reason <> "") as Hne by (unfold claim_entry in He; repeat case_match; congruence).
      apply String.eqb_neq in Hne. rewrite Hne, andb_false_r. simpl. lia.
    + rewrite andb_false_r. simpl. lia.
  - intros [= <- <-]. rewrite Hsame by apply sh_locks_update. simpl. lia.
  - intros [= <- <-]. rewrite Hsame by done. simpl. rewrite andb_false_r. simpl. lia.
  - destruct (lb_Claim _ _ _) as [l v] eqn:Hc. intros [= <- <-]. destruct (Claim_held _ _ _ _ _ Hc) as [Hk Hv].
    assert (lock_right id (set_locks l x) <= lock_right id x)%nat as Hm by (apply lock_right_mono, Hk).
    destruct v as [v |]; [| simpl in *; rewrite andb_false_r; simpl; lia].
    destruct (Hv v eq_refl) as [Hheld Hgone]. unfold right_of. case_bool_decide as Hid; [subst | simpl; lia].
    unfold lock_right. cbn [sh_locks set_locks]. rewrite Hheld, Hgone. simpl. lia.
  - destruct (Get0 _ _ _ _ _) as [sp cur]. intros ([|] & _ & [= <- <-])%outcome_bind_ret;
      rewrite Hsame by done; simpl; lia.
  - intros [= <- <-]. rewrite Hsame by done. simpl. rewrite andb_false_r. simpl. lia.
  - destruct (update _ _ x) as [y r] eqn:Hu. intros [= <- <-].
    assert (sh_locks y = sh_locks x) as Hl by (rewrite <- (sh_locks_update id0 (set_claimed t1 by_) x); by rewrite Hu).
    rewrite (Hsame y Hl). destruct r; simpl; [lia |]. rewrite andb_false_r. simpl. lia.
  - intros [= <- <-]. rewrite Hsame by done. simpl. rewrite andb_true_r. lia.
  - intros [= <- <-]. lia.
  - intros [= <- <-]. repeat case_match; simpl; lia.
  - intros [= <- <-]. rewrite Hsame by apply sh_locks_update. simpl. lia.
  - intros [= <- <-]. case_match; simpl; lia.
  - intros [= <- <-]. rewrite Hsame by apply sh_locks_update. simpl. lia.
  - intros [= <- <-]. destruct (lb_Del _ _ _) as [l b] eqn:Hd. destruct (Del_held _ _ _ _ _ Hd) as [Hk _].
    assert (lock_right id (set_locks l x) <= lock_right id x)%nat as Hm by (apply lock_right_mono, Hk).
    cbn [fst]. simpl in *. lia.
  - intros [= <- <-]. rewrite Hsame by done. simpl. lia.
  - intros [= <- <-]. simpl. lia.
  - intros [= Heq]. destruct (sweep_next now qs) as [[q qs'] |]; injection Heq as <- <-; simpl;
      [rewrite Hsame by apply sh_locks_update |]; lia.
  - intros [= <- <-]. rewrite Hsame by done. simpl. lia.
  - intros [= <- <-]. lia.
Qed.

Definition total_right id (cf : config) : nat :=
  (sum_list_with (right_of id) (fst cf) + lock_right id (snd cf))%nat.

Lemma sum_list_insert {A} (f : A -> nat) (l : list A) i a b :
  l !! i = Some a -> (sum_list_with f (<[i := b]> l) + f a = sum_list_with f l + f b)%nat.
Proof.
  revert i. induction l as [| y l IH]; intros [| i] Hi; simplify_eq/=; [lia |]. specialize (IH i Hi). lia.
Qed.

Lemma steps_right id cf cf' : rtc cstep cf cf' -> (total_right id cf' <= total_right id cf)%nat.
Proof.
  induction 1 as [cf | cf1 cf2 cf3 Hs _ IH]; [done |].
  destruct Hs as [ts x i t t' x' t1 t2 Hi Ht | ts x l' Hl].
  2:{ pose proof (lock_right_mono id x (set_locks l' x) (Hl (lockKey id))). unfold total_right in *. simpl in *. lia. }
  pose proof (tstep_right _ _ _ _ _ _ id Ht) as Hr.
  pose proof (sum_list_insert (right_of id) ts i t t' Hi) as Hsum. unfold total_right in *. simpl in *. lia.
Qed.

(** The winners are among the holders. *)
Lemma won_right id ts : (length (List.filter (won id) ts) <= sum_list_with (right_of id) ts)%nat.
Proof.
  induction ts as [| t ts IH]; [done |]. simpl. destruct (won id t) eqn:Hw; simpl; [| lia].
  assert (right_of id t = 1%nat) as ->; [| lia]. destruct t; try done. simpl in *. by rewrite Hw.
Qed.

Lemma starting_right id ts : forallb starting ts = true -> NoDup (omap drawn ts) ->
  (sum_list_with (right_of id) ts <= 1)%nat /\
  (id ∉ omap drawn ts -> sum_list_with (right_of id) ts = 0%nat).
Proof.
  induction ts as [| t ts IH]; [simpl; lia |]. simpl. intros [Ht Hts]%andb_true_iff Hnd.
  assert (right_of id t = match drawn t with Some i => b2n (bool_decide (i = id)) | None => 0 end) as Hr
    by (by destruct t).
  rewrite Hr. destruct (drawn t) as [i |]; [| by apply IH].
  apply list.NoDup_cons in Hnd as [Hni Hnd]. destruct (IH Hts Hnd) as [H1 H0].
  case_bool_decide as Hi; simpl; [subst i; rewrite (H0 Hni); split; [lia |] | split; [lia |]].
  - intros Hc. destruct Hc. by left.
  - intros Hc. apply H0. intros Hin. apply Hc. by right.
Qed.

(** C1: no double claim.  Start any number of requests to create, claim,
    read and refresh quotes and any number of sweeps, with distinct new ids
    and an empty lock store, and let them run in any interleaving of their
    accesses to shared state, at any times, on any lock backend that keeps the
    interface's promises: at most one claim of each quote ever succeeds. *)
Theorem no_double_claim ts x ts' x' id :
  forallb starting ts = true -> NoDup (omap drawn ts) -> (forall k, held (sh_locks x) k = None) ->
  rtc cstep (ts, x) (ts', x') -> (length (List.filter (won id) ts') <= 1)%nat.
Proof.
  intros Hst Hnd Hl Hs. apply (steps_right id) in Hs. unfold total_right in Hs. simpl in Hs.
  destruct (starting_right id ts Hst Hnd) as [H1 _]. pose proof (won_right id ts').
  assert (lock_right id x = 0%nat) as Hzero; [| lia].
  unfold lock_right. rewrite Hl, bool_decide_false; [done | by intros [? ?]].
Qed.

End threads.

(** ** Concrete interleavings *)

Definition conc_start : list (thread (U := string) (D := refdec)) :=
  [TPrice "q1" "USD" "BTC" "500" "TIER_1" "BUY"; TClaim "q1" "tx-1"; TClaim "q1" "tx-2"; TSweep ["q1"]].

Definition conc_shared : shared string refdec LockStore :=
  mkShared pricing_store NewLockStore sample_spot NewAuditLog.

Abbreviation sample_run sch := (run_schedule (fun _ => "{}") (fun _ => "") DefaultConfig sample_pricer sch
  (conc_start, conc_shared)).
Abbreviation sample_cstep := (cstep (fun _ => "{}") (fun _ => "") DefaultConfig sample_pricer).

(** The quote is issued at time 0; its lock is set a second later. *)
Definition issue_schedule : list (nat * time) := [(0%nat, 0%Z); (0%nat, 0%Z); (0%nat, 0%Z); (0%nat, Second); (0%nat, Second)].

(** Two claims in lock step: both read the open row, one takes the lock. *)
Definition rivals_schedule : list (nat * time) :=
  issue_schedule ++ ((fun i => (i, 2 * Second)%Z) <$> [1; 2; 1; 2; 1; 1; 1])%nat.

(** The claim reads the row at its last valid instant; the sweep, a moment
    later, lists it as open and overdue; the claim goes through; the sweep
    writes. *)
Definition overwrite_schedule : list (nat * time) :=
  issue_schedule ++
  [(1%nat, 30 * Second); (3%nat, 30 * Second + 1); (1%nat, 30 * Second + 2); (1%nat, 30 * Second + 2);
   (1%nat, 30 * Second + 3); (1%nat, 30 * Second + 4); (3%nat, 30 * Second + 5); (3%nat, 30 * Second + 5)]%Z.

(** What is left to see of a configuration. *)
Definition outcome_of (cf : option (config (U := string) (D := refdec) (L := LockStore)))
  : option (nat * option QuoteStatus * option string * list string) :=
  '(ts, x) ← cf;
  Some (length (List.filter (won "q1") ts), Store.Status <$> GetQuote (sh_store x) "q1",
        ClaimedBy <$> GetQuote (sh_store x) "q1", ev_Type <$> Events (sh_audit x)).

Lemma reached sch o : outcome_of (sample_run sch) = Some o ->
  exists ts x, rtc sample_cstep (conc_start, conc_shared) (ts, x) /\ outcome_of (Some (ts, x)) = Some o.
Proof.
  destruct (sample_run sch) as [[ts x] |] eqn:Hr; [| done]. intros Ho.
  exists ts, x. split; [by eapply run_schedule_steps | exact Ho].
Qed.

Lemma no_double_claim_witness :
  exists ts x, rtc sample_cstep (conc_start, conc_shared) (ts, x) /\
    outcome_of (Some (ts, x)) = Some (1%nat, Some StatusClaimed, Some "tx-1", ["quote.issued"; "quote.claimed"]) /\
    (length (List.filter (won "q1") ts) <= 1)%nat.
Proof.
  destruct (reached rivals_schedule (1%nat, Some StatusClaimed, Some "tx-1", ["quote.issued"; "quote.claimed"]))
    as (ts & x & Hs & Ho); [vm_compute; reflexivity |].
  exists ts, x. split; [exact Hs |]. split; [exact Ho |].
  refine (no_double_claim _ _ _ _ conc_start conc_shared ts x "q1" _ _ _ Hs).
  - reflexivity.
  - apply (bool_decide_unpack _). vm_compute. exact I.
  - intros k. reflexivity.
Defined.

(** A successful claim can be overwritten.  The sweep, like a read or a
    refresh, decides on a copy of the row and writes later without looking
    again: there is an interleaving after which a claim has returned success
    and is in the audit log, and the row, still naming its claimant, is
    expired, with an expiry event after the claim's. *)
Theorem claim_can_be_overwritten :
  exists ts x, rtc sample_cstep (conc_start, conc_shared) (ts, x) /\
    outcome_of (Some (ts, x)) =
      Some (1%nat, Some StatusExpired, Some "tx-1", ["quote.issued"; "quote.claimed"; "quote.expired"]).
Proof. apply (reached overwrite_schedule). vm_compute. reflexivity. Qed.
