(* ===== verification/Interleaved.v ===== *)
(** * Interleaved: the rate lock under any interleaving

    The guarantees of Lifecycle.v for whole requests, for requests cut at their
    accesses to shared state (Concurrent.v).  Two tokens are counted for every
    id: the right to store its row for the first time, and the right to write
    its claim; neither is ever duplicated, so a row's terms and its claim are
    written once. *)

From stdpp Require Import relations.
From S2P Require Import Prelude GoStrings Decimal RefDecimal Errors Json Store FeeIndex Lru Spot Pricer Config AuditTrail Locks Claim Server Lifecycle Concurrent.

Section interleaved.
Context {U D L : Type} `{Countable U} {uu : UuidOps U} {ops : DecimalOps D} {lb : LockBackend L}
  {ul : UuidLaws U} {ll : LockLaws L}.
Variable json_text : json -> string.
Variable fmt_time : time -> string.
Variable c : Config.
Variable p : Pricer U D.
Implicit Types (q : Quote U D) (id : U) (x : shared U D L) (t : thread (U := U) (D := D)).

Abbreviation tstep' := (tstep json_text fmt_time c p).
Abbreviation cstep' := (cstep json_text fmt_time c p).

Definition table x : gmap U (Quote U D) := quotes (sh_store x).

Lemma table_update id f x : table (fst (update id f x)) = alter f id (table x).
Proof.
  unfold table, update, UpdateQuote. destruct (quotes (sh_store x) !! id) as [q |] eqn:Hq; cbn.
  - apply map_eq. intros i. destruct (decide (i = id)) as [-> | Hne].
    + by rewrite lookup_insert_eq, lookup_alter_eq, Hq.
    + by rewrite lookup_insert_ne, lookup_alter_ne by done.
  - apply map_eq. intros i. destruct (decide (i = id)) as [-> | Hne];
      [by rewrite lookup_alter_eq, Hq | by rewrite lookup_alter_ne].
Qed.

Lemma update_row id f x y row : update id f x = (y, Some row) ->
  table y !! id = Some row /\ exists q, table x !! id = Some q /\ row = f q.
Proof.
  intros Hu. pose proof (table_update id f x) as Ht. rewrite Hu in Ht. cbn [fst] in Ht.
  unfold update, UpdateQuote in Hu. fold (table x) in Hu. destruct (table x !! id) as [q |] eqn:Hq; [| done].
  injection Hu as _ <-. rewrite Ht, lookup_alter_eq, Hq. eauto.
Qed.

(** What a step does to the table. *)
Inductive table_change (t1 : time) t t' x x' : Prop :=
  | tc_same : table x' = table x -> table_change t1 t t' x x'
  | tc_save q payload : t = TSave q payload -> table x' = <[QuoteID q := q]> (table x) -> table_change t1 t t' x x'
  | tc_status id st : table x' = alter (set_status st) id (table x) -> table_change t1 t t' x x'
  | tc_claim id by_ q :
      t = TClaimUpdate id by_ q -> table x' = alter (set_claimed t1 by_) id (table x) ->
      (forall row, t' = TClaimAudit id q row -> table x' !! id = Some row) -> table_change t1 t t' x x'.

Lemma tstep_table (t1 t2 : time) t x t' x' : tstep' t1 t2 t x = Ret (t', x') -> table_change t1 t t' x x'.
Proof.
  destruct t; cbn [tstep].
  - intros ([sp out] & _ & Heq)%outcome_bind_ret. injection Heq as Heq. destruct out; injection Heq as <- <-; by apply tc_same.
  - intros [= <- <-]. by apply tc_same.
  - intros [= <- <-]. by eapply tc_save.
  - intros [= <- <-]. by apply tc_same.
  - intros [= <- <-]. by apply tc_same.
  - intros [= Heq]. repeat case_match; injection Heq as <- <-; by apply tc_same.
  - intros [= <- <-]. eapply tc_status, table_update.
  - intros [= <- <-]. by apply tc_same.
  - destruct (lb_Claim _ _ _) as [l v]. intros [= <- <-]. by apply tc_same.
  - destruct (Get0 _ _ _ _ _) as [sp cur]. intros ([|] & _ & Heq)%outcome_bind_ret; injection Heq as <- <-; by apply tc_same.
  - intros [= <- <-]. by apply tc_same.
  - destruct (update id (set_claimed t1 by_) x) as [y r] eqn:Hu.
    pose proof (table_update id (set_claimed t1 by_) x) as Ht. rewrite Hu in Ht. cbn [fst] in Ht.
    intros [= <- <-]. eapply tc_claim; [done | exact Ht |]. intros row Hrow.
    destruct r as [row' |]; [| done]. injection Hrow as ->. by destruct (update_row _ _ _ _ _ Hu).
  - intros [= <- <-]. by apply tc_same.
  - intros [= <- <-]. by apply tc_same.
  - intros [= <- <-]. by apply tc_same.
  - intros [= <- <-]. eapply tc_status, table_update.
  - intros [= <- <-]. by apply tc_same.
  - intros [= <- <-]. eapply tc_status, table_update.
  - intros [= <- <-]. by apply tc_same.
  - intros [= <- <-]. by apply tc_same.
  - intros [= <- <-]. by apply tc_same.
  - intros [= Heq]. destruct (sweep_next now qs) as [[q qs'] |]; injection Heq as <- <-; [| by apply tc_same].
    eapply tc_status, table_update.
  - intros [= <- <-]. by apply tc_same.
  - intros [= <- <-]. by apply tc_same.
Qed.

(** ** The right to store a row *)

(** Threads that will store the row of [id], and the stored row. *)
Definition pending id t : nat :=
  match t with
  | TPrice i _ _ _ _ _ | TCreate i _ _ _ _ _ _ | TRefresh _ i | TRefreshCancel _ i _ | TRefreshDel _ i _ | TRefreshAudit _ i _ =>
      b2n (bool_decide (i = id))
  | TSave q _ => b2n (bool_decide (QuoteID q = id))
  | _ => 0
  end.

Definition stored id x : nat := b2n (bool_decide (is_Some (table x !! id))).

Lemma b2n_le b : (b2n b <= 1)%nat.
Proof. destruct b; cbn; lia. Qed.

Lemma stored_alter f i id x x' : table x' = alter f i (table x) -> stored id x' = stored id x.
Proof.
  unfold stored. intros ->. f_equal. apply bool_decide_ext. destruct (decide (i = id)) as [<- | Hne].
  - rewrite lookup_alter_eq. by rewrite fmap_is_Some.
  - by rewrite lookup_alter_ne.
Qed.

Lemma tstep_pending (t1 t2 : time) t x t' x' id : tstep' t1 t2 t x = Ret (t', x') -> (pending id t' <= pending id t)%nat.
Proof.
  destruct t; cbn [tstep].
  - intros ([sp out] & _ & Heq)%outcome_bind_ret. injection Heq as Heq. destruct out; injection Heq as <- <-; cbn; lia.
  - intros [= <- <-]. cbn. lia.
  - intros [= <- <-]. cbn. lia.
  - intros [= <- <-]. cbn. lia.
  - intros [= <- <-]. cbn. lia.
  - intros [= Heq]. repeat case_match; injection Heq as <- <-; cbn; lia.
  - intros [= <- <-]. cbn. lia.
  - intros [= <- <-]. cbn. lia.
  - destruct (lb_Claim _ _ _) as [l v]. intros [= <- <-]. by destruct v.
  - destruct (Get0 _ _ _ _ _) as [sp cur]. intros ([|] & _ & Heq)%outcome_bind_ret; by injection Heq as <- <-.
  - intros [= <- <-]. cbn. lia.
  - destruct (update id0 (set_claimed t1 by_) x) as [y r]. intros [= <- <-]. by destruct r.
  - intros [= <- <-]. cbn. lia.
  - intros [= <- <-]. cbn. lia.
  - intros [= <- <-]. repeat case_match; cbn; lia.
  - intros [= <- <-]. cbn. lia.
  - intros [= <- <-]. case_match; cbn; lia.
  - intros [= <- <-]. cbn. lia.
  - intros [= <- <-]. cbn. lia.
  - intros [= <- <-]. cbn. lia.
  - intros [= <- <-]. cbn. lia.
  - intros [= Heq]. destruct (sweep_next now qs) as [[q qs'] |]; injection Heq as <- <-; cbn; lia.
  - intros [= <- <-]. cbn. lia.
  - intros [= <- <-]. cbn. lia.
Qed.

Lemma tstep_stored (t1 t2 : time) t x t' x' id : tstep' t1 t2 t x = Ret (t', x') ->
  (pending id t' + stored id x' <= pending id t + stored id x)%nat.
Proof.
  intros Hs. pose proof (tstep_pending _ _ _ _ _ _ id Hs) as Hp.
  destruct (tstep_table _ _ _ _ _ _ Hs) as [Ht | q payload -> Ht | i st Ht | i by_ q _ Ht _].
  - unfold stored. rewrite Ht. lia.
  - cbn [tstep] in Hs. injection Hs as <- _. unfold stored. rewrite Ht. cbn [pending].
    destruct (decide (QuoteID q = id)) as [<- | Hne].
    + rewrite (bool_decide_true (QuoteID q = QuoteID q)) by done. pose proof (b2n_le (bool_decide (is_Some (<[QuoteID q:=q]> (table x) !! QuoteID q)))). cbn in *. lia.
    + rewrite lookup_insert_ne by done. lia.
  - rewrite (stored_alter _ _ _ _ _ Ht). lia.
  - rewrite (stored_alter _ _ _ _ _ Ht). lia.
Qed.

(** ** The right to write a claim *)

(** Threads and the lock, as in Concurrent.v, up to the write; then the row. *)
Definition claiming id t : nat :=
  match t with
  | TClaimAudit _ _ _ | TClaimDone _ _ => 0
  | TSave q _ => b2n (bool_decide (QuoteID q = id)) + b2n (bool_decide (QuoteID q = id /\ is_Some (ClaimedAt q)))
  | _ => right_of id t
  end.

Definition claimed id x : nat := b2n (bool_decide (is_Some (table x !! id ≫= ClaimedAt))).

Lemma claimed_status st i id x x' : table x' = alter (set_status st) i (table x) -> claimed id x' = claimed id x.
Proof.
  unfold claimed. intros ->. f_equal. apply bool_decide_ext. destruct (decide (i = id)) as [<- | Hne].
  - rewrite lookup_alter_eq. by destruct (table x !! i).
  - by rewrite lookup_alter_ne.
Qed.

Lemma lock_right_locks id x x' : sh_locks x' = sh_locks x -> lock_right id x' = lock_right id x.
Proof. unfold lock_right. by intros ->. Qed.

(** Apart from the threads that store a row or write a claim, the token is the
    one of Concurrent.v. *)
Lemma claiming_right id t : (forall q payload, t <> TSave q payload) -> (claiming id t <= right_of id t)%nat.
Proof. intros Ht. destruct t; cbn; try lia. by destruct (Ht q payload). Qed.

Lemma tstep_claimed (t1 t2 : time) t x t' x' id : tstep' t1 t2 t x = Ret (t', x') ->
  (forall q payload, t <> TSave q payload) -> (forall i by_ q, t <> TClaimUpdate i by_ q) -> claimed id x' = claimed id x.
Proof.
  intros Hs N1 N2. destruct (tstep_table _ _ _ _ _ _ Hs) as [Ht | q payload -> | i st Ht | i by_ q -> _ _].
  - unfold claimed. by rewrite Ht.
  - by destruct (N1 q payload).
  - by eapply claimed_status.
  - by destruct (N2 i by_ q).
Qed.

(** Only a new quote is ever to be stored. *)
Lemma tstep_to_save (t1 t2 : time) t x t' x' q payload : tstep' t1 t2 t x = Ret (t', x') -> t' = TSave q payload ->
  exists id from to amount tier side cr,
    t = TCreate id from to amount tier side cr /\ ClaimedAt q = None /\ QuoteID q = id.
Proof.
  intros Hs ->. destruct t; cbn [tstep] in Hs.
  1: { apply outcome_bind_ret in Hs as ([sp out] & _ & Heq). injection Heq as Heq. by destruct out; simplify_eq. }
  1: { injection Hs as <- <-. by do 7 eexists. }
  7: by destruct (lb_Claim _ _ _) as [l [v |]].
  7: { destruct (Get0 _ _ _ _ _) as [sp cur]. apply outcome_bind_ret in Hs as ([|] & _ & Heq); done. }
  8: by destruct (update _ _ _) as [y [r |]].
  all: repeat case_match; simplify_eq.
Qed.

Lemma tstep_claiming (t1 t2 : time) t x t' x' id : tstep' t1 t2 t x = Ret (t', x') ->
  (claiming id t' + lock_right id x' + claimed id x' <= claiming id t + lock_right id x + claimed id x)%nat.
Proof.
  intros Hs. pose proof (tstep_right _ _ _ _ _ _ _ _ _ _ id Hs) as Hr.
  assert ((forall q payload, t' <> TSave q payload) -> (claiming id t' <= right_of id t')%nat) as Hc by apply claiming_right.
  pose proof (fun q payload => tstep_to_save _ _ _ _ _ _ q payload Hs) as Hsave.
  pose proof (tstep_claimed _ _ _ _ _ _ id Hs) as Hcl.
  destruct t; try (rewrite Hcl by done; assert (claiming id t' <= right_of id t')%nat by
    (apply Hc; intros q0 p0 Heq; by destruct (Hsave q0 p0 Heq) as (? & ? & ? & ? & ? & ? & ? & [=] & _)); cbn [claiming] in *; lia).
  - rewrite Hcl by done. cbn [claiming]. destruct t'; try (cbn [claiming] in *; lia).
    destruct (Hsave q payload eq_refl) as (i & ? & ? & ? & ? & ? & ? & Heq & Hnone & <-). injection Heq as ->. cbn [claiming right_of] in *.
    rewrite (bool_decide_false (QuoteID q = id /\ is_Some (ClaimedAt q))) by (rewrite Hnone; by intros [_ [? ?]]).
    cbn. lia.
  - cbn [tstep] in Hs. injection Hs as <- <-. rewrite (lock_right_locks id x) by done. unfold claimed.
    change (table (set_store (SaveQuote (sh_store x) q) x)) with (<[QuoteID q := q]> (table x)). cbn [claiming right_of].
    destruct (decide (QuoteID q = id)) as [<- | Hne].
    + rewrite lookup_insert_eq. cbn [mbind option_bind].
      rewrite (bool_decide_ext (QuoteID q = QuoteID q /\ is_Some (ClaimedAt q)) (is_Some (ClaimedAt q))) by tauto. lia.
    + rewrite lookup_insert_ne, (bool_decide_false (QuoteID q = id)) by done. cbn [b2n]. lia.
  - cbn [tstep] in Hs. pose proof (table_update id0 (set_claimed t1 by_) x) as Ht.
    pose proof (sh_locks_update id0 (set_claimed t1 by_) x) as Hl.
    destruct (update id0 (set_claimed t1 by_) x) as [y r]. cbn [fst] in Ht, Hl.
    assert (claiming id t' = 0%nat /\ x' = y) as [-> ->] by (injection Hs as <- <-; by destruct r).
    rewrite (lock_right_locks id x y Hl). unfold claimed. rewrite Ht. cbn [claiming right_of].
    destruct (decide (id0 = id)) as [<- | Hne].
    + rewrite (bool_decide_true (id0 = id0)) by done. cbn [b2n]. match goal with |- context [(_ + b2n ?b <= _)%nat] => pose proof (b2n_le b) end. lia.
    + rewrite lookup_alter_ne, (bool_decide_false (id0 = id)) by done. cbn [b2n]. lia.
  - cbn [tstep] in Hs. injection Hs as <- <-. rewrite (lock_right_locks id x) by done. cbn [claiming]. by rewrite Hcl.
  - cbn [tstep] in Hs. injection Hs as <- <-. cbn [claiming]. lia.
Qed.

(** ** Tokens of a configuration *)

Definition total (mt : thread -> nat) (mx : shared U D L -> nat) (cf : config (U := U) (D := D) (L := L)) : nat :=
  (sum_list_with mt (fst cf) + mx (snd cf))%nat.

(** A measure no access increases is not increased by a step. *)
Lemma cstep_total (mt : thread -> nat) (mx : shared U D L -> nat) cf cf' :
  (forall (t1 t2 : time) t x t' x', tstep' t1 t2 t x = Ret (t', x') -> (mt t' + mx x' <= mt t + mx x)%nat) ->
  (forall x l', (forall k, held l' k = None \/ held l' k = held (sh_locks x) k) -> (mx (set_locks l' x) <= mx x)%nat) ->
  cstep' cf cf' -> (total mt mx cf' <= total mt mx cf)%nat.
Proof.
  intros Ht Hx Hs. destruct Hs as [ts x i t t' x' t1 t2 Hi Hstep | ts x l' Hl]; unfold total; cbn [fst snd].
  - pose proof (Ht _ _ _ _ _ _ Hstep). pose proof (sum_list_insert mt ts i t t' Hi). lia.
  - pose proof (Hx x l' Hl). lia.
Qed.

Definition tokens id (cf : config (U := U) (D := D) (L := L)) : Prop :=
  (total (pending id) (stored id) cf <= 1)%nat /\
  (total (claiming id) (fun x => lock_right id x + claimed id x) cf <= 1)%nat.

Lemma cstep_tokens id cf cf' : tokens id cf -> cstep' cf cf' -> tokens id cf'.
Proof.
  intros [H1 H2] Hs. split.
  - etransitivity; [| exact H1]. apply (cstep_total (pending id) (stored id)); [| | done].
    + intros t1 t2 t x t' x'. apply tstep_stored.
    + intros x l' _. done.
  - etransitivity; [| exact H2]. apply (cstep_total (claiming id) (fun x => lock_right id x + claimed id x)%nat); [| | done].
    + intros t1 t2 t x t' x' Ht. pose proof (tstep_claiming _ _ _ _ _ _ id Ht). lia.
    + intros x l' Hl. pose proof (lock_right_mono id x (set_locks l' x) (Hl (lockKey id))).
      assert (claimed id (set_locks l' x) = claimed id x) by done. lia.
Qed.

Lemma sum_list_starting id ts : forallb starting ts = true ->
  sum_list_with (pending id) ts = sum_list_with (right_of id) ts /\
  sum_list_with (claiming id) ts = sum_list_with (right_of id) ts.
Proof.
  induction ts as [| t ts IH]; [done |]. cbn. intros [Ht Hts]%andb_true_iff. destruct (IH Hts) as [-> ->].
  by destruct t.
Qed.

Lemma starting_tokens id ts x : forallb starting ts = true -> NoDup (omap drawn ts) ->
  (forall k, held (sh_locks x) k = None) -> (forall i, i ∈ omap drawn ts -> table x !! i = None) -> tokens id (ts, x).
Proof.
  intros Hst Hnd Hl Hfresh. destruct (starting_right id ts Hst Hnd) as [H1 H0].
  destruct (sum_list_starting id ts Hst) as [E1 E2]. unfold tokens, total. cbn [fst snd]. rewrite E1, E2.
  assert (lock_right id x = 0%nat) as ->.
  { unfold lock_right. rewrite Hl, bool_decide_false; [done | by intros [? ?]]. }
  destruct (decide (id ∈ omap drawn ts)) as [Hin | Hni].
  - assert (stored id x = 0%nat /\ claimed id x = 0%nat) as [-> ->]; [| lia].
    unfold stored, claimed. rewrite (Hfresh id Hin). done.
  - rewrite (H0 Hni). unfold stored, claimed. pose proof (b2n_le (bool_decide (is_Some (table x !! id)))).
    pose proof (b2n_le (bool_decide (is_Some (table x !! id ≫= ClaimedAt)))). lia.
Qed.

(** ** What is kept *)

Definition keeps x x' : Prop :=
  forall id q, table x !! id = Some q -> exists q', table x' !! id = Some q' /\ terms q' = terms q /\
    (is_Some (ClaimedAt q) -> ClaimedAt q' = ClaimedAt q /\ ClaimedBy q' = ClaimedBy q).

#[export] Instance keeps_preorder : PreOrder keeps.
Proof.
  split.
  - intros x id q Hq. by exists q.
  - intros x1 x2 x3 H12 H23 id q Hq. destruct (H12 id q Hq) as (q2 & Hq2 & T2 & C2).
    destruct (H23 id q2 Hq2) as (q3 & Hq3 & T3 & C3). exists q3. split; [done |]. split; [congruence |].
    intros Hc. destruct (C2 Hc) as [E1 E2]. destruct C3 as [E3 E4]; [by rewrite E1 |]. split; congruence.
Qed.

Lemma sum_list_ge (f : thread -> nat) ts i t : ts !! i = Some t -> (f t <= sum_list_with f ts)%nat.
Proof.
  revert i. induction ts as [| y ts IH]; intros [| i] Hi; simplify_eq/=; [lia |]. specialize (IH i Hi). lia.
Qed.

Lemma stored_one id q x : table x !! id = Some q -> stored id x = 1%nat.
Proof. unfold stored. intros ->. by rewrite bool_decide_true. Qed.

Lemma cstep_keeps cf cf' : (forall id, tokens id cf) -> cstep' cf cf' -> keeps (snd cf) (snd cf').
Proof.
  intros Htok Hs. destruct Hs as [ts x i t t' x' t1 t2 Hi Hstep | ts x l' Hl]; cbn [fst snd]; [| intros id q Hq; by exists q].
  intros id q Hq. destruct (Htok id) as [Hst Hcl]. unfold total in Hst, Hcl. cbn [fst snd] in Hst, Hcl.
  pose proof (sum_list_ge (pending id) ts i t Hi) as Hp. pose proof (sum_list_ge (claiming id) ts i t Hi) as Hc.
  rewrite (stored_one id q x Hq) in Hst.
  destruct (tstep_table _ _ _ _ _ _ Hstep) as [Ht | q0 payload -> Ht | j st Ht | j by_ q0 -> Ht _]; rewrite Ht.
  - by exists q.
  - cbn [pending] in Hp. destruct (decide (QuoteID q0 = id)) as [He | Hne].
    + rewrite bool_decide_true in Hp by done. cbn in Hp. lia.
    + rewrite lookup_insert_ne by done. by exists q.
  - destruct (decide (j = id)) as [-> | Hne].
    + rewrite lookup_alter_eq, Hq. by exists (set_status st q).
    + rewrite lookup_alter_ne by done. by exists q.
  - cbn [claiming right_of] in Hc. destruct (decide (j = id)) as [-> | Hne].
    + rewrite lookup_alter_eq, Hq. rewrite bool_decide_true in Hc by done. cbn in Hc.
      exists (set_claimed t1 by_ q). split; [done |]. split; [done |]. intros Hsome. unfold claimed in Hcl.
      rewrite Hq in Hcl. cbn [mbind option_bind] in Hcl. rewrite bool_decide_true in Hcl by done. cbn in Hcl. lia.
    + rewrite lookup_alter_ne by done. by exists q.
Qed.

(** What a successful claim answered is on record. *)
Definition on_record id (row : Quote U D) x : Prop :=
  is_Some (ClaimedAt row) /\
  exists q, table x !! id = Some q /\ terms q = terms row /\ ClaimedAt q = ClaimedAt row /\ ClaimedBy q = ClaimedBy row.

Definition promised x t : Prop :=
  match t with
  | TClaimAudit id _ row => on_record id row x
  | TClaimDone id res => res_Reason res = "" -> exists row, res_Quote res = Some row /\ on_record id row x
  | _ => True
  end.

Lemma on_record_keeps id row x x' : keeps x x' -> on_record id row x -> on_record id row x'.
Proof.
  intros Hk [Hs (q & Hq & T & C & B)]. split; [done |]. destruct (Hk id q Hq) as (q' & Hq' & T' & C').
  destruct C' as [E1 E2]; [by rewrite C |]. exists q'. split_and!; congruence.
Qed.

Lemma promised_keeps x x' t : keeps x x' -> promised x t -> promised x' t.
Proof.
  intros Hk. destruct t; cbn; try done; [by apply on_record_keeps |].
  intros Hp Hr. destruct (Hp Hr) as (row & Hrow & Hon). exists row. split; [done | by eapply on_record_keeps].
Qed.

Lemma tstep_promised (t1 t2 : time) t x t' x' : tstep' t1 t2 t x = Ret (t', x') -> keeps x x' ->
  promised x t -> promised x' t'.
Proof.
  intros Hs Hk Hp. pose proof (promised_keeps x x' t Hk Hp) as Hp'.
  destruct t; cbn [tstep] in Hs.
  - apply outcome_bind_ret in Hs as ([sp out] & _ & Heq). injection Heq as Heq. by destruct out; injection Heq as <- <-.
  - by injection Hs as <- <-.
  - by injection Hs as <- <-.
  - by injection Hs as <- <-.
  - by injection Hs as <- <-.
  - injection Hs as Hs. destruct (GetQuote _ _) as [q |]; [destruct (claim_entry t1 q) as [reason | |] eqn:He |];
      injection Hs as <- <-; try done. cbn [promised res_Reason]. intros ->. unfold claim_entry in He. by repeat case_match.
  - by injection Hs as <- <-.
  - by injection Hs as <- <-.
  - destruct (lb_Claim _ _ _) as [l [v |]]; by injection Hs as <- <-.
  - destruct (Get0 _ _ _ _ _) as [sp cur]. apply outcome_bind_ret in Hs as ([|] & _ & Heq); by injection Heq as <- <-.
  - by injection Hs as <- <-.
  - destruct (update id (set_claimed t1 by_) x) as [y [row |]] eqn:Hu; injection Hs as <- <-; [| done].
    destruct (update_row _ _ _ _ _ Hu) as (Hrow & q1 & _ & ->). split; [by eexists | eauto 10].
  - injection Hs as <- <-. cbn [promised]. intros _. exists row. by split.
  - by injection Hs as <- <-.
  - injection Hs as <- <-. by repeat case_match.
  - by injection Hs as <- <-.
  - injection Hs as <- <-. by case_match.
  - by injection Hs as <- <-.
  - by injection Hs as <- <-.
  - by injection Hs as <- <-.
  - by injection Hs as <- <-.
  - injection Hs as Hs. destruct (sweep_next now qs) as [[q qs'] |]; by injection Hs as <- <-.
  - by injection Hs as <- <-.
  - by injection Hs as <- <-.
Qed.

Definition all_promised (cf : config (U := U) (D := D) (L := L)) : Prop := Forall (promised (snd cf)) (fst cf).

Lemma cstep_promised cf cf' : keeps (snd cf) (snd cf') -> all_promised cf -> cstep' cf cf' -> all_promised cf'.
Proof.
  intros Hk Hp Hs. destruct Hs as [ts x i t t' x' t1 t2 Hi Hstep | ts x l' Hl]; unfold all_promised in *;
    cbn [fst snd] in *.
  - apply Forall_insert.
    + eapply list.Forall_impl; [exact Hp |]. intros t0. by apply promised_keeps.
    + eapply tstep_promised; [done | done |]. by eapply Forall_lookup_1 in Hp.
  - eapply list.Forall_impl; [exact Hp |]. intros t0. by apply promised_keeps.
Qed.

Lemma csteps_inv cf cf' : (forall id, tokens id cf) -> all_promised cf -> rtc cstep' cf cf' ->
  (forall id, tokens id cf') /\ all_promised cf' /\ keeps (snd cf) (snd cf').
Proof.
  intros Ht Hp Hr. induction Hr as [cf | cf cf1 cf2 Hs _ IH]; [by split_and! |].
  pose proof (cstep_keeps _ _ Ht Hs) as Hk. destruct IH as (H1 & H2 & H3).
  - intros id. by eapply cstep_tokens.
  - by eapply cstep_promised.
  - split; [done |]. split; [done |]. by etransitivity.
Qed.

Lemma starting_promised ts x : forallb starting ts = true -> all_promised (ts, x).
Proof.
  unfold all_promised. cbn [fst snd]. induction ts as [| t ts IH]; intros Hst; [constructor |].
  cbn in Hst. apply andb_true_iff in Hst as [Ht Hts]. constructor; [by destruct t | by apply IH].
Qed.

(** C2: the rate lock holds under interleaving.  Start any number of requests
    and sweeps with fresh, distinct new ids on an empty lock store and let them
    interleave at their accesses to shared state, on any lock backend: from any
    moment on, no row disappears and none of its terms changes; once a row
    names a claimant and an instant, both stay; and a claim that answered
    success answered a row that is on record from then on, with the terms, the
    claimant and the instant it answered. *)
Theorem rate_lock_interleaved ts x cf1 cf2 :
  forallb starting ts = true -> NoDup (omap drawn ts) -> (forall k, held (sh_locks x) k = None) ->
  (forall id, id ∈ omap drawn ts -> table x !! id = None) ->
  rtc cstep' (ts, x) cf1 -> rtc cstep' cf1 cf2 ->
  keeps (snd cf1) (snd cf2) /\
  (forall id res, TClaimDone id res ∈ fst cf1 -> res_Reason res = "" ->
     exists row, res_Quote res = Some row /\ on_record id row (snd cf2)).
Proof.
  intros Hst Hnd Hl Hf R1 R2. destruct (csteps_inv (ts, x) cf1) as (T1 & P1 & _);
    [intros id; by apply starting_tokens | by apply starting_promised | done |].
  destruct (csteps_inv cf1 cf2 T1 P1 R2) as (_ & _ & Hk). split; [done |].
  intros id res Hin Hr. unfold all_promised in P1. rewrite list.Forall_forall in P1.
  destruct (P1 _ Hin Hr) as (row & Hrow & Hon). exists row. split; [done | by eapply on_record_keeps].
Qed.

End interleaved.

(** One of two rival claims wins; the sweep that follows leaves its claim on
    record. *)
Lemma rate_lock_interleaved_witness :
  exists ts x, rtc sample_cstep (conc_start, conc_shared) (ts, x) /\
    outcome_of (Some (ts, x)) = Some (1%nat, Some StatusClaimed, Some "tx-1", ["quote.issued"; "quote.claimed"]) /\
    (forall id res, TClaimDone id res ∈ ts -> res_Reason res = "" ->
       exists row, res_Quote res = Some row /\ on_record id row x).
Proof.
  destruct (reached rivals_schedule (1%nat, Some StatusClaimed, Some "tx-1", ["quote.issued"; "quote.claimed"]))
    as (ts & x & Hs & Ho); [vm_compute; reflexivity |].
  exists ts, x. split; [exact Hs |]. split; [exact Ho |].
  refine (proj2 (rate_lock_interleaved (fun _ => "{}") (fun _ => "") DefaultConfig sample_pricer
    conc_start conc_shared (ts, x) (ts, x) _ _ _ _ Hs (rtc_refl _ _))).
  - reflexivity.
  - apply (bool_decide_unpack _). vm_compute. exact I.
  - intros k. reflexivity.
  - intros id _. reflexivity.
Defined.
