(* ===== verification/Sequential.v ===== *)
(** * Sequential: the interleaved threads against the handlers

    A check of the model: run alone, from its start to its end, a thread of
    Concurrent.v does exactly what the handler of Server.v or Claim.v does, so
    the cut into accesses lost nothing, and the handlers' theorems are about
    interleavings in which nobody interferes. *)

From stdpp Require Import relations well_founded.
From S2P Require Import Prelude GoStrings Decimal RefDecimal Errors Json Store FeeIndex Lru Spot Pricer Config AuditTrail Locks Claim Server Lifecycle Concurrent.

Section sequential.
Context {U D L : Type} `{Countable U} {uu : UuidOps U} {ops : DecimalOps D} {lb : LockBackend L}.
Variable json_text : json -> string.
Variable fmt_time : time -> string.
Implicit Types (q : Quote U D) (id : U) (x : shared U D L) (t : thread (U := U) (D := D)) (s : Server U D L).

Definition finished t : bool := match t with TDone | TClaimDone _ _ => true | _ => false end.

(** A thread running alone; the clock it reads depends on where it is. *)
Definition alone (c : Config) (p : Pricer U D) (ck : thread -> time * time) (a b : thread * shared U D L) : Prop :=
  finished (fst a) = false /\ tstep json_text fmt_time c p (fst (ck (fst a))) (snd (ck (fst a))) (fst a) (snd a) = Ret b.

Definition alone_in s := alone (cfg s) (pricer s).

(** The clocks of the handlers, laid along their threads. *)
Definition issue_clock (e : issue_env U) (t : thread (U := U) (D := D)) : time * time :=
  match t with
  | TPrice _ _ _ _ _ _ => (ie_since e, ie_reseed e)
  | TCreate _ _ _ _ _ _ _ => (ie_now e, ie_now e)
  | TLock _ _ => (ie_check e, ie_set e)
  | _ => (ie_audit e, ie_audit e)
  end.

Definition claim_times (ct : claim_clock) (t : thread (U := U) (D := D)) : time * time :=
  match t with
  | TClaim _ _ => (ct_expiry ct, ct_expiry ct)
  | TClaimLock _ _ _ => (ct_lock ct, ct_lock ct)
  | TClaimSpot _ _ _ => (ct_since ct, ct_reseed ct)
  | TClaimUpdate _ _ _ => (ct_claimed ct, ct_claimed ct)
  | _ => (ct_audit ct, ct_audit ct)
  end.

Definition refresh_clock (td ta : time) (e : issue_env U) (t : thread (U := U) (D := D)) : time * time :=
  match t with
  | TRefreshDel _ _ _ => (td, td)
  | TRefreshAudit _ _ _ => (ta, ta)
  | _ => issue_clock e t
  end.

Definition sweep_clock (now : time) (ta : U -> time) (t : thread (U := U) (D := D)) : time * time :=
  match t with
  | TSweepAudit _ q _ => (ta (QuoteID q), ta (QuoteID q))
  | _ => (now, now)
  end.

(** One step, and the rest. *)
Lemma alone_step c p ck t x b z : finished t = false ->
  tstep json_text fmt_time c p (fst (ck t)) (snd (ck t)) t x = Ret b -> rtc (alone c p ck) b z -> rtc (alone c p ck) (t, x) z.
Proof. intros Hf Hs Hr. eapply rtc_l; [| exact Hr]. by split. Qed.

(** ** Claims *)

Lemma claim_alone c p ct id by_ x x' res :
  ClaimService_Claim (SlippageToleranceBPS c) ct id by_ x = Ret (x', res) ->
  rtc (alone c p (claim_times ct)) (TClaim id by_, x) (TClaimDone id res, x').
Proof.
  unfold ClaimService_Claim. intros Hc. eapply alone_step; [done | reflexivity |]. cbn [fst snd claim_times].
  destruct (GetQuote (sh_store x) id) as [q |] eqn:Hq; [| by injection Hc as <- <-].
  destruct (claim_entry (ct_expiry ct) q) as [reason | |]; [by injection Hc as <- <- | |].
  - eapply alone_step; [done | reflexivity |]. eapply alone_step; [done | reflexivity |].
    destruct (update id (set_status StatusExpired) x) as [y r]. injection Hc as <- <-. constructor.
  - destruct (lb_Claim (ct_lock ct) (lockKey id) (sh_locks x)) as [l [v |]] eqn:Hl.
    2:{ injection Hc as <- <-. eapply alone_step; [done | | constructor]. cbn [tstep claim_times fst snd]. by rewrite Hl. }
    eapply alone_step; [done | cbn [tstep claim_times fst snd]; rewrite Hl; reflexivity |].
    destruct (Get0 (ct_since ct) (ct_reseed ct) (From q) (To q) (sh_spot (set_locks l x))) as [sp cur] eqn:Hg.
    apply outcome_bind_ret in Hc as (b & Hb & Hc).
    eapply alone_step; [done | cbn [tstep claim_times fst snd]; rewrite Hg, Hb; reflexivity |]. destruct b.
    + eapply alone_step; [done | reflexivity |]. injection Hc as <- <-. constructor.
    + destruct (update id (set_claimed (ct_claimed ct) by_) (set_spot sp (set_locks l x))) as [y r] eqn:Hu.
      eapply alone_step; [done | cbn [tstep claim_times fst snd]; rewrite Hu; reflexivity |].
      destruct r as [row |]; [| by injection Hc as <- <-].
      eapply alone_step; [done | reflexivity |]. injection Hc as <- <-. constructor.
Qed.

(** ** New quotes *)

(** Saving, locking and recording a quote. *)
Lemma issue_alone s ck e q cr x :
  (forall q0 (pl : string), ck (TLock q0 pl) = (ie_check e, ie_set e)) -> (forall q0, ck (TIssued q0) = (ie_audit e, ie_audit e)) ->
  rtc (alone_in s ck) (TSave q (lockPayload json_text fmt_time q cr), x)
    (TDone, sh (issue json_text fmt_time e q cr (set_sh x s))).
Proof.
  intros H1 H2. eapply alone_step; [done | reflexivity |].
  eapply alone_step; [done | cbn [tstep]; rewrite H1; reflexivity |].
  eapply alone_step; [done | cbn [tstep]; rewrite H2; reflexivity |]. constructor.
Qed.

(** From pricing to the end. *)
Lemma create_alone s ck e id from to amount tier side s1 pr :
  (forall i (f g am ti sd : string), ck (TPrice i f g am ti sd) = (ie_since e, ie_reseed e)) ->
  (forall i (f g am ti sd : string) (cr : ComputeResult D), ck (TCreate i f g am ti sd cr) = (ie_now e, ie_now e)) ->
  (forall q0 (pl : string), ck (TLock q0 pl) = (ie_check e, ie_set e)) -> (forall q0, ck (TIssued q0) = (ie_audit e, ie_audit e)) ->
  price e from to amount tier side s = Ret (s1, pr) ->
  rtc (alone_in s ck) (TPrice id from to amount tier side, sh s)
    (TDone, sh (match pr with
                | Err _ => s1
                | Ok cr => issue json_text fmt_time e
                             (new_quote id (ie_now e) (RateLockTTL (cfg s)) from to amount tier side cr) cr s1
                end)).
Proof.
  intros H1 H2 H3 H4. unfold price. intros ([sp out] & Hc & Heq)%outcome_bind_ret. injection Heq as <- <-.
  eapply alone_step; [done | cbn [tstep fst snd]; rewrite H1; cbn [fst snd]; rewrite Hc; reflexivity |].
  destruct out as [cr | err]; [| constructor].
  eapply alone_step; [done | cbn [tstep fst snd]; rewrite H2; reflexivity |].
  by apply (issue_alone s ck e _ cr (set_spot sp (sh s))).
Qed.

Lemma createQuote_alone s e req s' res : createQuote json_text fmt_time e req s = Ret (s', res) ->
  rtc (alone_in s (issue_clock e))
    (TPrice (ie_id e) (req_From req) (req_To req) (req_Amount req) (req_UserTier req) (req_Side req), sh s)
    (TDone, sh s').
Proof.
  unfold createQuote. intros ([s1 pr] & Hp & Hres)%outcome_bind_ret.
  pose proof (price_frame _ _ _ _ _ _ _ _ _ Hp) as (_ & _ & _ & Hcfg & _).
  eapply (create_alone s (issue_clock e) e (ie_id e)) in Hp; [| done | done | done | done].
  destruct pr as [cr | err]; injection Hres as <- <-; [by rewrite Hcfg | done].
Qed.

(** ** Reading, refreshing, sweeping *)

Lemma getQuote_alone s now r id :
  rtc (alone_in s (fun _ => (now, now))) (TGet id, sh s) (TDone, sh (fst (getQuote fmt_time now r id s))).
Proof.
  unfold getQuote. eapply alone_step; [done | reflexivity |]. cbn [fst snd].
  destruct (GetQuote (sh_store (sh s)) id) as [q |]; [| constructor].
  destruct (shows_expired now q); [| constructor]. eapply alone_step; [done | reflexivity |]. constructor.
Qed.

Lemma refreshQuote_alone s td ta e r id s' rsp :
  refreshQuote json_text fmt_time td ta e r id s = Ret (s', rsp) ->
  rtc (alone_in s (refresh_clock td ta e)) (TRefresh id (ie_id e), sh s) (TDone, sh s').
Proof.
  unfold refreshQuote. intros Hr. eapply alone_step; [done | reflexivity |]. cbn [fst snd].
  destruct (GetQuote (sh_store (sh s)) id) as [old |] eqn:Hq; [| injection Hr as <- <-; constructor].
  eapply alone_step; [done | reflexivity |]. eapply alone_step; [done | reflexivity |].
  eapply alone_step; [done | reflexivity |]. cbn [fst snd refresh_clock].
  apply outcome_bind_ret in Hr as ([s1 pr] & Hp & Hres).
  pose proof (price_frame _ _ _ _ _ _ _ _ _ Hp) as (_ & _ & _ & Hcfg & _).
  eapply (create_alone (cancel td ta id old s) (refresh_clock td ta e) e (ie_id e)) in Hp; [| done | done | done | done].
  destruct pr as [cr | err]; injection Hres as <- <-; [by rewrite Hcfg | done].
Qed.

Lemma sweep_next_alone s now ta qs : forall x,
  rtc (alone_in s (sweep_clock now ta)) (TSweepRows now qs, x) (TDone, sh (fold_left (sweep_one now ta) qs (set_sh x s))).
Proof.
  induction qs as [| q qs IH]; intros x; cbn [fold_left].
  { eapply alone_step; [done | reflexivity |]. constructor. }
  unfold sweep_one at 2. destruct (bool_decide (Store.Status q = StatusOpen) && time_After now (ExpiresAt q)) eqn:Ho.
  - eapply alone_step; [done | cbn [tstep sweep_next]; rewrite Ho; reflexivity |].
    eapply alone_step; [done | reflexivity |]. apply IH.
  - specialize (IH x). inversion IH as [a Ha Hb | a b z [_ Hs] Hr Ha Hb]; subst.
    eapply alone_step; [done | | exact Hr]. cbn [tstep sweep_next fst snd] in *. by rewrite Ho.
Qed.

Lemma sweepExpired_alone s now ta ord :
  rtc (alone_in s (sweep_clock now ta)) (TSweep ord, sh s) (TDone, sh (sweepExpired now ta ord s)).
Proof.
  eapply alone_step; [done | reflexivity |]. unfold sweepExpired.
  pose proof (sweep_next_alone s now ta (ListQuotes (sh_store (sh s)) ord) (sh s)) as Hs. by destruct s.
Qed.

(** The threads are the handlers.  Run alone on the clocks of a handler,
    the thread that starts a claim, a new quote, a read, a refresh or a sweep
    ends, and leaves the shared state and, for a claim, the answer that the
    handler of the sequential model leaves. *)
Theorem threads_run_handlers s :
  (forall ct id by_ x' res, ClaimService_Claim (SlippageToleranceBPS (cfg s)) ct id by_ (sh s) = Ret (x', res) ->
     rtc (alone_in s (claim_times ct)) (TClaim id by_, sh s) (TClaimDone id res, x')) /\
  (forall e req s' res, createQuote json_text fmt_time e req s = Ret (s', res) ->
     rtc (alone_in s (issue_clock e))
       (TPrice (ie_id e) (req_From req) (req_To req) (req_Amount req) (req_UserTier req) (req_Side req), sh s)
       (TDone, sh s')) /\
  (forall now r id,
     rtc (alone_in s (fun _ => (now, now))) (TGet id, sh s) (TDone, sh (fst (getQuote fmt_time now r id s)))) /\
  (forall td ta e r id s' rsp, refreshQuote json_text fmt_time td ta e r id s = Ret (s', rsp) ->
     rtc (alone_in s (refresh_clock td ta e)) (TRefresh id (ie_id e), sh s) (TDone, sh s')) /\
  (forall now ta ord,
     rtc (alone_in s (sweep_clock now ta)) (TSweep ord, sh s) (TDone, sh (sweepExpired now ta ord s))).
Proof.
  split_and!.
  - intros ct id by_ x' res. apply claim_alone.
  - apply createQuote_alone.
  - apply getQuote_alone.
  - apply refreshQuote_alone.
  - apply sweepExpired_alone.
Qed.

Context {ll : LockLaws L}.

(** Running alone is a way to interleave. *)
Lemma alone_steps c p ck (ts : list thread) (i : nat) t x t' x' : ts !! i = Some t -> rtc (alone c p ck) (t, x) (t', x') ->
  rtc (cstep json_text fmt_time c p) (ts, x) (<[i := t']> ts, x').
Proof.
  intros Hi Hr. remember (t, x) as a eqn:Ha. remember (t', x') as b eqn:Hb.
  revert ts t x Hi Ha. induction Hr as [a | a [t1 x1] b [_ Hs] Hr IH]; intros ts t x Hi ->.
  - injection Hb as -> ->. by rewrite list_insert_id.
  - eapply rtc_l; [by eapply cstep_intro |].
    rewrite <- (list_insert_insert_eq ts i t' t1). apply (IH Hb _ t1); [| done].
    apply list_lookup_insert_eq. by eapply lookup_lt_Some.
Qed.

End sequential.

(** A quote issued by the handler, and by its thread. *)
Lemma threads_run_handlers_witness :
  exists s' q, createQuote sample_text sample_fmt (sample_env_at "q0" 1) sample_request srv0 = Ret (s', Ok q) /\
    rtc (alone_in sample_text sample_fmt srv0 (issue_clock (sample_env_at "q0" 1)))
      (TPrice "q0" "USD" "BTC" "500" "TIER_1" "BUY", sh srv0) (TDone, sh s').
Proof.
  assert (match createQuote sample_text sample_fmt (sample_env_at "q0" 1) sample_request srv0 with
          | Ret (_, Ok _) => true | _ => false end = true) as Hok by (vm_compute; reflexivity).
  destruct (createQuote sample_text sample_fmt (sample_env_at "q0" 1) sample_request srv0) as [[s' [q | err]] | msg] eqn:Hc;
    [| discriminate Hok | discriminate Hok].
  exists s', q. split; [reflexivity |].
  exact (proj1 (proj2 (threads_run_handlers sample_text sample_fmt srv0)) (sample_env_at "q0" 1) sample_request s' (Ok q) Hc).
Defined.
