(* ===== verification/Progress.v ===== *)
(** * Progress: every request ends

    However the threads of Concurrent.v are scheduled, and whatever keys the
    lock backend drops between two steps, only finitely many steps are taken
    before every thread has returned or panicked: nobody waits for anybody,
    there is no retry, and the only loop, the sweep's, runs over a listing
    made once. *)

From stdpp Require Import relations well_founded.
From S2P Require Import Prelude GoStrings Decimal RefDecimal Errors Json Store FeeIndex Lru Spot Pricer Config AuditTrail Locks Claim Server Concurrent Sequential.

Section progress.
Context {U D L : Type} `{Countable U} {uu : UuidOps U} {ops : DecimalOps D} {lb : LockBackend L} {ul : UuidLaws U} {ll : LockLaws L}.
Variable json_text : json -> string.
Variable fmt_time : time -> string.
Variable c : Config.
Variable p : Pricer U D.
Implicit Types (q : Quote U D) (id : U) (x : shared U D L) (t : thread (U := U) (D := D)).

(** A step of a thread that has not returned, perhaps after the lock backend
    dropped some keys. *)
Inductive live_step : config (U := U) (D := D) (L := L) -> config (U := U) (D := D) (L := L) -> Prop :=
  | live_intro ts x l' (i : nat) t t' x' (t1 t2 : time) :
      (forall k, held l' k = None \/ held l' k = held (sh_locks x) k) ->
      ts !! i = Some t -> finished t = false -> tstep json_text fmt_time c p t1 t2 t (set_locks l' x) = Ret (t', x') ->
      live_step (ts, x) (<[i := t']> ts, x').

(** The accesses a thread has still to make; a sweep learns its number with
    its listing. *)
Definition accesses_left t : nat :=
  match t with
  | TDone | TClaimDone _ _ => 0
  | TIssued _ | TClaimReject _ _ | TClaimAudit _ _ _ | TClaimExpired _ _ | TGetExpire _ => 1
  | TLock _ _ | TClaimUpdate _ _ _ | TClaimExpire _ _ | TGet _ => 2
  | TSave _ _ | TClaimSpot _ _ _ => 3
  | TCreate _ _ _ _ _ _ _ | TClaimLock _ _ _ => 4
  | TPrice _ _ _ _ _ _ | TClaim _ _ => 5
  | TRefreshAudit _ _ _ => 6
  | TRefreshDel _ _ _ => 7
  | TRefreshCancel _ _ _ => 8
  | TRefresh _ _ => 9
  | TSweep _ => 0
  | TSweepRows _ qs => 1 + 2 * length qs
  | TSweepAudit _ _ qs => 2 + 2 * length qs
  end.

Definition unlisted t : nat := match t with TSweep _ => 1 | _ => 0 end.

Lemma sweep_next_shorter now (qs : list (Quote U D)) q qs' : sweep_next now qs = Some (q, qs') -> length qs' < length qs.
Proof.
  induction qs as [| a qs IH]; cbn [sweep_next]; [done |]. case_match; [intros [= <- <-]; cbn; lia |].
  intros Hs%IH. cbn. lia.
Qed.

(** A step of an unfinished thread uses up an access or makes the listing. *)
Lemma tstep_decreases (t1 t2 : time) t x t' x' : finished t = false -> tstep json_text fmt_time c p t1 t2 t x = Ret (t', x') ->
  unlisted t' < unlisted t \/ unlisted t' = unlisted t /\ accesses_left t' < accesses_left t.
Proof.
  destruct t; cbn [tstep finished]; intros Hf Hs; try discriminate Hf.
  all: try (apply outcome_bind_ret in Hs as ([? [?|?]] & _ & Hs)).
  all: repeat (case_match; try discriminate Hs).
  all: try (apply outcome_bind_ret in Hs as ([] & _ & Hs)).
  all: injection Hs as <- <-; cbn [unlisted accesses_left]; try lia.
  all: match goal with Hn : sweep_next _ _ = Some _ |- _ => apply sweep_next_shorter in Hn end; lia.
Qed.

(** Panics come from pricing and from the slippage check alone. *)
Lemma tstep_returns (t1 t2 : time) t x : finished t = false ->
  (exists b, tstep json_text fmt_time c p t1 t2 t x = Ret b) \/
  (exists msg, tstep json_text fmt_time c p t1 t2 t x = Panic msg) /\
    match t with TPrice _ _ _ _ _ _ | TClaimSpot _ _ _ => True | _ => False end.
Proof.
  destruct t; cbn [tstep]; intros _.
  all: repeat case_match; eauto.
  - destruct (Compute _ _ _ _ _ _ _ _ _ _) as [[sp [cr | err]] | msg]; cbn [mbind outcome_bind]; eauto.
  - destruct (slippage_exceeded _ _ _) as [[] | msg]; cbn [mbind outcome_bind]; eauto.
Qed.

(** The measure of a configuration: listings to make, accesses to make. *)
Definition listings_left (cf : config (U := U) (D := D) (L := L)) : nat := sum_list_with unlisted (fst cf).
Definition work_left (cf : config (U := U) (D := D) (L := L)) : nat := sum_list_with accesses_left (fst cf).

Lemma live_step_decreases cf cf' : live_step cf cf' ->
  listings_left cf' < listings_left cf \/ listings_left cf' = listings_left cf /\ work_left cf' < work_left cf.
Proof.
  intros [ts x l' i t t' x' t1 t2 _ Hi Hf Hs]. apply tstep_decreases in Hs; [| done].
  pose proof (sum_list_insert unlisted ts i t t' Hi). pose proof (sum_list_insert accesses_left ts i t t' Hi).
  unfold listings_left, work_left. cbn [fst]. lia.
Qed.

Lemma live_step_sn cf : sn live_step cf.
Proof.
  remember (listings_left cf) as n eqn:Hn. revert cf Hn. induction (lt_wf n) as [n _ IHn]. intros cf.
  remember (work_left cf) as m eqn:Hm. revert cf Hm. induction (lt_wf m) as [m _ IHm]. intros cf -> ->.
  constructor. intros cf' [Hl | [Hl Hw]]%live_step_decreases; [by eapply IHn |]. by eapply IHm.
Qed.

Lemma live_steps_bounded n cf cf' : listings_left cf = 0 -> nsteps live_step n cf cf' -> n + work_left cf' <= work_left cf.
Proof.
  intros Hz Hs. induction Hs as [cf | n cf1 cf2 cf3 Hs _ IH]; [done |].
  apply live_step_decreases in Hs as [Hs | [Hl Hw]]; [lia |]. specialize (IH ltac:(lia)). lia.
Qed.

(** A thread that cannot go on: it has returned, or it panics whatever the
    clock says. *)
Definition ended x t : Prop :=
  finished t = true \/
  (forall t1 t2 : time, exists msg, tstep json_text fmt_time c p t1 t2 t x = Panic msg) /\
    match t with TPrice _ _ _ _ _ _ | TClaimSpot _ _ _ => True | _ => False end.

Lemma stuck_ended ts x (i : nat) t : nf live_step (ts, x) -> ts !! i = Some t -> ended x t.
Proof.
  intros Hn Hi. destruct (finished t) eqn:Hf; [by left |].
  assert (Hno : forall (t1 t2 : time) b, tstep json_text fmt_time c p t1 t2 t x <> Ret b).
  { intros t1 t2 [t' x'] Hs. apply Hn. exists (<[i := t']> ts, x'). apply (live_intro ts x (sh_locks x) i t t' x' t1 t2); auto.
    by destruct x. }
  right. split.
  - intros t1 t2. destruct (tstep_returns t1 t2 t x Hf) as [[b Hb] | [Hp _]]; [by destruct (Hno _ _ _ Hb) | done].
  - destruct (tstep_returns 0%Z 0%Z t x Hf) as [[b Hb] | [_ Hp]]; [by destruct (Hno _ _ _ Hb) | done].
Qed.

(** C8: every request ends.  From any configuration, with any schedule, clock
    and keys dropped by the lock backend, the threads that have not returned
    take finitely many steps; without a sweep about to list the rows the
    number is bounded by what the threads have still to do, whatever the
    state; and when no step is left every thread has returned, or has panicked
    in pricing or in the slippage check. *)
Theorem requests_end ts x :
  sn live_step (ts, x) /\
  (forall n cf', listings_left (ts, x) = 0 -> nsteps live_step n (ts, x) cf' -> n <= work_left (ts, x)) /\
  (forall ts' x' (i : nat) t, rtc live_step (ts, x) (ts', x') -> nf live_step (ts', x') -> ts' !! i = Some t -> ended x' t).
Proof.
  split_and!.
  - apply live_step_sn.
  - intros n cf' Hz Hs. pose proof (live_steps_bounded _ _ _ Hz Hs). lia.
  - intros ts' x' i t _. apply stuck_ended.
Qed.

End progress.

(** Three requests: no schedule takes more than fifteen steps. *)
Lemma requests_end_witness :
  work_left (take 3 conc_start, conc_shared) = 15 /\
  forall n cf, nsteps (live_step (fun _ => "{}") (fun _ => "") DefaultConfig sample_pricer) n (take 3 conc_start, conc_shared) cf ->
    n <= 15.
Proof.
  split; [reflexivity |]. intros n cf Hs.
  exact (proj1 (proj2 (requests_end (fun _ => "{}") (fun _ => "") DefaultConfig sample_pricer (take 3 conc_start) conc_shared))
           n cf eq_refl Hs).
Defined.
